(* ===== verification/_CoqProject ===== *)
-Q . S2P
Prelude.v
PyValue.v
PyText.v
PyRegex.v
JsonDoc.v
Bytes.v
ByteRanges.v
Symbols.v
LinkerMap.v
ElfImage.v
StorageAudit.v
FillClosure.v
Fixture.v
Measurement.v
StorageTheorems.v
PyFiles.v
InventoryJoin.v
JoinTheorems.v
AuditMain.v
StoragePolicy.v
PolicyTheorems.v
Catalog.v
Composition.v
Emission.v
CompositionFixture.v
CompositionTheorems.v
EmissionTheorems.v
Evidence.v
TransportSource.v
SizeReport.v
SizeTheorems.v
EvidenceTheorems.v
ReleaseManifest.v
ReleaseFixture.v
ReleaseTheorems.v
PyInt.v
Disassembly.v
DisassemblyTheorems.v
Iterate.v
StackFrame.v
FrameTheorems.v
CallbackTrace.v
StackInputs.v
LinkedInputs.v
LinkedTheorems.v
Interval.v
Program.v
Engine.v
IntervalFixture.v
ProgramTheorems.v
Rv32.v
EngineGaps.v
IntervalTheorems.v
TransferTheorems.v
RefineTheorems.v
EngineTheorems.v
JumpTheorems.v
StackBound.v
EngineTermination.v
InitProof.v
OutputFiles.v
FlatFiles.v
CallGraph.v
CallGraphTheorems.v
StackCommand.v
StackCommandTheorems.v
ProgramTypes.v
InitFixture.v
InitProofTheorems.v
FinalInputs.v
EpochTheorems.v
FinalProof.v
FinalFixture.v
FinalTheorems.v
ReceiptTheorems.v
