(* ===== verification/Prelude.v ===== *)
(** * Verification of the Python tooling of axoloty-embedded

    The repository builds embedded Swift firmware. What decides whether an image, a
    composition or a release is acceptable is a set of Python tools under
    [src/Tools]; this development models those tools and proves what their verdicts
    mean. The firmware itself (Swift, C) and the shell and JavaScript orchestration are
    not modelled.

    ** The parts and their files

    Shared ground. [Prelude]: the outcome of a Python call (a value, the module's own
    error, or an escaping builtin exception), loops that check, fold and collect,
    sorting and grouping, the tactics [inv_ok] and [bool_prop]. [PyValue]: values of
    [json.loads] with Python's equality and truth. [PyText]: UTF-8, lines, white space.
    [PyRegex]: a backtracking matcher for the regular expressions the tools use, with
    its relation to a declarative match. [PyInt]: [int(text, 0)], [re.search], words.
    [JsonDoc]: documents, repeated keys. [PyFiles]: pure paths and [os.path].
    [Iterate]: [while] loops with a binary bound on their iterations. [Bytes]:
    [struct], slices.

    Linked storage audit ([linked_storage_audit.py]). [ElfImage] is [parse_elf],
    [LinkerMap] is [parse_map], [ByteRanges] is [merged_bytes], [Symbols] is
    [conflicting_overlaps], [StorageAudit] is [measure] and the budget gate,
    [FillClosure] the padding closure, [InventoryJoin] is [join_inventory], [AuditMain]
    is [main]. Theorems: [Measurement], [StorageTheorems], [JoinTheorems], [AuditMain].
    An image that passes is charged exactly the addresses its contributions cover, every
    writable section is accounted for, and the charge is within the declared ceiling.

    Storage policy ([static_storage_policy.py]): [StoragePolicy], [PolicyTheorems]. The
    policy and the gate read one manifest alike.

    Composition ([validate-composition.py], [capability_catalog.py]): [Catalog],
    [Composition], [Emission], with [CompositionTheorems] and [EmissionTheorems].
    Validation is equivalent to a declarative contract, and generated records fit their
    widths.

    Release manifest ([validate-release-manifest.py]): [Evidence], [TransportSource],
    [SizeReport], [ReleaseManifest], with [EvidenceTheorems], [SizeTheorems] and
    [ReleaseTheorems]: what a certified manifest cites, checks and budgets.

    Stack diagnostics ([first_init_stack.py]): [Disassembly] (symbol and disassembly
    listings), [StackFrame] (frames and control flow of one function), [CallbackTrace]
    (the constant tracker), [StackInputs] (contracts), [LinkedInputs] (the byte binding
    of listings to the image), [CallGraph] ([analyze]), [OutputFiles] (the output file
    over a file-system interface, of which [FlatFiles] is an instance), [StackCommand]
    ([main]). Theorems: [DisassemblyTheorems], [FrameTheorems], [CallbackTrace], [LinkedTheorems],
    [CallGraphTheorems], [StackCommandTheorems].

    Interval engine ([initialization_interval.py]): [Interval] (abstract values and
    instructions), [Program] (the linked program and ownership of code), [Engine]
    ([Engine.analyze]), [InitProof] ([prove], [describe] and the lazy controls). [Rv32]
    is the reference: the RV32IMC instructions as the engine's listings spell them, on a
    machine of words and bytes. Theorems: [IntervalTheorems], [TransferTheorems] and
    [RefineTheorems] (every abstract step covers the machine's step), [JumpTheorems] and
    [StackBound] (an analyzed body and what it calls never reach below the bound),
    [EngineTheorems] and [EngineTermination] (the engine ends, and the call graph it
    accepts has no cycle),
    [ProgramTheorems] and [ProgramTypes] (lookups add no address, and keep the program
    well formed), [InitProofTheorems] (what an accepted first initialization means).
    [EngineGaps] shows what the engine does with the steps that the theorems exclude.

    Final initialization proof ([final_init_proof.py]). [FinalInputs]: the calibration
    controls, the storage report, the receipts, the binary's descriptor, the first epoch
    of the raw log, the sources and the device. [FinalProof]: the preflight of the output
    directory, the body of the evidence workspace over its scratch files, publication and
    [main], which runs [load_program] and [prove] of the interval engine. Theorems:
    [EpochTheorems] (what an epoch is, and that a first boot that completes is accepted),
    [FinalTheorems] (what a receipt binds, down to the bound of the machine's stack),
    [ReceiptTheorems] (a receipt is left only by a run whose every check passed).

    Fixtures: [Fixture], [CompositionFixture], [ReleaseFixture], [IntervalFixture],
    [InitFixture] and [FinalFixture] are concrete inputs that the witnesses evaluate.

    ** How code becomes definitions

    A function that can fail returns an [outcome]: [Raise] for the module's error, one
    constructor per [raise], [Crash] for a builtin exception the code does not catch.
    Python dictionaries are association lists in insertion order; sets whose order
    matters are arguments together with the order they are iterated in. Mutated objects
    are threaded as state. Machine words are integers with their wrap-around written out.

    ** Bounds and fuel

    Loops are run by [run_loop] with a depth [d] that allows [2 ^ d] iterations; the
    bounds ([config_bound], [graph_bound], the engine's own iteration limit) are part of
    the models and are proved to be enough ([analyze_frame_terminates],
    [call_graph_terminates], [analyze_terminates], [fill_closure_terminates]). The depth
    of nested calls in the engine is the number of addresses of the program.

    ** What is a parameter

    SHA-256, the scanner of [json] where a text is read, Unicode letters outside ASCII,
    the order in which a set of strings is iterated, the texts of messages, the file
    system (a class with its laws in [OutputFiles] and [ReceiptTheorems], functions
    elsewhere), [argparse], the rows that [csv] reads, and the tools that are run (the
    disassembler, [node], [git]), as functions of the scratch files.

    ** Not modelled

    The self tests and the tests of the tools (assertions on the functions above), shell
    and JavaScript tooling, firmware sources. Of a receipt of the final proof, the digests
    of other files and the constant texts are left out. In the interval engine, two jumps of one
    location that stop and copy memory share one state object in the code; the model
    gives each its own. *)
From stdpp Require Export prelude gmap strings list sorting.
From Stdlib Require Export ZArith Lia.
#[export] Set Default Goal Selector "!".
#[global] Open Scope Z_scope.

(** ** Outcomes of a Python call

    A call returns a value, raises the exception class its own module declares
    (one constructor of the error type [E] per [raise] statement), or lets a
    builtin exception escape that the code does not raise itself. *)
Inductive pyexc :=
  | TypeError | KeyError | AttributeError | ValueError | IndexError | UnicodeError | StructError
  | OSError | OverflowError | StopIteration.

Inductive outcome (E A : Type) :=
  | Ok (a : A)
  | Raise (e : E)
  | Crash (x : pyexc).
Arguments Ok {E A} a.
Arguments Raise {E A} e.
Arguments Crash {E A} x.

#[export] Instance pyexc_eq_dec : EqDecision pyexc.
Proof. solve_decision. Defined.
#[export] Instance outcome_eq_dec {E A} `{EqDecision E, EqDecision A} :
  EqDecision (outcome E A).
Proof. solve_decision. Defined.

#[export] Instance outcome_ret E : MRet (outcome E) := fun A => Ok.
#[export] Instance outcome_bind E : MBind (outcome E) := fun A B f m =>
  match m with Ok a => f a | Raise e => Raise e | Crash x => Crash x end.
#[export] Instance outcome_fmap E : FMap (outcome E) := fun A B f m =>
  match m with Ok a => Ok (f a) | Raise e => Raise e | Crash x => Crash x end.

(** [check b e] is [if not b: raise e]. *)
Definition check {E} (b : bool) (e : E) : outcome E unit :=
  if b then Ok tt else Raise e.

(** [for x in l: body], a body that only checks. *)
Fixpoint for_each {E A} (f : A -> outcome E unit) (l : list A) : outcome E unit :=
  match l with
  | [] => Ok tt
  | x :: l => f x ;; for_each f l
  end.

(** [for x in l: acc = body(acc, x)]. *)
Fixpoint fold_outcome {E A S} (f : S -> A -> outcome E S) (s : S) (l : list A) :
    outcome E S :=
  match l with
  | [] => Ok s
  | x :: l => s' ← f s x; fold_outcome f s' l
  end.

(** A comprehension whose element expression can fail. *)
Fixpoint map_outcome {E A B} (f : A -> outcome E B) (l : list A) : outcome E (list B) :=
  match l with
  | [] => Ok []
  | x :: l => y ← f x; ys ← map_outcome f l; Ok (y :: ys)
  end.

(** A comprehension whose condition can fail. *)
Fixpoint filter_outcome {E A} (f : A -> outcome E bool) (l : list A) : outcome E (list A) :=
  match l with
  | [] => Ok []
  | x :: l => b ← f x; ys ← filter_outcome f l; Ok (if (b : bool) then x :: ys else ys)
  end.

(** A loop that collects problems: [problems.extend(f(x))] for every [x]. *)
Fixpoint collect {E A P} (f : A -> outcome E (list P)) (l : list A) : outcome E (list P) :=
  match l with
  | [] => Ok []
  | x :: l => ps ← f x; qs ← collect f l; Ok (ps ++ qs)
  end.

(** [if not b: problems.append(p)]. *)
Definition unless {P} (b : bool) (p : P) : list P := if b then [] else [p].

(** A [try] block that turns one call's errors into another error type. *)
Definition map_error {E F A} (f : E -> F) (m : outcome E A) : outcome F A :=
  match m with Ok a => Ok a | Raise e => Raise (f e) | Crash x => Crash x end.

Definition succeeds {E A} (m : outcome E A) : bool :=
  match m with Ok _ => true | _ => false end.

Section outcome_lemmas.
Context {E : Type}.

Lemma bind_Ok {A B} (m : outcome E A) (f : A -> outcome E B) b :
  (m ≫= f) = Ok b <-> exists a, m = Ok a /\ f a = Ok b.
Proof. destruct m; naive_solver. Qed.

Lemma bind_run {A B} (m : outcome E A) (f : A -> outcome E B) a r :
  m = Ok a -> f a = r -> (m ≫= f) = r.
Proof. by intros -> <-. Qed.

Lemma fmap_Ok {A B} (m : outcome E A) (f : A -> B) b :
  (f <$> m) = Ok b <-> exists a, m = Ok a /\ b = f a.
Proof. destruct m; naive_solver. Qed.

Lemma Ok_inj {A} (a b : A) : Ok (E := E) a = Ok b -> a = b.
Proof. by intros [= ->]. Qed.

Lemma check_Ok (b : bool) (e : E) u : check b e = Ok u <-> b = true.
Proof. destruct b, u; naive_solver. Qed.

Lemma check_bind {A} (b : bool) (e : E) (m : outcome E A) :
  (check b e ;; m) = if b then m else Raise e.
Proof. by destruct b. Qed.

Lemma for_each_Ok {A} (f : A -> outcome E unit) l u :
  for_each f l = Ok u <-> Forall (fun x => f x = Ok tt) l.
Proof.
  destruct u. induction l as [|x l IH]; simpl; [by rewrite Forall_nil|].
  rewrite bind_Ok, Forall_cons. split.
  - intros ([] & ? & ?%IH); auto.
  - intros [? ?%IH]. by exists tt.
Qed.

Lemma map_outcome_Ok {A B} (f : A -> outcome E B) l ys :
  map_outcome f l = Ok ys <-> Forall2 (fun x y => f x = Ok y) l ys.
Proof.
  revert ys. induction l as [|x l IH]; intros ys; simpl.
  { split; [intros [= <-]; constructor | by intros ->%Forall2_nil_inv_l]. }
  rewrite bind_Ok. split.
  - intros (y & ? & (ys' & ?%IH & [= <-])%bind_Ok). by constructor.
  - intros (y & ys' & ? & ?%IH & ->)%Forall2_cons_inv_l.
    exists y. split; [done|]. apply bind_Ok. eauto.
Qed.

Lemma map_outcome_elem {A B} (f : A -> outcome E B) l ys y :
  map_outcome f l = Ok ys -> y ∈ ys -> exists x, x ∈ l /\ f x = Ok y.
Proof.
  intros H%map_outcome_Ok [i Hi]%list_elem_of_lookup.
  destruct (Forall2_lookup_r _ _ _ _ _ H Hi) as (x & Hx & ?).
  exists x. split; [|done]. by eapply list_elem_of_lookup_2.
Qed.

Lemma map_outcome_length {A B} (f : A -> outcome E B) l ys :
  map_outcome f l = Ok ys -> length ys = length l.
Proof. intros H%map_outcome_Ok. symmetry. by eapply Forall2_length. Qed.

Lemma filter_outcome_Ok {A} (f : A -> outcome E bool) l ys :
  filter_outcome f l = Ok ys ->
  forall x, x ∈ ys <-> x ∈ l /\ f x = Ok true.
Proof.
  revert ys. induction l as [|x l IH]; intros ys; simpl.
  { intros [= <-]. intros x. split; [by intros ?%elem_of_nil|by intros [?%elem_of_nil _]]. }
  intros (b & Hb & (zs & Hzs & [= <-])%bind_Ok)%bind_Ok y. rewrite elem_of_cons.
  destruct b; [rewrite elem_of_cons|]; rewrite (IH _ Hzs); [naive_solver|].
  split; [naive_solver|]. intros [[->|?] Hy]; [congruence|done].
Qed.

Lemma filter_outcome_length {A} (f : A -> outcome E bool) l ys :
  filter_outcome f l = Ok ys -> length ys = length l -> ys = l /\ Forall (fun x => f x = Ok true) l.
Proof.
  revert ys. induction l as [|x l IH]; intros ys; simpl; [by intros [= <-]|].
  intros (b & Hb & (zs & Hzs & [= <-])%bind_Ok)%bind_Ok. destruct b; simpl.
  - intros [= Hl]. destruct (IH _ Hzs Hl) as [-> ?]. split; [done|]. by constructor.
  - intros Hl. assert (length zs <= length l)%nat; [|lia]. clear -Hzs. revert zs Hzs.
    induction l as [|y l IH]; intros zs; simpl; [by intros [= <-]|].
    intros (b & _ & (ws & Hws & [= <-])%bind_Ok)%bind_Ok. apply IH in Hws. destruct b; simpl; lia.
Qed.

Lemma collect_nil {A P} (f : A -> outcome E (list P)) l :
  collect f l = Ok [] <-> Forall (fun x => f x = Ok []) l.
Proof.
  induction l as [|x l IH]; simpl; [by rewrite Forall_nil|]. rewrite bind_Ok, Forall_cons. split.
  - intros (ps & Hx & (qs & Hl & [= [-> ->]%app_nil])%bind_Ok). by rewrite <- IH.
  - intros [Hx Hl]. exists []. split; [done|]. by rewrite (proj2 IH Hl).
Qed.

Lemma unless_nil {P} b (p : P) : unless b p = [] <-> b = true.
Proof. by destruct b. Qed.

(** No builtin exception escapes a run. *)
Definition no_crash {A} (m : outcome E A) : Prop := forall x, m <> Crash x.

Lemma no_crash_bind {A B} (m : outcome E A) (f : A -> outcome E B) :
  no_crash m -> (forall a, m = Ok a -> no_crash (f a)) -> no_crash (m ≫= f).
Proof. intros Hm Hf x. destruct m; simpl; [by apply Hf|done|intros [= ->]; by apply (Hm x)]. Qed.

Lemma no_crash_Ok {A} (a : A) : no_crash (Ok a).
Proof. done. Qed.
Lemma no_crash_Raise {A} (e : E) : no_crash (A := A) (Raise e).
Proof. done. Qed.
Lemma no_crash_check b (e : E) : no_crash (check b e).
Proof. by destruct b. Qed.

Lemma no_crash_map {A B} (f : A -> outcome E B) l :
  (forall x, x ∈ l -> no_crash (f x)) -> no_crash (map_outcome f l).
Proof.
  induction l as [|x l IH]; intros H; simpl; [done|].
  apply no_crash_bind; [apply H; set_solver|]. intros y _.
  apply no_crash_bind; [|done]. apply IH. set_solver.
Qed.

Lemma no_crash_fold {A S} (f : S -> A -> outcome E S) s l :
  (forall s x, x ∈ l -> no_crash (f s x)) -> no_crash (fold_outcome f s l).
Proof.
  revert s. induction l as [|x l IH]; intros s H; simpl; [done|].
  apply no_crash_bind; [apply H; set_solver|]. intros. apply IH. set_solver.
Qed.

Lemma fold_outcome_app {A S} (f : S -> A -> outcome E S) s l1 l2 :
  fold_outcome f s (l1 ++ l2) = s' ← fold_outcome f s l1; fold_outcome f s' l2.
Proof.
  revert s. induction l1 as [|x l1 IH]; intros s; simpl; [done|].
  destruct (f s x); simpl; auto.
Qed.

(** The loop rule: an invariant every iteration preserves holds at the end. *)
Lemma fold_outcome_inv {A S} (P : S -> Prop) (f : S -> A -> outcome E S) s l s' :
  fold_outcome f s l = Ok s' -> P s ->
  (forall a x b, x ∈ l -> P a -> f a x = Ok b -> P b) -> P s'.
Proof.
  revert s. induction l as [|x l IH]; intros s; simpl.
  { by intros [= <-]. }
  intros (s1 & Hf & Hl)%bind_Ok Hs Hstep. apply (IH s1); [done| |].
  - eapply Hstep; eauto. set_solver.
  - intros. eapply Hstep; eauto. set_solver.
Qed.
End outcome_lemmas.

Create HintDb nocrash discriminated.
#[export] Hint Resolve no_crash_bind no_crash_Ok no_crash_Raise no_crash_check : nocrash.

Lemma map_error_Ok {E F A} (f : E -> F) (m : outcome E A) a :
  map_error f m = Ok a <-> m = Ok a.
Proof. destruct m; naive_solver. Qed.

(** [inv_ok] takes a successful run apart into its successful steps. *)
Ltac inv_ok :=
  repeat match goal with
  | H : Ok _ = Ok _ |- _ => injection H as H; try subst
  | H : Raise _ = Ok _ |- _ => discriminate H
  | H : Crash _ = Ok _ |- _ => discriminate H
  | H : (_ ≫= _) = Ok _ |- _ => apply bind_Ok in H as (? & ? & H)
  | H : (_ <$> _) = Ok _ |- _ => apply fmap_Ok in H as (? & ? & ?)
  | H : check _ _ = Ok _ |- _ => apply check_Ok in H
  | H : for_each _ _ = Ok _ |- _ => apply for_each_Ok in H
  end; simpl in *.

(** Boolean guards as propositions. *)
Ltac bool_prop :=
  repeat match goal with
  | H : (_ && _) = true |- _ => apply andb_true_iff in H as [? ?]
  | H : (_ || _) = false |- _ => apply orb_false_iff in H as [? ?]
  | H : (_ || _) = true |- _ => apply orb_true_iff in H
  | H : (_ && _) = false |- _ => apply andb_false_iff in H
  | H : negb _ = true |- _ => apply negb_true_iff in H
  | H : negb _ = false |- _ => apply negb_false_iff in H
  | H : bool_decide _ = true |- _ => apply bool_decide_eq_true in H
  | H : bool_decide _ = false |- _ => apply bool_decide_eq_false in H
  | H : (_ <=? _) = true |- _ => apply Z.leb_le in H
  | H : (_ <=? _) = false |- _ => apply Z.leb_gt in H
  | H : (_ <? _) = true |- _ => apply Z.ltb_lt in H
  | H : (_ <? _) = false |- _ => apply Z.ltb_ge in H
  | H : (_ =? _) = true |- _ => apply Z.eqb_eq in H
  | H : (_ =? _) = false |- _ => apply Z.eqb_neq in H
  end.

(** ** Generic lemmas on lists *)
Section list_lemmas.
Context {A : Type}.

Lemma existsb_elem (f : A -> bool) l :
  existsb f l = true <-> exists x, x ∈ l /\ f x = true.
Proof. rewrite existsb_exists. by setoid_rewrite list_elem_of_In. Qed.

Lemma existsb_elem_false (f : A -> bool) l :
  existsb f l = false <-> forall x, x ∈ l -> f x = false.
Proof.
  induction l as [|y l IH]; simpl; [set_solver|].
  rewrite orb_false_iff, IH. set_solver.
Qed.

Lemma forallb_elem (f : A -> bool) l :
  forallb f l = true <-> forall x, x ∈ l -> f x = true.
Proof. rewrite forallb_forall. by setoid_rewrite list_elem_of_In. Qed.

Lemma elem_of_filterb (f : A -> bool) l x : x ∈ List.filter f l <-> x ∈ l /\ f x = true.
Proof. rewrite !list_elem_of_In. apply filter_In. Qed.

Lemma filterb_nil (f : A -> bool) l :
  List.filter f l = [] <-> forall x, x ∈ l -> f x = false.
Proof.
  split.
  - intros H x Hx. destruct (f x) eqn:E; [|done].
    assert (x ∈ List.filter f l) as Hin by by apply elem_of_filterb.
    rewrite H in Hin. by apply not_elem_of_nil in Hin.
  - intros H. apply elem_of_nil_inv. intros x [? ?]%elem_of_filterb. naive_solver congruence.
Qed.

Lemma fmap_nil_iff {B} (f : A -> B) l : f <$> l = [] <-> l = [].
Proof. by destruct l. Qed.

Lemma sorted_weaken (R S : relation A) l :
  StronglySorted R l -> (forall x y, R x y -> S x y) -> StronglySorted S l.
Proof.
  induction 1 as [|x l Hs IH Hx]; intros HS; constructor; [auto|].
  eapply Forall_impl; [exact Hx|]. auto.
Qed.

(** A relation that holds between ordered elements holds along a sorted list. *)
Lemma sorted_ordered_pairs (R S : relation A) l :
  StronglySorted R l -> (forall x y, x ∈ l -> y ∈ l -> R x y -> S x y) ->
  ForallOrdPairs S l.
Proof.
  induction 1 as [|x l Hs IH Hx]; intros HS; constructor.
  - apply List.Forall_forall. intros y Hy%list_elem_of_In.
    apply HS; [set_solver..|]. rewrite Forall_forall in Hx. by apply Hx.
  - apply IH. intros. apply HS; set_solver.
Qed.
End list_lemmas.

(** A list has as many distinct elements as it is long when none repeats. *)
Section distinct.
Context {A : Type} `{Countable A}.

Lemma size_list_to_set_le (l : list A) : (size (list_to_set l : gset A) <= length l)%nat.
Proof.
  induction l as [|x l IH]; [by rewrite list_to_set_nil, size_empty|].
  rewrite list_to_set_cons. cbn [length]. destruct (decide (x ∈ l)).
  - rewrite subseteq_union_1_L; [lia|]. set_solver.
  - rewrite size_union, size_singleton by set_solver. lia.
Qed.

Lemma size_list_to_set_NoDup (l : list A) :
  size (list_to_set l : gset A) = length l <-> NoDup l.
Proof.
  split; [|apply size_list_to_set].
  induction l as [|x l IH]; [constructor|].
  rewrite list_to_set_cons. cbn [length].
  pose proof (size_list_to_set_le l). destruct (decide (x ∈ l)).
  - rewrite subseteq_union_1_L; [lia|]. set_solver.
  - rewrite size_union, size_singleton by set_solver. intros ?. constructor; [done|]. apply IH. lia.
Qed.
End distinct.

(** ** [sorted] and [list.sort]

    Python's sort is stable, so it is modelled by stable insertion: [x] goes
    before the first element it is not greater than. *)
Section sorting.
Context {A : Type} (R : relation A) `{forall x y, Decision (R x y)}.

Fixpoint sort_insert (x : A) (l : list A) : list A :=
  match l with
  | [] => [x]
  | y :: l' => if decide (R x y) then x :: y :: l' else y :: sort_insert x l'
  end.
Definition sort_by (l : list A) : list A := foldr sort_insert [] l.

Lemma sort_insert_perm x l : sort_insert x l ≡ₚ x :: l.
Proof.
  induction l as [|y l IH]; simpl; [done|].
  destruct (decide (R x y)); [done|]. rewrite IH. by constructor.
Qed.

Lemma sort_by_perm l : sort_by l ≡ₚ l.
Proof. induction l as [|x l IH]; simpl; [done|]. by rewrite sort_insert_perm, IH. Qed.

Lemma elem_of_sort_by x l : x ∈ sort_by l <-> x ∈ l.
Proof. by rewrite sort_by_perm. Qed.

Lemma sort_insert_sorted `{!Total R, !Transitive R} x l :
  StronglySorted R l -> StronglySorted R (sort_insert x l).
Proof.
  induction l as [|y l IH]; simpl; [by repeat constructor|].
  intros [Hs Hy]%StronglySorted_inv. destruct (decide (R x y)) as [Hxy|Hxy].
  - repeat constructor; [done..|]. eapply Forall_impl; [exact Hy|]. intros z ?. by etrans.
  - destruct (total R x y) as [?|Hyx]; [done|]. constructor; [by apply IH|].
    rewrite sort_insert_perm. by constructor.
Qed.

Lemma sort_by_sorted `{!Total R, !Transitive R} l : StronglySorted R (sort_by l).
Proof. induction l; simpl; [constructor|]. by apply sort_insert_sorted. Qed.
End sorting.

(** ** [d.setdefault(key, []).append(x)] for every [x]: groups in first-seen order *)
Section grouping.
Context {K A : Type} `{EqDecision K} (key : A -> K).

Fixpoint group_add (x : A) (groups : list (K * list A)) : list (K * list A) :=
  match groups with
  | [] => [(key x, [x])]
  | (k, g) :: groups =>
      if decide (k = key x) then (k, g ++ [x]) :: groups else (k, g) :: group_add x groups
  end.
Definition group_by (l : list A) : list (K * list A) :=
  foldl (fun groups x => group_add x groups) [] l.

Definition grouped (seen : list A) (groups : list (K * list A)) : Prop :=
  NoDup groups.*1 /\
  (forall k g x, (k, g) ∈ groups -> x ∈ g <-> (x ∈ seen /\ key x = k)) /\
  (forall x, x ∈ seen -> exists g, (key x, g) ∈ groups).

Lemma group_add_keys k x groups :
  k ∈ (group_add x groups).*1 -> k = key x \/ k ∈ groups.*1.
Proof. induction groups as [|[k' g] gs IH]; simpl; [|case_decide; simpl]; set_solver. Qed.

Lemma group_add_grouped seen x groups :
  grouped seen groups -> grouped (seen ++ [x]) (group_add x groups).
Proof.
  intros (Hn & Hg & Hc).
  assert (Hfresh : (forall g, (key x, g) ∉ groups) -> forall y, y ∈ seen -> key y <> key x).
  { intros Hno y Hy E. destruct (Hc y Hy) as [g ?]. rewrite E in *. by eapply Hno. }
  assert (NoDup (group_add x groups).*1) as Hn'.
  { clear Hg Hc Hfresh. induction groups as [|[k g] gs IH]; simpl in *.
    - by apply NoDup_singleton.
    - apply NoDup_cons in Hn as [Hk Hn]. case_decide; simpl; constructor; try done; [|auto].
      intros [?|?]%group_add_keys; [congruence|done]. }
  split; [done|]. split.
  - clear Hc. revert Hfresh. clear Hn'.
    induction groups as [|[k g] gs IH]; simpl in *; intros Hfresh k' g' y Hin.
    + apply list_elem_of_singleton in Hin as [= -> ->].
      specialize (Hfresh ltac:(set_solver)). rewrite elem_of_app, !list_elem_of_singleton.
      naive_solver.
    + apply NoDup_cons in Hn as [Hk Hn].
      case_decide as E; apply elem_of_cons in Hin as [[= -> ->]|Hin].
      * rewrite !elem_of_app, !list_elem_of_singleton, (Hg k g) by set_solver. naive_solver.
      * rewrite elem_of_app, list_elem_of_singleton, (Hg k' g') by set_solver.
        split; [naive_solver|]. intros [[?| ->] ?]; [done|].
        destruct Hk. subst. apply list_elem_of_fmap. by exists (key x, g').
      * rewrite elem_of_app, list_elem_of_singleton, (Hg k g) by set_solver. naive_solver.
      * apply IH; [done | set_solver | | done].
        intros Hno z Hz Ez. eapply Hfresh; [|done|done]. intros g0 [[= ? ?]|?]%elem_of_cons; naive_solver.
  - intros y [Hy| ->%list_elem_of_singleton]%elem_of_app.
    + destruct (Hc y Hy) as [g Hgy]. clear -Hgy. induction groups as [|[k g'] gs IH]; simpl; [set_solver|].
      apply elem_of_cons in Hgy as [[= <- <-]|?]; case_decide; set_solver.
    + clear. induction groups as [|[k g'] gs IH]; simpl; [set_solver|].
      case_decide; subst; set_solver.
Qed.

Lemma group_by_grouped l : grouped l (group_by l).
Proof.
  unfold group_by. assert (forall seen gs, grouped seen gs ->
    grouped (seen ++ l) (foldl (fun groups x => group_add x groups) gs l)) as Hloop.
  { induction l as [|x l IH]; intros seen gs Hgs; simpl; [by rewrite app_nil_r|].
    rewrite (cons_middle x seen l), (assoc_L (++)). by apply IH, group_add_grouped. }
  apply (Hloop [] []). split; [constructor|]. split; set_solver.
Qed.
End grouping.
