(* ===== verification/PyValue.v ===== *)
(** * Python values as [json.loads] builds them, and the operations the tools use

    A [dict] keeps its keys in insertion order; every key occurs once. A float
    is an IEEE double in the Standard Library's exact representation. A [str]
    is the UTF-8 encoding of its text. *)
From S2P Require Import Prelude.
From Stdlib Require Export Floats.SpecFloat.

Inductive pyval :=
  | PNone
  | PBool (b : bool)
  | PInt (z : Z)
  | PFloat (f : spec_float)
  | PStr (s : string)
  | PList (l : list pyval)
  | PDict (d : list (string * pyval)).

Abbreviation dict := (list (string * pyval)).

#[export] Instance spec_float_eq_dec : EqDecision spec_float.
Proof. solve_decision. Defined.

(** ** Numbers: [bool] is a subclass of [int], and [1 == 1.0 == True] *)
Inductive number :=
  | Finite (m e : Z)          (* m * 2 ^ e *)
  | Infinite (negative : bool)
  | NotANumber.

Definition float_number (f : spec_float) : number :=
  match f with
  | S754_zero _ => Finite 0 0
  | S754_infinity s => Infinite s
  | S754_nan => NotANumber
  | S754_finite s m e => Finite (if s then Zneg m else Zpos m) e
  end.

Definition number_eqb (a b : number) : bool :=
  match a, b with
  | Finite m e, Finite m' e' =>
      let low := Z.min e e' in m * 2 ^ (e - low) =? m' * 2 ^ (e' - low)
  | Infinite s, Infinite s' => Bool.eqb s s'
  | _, _ => false
  end.

Definition as_number (v : pyval) : option number :=
  match v with
  | PBool b => Some (Finite (if b then 1 else 0) 0)
  | PInt z => Some (Finite z 0)
  | PFloat f => Some (float_number f)
  | _ => None
  end.

(** ** Dictionaries *)
Fixpoint dict_get {A} (k : string) (d : list (string * A)) : option A :=
  match d with
  | [] => None
  | (k', v) :: d => if String.eqb k k' then Some v else dict_get k d
  end.

(** [d[k] = v]: an existing key keeps its position. *)
Fixpoint dict_set {A} (k : string) (v : A) (d : list (string * A)) : list (string * A) :=
  match d with
  | [] => [(k, v)]
  | (k', v') :: d => if String.eqb k k' then (k, v) :: d else (k', v') :: dict_set k v d
  end.

(** [d.get(k)]: a missing key reads as [None]. *)
Definition get (k : string) (d : dict) : pyval := default PNone (dict_get k d).
(** [d.get(k, v)]. *)
Definition get_default (k : string) (v : pyval) (d : dict) : pyval := default v (dict_get k d).
Definition has_key {A} (k : string) (d : list (string * A)) : bool :=
  match dict_get k d with Some _ => true | None => false end.
Definition keys {A} (d : list (string * A)) : list string := d.*1.
Definition key_set {A} (d : list (string * A)) : gset string := list_to_set (keys d).

(** [d[k]]. *)
Definition item {E} (k : string) (d : dict) : outcome E pyval :=
  match dict_get k d with Some v => Ok v | None => Crash KeyError end.

(** [v.get(k)] on a value of unknown type. *)
Definition get_attr {E} (k : string) (v : pyval) : outcome E pyval :=
  match v with PDict d => Ok (get k d) | _ => Crash AttributeError end.

(** ** Equality [==]

    Containers compare their elements by identity first; [json.loads] returns
    one shared object for every [NaN] literal, so a [NaN] inside a list or a
    dict equals a [NaN] inside another one. *)
Definition is_nan (v : pyval) : bool :=
  match v with PFloat S754_nan => true | _ => false end.

Fixpoint py_eq (a b : pyval) {struct a} : bool :=
  match a, b with
  | PNone, PNone => true
  | PStr s, PStr t => String.eqb s t
  | PList l, PList m =>
      (fix go (l m : list pyval) : bool :=
         match l, m with
         | [], [] => true
         | x :: l, y :: m => (is_nan x && is_nan y || py_eq x y) && go l m
         | _, _ => false
         end) l m
  | PDict d, PDict d' =>
      Nat.eqb (length d) (length d') &&
      (fix go (d : dict) : bool :=
         match d with
         | [] => true
         | (k, x) :: d =>
             match dict_get k d' with
             | Some y => (is_nan x && is_nan y || py_eq x y) && go d
             | None => false
             end
         end) d
  | _, _ =>
      match as_number a, as_number b with
      | Some m, Some n => number_eqb m n
      | _, _ => false
      end
  end.

(** ** Type tests and truth *)
Definition is_dict (v : pyval) : bool := match v with PDict _ => true | _ => false end.
Definition is_list (v : pyval) : bool := match v with PList _ => true | _ => false end.
Definition is_str (v : pyval) : bool := match v with PStr _ => true | _ => false end.
Definition is_none (v : pyval) : bool := match v with PNone => true | _ => false end.
Definition is_true (v : pyval) : bool := match v with PBool true => true | _ => false end.
Definition is_false (v : pyval) : bool := match v with PBool false => true | _ => false end.
(** [type(v) is int], and [isinstance(v, int) and not isinstance(v, bool)]. *)
Definition is_int (v : pyval) : bool := match v with PInt _ => true | _ => false end.
Definition is_bool (v : pyval) : bool := match v with PBool _ => true | _ => false end.

Definition truthy (v : pyval) : bool :=
  match v with
  | PNone => false
  | PBool b => b
  | PInt z => negb (z =? 0)
  | PFloat f => match f with S754_zero _ => false | _ => true end
  | PStr s => negb (String.eqb s "")
  | PList l => match l with [] => false | _ => true end
  | PDict d => match d with [] => false | _ => true end
  end.

(** A [list] or a [dict] has no hash: testing it for membership in a set raises. *)
Definition hashable (v : pyval) : bool :=
  match v with PList _ | PDict _ => false | _ => true end.

(** [v in {"a", "b", ...}] for a set of strings. *)
Definition in_strings {E} (v : pyval) (names : list string) : outcome E bool :=
  if hashable v
  then Ok (match v with PStr s => bool_decide (s ∈ names) | _ => false end)
  else Crash TypeError.

(** Membership of a set by value; json's one [NaN] object is a member of a set
    that holds it. *)
Definition same_value (v w : pyval) : bool := is_nan v && is_nan w || py_eq v w.
Definition in_set {E} (v : pyval) (members : list pyval) : outcome E bool :=
  if hashable v then Ok (existsb (same_value v) members) else Crash TypeError.
(** [v in (a, b, ...)] for a tuple of strings. *)
Definition in_tuple (v : pyval) (names : list string) : bool := existsb (fun s => py_eq v (PStr s)) names.

Definition as_dict (v : pyval) : option dict :=
  match v with PDict d => Some d | _ => None end.
Definition as_list (v : pyval) : option (list pyval) :=
  match v with PList l => Some l | _ => None end.
Definition as_str (v : pyval) : option string :=
  match v with PStr s => Some s | _ => None end.
Definition as_int (v : pyval) : option Z :=
  match v with PInt z => Some z | _ => None end.

(** [isinstance(v, int) and not isinstance(v, bool) and 0 < v <= 0xFFFFFFFF]: the
    negation of the test the tools use to reject a capacity. *)
Definition positive_uint32 (v : pyval) : bool :=
  match v with PInt z => (0 <? z) && (z <=? 0xFFFFFFFF) | _ => false end.

(** [sorted] of strings: code point order, which is the byte order of UTF-8. *)
Definition string_le (a b : string) : Prop := String.leb a b = true.
#[export] Instance string_le_dec a b : Decision (string_le a b).
Proof. unfold string_le. apply _. Defined.
Definition sorted_strings (l : list string) : list string := sort_by string_le l.

Lemma sorted_strings_perm l : sorted_strings l ≡ₚ l.
Proof. apply sort_by_perm. Qed.

(** ** Lemmas *)
Lemma py_eq_str_r v s : py_eq v (PStr s) = true <-> v = PStr s.
Proof.
  destruct v; simpl; try (split; congruence).
  rewrite String.eqb_eq. naive_solver.
Qed.

Lemma py_eq_str_l v s : py_eq (PStr s) v = true <-> v = PStr s.
Proof.
  destruct v; simpl; try (split; congruence).
  rewrite String.eqb_eq. naive_solver.
Qed.

Lemma py_eq_none_r v : py_eq v PNone = true <-> v = PNone.
Proof. destruct v; simpl; split; congruence. Qed.

Lemma dict_get_elem {A} k (v : A) d : dict_get k d = Some v -> (k, v) ∈ d.
Proof.
  induction d as [|[k' v'] d IH]; simpl; [done|].
  destruct (String.eqb_spec k k'); [intros [= ->]; subst; set_solver|set_solver].
Qed.

Lemma elem_of_keys {A} k (d : list (string * A)) : k ∈ keys d <-> is_Some (dict_get k d).
Proof.
  unfold keys. induction d as [|[k' v'] d IH]; simpl.
  { split; [by intros ?%elem_of_nil | by intros [? ?]]. }
  rewrite elem_of_cons. destruct (String.eqb_spec k k'); naive_solver.
Qed.

Lemma elem_of_key_set {A} k (d : list (string * A)) : k ∈ key_set d <-> is_Some (dict_get k d).
Proof. unfold key_set. by rewrite elem_of_list_to_set, elem_of_keys. Qed.

Lemma dict_get_set {A} k k' (v : A) d :
  dict_get k (dict_set k' v d) = if String.eqb k k' then Some v else dict_get k d.
Proof.
  induction d as [|[k1 v1] d IH]; simpl; [done|].
  destruct (String.eqb_spec k' k1) as [->|Hne]; simpl.
  - by destruct (String.eqb_spec k k1).
  - rewrite IH. destruct (String.eqb_spec k k1), (String.eqb_spec k k'); congruence.
Qed.

Lemma has_key_true {A} k (d : list (string * A)) :
  has_key k d = true <-> is_Some (dict_get k d).
Proof. unfold has_key. destruct (dict_get k d); split; naive_solver. Qed.

Lemma get_Some k d v : dict_get k d = Some v -> get k d = v.
Proof. unfold get. by intros ->. Qed.

Lemma get_not_none k d v : get k d = v -> v <> PNone -> dict_get k d = Some v.
Proof. unfold get. destruct (dict_get k d); naive_solver. Qed.

Lemma item_Ok {E} k d v : item (E := E) k d = Ok v <-> dict_get k d = Some v.
Proof. unfold item. destruct (dict_get k d); naive_solver. Qed.

Lemma in_strings_true {E} v names :
  in_strings (E := E) v names = Ok true <-> exists s, v = PStr s /\ s ∈ names.
Proof.
  unfold in_strings. destruct v; simpl; try (split; [congruence | by intros (? & ? & ?)]).
  split.
  - intros [= ?%bool_decide_eq_true]. eauto.
  - intros (? & [= <-] & ?). by rewrite bool_decide_eq_true_2.
Qed.

Lemma positive_uint32_true v :
  positive_uint32 v = true <-> exists z, v = PInt z /\ 0 < z < 2 ^ 32.
Proof.
  unfold positive_uint32. destruct v; try (split; [done|by intros (? & ? & _)]).
  rewrite andb_true_iff, Z.ltb_lt, Z.leb_le. split; [intros; exists z; split; [done|lia]|].
  intros (? & [= <-] & ?). lia.
Qed.

Lemma as_str_strings (names : list string) : omap as_str (PStr <$> names) = names.
Proof. induction names as [|s names IH]; [done|]. change (s :: omap as_str (PStr <$> names) = s :: names). by rewrite IH. Qed.

Lemma strings_forallb (names : list string) : forallb is_str (PStr <$> names) = true.
Proof. by induction names. Qed.

Lemma strings_list l : forallb is_str l = true <-> l = PStr <$> omap as_str l.
Proof.
  split; [|intros ->; apply strings_forallb].
  induction l as [|v l IH]; [done|]. cbn [forallb]. rewrite andb_true_iff.
  intros [Hv ?]. destruct v as [| | | |s| |]; try done.
  change (PStr s :: l = PStr s :: (PStr <$> omap as_str l)). by rewrite <- IH.
Qed.

(** [dict.fromkeys(...)]: every element once, at its first place. *)
Definition dedup (l : list string) : list string :=
  foldl (fun seen x => if bool_decide (x ∈ seen) then seen else seen ++ [x]) [] l.

Lemma dedup_spec l : NoDup (dedup l) /\ forall x, x ∈ dedup l <-> x ∈ l.
Proof.
  unfold dedup. assert (forall seen, NoDup seen ->
    let r := foldl (fun seen x => if bool_decide (x ∈ seen) then seen else seen ++ [x]) seen l in
    NoDup r /\ forall x, x ∈ r <-> x ∈ seen \/ x ∈ l) as H.
  { induction l as [|y l IH]; intros seen Hs; simpl.
    { split; [done|]. intros x. pose proof (not_elem_of_nil x). tauto. }
    case_bool_decide as Hy.
    - destruct (IH seen Hs) as [? Hr]. split; [done|]. intros x. rewrite Hr, elem_of_cons. naive_solver.
    - assert (NoDup (seen ++ [y])) as Hs'.
      { apply NoDup_app. split; [done|]. split; [|apply NoDup_singleton].
        by intros x Hx ->%list_elem_of_singleton. }
      destruct (IH _ Hs') as [? Hr]. split; [done|]. intros x.
      rewrite Hr, elem_of_app, list_elem_of_singleton, elem_of_cons. tauto. }
  destruct (H [] NoDup_nil_2) as [? Hr]. split; [done|]. intros x. rewrite Hr.
  pose proof (not_elem_of_nil x). tauto.
Qed.

(** ** Values whose dictionaries hold every key once, as [json.loads] builds them *)
Fixpoint well_formed (v : pyval) : bool :=
  match v with
  | PList l => forallb well_formed l
  | PDict d => bool_decide (NoDup (keys d)) && forallb (fun kv => well_formed kv.2) d
  | _ => true
  end.

Lemma well_formed_dict d :
  well_formed (PDict d) = true -> NoDup (keys d) /\ forall k, well_formed (get k d) = true.
Proof.
  cbn [well_formed]. rewrite andb_true_iff, bool_decide_eq_true, forallb_elem. intros [Hn Hw].
  split; [done|]. intros k. unfold get. destruct (dict_get k d) as [v|] eqn:E; [|done].
  by apply dict_get_elem, Hw in E.
Qed.

Lemma py_eq_dict_get d d' :
  py_eq (PDict d) (PDict d') = true ->
  length d = length d' /\
  forall k x, (k, x) ∈ d -> exists y, dict_get k d' = Some y /\ (is_nan x && is_nan y || py_eq x y) = true.
Proof.
  cbn [py_eq]. rewrite andb_true_iff. intros [Hl H]. apply Nat.eqb_eq in Hl. split; [done|].
  clear Hl. induction d as [|[k x] d IH]; intros k' x' Hin; [by apply elem_of_nil in Hin|].
  destruct (dict_get k d') as [y|] eqn:E; [|done]. apply andb_true_iff in H as [Hxy H].
  apply elem_of_cons in Hin as [[= -> ->]|Hin]; [eauto|]. by apply IH.
Qed.

(** Equal dictionaries have the same keys and equal values. *)
Lemma py_eq_dict_lookup d d' k y :
  NoDup (keys d) -> NoDup (keys d') -> py_eq (PDict d) (PDict d') = true ->
  dict_get k d' = Some y ->
  exists x, dict_get k d = Some x /\ (is_nan x && is_nan y || py_eq x y) = true.
Proof.
  intros Hn Hn' Heq Hy. apply py_eq_dict_get in Heq as [Hl Hsub].
  assert (Hperm : keys d ≡ₚ keys d').
  { apply submseteq_length_Permutation; [|unfold keys; rewrite !length_fmap; lia].
    apply NoDup_submseteq; [done|]. intros k0 ([k1 x] & -> & Hin)%list_elem_of_fmap.
    destruct (Hsub _ _ Hin) as (y0 & Hy0 & _). apply elem_of_keys. eauto. }
  assert (Hk : k ∈ keys d) by (rewrite Hperm; apply elem_of_keys; eauto).
  apply elem_of_keys in Hk as [x Hx]. exists x. split; [done|].
  destruct (Hsub k x (dict_get_elem _ _ _ Hx)) as (y' & Hy' & H). rewrite Hy in Hy'. by simplify_eq.
Qed.

Lemma py_eq_int_r v z : is_int v = true -> py_eq v (PInt z) = true -> v = PInt z.
Proof.
  destruct v as [| |x| | | |]; try done. intros _ H.
  change ((x * 2 ^ 0 =? z * 2 ^ 0) = true) in H. bool_prop. f_equal. lia.
Qed.
