(* ===== verification/PyText.v ===== *)
(** * Text: code points, white space, lines, and the [str] methods the tools use *)
From S2P Require Import Prelude PyValue.

(** ** UTF-8

    A [str] is stored as its UTF-8 bytes; [codepoints] reads it back. On bytes
    that are not UTF-8 it is [bytes.decode("utf-8", "replace")]: one U+FFFD for
    every maximal ill-formed prefix. *)
Definition byte_of (a : Ascii.ascii) : Z := Z.of_N (Ascii.N_of_ascii a).
Definition string_bytes (s : string) : list Z := byte_of <$> String.list_ascii_of_string s.
Definition of_bytes (l : list Z) : string :=
  String.string_of_list_ascii ((fun z => Ascii.ascii_of_N (Z.to_N z)) <$> l).

Definition between (lo hi x : Z) : bool := (lo <=? x) && (x <=? hi).

(** A partly read sequence: bytes still needed, bits read, range of the next byte. *)
Record utf8_state := Utf8 { u_need : nat; u_acc : Z; u_lo : Z; u_hi : Z }.

Definition utf8_start (b : Z) : list Z * option utf8_state :=
  if b <? 0x80 then ([b], None)
  else if between 0xC2 0xDF b then ([], Some (Utf8 1 (Z.land b 0x1F) 0x80 0xBF))
  else if b =? 0xE0 then ([], Some (Utf8 2 0 0xA0 0xBF))
  else if b =? 0xED then ([], Some (Utf8 2 0xD 0x80 0x9F))
  else if between 0xE1 0xEF b then ([], Some (Utf8 2 (Z.land b 0x0F) 0x80 0xBF))
  else if b =? 0xF0 then ([], Some (Utf8 3 0 0x90 0xBF))
  else if between 0xF1 0xF3 b then ([], Some (Utf8 3 (Z.land b 0x07) 0x80 0xBF))
  else if b =? 0xF4 then ([], Some (Utf8 3 4 0x80 0x8F))
  else ([0xFFFD], None).

Fixpoint utf8_decode (bs : list Z) (st : option utf8_state) : list Z :=
  match bs with
  | [] => match st with Some _ => [0xFFFD] | None => [] end
  | b :: bs =>
      match st with
      | Some (Utf8 need acc lo hi) =>
          if between lo hi b then
            let acc := acc * 64 + Z.land b 0x3F in
            match need with
            | S (S n) => utf8_decode bs (Some (Utf8 (S n) acc 0x80 0xBF))
            | _ => acc :: utf8_decode bs None
            end
          else let '(out, st) := utf8_start b in 0xFFFD :: out ++ utf8_decode bs st
      | None => let '(out, st) := utf8_start b in out ++ utf8_decode bs st
      end
  end.

Definition codepoints (s : string) : list Z := utf8_decode (string_bytes s) None.

Definition utf8_encode1 (c : Z) : list Z :=
  if c <? 0x80 then [c]
  else if c <? 0x800 then [0xC0 + Z.shiftr c 6; 0x80 + Z.land c 0x3F]
  else if c <? 0x10000 then
    [0xE0 + Z.shiftr c 12; 0x80 + Z.land (Z.shiftr c 6) 0x3F; 0x80 + Z.land c 0x3F]
  else [0xF0 + Z.shiftr c 18; 0x80 + Z.land (Z.shiftr c 12) 0x3F;
        0x80 + Z.land (Z.shiftr c 6) 0x3F; 0x80 + Z.land c 0x3F].
Definition of_codepoints (l : list Z) : string := of_bytes (l ≫= utf8_encode1).

(** ** Character classes *)
(** [str.isspace], and [\s] of a [str] pattern. *)
Definition is_space (c : Z) : bool :=
  between 0x9 0xD c || between 0x1C 0x20 c || (c =? 0x85) || (c =? 0xA0) || (c =? 0x1680)
  || between 0x2000 0x200A c || (c =? 0x2028) || (c =? 0x2029) || (c =? 0x202F)
  || (c =? 0x205F) || (c =? 0x3000).

(** The decimal digits of Unicode (category Nd) come in runs of ten; these are
    the zeros, the range [\d] of a [str] pattern. *)
Definition decimal_zeros : list Z :=
  [0x30; 0x660; 0x6f0; 0x7c0; 0x966; 0x9e6; 0xa66; 0xae6; 0xb66; 0xbe6; 0xc66; 0xce6; 0xd66;
   0xde6; 0xe50; 0xed0; 0xf20; 0x1040; 0x1090; 0x17e0; 0x1810; 0x1946; 0x19d0; 0x1a80; 0x1a90;
   0x1b50; 0x1bb0; 0x1c40; 0x1c50; 0xa620; 0xa8d0; 0xa900; 0xa9d0; 0xa9f0; 0xaa50; 0xabf0;
   0xff10; 0x104a0; 0x10d30; 0x11066; 0x110f0; 0x11136; 0x111d0; 0x112f0; 0x11450; 0x114d0;
   0x11650; 0x116c0; 0x11730; 0x118e0; 0x11950; 0x11c50; 0x11d50; 0x11da0; 0x16a60; 0x16ac0;
   0x16b50; 0x1d7ce; 0x1d7d8; 0x1d7e2; 0x1d7ec; 0x1d7f6; 0x1e140; 0x1e2f0; 0x1e950; 0x1fbf0].
Definition decimal_value (c : Z) : option Z :=
  (fun z => c - z) <$> List.find (fun z => between z (z + 9) c) decimal_zeros.
Definition is_decimal (c : Z) : bool :=
  match decimal_value c with Some _ => true | None => false end.

Definition is_hex_lower (c : Z) : bool := between 0x30 0x39 c || between 0x61 0x66 c.
Definition is_hex (c : Z) : bool := is_hex_lower c || between 0x41 0x46 c.
Definition hex_digit (c : Z) : Z :=
  if between 0x30 0x39 c then c - 0x30
  else if between 0x61 0x66 c then c - 0x57
  else if between 0x41 0x46 c then c - 0x37 else 0.
(** [int(s, 16)] of a run of hexadecimal digits. *)
Definition hex_value (l : list Z) : Z := foldl (fun acc c => acc * 16 + hex_digit c) 0 l.

(** ** [str] methods *)
Fixpoint lstrip (l : list Z) : list Z :=
  match l with c :: l' => if is_space c then lstrip l' else l | [] => [] end.
Definition strip (l : list Z) : list Z := reverse (lstrip (reverse (lstrip l))).

(** [value.strip() != ""] *)
Definition has_text (s : string) : bool := existsb (fun c => negb (is_space c)) (codepoints s).

Definition is_line_break (c : Z) : bool :=
  between 0xA 0xD c || between 0x1C 0x1E c || (c =? 0x85) || (c =? 0x2028) || (c =? 0x2029).

(** [str.splitlines()]; [cur] is the line read so far, last character first. *)
Fixpoint split_lines_at (l cur : list Z) : list (list Z) :=
  match l with
  | [] => match cur with [] => [] | _ => [reverse cur] end
  | c :: l' =>
      if is_line_break c then
        reverse cur ::
        match l' with
        | 0xA :: l'' => if c =? 0xD then split_lines_at l'' [] else split_lines_at l' []
        | _ => split_lines_at l' []
        end
      else split_lines_at l' (c :: cur)
  end.
Definition split_lines (l : list Z) : list (list Z) := split_lines_at l [].

(** ASCII-only methods work on the bytes directly. *)
Definition ends_with (suffix s : string) : bool :=
  let n := String.length s in let m := String.length suffix in
  (m <=? n)%nat && String.eqb (String.substring (n - m) m s) suffix.
Definition has_char (c : Ascii.ascii) (s : string) : bool :=
  existsb (Ascii.eqb c) (String.list_ascii_of_string s).

(** [needle in s]. *)
Fixpoint contains (needle s : string) : bool :=
  String.prefix needle s || match s with EmptyString => false | String _ s' => contains needle s' end.

(** [HEX40] and [HEX64]: [fullmatch] of [[0-9a-f]{n}]. *)
Definition is_hex_text (n : nat) (s : string) : bool :=
  Nat.eqb (String.length s) n && forallb is_hex_lower (string_bytes s).

Definition newline_text : string := of_bytes [10].

Example codepoints_euro : codepoints "a€" = [0x61; 0x20AC].
Proof. reflexivity. Qed.
Example codepoints_replace : codepoints (of_bytes [0x61; 0xE2; 0x82; 0x62]) = [0x61; 0xFFFD; 0x62].
Proof. reflexivity. Qed.
Example split_crlf : split_lines (codepoints (of_bytes [0x61; 13; 10; 10; 0x62])) = [[0x61]; []; [0x62]].
Proof. reflexivity. Qed.

Lemma hex_digit_nonneg c : 0 <= hex_digit c.
Proof. unfold hex_digit, between. repeat case_match; bool_prop; lia. Qed.

Lemma hex_value_nonneg l : 0 <= hex_value l.
Proof.
  unfold hex_value. assert (forall acc, 0 <= acc -> 0 <= foldl (fun acc c => acc * 16 + hex_digit c) acc l) as H;
    [|by apply H].
  induction l as [|c l IH]; intros acc Hacc; simpl; [done|].
  apply IH. pose proof (hex_digit_nonneg c). lia.
Qed.
