(* ===== verification/PyRegex.v ===== *)
(** * Regular expressions of Python's [re], as a backtracking matcher

    The subset the tools use: character classes, sequence, ordered choice,
    greedy and lazy repetition, capture groups and zero-width assertions. The
    matcher explores the alternatives in the order [re] does, so the captures
    are those of the first match. [matches] is the relational specification. *)
From S2P Require Import Prelude PyText.

Inductive rx :=
  | Chr (p : Z -> bool)
  | Empty
  | Seq (a b : rx)
  | Alt (a b : rx)
  | Star (greedy : bool) (a : rx)
  | Group (n : nat) (a : rx)
  | Assert (p : option Z -> list Z -> bool).

Abbreviation captures := (list (nat * list Z)).

Section matcher.
Context {A : Type}.
Abbreviation cont := (option Z -> list Z -> captures -> option A).

(** The iterations of [a*]: one that reads nothing is cut, and every other one
    shortens the text, so its length bounds them. *)
Fixpoint star_loop (body : option Z -> list Z -> captures -> cont -> option A)
    (greedy : bool) (fuel : nat) (prev : option Z) (s : list Z) (c : captures)
    (k : cont) : option A :=
  match fuel with
  | O => k prev s c
  | S fuel =>
      let again prev' s' c' :=
        if (length s' <? length s)%nat then star_loop body greedy fuel prev' s' c' k else None in
      if greedy then
        match body prev s c again with Some x => Some x | None => k prev s c end
      else
        match k prev s c with Some x => Some x | None => body prev s c again end
  end.

(** [k] continues with the previous character, the rest of the text and the
    captures so far. *)
Fixpoint rx_match (r : rx) (prev : option Z) (s : list Z) (c : captures) (k : cont) : option A :=
  match r with
  | Chr p => match s with x :: s' => if p x then k (Some x) s' c else None | [] => None end
  | Empty => k prev s c
  | Seq a b => rx_match a prev s c (fun prev s c => rx_match b prev s c k)
  | Alt a b =>
      match rx_match a prev s c k with Some x => Some x | None => rx_match b prev s c k end
  | Star greedy a => star_loop (rx_match a) greedy (length s) prev s c k
  | Group n a =>
      rx_match a prev s c (fun prev' s' c' =>
        k prev' s' ((n, take (length s - length s') s) :: c'))
  | Assert p => if p prev s then k prev s c else None
  end.
End matcher.

(** Shorthands of the pattern syntax. *)
Definition Plus (greedy : bool) (a : rx) : rx := Seq a (Star greedy a).
Definition Opt (a : rx) : rx := Alt a Empty.
Definition Any : rx := Chr (fun c => negb (c =? 0xA)).
Fixpoint Lit (l : list Z) : rx :=
  match l with [] => Empty | c :: l => Seq (Chr (Z.eqb c)) (Lit l) end.
Definition Str (s : string) : rx := Lit (string_bytes s).
Fixpoint rx_seq (l : list rx) : rx :=
  match l with [] => Empty | [a] => a | a :: l => Seq a (rx_seq l) end.
Fixpoint Times (n : nat) (a : rx) : rx :=
  match n with O => Empty | S n => Seq a (Times n a) end.
(** [a{0,n}], greedy. *)
Fixpoint UpTo (n : nat) (a : rx) : rx :=
  match n with O => Empty | S n => Opt (Seq a (UpTo n a)) end.
(** [$] without flags: the end, or before a newline that ends the text. *)
Definition Eol : rx := Assert (fun _ s => match s with [] | [0xA] => true | _ => false end).
(** [^] with [re.MULTILINE]. *)
Definition LineStart : rx :=
  Assert (fun prev _ => match prev with None => true | Some c => c =? 0xA end).
Definition Space : rx := Chr is_space.
Definition NonSpace : rx := Chr (fun c => negb (is_space c)).
Definition Hex : rx := Chr is_hex.

(** [re.match]: anchored at the start of the text. The result lists the
    captures, the latest first, and the rest of the text. *)
Definition re_match (r : rx) (s : list Z) : option (captures * list Z) :=
  rx_match r None s [] (fun _ rest c => Some (c, rest)).
Definition re_fullmatch (r : rx) (s : list Z) : option captures :=
  rx_match r None s [] (fun _ rest c => match rest with [] => Some c | _ => None end).

Fixpoint group (n : nat) (c : captures) : option (list Z) :=
  match c with [] => None | (m, t) :: c => if Nat.eqb n m then Some t else group n c end.

(** ** Specification: [matches r prev s c prev' s' c'] *)
Inductive matches : rx -> option Z -> list Z -> captures -> option Z -> list Z -> captures -> Prop :=
  | m_chr p prev x s c : p x = true -> matches (Chr p) prev (x :: s) c (Some x) s c
  | m_empty prev s c : matches Empty prev s c prev s c
  | m_seq a b prev s c prev1 s1 c1 prev2 s2 c2 :
      matches a prev s c prev1 s1 c1 -> matches b prev1 s1 c1 prev2 s2 c2 ->
      matches (Seq a b) prev s c prev2 s2 c2
  | m_alt_l a b prev s c prev' s' c' :
      matches a prev s c prev' s' c' -> matches (Alt a b) prev s c prev' s' c'
  | m_alt_r a b prev s c prev' s' c' :
      matches b prev s c prev' s' c' -> matches (Alt a b) prev s c prev' s' c'
  | m_star_done g a prev s c : matches (Star g a) prev s c prev s c
  | m_star_more g a prev s c prev1 s1 c1 prev2 s2 c2 :
      matches a prev s c prev1 s1 c1 -> (length s1 < length s)%nat ->
      matches (Star g a) prev1 s1 c1 prev2 s2 c2 -> matches (Star g a) prev s c prev2 s2 c2
  | m_group n a prev s c prev' s' c' :
      matches a prev s c prev' s' c' ->
      matches (Group n a) prev s c prev' s' ((n, take (length s - length s') s) :: c')
  | m_assert p prev s c : p prev s = true -> matches (Assert p) prev s c prev s c.
Create HintDb rx discriminated.
#[export] Hint Constructors matches : rx.

Section soundness.
Context {A : Type}.

(** Every match the matcher finds is one the specification allows. *)
Lemma rx_match_sound (r : rx) :
  forall prev s c (k : option Z -> list Z -> captures -> option A) x,
  rx_match r prev s c k = Some x ->
  exists prev' s' c', matches r prev s c prev' s' c' /\ k prev' s' c' = Some x.
Proof.
  induction r as [p| |a IHa b IHb|a IHa b IHb|g a IHa|n a IHa|p];
    intros prev s c k x; cbn [rx_match].
  - destruct s as [|y s]; [done|]. destruct (p y) eqn:E; [|done]. eauto 10 with rx.
  - eauto 10 with rx.
  - intros (p1 & s1 & c1 & H1 & (p2 & s2 & c2 & H2 & ?)%IHb)%IHa. eauto 10 with rx.
  - destruct (rx_match a prev s c k) eqn:E.
    + intros [= <-]. apply IHa in E as (? & ? & ? & ? & ?). eauto 10 with rx.
    + intros (? & ? & ? & ? & ?)%IHb. eauto 10 with rx.
  - generalize (length s) as fuel. intros fuel. revert prev s c x.
    induction fuel as [|fuel IHf]; intros prev s c x; cbn [star_loop]; [eauto 10 with rx|].
    set (again := fun prev' s' c' => if (length s' <? length s)%nat then _ else None).
    assert (Hmore : forall y, rx_match a prev s c again = Some y ->
        exists prev' s' c', matches (Star g a) prev s c prev' s' c' /\ k prev' s' c' = Some y).
    { intros y (p1 & s1 & c1 & H1 & Hk)%IHa. unfold again in Hk.
      destruct (length s1 <? length s)%nat eqn:E; [|done]. apply Nat.ltb_lt in E.
      apply IHf in Hk as (p2 & s2 & c2 & ? & ?). eauto 10 with rx. }
    destruct g; case_match eqn:E.
    + intros [= ->]. by apply Hmore.
    + eauto 10 with rx.
    + intros [= ->]. eauto 10 with rx.
    + apply Hmore.
  - intros (? & ? & ? & ? & ?)%IHa. eauto 10 with rx.
  - destruct (p prev s) eqn:E; [|done]. eauto 10 with rx.
Qed.

(** Completeness: when the specification allows a match the continuation
    accepts, the matcher finds one. *)
Lemma rx_match_complete (r : rx) prev s c prev' s' c' :
  matches r prev s c prev' s' c' ->
  forall (k : option Z -> list Z -> captures -> option A),
  is_Some (k prev' s' c') -> is_Some (rx_match r prev s c k).
Proof.
  revert prev s c prev' s' c'. induction r as [p| |a IHa b IHb|a IHa b IHb|g a IHa|n a IHa|p];
    intros prev s c prev' s' c' Hm k Hk; cbn [rx_match].
  - inversion Hm as [? ? ? ? ? Hp| | | | | | | |]; subst. by rewrite Hp.
  - by inversion Hm; subst.
  - inversion Hm; subst. eapply IHa; [done|]. by eapply IHb.
  - inversion Hm as [| | |? ? ? ? ? ? ? ? Hl|? ? ? ? ? ? ? ? Hr| | | |]; subst.
    + destruct (IHa _ _ _ _ _ _ Hl k Hk) as [x ->]. eauto.
    + case_match; [eauto|]. by eapply IHb.
  - assert (Hf : (length s <= length s)%nat) by done. revert Hf.
    generalize (length s) at 2 3 as fuel. intros fuel Hf.
    remember (Star g a) as r eqn:Er. revert fuel Hf.
    induction Hm as [| | | | |g' a' prev s c|g' a' prev s c prev1 s1 c1 prev2 s2 c2 H1 _ Hlt Hm IH| |];
      simplify_eq; intros fuel Hf.
    + destruct fuel as [|fuel]; cbn [star_loop]; [done|]. destruct g.
      * case_match; [eauto|done].
      * destruct Hk as [x ->]. eauto.
    + destruct fuel as [|fuel]; [lia|]. cbn [star_loop].
      set (again := fun prev' s' c' => if (length s' <? length s)%nat then _ else None).
      assert (Hagain : is_Some (rx_match a prev s c again)).
      { eapply IHa; [done|]. unfold again.
        rewrite (proj2 (Nat.ltb_lt _ _)) by done. apply IH; [done|done|lia]. }
      destruct g; [destruct Hagain as [x ->]; eauto|]. case_match; eauto.
  - inversion Hm; subst. by eapply IHa.
  - inversion Hm as [| | | | | | | |? ? ? ? Hp]; subst. by rewrite Hp.
Qed.
End soundness.

(** A match reads a prefix of the text. *)
Lemma matches_split r prev s c prev' s' c' :
  matches r prev s c prev' s' c' -> exists w, s = w ++ s'.
Proof.
  induction 1 as [p prev x s| | ??????????? _ [w1 ->] _ [w2 ->]| | | |
    ???????????? [w1 ->] _ _ [w2 ->]| |]; eauto.
  - by exists [x].
  - by exists [].
  - exists (w1 ++ w2). by rewrite (assoc_L (++)).
  - by exists [].
  - exists (w1 ++ w2). by rewrite (assoc_L (++)).
  - by exists [].
Qed.

(** [fullmatch] decides the language of the pattern. *)
Lemma re_fullmatch_spec r s :
  is_Some (re_fullmatch r s) <-> exists prev c, matches r None s [] prev [] c.
Proof.
  unfold re_fullmatch. split.
  - intros [x (p & s' & c & Hm & Hk)%rx_match_sound]. destruct s'; [eauto|done].
  - intros (prev & c & Hm). by eapply rx_match_complete.
Qed.

Lemma re_fullmatch_Some r s c :
  re_fullmatch r s = Some c -> exists prev, matches r None s [] prev [] c.
Proof.
  unfold re_fullmatch. intros (p & s' & c' & Hm & Hk)%rx_match_sound.
  destruct s'; [|done]. simplify_eq. eauto.
Qed.
