(* ===== verification/JsonDoc.v ===== *)
(** * JSON documents as the tools read them

    The lexical level of JSON belongs to Python's [json]: a file is described by
    what reading and scanning it gives, a syntax tree whose objects still list
    every key, also a repeated one. [loads] is [json.loads], where the last
    occurrence of a key wins; [loads_unique] is [json.loads] with the
    [object_pairs_hook=unique_object] of [static_storage_policy.py] and
    [linked_storage_audit.py], which refuses a repeated key. *)
From S2P Require Import Prelude PyValue.

Inductive jtree :=
  | JNull
  | JBool (b : bool)
  | JInt (z : Z)
  | JFloat (f : spec_float)
  | JStr (s : string)
  | JArray (l : list jtree)
  | JObject (pairs : list (string * jtree)).

(** What reading a file gives: [OSError], bytes that are not UTF-8, text that is
    not JSON, or a tree. *)
Inductive document :=
  | DocUnreadable | DocNotText | DocInvalid | Doc (t : jtree).

(** [dict(pairs)] *)
Definition dict_of {A} (pairs : list (string * A)) : list (string * A) :=
  foldl (fun d kv => dict_set kv.1 kv.2 d) [] pairs.

Fixpoint loads (t : jtree) : pyval :=
  match t with
  | JNull => PNone
  | JBool b => PBool b
  | JInt z => PInt z
  | JFloat f => PFloat f
  | JStr s => PStr s
  | JArray l => PList (map loads l)
  | JObject pairs => PDict (dict_of (map (fun kv => (kv.1, loads kv.2)) pairs))
  end.

(** [unique_object(pairs)] *)
Definition unique_object {A} (pairs : list (string * A)) : outcome string (list (string * A)) :=
  fold_outcome (fun value kv =>
      check (negb (has_key kv.1 value)) kv.1 ;;
      Ok (dict_set kv.1 kv.2 value)) [] pairs.

(** The hook runs on every object, the inner ones first. *)
Fixpoint loads_unique (t : jtree) : outcome string pyval :=
  match t with
  | JNull => Ok PNone
  | JBool b => Ok (PBool b)
  | JInt z => Ok (PInt z)
  | JFloat f => Ok (PFloat f)
  | JStr s => Ok (PStr s)
  | JArray l =>
      PList <$> (fix go (l : list jtree) : outcome string (list pyval) :=
                   match l with
                   | [] => Ok []
                   | t :: l => v ← loads_unique t; vs ← go l; Ok (v :: vs)
                   end) l
  | JObject pairs =>
      values ← (fix go (l : list (string * jtree)) : outcome string dict :=
                  match l with
                  | [] => Ok []
                  | (k, t) :: l => v ← loads_unique t; vs ← go l; Ok ((k, v) :: vs)
                  end) pairs;
      PDict <$> unique_object values
  end.

(** A tree with no repeated key in any of its objects. *)
Fixpoint unique_keys (t : jtree) : bool :=
  match t with
  | JArray l => forallb unique_keys l
  | JObject pairs =>
      bool_decide (NoDup pairs.*1) && forallb (fun kv => unique_keys kv.2) pairs
  | _ => true
  end.

Section jtree_ind.
Context (P : jtree -> Prop).
Hypothesis (Hnull : P JNull) (Hbool : forall b, P (JBool b)) (Hint : forall z, P (JInt z))
  (Hfloat : forall f, P (JFloat f)) (Hstr : forall s, P (JStr s))
  (Harray : forall l, Forall P l -> P (JArray l))
  (Hobject : forall pairs, Forall (fun kv => P kv.2) pairs -> P (JObject pairs)).

(** Induction that reaches the elements of arrays and objects. *)
Fixpoint jtree_nested_ind (t : jtree) : P t :=
  match t with
  | JNull => Hnull | JBool b => Hbool b | JInt z => Hint z | JFloat f => Hfloat f
  | JStr s => Hstr s
  | JArray l =>
      Harray l ((fix go (l : list jtree) : Forall P l :=
        match l with
        | [] => Forall_nil_2 P
        | t :: l => Forall_cons_2 P t l (jtree_nested_ind t) (go l)
        end) l)
  | JObject pairs =>
      Hobject pairs ((fix go (l : list (string * jtree)) : Forall (fun kv => P kv.2) l :=
        match l with
        | [] => Forall_nil_2 _
        | kv :: l => Forall_cons_2 (fun kv => P kv.2) kv l (jtree_nested_ind kv.2) (go l)
        end) pairs)
  end.
End jtree_ind.

Lemma dict_set_fresh {A} k (v : A) d : k ∉ keys d -> dict_set k v d = d ++ [(k, v)].
Proof.
  unfold keys. induction d as [|[k' v'] d IH]; simpl; [done|].
  intros [Hk Hd]%not_elem_of_cons. destruct (String.eqb_spec k k'); [done|]. by rewrite IH.
Qed.

Lemma dict_of_unique {A} (pairs : list (string * A)) : NoDup pairs.*1 -> dict_of pairs = pairs.
Proof.
  unfold dict_of. assert (forall acc, NoDup (acc ++ pairs).*1 ->
    foldl (fun d kv => dict_set kv.1 kv.2 d) acc pairs = acc ++ pairs) as H; [|intros Hn; by apply (H [])].
  induction pairs as [|[k v] pairs IH]; intros acc Hn; simpl; [by rewrite app_nil_r|].
  rewrite dict_set_fresh.
  - rewrite IH; rewrite <- (assoc_L (++)); done.
  - rewrite fmap_app in Hn. apply NoDup_app in Hn as (_ & Hn & _). simpl in Hn. set_solver.
Qed.

Lemma unique_object_spec {A} (pairs : list (string * A)) :
  NoDup pairs.*1 /\ unique_object pairs = Ok pairs \/
  ~ NoDup pairs.*1 /\ exists k, unique_object pairs = Raise k /\ k ∈ pairs.*1.
Proof.
  unfold unique_object. set (step := fun (value : list (string * A)) kv => _).
  assert (forall acc, NoDup acc.*1 ->
    NoDup (acc ++ pairs).*1 /\ fold_outcome step acc pairs = Ok (acc ++ pairs) \/
    ~ NoDup (acc ++ pairs).*1 /\ exists k, fold_outcome step acc pairs = Raise k /\ k ∈ pairs.*1) as H;
    [|apply (H []); constructor].
  induction pairs as [|[k v] pairs IH]; intros acc Hacc; simpl.
  { left. by rewrite app_nil_r. }
  assert (Hstep : step acc (k, v) = if has_key k acc then Raise k else Ok (dict_set k v acc))
    by (unfold step; simpl; by destruct (has_key k acc)).
  rewrite Hstep. clear Hstep. destruct (has_key k acc) eqn:Hk; simpl.
  - right. apply has_key_true, elem_of_keys in Hk. unfold keys in Hk. split.
    + rewrite fmap_app; simpl. intros (_ & Hn & _)%NoDup_app.
      by apply (Hn k Hk), list_elem_of_here.
    + exists k. split; [done|]. apply list_elem_of_here.
  - assert (Hfresh : k ∉ acc.*1).
    { change (k ∉ keys acc). rewrite elem_of_keys, <- has_key_true. by rewrite Hk. }
    rewrite dict_set_fresh by done.
    destruct (IH (acc ++ [(k, v)])) as [[Hn ->]|(Hn & k' & -> & Hin)].
    + rewrite fmap_app; simpl. apply NoDup_app. split; [done|].
      split; [intros x Hx ->%list_elem_of_singleton; done|apply NoDup_singleton].
    + left. by rewrite <- (assoc_L (++)) in *.
    + right. rewrite <- (assoc_L (++)) in *. split; [done|]. exists k'. split; [done|]. by apply list_elem_of_further.
Qed.

(** The two inner loops of [loads_unique] are comprehensions. *)
Lemma loads_unique_array l :
  loads_unique (JArray l) = PList <$> map_outcome loads_unique l.
Proof. simpl. f_equal. induction l as [|t l IH]; simpl; [done|]. by rewrite IH. Qed.

Lemma loads_unique_object pairs :
  loads_unique (JObject pairs) =
  (values ← map_outcome (fun kv => pair kv.1 <$> loads_unique kv.2) pairs;
   PDict <$> unique_object values).
Proof.
  simpl. match goal with |- (?m ≫= _) = (?m' ≫= _) => assert (m = m') as -> end; [|done].
  induction pairs as [|[k t] pairs IH]; simpl; [done|]. rewrite IH. by destruct (loads_unique t).
Qed.

Lemma loads_unique_accepts t : unique_keys t = true -> loads_unique t = Ok (loads t).
Proof.
  induction t as [| | | | |l IH|pairs IH] using jtree_nested_ind; try done.
  - rewrite loads_unique_array. intros Hu. simpl in Hu. simpl. rewrite forallb_elem in Hu.
    assert (map_outcome loads_unique l = Ok (map loads l)) as ->; [|done].
    apply map_outcome_Ok. induction IH as [|t l Ht _ IHl]; simpl; constructor.
    + apply Ht, Hu, list_elem_of_here.
    + apply IHl. intros x ?. by apply Hu, list_elem_of_further.
  - rewrite loads_unique_object. intros Hu. simpl in Hu. bool_prop. simpl.
    match goal with H : forallb _ _ = true |- _ => rewrite forallb_elem in H; rename H into Hp end.
    assert (map_outcome (fun kv => pair kv.1 <$> loads_unique kv.2) pairs =
            Ok (map (fun kv => (kv.1, loads kv.2)) pairs)) as ->.
    { apply map_outcome_Ok. clear H. induction IH as [|[k t] l Ht _ IHl]; simpl; constructor.
      - simpl in *. rewrite Ht; [done|]. apply (Hp (k, t)), list_elem_of_here.
      - apply IHl. intros x ?. by apply Hp, list_elem_of_further. }
    assert (Hk : (map (fun kv => (kv.1, loads kv.2)) pairs).*1 = pairs.*1).
    { clear. induction pairs as [|[k t] l IHl]; [done|]. cbn. f_equal. exact IHl. }
    simpl. rewrite dict_of_unique by by rewrite Hk.
    destruct (unique_object_spec (map (fun kv => (kv.1, loads kv.2)) pairs)) as [[_ ->]|[Hn _]]; [done|].
    by rewrite Hk in Hn.
Qed.

Lemma loads_unique_rejects t : unique_keys t = false -> exists k, loads_unique t = Raise k.
Proof.
  induction t as [| | | | |l IH|pairs IH] using jtree_nested_ind; try done.
  - rewrite loads_unique_array. simpl. intros Hu.
    enough (exists k, map_outcome loads_unique l = Raise k) as [k ->]; [by exists k|].
    induction IH as [|t l Ht _ IHl]; simpl in *; [done|].
    destruct (unique_keys t) eqn:E; simpl in Hu.
    + rewrite loads_unique_accepts by done. simpl. destruct IHl as [k ->]; eauto.
    + destruct Ht as [k ->]; eauto.
  - rewrite loads_unique_object. intros Hu. simpl in Hu.
    set (m := map_outcome _ pairs).
    assert (Hm : (exists k, m = Raise k) \/
                 forallb (fun kv => unique_keys kv.2) pairs = true /\ exists d, m = Ok d /\ d.*1 = pairs.*1).
    { unfold m. clear Hu. induction IH as [|[k t] l Ht _ IHl]; simpl in *; [eauto|].
      destruct (unique_keys t) eqn:E; simpl.
      - rewrite loads_unique_accepts by done. simpl.
        destruct IHl as [[k' ->]|[-> (d & -> & Hd)]]; simpl; [eauto|].
        right. split; [done|]. eexists. split; [done|]. cbn. f_equal. exact Hd.
      - destruct Ht as [k' ->]; simpl; eauto. }
    destruct Hm as [[k ->]|[Hall (d & -> & Hd)]]; [by exists k|].
    rewrite Hall, andb_true_r in Hu. bool_prop. simpl.
    destruct (unique_object_spec d) as [[Hn _]|(_ & k & -> & _)]; [|by exists k].
    by rewrite Hd in Hn.
Qed.

(** ** Parsed values are well formed *)
Lemma keys_dict_set {A} k (v : A) d :
  NoDup (keys d) -> NoDup (keys (dict_set k v d)) /\ forall k', k' ∈ keys (dict_set k v d) -> k' = k \/ k' ∈ keys d.
Proof.
  unfold keys. induction d as [|[k1 v1] d IH]; simpl; intros Hn.
  { split; [by apply NoDup_singleton|]. intros k' ->%list_elem_of_singleton. by left. }
  apply NoDup_cons in Hn as [Hk Hn]. destruct (String.eqb_spec k k1) as [->|Hne]; simpl.
  - split; [by constructor|]. intros k'. rewrite !elem_of_cons. naive_solver.
  - destruct (IH Hn) as [Hn' Hin]. split.
    + constructor; [|done]. by intros [->|?]%Hin.
    + intros k'. rewrite !elem_of_cons. naive_solver.
Qed.

Lemma elem_of_dict_set {A} k (v : A) d kv : kv ∈ dict_set k v d -> kv = (k, v) \/ kv ∈ d.
Proof.
  induction d as [|[k1 v1] d IH]; simpl; [by intros ->%list_elem_of_singleton; left|].
  destruct (String.eqb_spec k k1); rewrite !elem_of_cons; naive_solver.
Qed.

Lemma dict_of_spec {A} (pairs : list (string * A)) :
  NoDup (keys (dict_of pairs)) /\ forall kv, kv ∈ dict_of pairs -> kv ∈ pairs.
Proof.
  unfold dict_of. assert (forall d : list (string * A), NoDup (keys d) ->
    let r := foldl (fun d kv => dict_set kv.1 kv.2 d) d pairs in
    NoDup (keys r) /\ forall kv, kv ∈ r -> kv ∈ d \/ kv ∈ pairs) as H.
  { induction pairs as [|[k v] pairs IH]; intros d Hn; simpl; [by eauto|].
    destruct (keys_dict_set k v d Hn) as [Hn' _]. destruct (IH _ Hn') as [? Hin]. split; [done|].
    intros kv [[->|?]%elem_of_dict_set|?]%Hin; rewrite elem_of_cons; auto. }
  destruct (H [] NoDup_nil_2) as [? Hin]. split; [done|]. intros kv [Hkv|?]%Hin; [|done].
  by apply elem_of_nil in Hkv.
Qed.

Lemma loads_well_formed t : well_formed (loads t) = true.
Proof.
  induction t as [| | | | |l IH|pairs IH] using jtree_nested_ind; try done.
  - cbn [loads well_formed]. apply forallb_elem. intros v Hv.
    change (v ∈ loads <$> l) in Hv. apply list_elem_of_fmap in Hv as (t & -> & Ht).
    rewrite Forall_forall in IH. auto.
  - cbn [loads well_formed]. set (values := map _ pairs).
    destruct (dict_of_spec values) as [Hn Hin]. apply andb_true_iff. split; [by apply bool_decide_eq_true|].
    apply forallb_elem. intros kv Hkv%Hin. unfold values in Hkv.
    change (kv ∈ (fun kv => (kv.1, loads kv.2)) <$> pairs) in Hkv.
    apply list_elem_of_fmap in Hkv as (kt & -> & Ht). rewrite Forall_forall in IH. by apply IH.
Qed.

Lemma dict_of_elem {A} (pairs : list (string * A)) k v : dict_get k (dict_of pairs) = Some v -> (k, v) ∈ pairs.
Proof. intros H%dict_get_elem. by apply (proj2 (dict_of_spec pairs)). Qed.
