(* ===== verification/Bytes.v ===== *)
(** * Byte strings: slices, [struct.unpack_from] and NUL-terminated strings *)
From S2P Require Import Prelude PyValue PyText.

(** A [bytes] object is the list of its bytes, each in [0, 256). *)
Definition is_byte (b : Z) : Prop := 0 <= b < 256.

(** [data[start:stop]] for non-negative bounds: clamped to the data. *)
Definition slice (start stop : Z) (data : list Z) : list Z :=
  take (Z.to_nat (stop - start)) (drop (Z.to_nat start) data).

Definition len (data : list Z) : Z := Z.of_nat (length data).

(** [int.from_bytes(data, "little")], and ["big"] on the reversed bytes. *)
Fixpoint le_combine (l : list Z) : Z :=
  match l with [] => 0 | b :: l => b + 256 * le_combine l end.
Definition from_bytes (big : bool) (l : list Z) : Z :=
  le_combine (if big then reverse l else l).

(** A format is the list of its field widths: B, H, I and Q are 1, 2, 4 and 8
    bytes, and [<] and [>] add no padding. *)
Abbreviation format := (list Z).
Definition calcsize (fmt : format) : Z := foldr Z.add 0 fmt.

Fixpoint unpack_fields (big : bool) (fmt : format) (data : list Z) : list Z :=
  match fmt with
  | [] => []
  | w :: fmt =>
      from_bytes big (take (Z.to_nat w) data) :: unpack_fields big fmt (drop (Z.to_nat w) data)
  end.

(** [struct.unpack_from(fmt, data, offset)]: a short buffer is a [struct.error]. *)
Definition unpack_from {E} (big : bool) (fmt : format) (data : list Z) (offset : Z) :
    outcome E (list Z) :=
  if offset + calcsize fmt <=? len data
  then Ok (unpack_fields big fmt (drop (Z.to_nat offset) data))
  else Crash StructError.

(** Field [i] of an unpacked row. *)
Definition field (i : nat) (row : list Z) : Z := nth i row 0.

(** [range(start, stop, step)] for a positive step. *)
Fixpoint range_list (fuel : nat) (start stop step : Z) : list Z :=
  match fuel with
  | O => []
  | S fuel => if start <? stop then start :: range_list fuel (start + step) stop step else []
  end.
Definition py_range (start stop step : Z) : list Z :=
  range_list (Z.to_nat (stop - start)) start stop step.

(** [table.find(b"\0", offset)] as the bytes before the first NUL. *)
Fixpoint until_nul (l : list Z) : option (list Z) :=
  match l with
  | [] => None
  | b :: l => if b =? 0 then Some [] else (fun t => b :: t) <$> until_nul l
  end.

(** [data.decode("utf-8", "replace")] *)
Definition decode_replace (l : list Z) : string := of_codepoints (utf8_decode l None).

(** ** Lemmas *)
Lemma le_combine_bound l : Forall is_byte l -> 0 <= le_combine l < 256 ^ Z.of_nat (length l).
Proof.
  induction 1 as [|b l Hb _ IH]; cbn [le_combine length]; [lia|].
  rewrite Nat2Z.inj_succ, Z.pow_succ_r by lia. unfold is_byte in Hb. lia.
Qed.

Lemma unpack_from_fits {E} big fmt data offset row :
  unpack_from (E := E) big fmt data offset = Ok row -> offset + calcsize fmt <= len data.
Proof. unfold unpack_from. case_match eqn:H; [|done]. bool_prop. by intros _. Qed.

Lemma unpack_from_ok {E} big fmt data offset :
  offset + calcsize fmt <= len data ->
  exists row, unpack_from (E := E) big fmt data offset = Ok row.
Proof.
  intros H. unfold unpack_from. rewrite (proj2 (Z.leb_le _ _) H). eauto.
Qed.

Lemma length_slice start stop data :
  0 <= start -> start <= stop <= len data -> len (slice start stop data) = stop - start.
Proof.
  unfold len, slice. intros. rewrite length_take, length_drop. lia.
Qed.

Lemma elem_of_py_range x start stop step :
  0 < step -> x ∈ py_range start stop step -> start <= x < stop /\ (x - start) mod step = 0.
Proof.
  intros Hstep. unfold py_range. generalize (Z.to_nat (stop - start)) as fuel. intros fuel.
  revert start. induction fuel as [|fuel IH]; intros start; simpl; [set_solver|].
  destruct (start <? stop) eqn:E; bool_prop; [|set_solver].
  intros [->|[? Hm]%IH]%elem_of_cons.
  - rewrite Z.sub_diag, Z.mod_0_l by lia. lia.
  - split; [lia|]. replace (x - start) with (x - (start + step) + 1 * step) by lia.
    by rewrite Z.mod_add by lia.
Qed.

(** A row that starts in a table of whole rows ends in it. *)
Lemma py_range_row_fits x start size step :
  0 < step -> size mod step = 0 -> x ∈ py_range start (start + size) step ->
  start <= x /\ x + step <= start + size.
Proof.
  intros Hs Hm [Hx Hxm]%elem_of_py_range; [|done].
  pose proof (Z.div_mod size step ltac:(lia)). pose proof (Z.div_mod (x - start) step ltac:(lia)).
  set (n := size / step) in *. set (q := (x - start) / step) in *.
  assert (q < n) by nia. split; [lia|]. nia.
Qed.

Lemma from_bytes_nonneg big l : Forall is_byte l -> 0 <= from_bytes big l.
Proof.
  intros H. unfold from_bytes. destruct big; [|by apply le_combine_bound].
  apply le_combine_bound. by apply Forall_reverse.
Qed.

Lemma unpack_fields_nonneg big fmt data :
  Forall is_byte data -> Forall (fun x => 0 <= x) (unpack_fields big fmt data).
Proof.
  revert data. induction fmt as [|w fmt IH]; intros data H; simpl; constructor.
  - apply from_bytes_nonneg. by apply Forall_take.
  - apply IH. by apply Forall_drop.
Qed.

Lemma field_nonneg i row : Forall (fun x => 0 <= x) row -> 0 <= field i row.
Proof.
  intros H. unfold field. destruct (nth_in_or_default i row 0) as [Hin| ->]; [|done].
  rewrite Forall_forall in H. by apply H, list_elem_of_In.
Qed.

Lemma unpack_from_nonneg {E} big fmt data offset row :
  Forall is_byte data -> unpack_from (E := E) big fmt data offset = Ok row ->
  Forall (fun x => 0 <= x) row.
Proof.
  unfold unpack_from. intros H. case_match; [|done]. intros [= <-].
  apply unpack_fields_nonneg. by apply Forall_drop.
Qed.

(** [struct.pack] of one little-endian unsigned field. *)
Fixpoint le_split (n : nat) (z : Z) : list Z :=
  match n with O => [] | S n => z mod 256 :: le_split n (z / 256) end.
Definition pack_fields (fmt : format) (row : list Z) : list Z :=
  concat (zip_with (fun w z => le_split (Z.to_nat w) z) fmt row).

Lemma length_le_split n z : length (le_split n z) = n.
Proof. revert z. induction n; intros z; simpl; auto. Qed.

Lemma le_split_bytes n z : Forall is_byte (le_split n z).
Proof.
  revert z. induction n; intros z; simpl; constructor; [|done].
  unfold is_byte. by apply Z.mod_pos_bound.
Qed.

Lemma le_combine_split n z : le_combine (le_split n z) = z mod 256 ^ Z.of_nat n.
Proof.
  revert z. induction n as [|n IH]; intros z; cbn [le_split le_combine]; [by rewrite Z.mod_1_r|].
  rewrite IH, Nat2Z.inj_succ, Z.pow_succ_r, Z.rem_mul_r by lia. lia.
Qed.

Lemma le_split_combine l : Forall is_byte l -> le_split (length l) (le_combine l) = l.
Proof.
  induction 1 as [|b l Hb _ IH]; [done|]. cbn [length le_split le_combine]. unfold is_byte in Hb.
  rewrite (Z.mul_comm 256), Z.mod_add, Z.div_add, Z.mod_small, Z.div_small by lia.
  by rewrite Z.add_0_l, IH.
Qed.

(** Unpacking what was packed gives the row back, each field modulo its width. *)
Lemma unpack_pack fmt row rest :
  Forall (fun w => 0 <= w) fmt -> length row = length fmt ->
  unpack_fields false fmt (pack_fields fmt row ++ rest) =
  zip_with (fun w z => z mod 256 ^ w) fmt row.
Proof.
  unfold pack_fields. intros Hw. revert row.
  induction Hw as [|w fmt Hw _ IH]; intros [|z row] Hl; simplify_eq/=; [done|].
  unfold from_bytes. rewrite <- (assoc_L (++)).
  rewrite take_app_length', drop_app_length' by by rewrite length_le_split.
  rewrite le_combine_split, Z2Nat.id by done. by rewrite IH.
Qed.
