(* ===== verification/ByteRanges.v ===== *)
(** * Address ranges: the union of half-open ranges and conflicting overlaps

    [merged_bytes] and [conflicting_overlaps] of
    [Tools/EmbeddedApplicationMacros/linked_storage_audit.py]. A range is a pair
    [(start, stop)] of addresses, half-open as in the code. *)
From S2P Require Import Prelude.

Abbreviation range := (Z * Z)%type.

(** ** [sorted(ranges)]: tuples compare lexicographically *)
Definition range_le (a b : range) : Prop := a.1 < b.1 \/ (a.1 = b.1 /\ a.2 <= b.2).
#[export] Instance range_le_dec a b : Decision (range_le a b).
Proof. unfold range_le. apply _. Defined.
#[export] Instance range_le_total : Total range_le.
Proof. intros [a b] [c d]. unfold range_le; simpl. lia. Qed.
#[export] Instance range_le_trans : Transitive range_le.
Proof. intros [a b] [c d] [e f]. unfold range_le; simpl. lia. Qed.

Definition sorted_ranges (l : list range) : list range := sort_by range_le l.

(** ** [merged_bytes] *)
(** The loop state is [(total, end)]. *)
Definition merge_step (acc : Z * option Z) (r : range) : Z * option Z :=
  let '(total, last) := acc in
  let '(start, stop) := r in
  match last with
  | None => (total + (stop - start), Some stop)
  | Some e =>
      if e <? start then (total + (stop - start), Some stop)
      else if e <? stop then (total + (stop - e), Some stop)
      else (total, Some e)
  end.

Definition merged_bytes (ranges : list range) : Z :=
  (foldl merge_step (0, None) (sorted_ranges ranges)).1.

(** ** The specification: the set of addresses the ranges cover *)
Definition addresses (r : range) : gset Z := list_to_set (seqZ r.1 (r.2 - r.1)).
Definition covered (l : list range) : gset Z := ⋃ (addresses <$> l).
Definition well_ordered (r : range) : Prop := r.1 <= r.2.
#[export] Instance well_ordered_dec r : Decision (well_ordered r).
Proof. unfold well_ordered. apply _. Defined.

Lemma elem_of_addresses x r : x ∈ addresses r <-> r.1 <= x < r.2.
Proof. unfold addresses. rewrite elem_of_list_to_set, elem_of_seqZ. lia. Qed.

Lemma elem_of_covered x l : x ∈ covered l <-> exists r, r ∈ l /\ r.1 <= x < r.2.
Proof.
  unfold covered. rewrite elem_of_union_list. setoid_rewrite list_elem_of_fmap.
  setoid_rewrite <- elem_of_addresses. naive_solver.
Qed.

Lemma size_addresses r : well_ordered r -> Z.of_nat (size (addresses r)) = r.2 - r.1.
Proof.
  unfold well_ordered, addresses. intros ?.
  rewrite size_list_to_set by apply NoDup_seqZ. rewrite length_seqZ. lia.
Qed.

Lemma covered_perm l l' : l ≡ₚ l' -> covered l = covered l'.
Proof. intros Hp. apply set_eq. intros x. rewrite !elem_of_covered. by setoid_rewrite Hp. Qed.

Lemma covered_snoc l r : covered (l ++ [r]) = covered l ∪ addresses r.
Proof.
  apply set_eq. intros x. rewrite elem_of_union, elem_of_addresses, !elem_of_covered.
  set_solver.
Qed.

Lemma covered_nil : covered [] = ∅.
Proof. done. Qed.
Lemma covered_singleton r : covered [r] = addresses r.
Proof. unfold covered. simpl. by rewrite (right_id_L ∅ (∪)). Qed.

(** The invariant of the loop over the sorted ranges: [total] counts the covered
    addresses, and the range that ends at [end] starts no later than any range
    that is still to come. *)
Definition merge_inv (seen todo : list range) (acc : Z * option Z) : Prop :=
  acc.1 = Z.of_nat (size (covered seen)) /\
  match acc.2 with
  | None => seen = []
  | Some e =>
      (forall r, r ∈ seen -> r.2 <= e) /\
      exists r0, r0 ∈ seen /\ r0.2 = e /\ forall r, r ∈ todo -> r0.1 <= r.1
  end.

Lemma covered_extend seen r (extra : gset Z) :
  covered seen ∪ addresses r = covered seen ∪ extra ->
  covered seen ## extra ->
  Z.of_nat (size (covered (seen ++ [r]))) =
  Z.of_nat (size (covered seen)) + Z.of_nat (size extra).
Proof. intros He Hd. rewrite covered_snoc, He, size_union by done. lia. Qed.

Lemma merge_step_inv seen r todo acc :
  (forall r', r' ∈ todo -> range_le r r') -> well_ordered r ->
  merge_inv seen (r :: todo) acc -> merge_inv (seen ++ [r]) todo (merge_step acc r).
Proof.
  destruct acc as [total last], r as [start stop].
  intros Hle Hwo [Ht Hlast]; simpl in *. unfold well_ordered in Hwo; simpl in Hwo.
  assert (Hnew : forall r', r' ∈ todo -> start <= r'.1).
  { intros r' ?%Hle. unfold range_le in *; simpl in *. lia. }
  destruct last as [e|].
  - destruct Hlast as (Hmax & r0 & Hr0 & He & Hmin).
    pose proof (Hmin (start, stop) ltac:(set_solver)) as Hs; simpl in Hs.
    destruct (e <? start) eqn:E1; [|destruct (e <? stop) eqn:E2]; bool_prop.
    + split; simpl.
      * rewrite (covered_extend seen (start, stop) (addresses (start, stop))), size_addresses;
          simpl; [lia | done | done |].
        intros x (r & ? & ?)%elem_of_covered ?%elem_of_addresses. simpl in *.
        specialize (Hmax r). naive_solver lia.
      * split; [|exists (start, stop); set_solver].
        intros r [?%Hmax| ->%list_elem_of_singleton]%elem_of_app; simpl; lia.
    + split; simpl.
      * rewrite (covered_extend seen (start, stop) (addresses (e, stop))), size_addresses;
          unfold well_ordered; simpl; [lia | lia | |].
        -- apply set_eq. intros x. rewrite !elem_of_union, !elem_of_addresses; simpl.
           split; [|naive_solver lia]. intros [?|?]; [by left|].
           destruct (decide (x < e)); [left|right; lia].
           apply elem_of_covered. exists r0. split; [done|lia].
        -- intros x (r & ? & ?)%elem_of_covered ?%elem_of_addresses. simpl in *.
           specialize (Hmax r). naive_solver lia.
      * split; [|exists (start, stop); set_solver].
        intros r [?%Hmax| ->%list_elem_of_singleton]%elem_of_app; simpl; lia.
    + split; simpl.
      * rewrite (covered_extend seen (start, stop) ∅), size_empty; [lia | | set_solver].
        apply set_eq. intros x. rewrite !elem_of_union, elem_of_addresses; simpl.
        split; [|set_solver]. intros [?|?]; [by left|]. left.
        apply elem_of_covered. exists r0. split; [done|lia].
      * split; [|exists r0; set_solver].
        intros r [?%Hmax| ->%list_elem_of_singleton]%elem_of_app; simpl; lia.
  - subst seen. split; simpl.
    + rewrite covered_singleton, size_addresses by done. rewrite covered_nil, size_empty in Ht.
      simpl. lia.
    + split; [|exists (start, stop); set_solver]. intros r ->%list_elem_of_singleton; simpl; lia.
Qed.

Lemma merge_loop_inv seen todo acc :
  StronglySorted range_le todo -> Forall well_ordered todo ->
  merge_inv seen todo acc -> merge_inv (seen ++ todo) [] (foldl merge_step acc todo).
Proof.
  revert seen acc. induction todo as [|r todo IH]; intros seen acc Hs Hw Hi; simpl.
  { by rewrite app_nil_r. }
  apply StronglySorted_inv in Hs as [Hs Hr]. apply Forall_cons in Hw as [Hwr Hw].
  rewrite (cons_middle r seen todo), (assoc_L (++)). apply IH; [done..|].
  apply merge_step_inv; [|done..]. by apply Forall_forall.
Qed.

Lemma merged_bytes_covered ranges :
  Forall well_ordered ranges -> merged_bytes ranges = Z.of_nat (size (covered ranges)).
Proof.
  intros Hw. unfold merged_bytes, sorted_ranges.
  pose proof (sort_by_perm range_le ranges) as Hp.
  assert (merge_inv ([] ++ sort_by range_le ranges) []
            (foldl merge_step (0, None) (sort_by range_le ranges))) as [-> _].
  { apply merge_loop_inv; [|by rewrite Hp|done].
    apply sort_by_sorted; apply _. }
  simpl. by rewrite (covered_perm _ _ Hp).
Qed.
