(* ===== verification/Symbols.v ===== *)
(** * Writable ELF symbols and their conflicting overlaps

    [conflicting_overlaps] of
    [Tools/EmbeddedApplicationMacros/linked_storage_audit.py], and the records of
    the symbols, sections and linker-map rows the audit works on. *)
From S2P Require Import Prelude.

Record symbol := Symbol {
  sym_name : string;
  sym_address : Z;
  sym_size : Z;
  sym_section : string;
  sym_section_index : Z;
  sym_kind : string
}.
#[export] Instance symbol_eq_dec : EqDecision symbol.
Proof. solve_decision. Defined.

(** The input and output rows of a GNU ld map. *)
Record map_input := MapInput {
  in_section : string;
  in_address : Z;
  in_size : Z;
  in_owner : string
}.
Record map_output := MapOutput {
  out_name : string;
  out_address : Z;
  out_size : Z;
  out_inputs : list map_input
}.
#[export] Instance map_input_eq_dec : EqDecision map_input.
Proof. solve_decision. Defined.
#[export] Instance map_output_eq_dec : EqDecision map_output.
Proof. solve_decision. Defined.

(** The [AuditError]s of the map parser, by line number. *)
Inductive map_parse_error :=
  | IncompleteInputBefore (line : Z)
  | UnsupportedMultilineInput (line : Z)
  | IncompleteInputAtEnd
  | IncompleteOutputAtEnd
  | CombinedObjectNotFound (identity : string).
#[export] Instance map_parse_error_eq_dec : EqDecision map_parse_error.
Proof. solve_decision. Defined.

Definition sym_stop (s : symbol) : Z := sym_address s + sym_size s.
Definition sym_range (s : symbol) : Z * Z := (sym_address s, sym_size s).

(** The sort key [(address, address + size, name)]. *)
Definition overlap_key_le (a b : symbol) : Prop :=
  sym_address a < sym_address b \/
  (sym_address a = sym_address b /\
   (sym_stop a < sym_stop b \/
    (sym_stop a = sym_stop b /\ String.leb (sym_name a) (sym_name b) = true))).
#[export] Instance overlap_key_le_dec a b : Decision (overlap_key_le a b).
Proof. unfold overlap_key_le. apply _. Defined.

(** One iteration over a group; the state is [(conflicts, active)]. *)
Definition overlap_step (acc : list (string * string) * list symbol) (s : symbol) :
    list (string * string) * list symbol :=
  let '(conflicts, active) := acc in
  let active' := List.filter (fun item => sym_address s <? sym_stop item) active in
  let clashing := List.filter (fun prior => negb (bool_decide (sym_range prior = sym_range s))) active' in
  (conflicts ++ ((fun prior => (sym_name prior, sym_name s)) <$> clashing), active' ++ [s]).

Definition group_overlaps (conflicts : list (string * string)) (group : list symbol) :
    list (string * string) :=
  (foldl overlap_step (conflicts, []) (sort_by overlap_key_le group)).1.

Definition conflicting_overlaps (symbols : list symbol) : list (string * string) :=
  foldl (fun conflicts kg => group_overlaps conflicts kg.2) []
        (group_by sym_section_index symbols).

(** ** Specification: what a clean symbol table is *)
Definition overlapping (a b : symbol) : Prop :=
  sym_section_index a = sym_section_index b /\
  sym_address a < sym_stop b /\ sym_address b < sym_stop a.

Definition only_aliases_overlap (symbols : list symbol) : Prop :=
  forall a b, a ∈ symbols -> b ∈ symbols -> overlapping a b -> sym_range a = sym_range b.

(** [a] precedes [b] in the sweep. *)
Definition compatible (a b : symbol) : Prop :=
  sym_address b < sym_stop a -> sym_range a = sym_range b.
Definition address_le (a b : symbol) : Prop := sym_address a <= sym_address b.

#[export] Instance overlap_key_le_total : Total overlap_key_le.
Proof.
  intros a b. unfold overlap_key_le.
  pose proof (String.leb_total (sym_name a) (sym_name b)).
  destruct (decide (sym_address a = sym_address b)), (decide (sym_stop a = sym_stop b));
    naive_solver lia.
Qed.
Lemma string_leb_trans a b c :
  String.leb a b = true -> String.leb b c = true -> String.leb a c = true.
Proof.
  unfold String.leb. revert b c. induction a as [|x a IH]; intros [|y b] [|z c]; simpl; try done.
  unfold Ascii.compare.
  destruct (N.compare_spec (Ascii.N_of_ascii x) (Ascii.N_of_ascii y)),
    (N.compare_spec (Ascii.N_of_ascii y) (Ascii.N_of_ascii z)),
    (N.compare_spec (Ascii.N_of_ascii x) (Ascii.N_of_ascii z)); try done; try lia.
  apply IH.
Qed.
#[export] Instance overlap_key_le_trans : Transitive overlap_key_le.
Proof.
  intros a b c. unfold overlap_key_le.
  pose proof (string_leb_trans (sym_name a) (sym_name b) (sym_name c)). naive_solver lia.
Qed.

Lemma overlap_step_nil conflicts active s :
  (overlap_step (conflicts, active) s).1 = [] <->
  conflicts = [] /\ forall a, a ∈ active -> compatible a s.
Proof.
  simpl. rewrite app_nil. setoid_rewrite fmap_nil_iff.
  setoid_rewrite filterb_nil. setoid_rewrite elem_of_filterb. unfold compatible.
  split; intros [-> H]; split; try done; intros a Ha.
  - intros Hlt. specialize (H a). rewrite negb_false_iff, bool_decide_eq_true in H. naive_solver lia.
  - destruct Ha as [Ha Hlt]. bool_prop. by rewrite bool_decide_eq_true_2 by naive_solver.
Qed.

(** The sweep drops a symbol from [active] only when it ends before every
    symbol still to come. *)
Definition sweep_inv (seen active todo : list symbol) : Prop :=
  (forall a, a ∈ active -> a ∈ seen) /\
  (forall a b, a ∈ seen -> a ∉ active -> b ∈ todo -> sym_stop a <= sym_address b).

Lemma sweep_step_inv seen active s todo conflicts :
  Forall (address_le s) todo -> sweep_inv seen active (s :: todo) ->
  sweep_inv (seen ++ [s]) (overlap_step (conflicts, active) s).2 todo.
Proof.
  intros Hle [Hin Hout]. simpl. split.
  - intros a. rewrite !elem_of_app, elem_of_filterb. naive_solver.
  - intros a b. rewrite !elem_of_app, elem_of_filterb, !list_elem_of_singleton.
    intros [Ha|Ha] Hna Hb; [|naive_solver]. rewrite Forall_forall in Hle.
    specialize (Hle b Hb). unfold address_le in Hle.
    destruct (decide (a ∈ active)).
    + destruct (sym_address s <? sym_stop a) eqn:E; bool_prop; [naive_solver|lia].
    + specialize (Hout a s Ha ltac:(done) ltac:(set_solver)). lia.
Qed.

Lemma sweep_nil seen conflicts active todo :
  StronglySorted address_le todo -> sweep_inv seen active todo ->
  (foldl overlap_step (conflicts, active) todo).1 = [] <->
  conflicts = [] /\ (forall a b, a ∈ seen -> b ∈ todo -> compatible a b) /\
  ForallOrdPairs compatible todo.
Proof.
  revert seen conflicts active. induction todo as [|s todo IH]; intros seen conflicts active Hs Hi.
  { simpl. split; [intros ->; repeat split; [set_solver|constructor] | by intros [? _]]. }
  apply StronglySorted_inv in Hs as [Hs Hle]. cbn [foldl].
  pose proof (sweep_step_inv _ _ _ _ conflicts Hle Hi) as Hi'.
  pose proof (overlap_step_nil conflicts active s) as Hstep.
  destruct (overlap_step (conflicts, active) s) as [conflicts' active']; simpl in *.
  rewrite (IH _ _ _ Hs Hi'), Hstep. destruct Hi as [Hin Hout].
  assert (Hcs : (forall a, a ∈ active -> compatible a s) <-> (forall a, a ∈ seen -> compatible a s)).
  { split; [|naive_solver]. intros H a Ha. destruct (decide (a ∈ active)); [by apply H|].
    intros ?. specialize (Hout a s Ha ltac:(done) ltac:(set_solver)). lia. }
  rewrite Hcs. split.
  - intros ([-> Hseen] & Hpairs & Hord). repeat split; [set_solver|].
    constructor; [|done]. apply List.Forall_forall. intros b Hb%list_elem_of_In. set_solver.
  - intros (-> & Hpairs & Hord). inversion Hord as [|? ? Hb Hrest]; subst.
    rewrite List.Forall_forall in Hb. setoid_rewrite <- list_elem_of_In in Hb.
    repeat split; [set_solver| |done]. intros a b [?| ->%list_elem_of_singleton]%elem_of_app; set_solver.
Qed.

Lemma group_overlaps_nil conflicts group :
  Forall (fun s => 0 < sym_size s) group ->
  group_overlaps conflicts group = [] <->
  conflicts = [] /\ forall a b, a ∈ group -> b ∈ group ->
    sym_address a < sym_stop b -> sym_address b < sym_stop a -> sym_range a = sym_range b.
Proof.
  intros Hpos. unfold group_overlaps.
  assert (Hsorted : StronglySorted address_le (sort_by overlap_key_le group)).
  { eapply sorted_weaken; [apply sort_by_sorted; apply _|].
    unfold overlap_key_le, address_le. intros. lia. }
  rewrite (sweep_nil []) by (done || (split; set_solver)).
  rewrite Forall_forall in Hpos. split.
  - intros (-> & _ & Hord). split; [done|]. intros a b Ha Hb Hab Hba.
    rewrite <- (elem_of_sort_by overlap_key_le), list_elem_of_In in Ha, Hb.
    destruct (ForallOrdPairs_In Hord a b Ha Hb) as [->|[H|H]];
      [done|by apply H|by symmetry; apply H].
  - intros [-> H]. repeat split; [set_solver|].
    eapply sorted_ordered_pairs; [exact Hsorted|]. unfold address_le, compatible.
    setoid_rewrite elem_of_sort_by. intros a b Ha Hb ? ?. apply H; [done..| |done].
    specialize (Hpos b Hb). unfold sym_stop. lia.
Qed.

Lemma conflicting_overlaps_nil symbols :
  Forall (fun s => 0 < sym_size s) symbols ->
  conflicting_overlaps symbols = [] <-> only_aliases_overlap symbols.
Proof.
  intros Hpos. unfold conflicting_overlaps, only_aliases_overlap, overlapping.
  destruct (group_by_grouped sym_section_index symbols) as (_ & Hg & Hc).
  set (groups := group_by sym_section_index symbols) in *.
  assert (Hgroups : forall k g, (k, g) ∈ groups -> Forall (fun s => 0 < sym_size s) g).
  { intros k g Hkg. apply Forall_forall. intros s Hs%(Hg k g); [|done].
    rewrite Forall_forall in Hpos. naive_solver. }
  assert (Hloop : forall conflicts, foldl (fun c kg => group_overlaps c kg.2) conflicts groups = [] <->
    conflicts = [] /\ forall k g, (k, g) ∈ groups -> group_overlaps [] g = []).
  { clear Hg Hc. induction groups as [|[k g] gs IH]; intros conflicts; simpl; [set_solver|].
    rewrite IH by set_solver. pose proof (Hgroups k g ltac:(set_solver)).
    rewrite group_overlaps_nil by done. split.
    - intros [[-> H1] H2]. split; [done|]. intros k' g' [[= -> ->]|?]%elem_of_cons; [|by eapply H2].
      by apply group_overlaps_nil.
    - intros [-> H1]. pose proof (H1 k g ltac:(set_solver)) as H2.
      apply group_overlaps_nil in H2; [|done]. split; [naive_solver|]. set_solver. }
  rewrite Hloop. split.
  - intros [_ H] a b Ha Hb (Hi & ? & ?). destruct (Hc a Ha) as [g Hag].
    pose proof (H _ _ Hag) as Hn. apply group_overlaps_nil in Hn; [|by eapply Hgroups].
    destruct Hn as [_ Hn]. apply Hn; [by apply (Hg _ _ _ Hag)| |done..].
    apply (Hg _ _ _ Hag). done.
  - intros H. split; [done|]. intros k g Hkg. apply group_overlaps_nil; [by eapply Hgroups|].
    split; [done|]. intros a b Ha%(Hg _ _ _ Hkg) Hb%(Hg _ _ _ Hkg) ? ?.
    apply H; naive_solver congruence.
Qed.
