(* ===== verification/LinkerMap.v ===== *)
(** * The linker-map parser

    [parse_map] and [object_member] of
    [Tools/EmbeddedApplicationMacros/linked_storage_audit.py], with the regular
    expressions they use. *)
From S2P Require Import Prelude PyValue PyText PyRegex Symbols.

(** ** Patterns *)
Definition HexNumber (n : nat) : rx := Seq (Str "0x") (Group n (Plus true Hex)).
Definition Spaces : rx := Plus true Space.
Definition SpacesOpt : rx := Star true Space.

Definition OUT_SECTION : rx :=
  rx_seq [Group 1 (Seq NonSpace (Star false Any)); Spaces; HexNumber 2; Spaces; HexNumber 3;
          SpacesOpt; Eol].
Definition OUT_NAME_ONLY : rx :=
  rx_seq [Group 1 (Seq (Str ".") (Plus true NonSpace)); SpacesOpt; Eol].
Definition OUT_CONTINUATION : rx :=
  rx_seq [Spaces; HexNumber 1; Spaces; HexNumber 2; SpacesOpt; Eol].
Definition INPUT : rx :=
  rx_seq [Spaces; Group 1 (Seq (Str ".") (Plus true NonSpace)); Spaces; HexNumber 2; Spaces;
          HexNumber 3; Spaces; Group 4 (Plus false Any); SpacesOpt; Eol].
Definition INPUT_NAME_ONLY : rx :=
  rx_seq [Spaces; Group 1 (Seq (Str ".") (Plus true NonSpace)); SpacesOpt; Eol].
Definition INPUT_CONTINUATION : rx :=
  rx_seq [Spaces; HexNumber 1; Spaces; HexNumber 2; Spaces; Group 3 (Plus false Any);
          SpacesOpt; Eol].
Definition FILL : rx :=
  rx_seq [Spaces; Str "*fill*"; Spaces; HexNumber 1; Spaces; HexNumber 2; SpacesOpt; Eol].

(** [[^()/\s]] *)
Definition path_char (c : Z) : bool :=
  negb ((c =? 0x28) || (c =? 0x29) || (c =? 0x2F) || is_space c).
Definition PathChars : rx := Plus true (Chr path_char).
Definition Directories : rx := Star true (Seq PathChars (Str "/")).
Definition ObjectName : rx := rx_seq [PathChars; Str "."; Alt (Str "o") (Str "obj")].
Definition ARCHIVE_MEMBER_IDENTITY : rx :=
  rx_seq [Directories; PathChars; Str ".a("; Group 1 ObjectName; Str ")"; Eol].
Definition PLAIN_OBJECT_IDENTITY : rx := rx_seq [Directories; ObjectName; Eol].

(** [identity.rsplit("/", 1)[-1]] *)
Definition after_last_slash (s : string) : string :=
  String.string_of_list_ascii
    (foldl (fun acc c => if Ascii.eqb c (Ascii.ascii_of_N 47) then [] else acc ++ [c]) []
           (String.list_ascii_of_string s)).

(** [match.group(n)] of a group that took part in the match. *)
Definition group_text (n : nat) (c : captures) : string := of_codepoints (default [] (group n c)).
Definition group_hex (n : nat) (c : captures) : Z := hex_value (default [] (group n c)).

Definition object_member (identity : string) : option string :=
  match re_fullmatch ARCHIVE_MEMBER_IDENTITY (codepoints identity) with
  | Some c => Some (group_text 1 c)
  | None =>
      match re_fullmatch PLAIN_OBJECT_IDENTITY (codepoints identity) with
      | Some _ => Some (after_last_slash identity)
      | None => None
      end
  end.

(** ** [parse_map]

    [current] is a reference to one of the [contributions], so appending to
    [current["inputs"]] changes the list: it is modelled as the index. *)
Record map_state := MapState {
  contributions : list map_output;
  current : option nat;
  found_identity : bool;
  pending_input : option string;
  pending_output : option string
}.
#[export] Instance map_state_eq_dec : EqDecision map_state.
Proof. solve_decision. Defined.

Definition add_input (i : nat) (item : map_input) (outputs : list map_output) : list map_output :=
  alter (fun o => MapOutput (out_name o) (out_address o) (out_size o) (out_inputs o ++ [item]))
        i outputs.

(** A new output section becomes [current]. *)
Definition open_output (name : string) (address size : Z) (st : map_state) : map_state :=
  MapState (contributions st ++ [MapOutput name address size []])
           (Some (length (contributions st))) (found_identity st)
           (pending_input st) (pending_output st).

Definition set_pending_output (p : option string) (st : map_state) : map_state :=
  MapState (contributions st) (current st) (found_identity st) (pending_input st) p.
Definition set_pending_input (p : option string) (st : map_state) : map_state :=
  MapState (contributions st) (current st) (found_identity st) p (pending_output st).
Definition set_current (c : option nat) (st : map_state) : map_state :=
  MapState (contributions st) c (found_identity st) (pending_input st) (pending_output st).

Definition record_input (identity : string) (i : nat) (item : map_input) (st : map_state) : map_state :=
  MapState (add_input i item (contributions st)) (current st)
           (found_identity st || String.eqb (in_owner item) identity)
           (pending_input st) (pending_output st).

(** Rows inside the current output section [i]. *)
Definition input_line (identity : string) (i : nat) (line_number : Z) (line : list Z)
    (st : map_state) : outcome map_parse_error map_state :=
  match pending_input st with
  | Some name =>
      match re_match INPUT_CONTINUATION line with
      | Some (c, _) =>
          Ok (set_pending_input None
                (record_input identity i
                   (MapInput name (group_hex 1 c) (group_hex 2 c) (group_text 3 c)) st))
      | None => Raise (UnsupportedMultilineInput line_number)
      end
  | None =>
      match re_match INPUT line with
      | Some (c, _) =>
          Ok (record_input identity i
                (MapInput (group_text 1 c) (group_hex 2 c) (group_hex 3 c) (group_text 4 c)) st)
      | None =>
          match re_match INPUT_NAME_ONLY line with
          | Some (c, _) => Ok (set_pending_input (Some (group_text 1 c)) st)
          | None =>
              match re_match FILL line with
              | Some (c, _) =>
                  Ok (MapState (add_input i (MapInput "*fill*" (group_hex 1 c) (group_hex 2 c)
                                                      "linker padding") (contributions st))
                               (current st) (found_identity st) (pending_input st) (pending_output st))
              | None => Ok st
              end
          end
      end
  end.

(** The lines after the checks for a header and for a continued header. *)
Definition body_line (identity : string) (line_number : Z) (line : list Z) (st : map_state) :
    outcome map_parse_error map_state :=
  match re_match OUT_NAME_ONLY line with
  | Some (c, _) => Ok (set_current None (set_pending_output (Some (group_text 1 c)) st))
  | None =>
      match current st with
      | Some i =>
          match contributions st !! i with
          | Some output =>
              if String.prefix "." (out_name output)
              then input_line identity i line_number line st else Ok st
          | None => Ok st
          end
      | None => Ok st
      end
  end.

Definition map_line (identity : string) (st : map_state) (numbered : Z * list Z) :
    outcome map_parse_error map_state :=
  let '(line_number, line) := numbered in
  match re_match OUT_SECTION line with
  | Some (c, _) =>
      match pending_input st with
      | Some _ => Raise (IncompleteInputBefore line_number)
      | None => Ok (open_output (group_text 1 c) (group_hex 2 c) (group_hex 3 c) st)
      end
  | None =>
      match pending_output st with
      | Some name =>
          match re_match OUT_CONTINUATION line with
          | Some (c, _) =>
              Ok (set_pending_output None (open_output name (group_hex 1 c) (group_hex 2 c) st))
          | None => body_line identity line_number line (set_current None (set_pending_output None st))
          end
      | None => body_line identity line_number line st
      end
  end.

Definition map_start : map_state := MapState [] None false None None.

(** [enumerate(lines, 1)] *)
Definition numbered_lines (lines : list (list Z)) : list (Z * list Z) :=
  zip (seqZ 1 (Z.of_nat (length lines))) lines.

Definition parse_map (text : string) (object_identity : string) :
    outcome map_parse_error (list map_output) :=
  st ← fold_outcome (map_line object_identity) map_start
         (numbered_lines (split_lines (codepoints text)));
  match pending_input st, pending_output st with
  | Some _, _ => Raise IncompleteInputAtEnd
  | None, Some _ => Raise IncompleteOutputAtEnd
  | None, None =>
      if found_identity st then Ok (contributions st)
      else Raise (CombinedObjectNotFound object_identity)
  end.

(** ** Examples from the tool's own self-test *)
Example object_member_archive :
  object_member "esp-idf/main/libmain.a(AgentExchange.swift.obj)" = Some "AgentExchange.swift.obj".
Proof. vm_compute. reflexivity. Qed.
Example object_member_plain :
  object_member "Objects/AgentExchange.swift.obj" = Some "AgentExchange.swift.obj".
Proof. vm_compute. reflexivity. Qed.
Example object_member_nested :
  object_member "libmain.a(path/AgentExchange.swift.obj)" = None.
Proof. vm_compute. reflexivity. Qed.
Example object_member_backup : object_member "AgentExchange.swift.obj.backup" = None.
Proof. vm_compute. reflexivity. Qed.

Definition fixture_map : string :=
  ".data 0x1000 0x8" +:+ newline_text +:+ " .data 0x1000 0x8 combined.o" +:+ newline_text +:+
  ".bss 0x2000 0x10" +:+ newline_text +:+ " .bss 0x2000 0x8 combined.o" +:+ newline_text +:+
  " *fill* 0x2008 0x8" +:+ newline_text.
Definition fixture_outputs : list map_output :=
  [MapOutput ".data" 0x1000 8 [MapInput ".data" 0x1000 8 "combined.o"];
   MapOutput ".bss" 0x2000 16 [MapInput ".bss" 0x2000 8 "combined.o";
                               MapInput "*fill*" 0x2008 8 "linker padding"]].
Example parse_fixture_map : parse_map fixture_map "combined.o" = Ok fixture_outputs.
Proof. vm_compute. reflexivity. Qed.

(** A range-less output name directly followed by a header: the header opens its
    output but leaves the pending name, so the next line drops the output and its
    input is lost, and the run ends without the combined object. *)
Example header_after_bare_name_loses_inputs :
  parse_map (".debug_info" +:+ newline_text +:+ ".data 0x1000 0x8" +:+ newline_text +:+
             " .data 0x1000 0x8 combined.o" +:+ newline_text) "combined.o"
  = Raise (CombinedObjectNotFound "combined.o").
Proof. vm_compute. reflexivity. Qed.

(** ** Invariant of the parser *)
Definition input_ok (i : map_input) : Prop := 0 <= in_address i /\ 0 <= in_size i.
Definition output_ok (o : map_output) : Prop :=
  0 <= out_address o /\ 0 <= out_size o /\ Forall input_ok (out_inputs o).
Definition has_owner (identity : string) (outputs : list map_output) : Prop :=
  exists o i, o ∈ outputs /\ i ∈ out_inputs o /\ in_owner i = identity.

Record map_inv (identity : string) (st : map_state) : Prop := {
  inv_outputs : Forall output_ok (contributions st);
  inv_current : forall n, current st = Some n -> (n < length (contributions st))%nat;
  inv_found : found_identity st = true -> has_owner identity (contributions st)
}.

Lemma add_input_ok n item outputs :
  input_ok item -> Forall output_ok outputs -> Forall output_ok (add_input n item outputs).
Proof.
  intros Hi Ho. apply Forall_alter; [done|]. intros o Hl [Ha [Hs Hf]].
  split; [done|]. split; [done|]. apply Forall_app. split; [done|]. by apply Forall_singleton.
Qed.

Lemma elem_of_alter_input n item outputs o :
  o ∈ outputs -> exists o', o' ∈ add_input n item outputs /\
    forall i, i ∈ out_inputs o -> i ∈ out_inputs o'.
Proof.
  intros [k Hk]%list_elem_of_lookup. unfold add_input. destruct (decide (k = n)) as [->|Hne].
  - eexists. split; [eapply list_elem_of_lookup_2; rewrite list_lookup_alter_eq, Hk; done|].
    intros i Hi. simpl. apply elem_of_app. by left.
  - exists o. split; [|done]. eapply list_elem_of_lookup_2. by rewrite list_lookup_alter_ne.
Qed.

Lemma add_input_owner n item outputs identity :
  has_owner identity outputs -> has_owner identity (add_input n item outputs).
Proof.
  intros (o & i & Ho & Hi & Hw). destruct (elem_of_alter_input n item _ _ Ho) as (o' & ? & Hin).
  exists o', i. auto.
Qed.

Lemma add_input_new n item outputs :
  (n < length outputs)%nat -> has_owner (in_owner item) (add_input n item outputs).
Proof.
  intros [o Ho]%lookup_lt_is_Some_2. eexists _, item. split; [|split; [|done]].
  - eapply list_elem_of_lookup_2. unfold add_input. rewrite list_lookup_alter_eq, Ho. done.
  - simpl. apply elem_of_app. right. apply list_elem_of_here.
Qed.

Lemma input_line_inv identity n k line st st' :
  current st = Some n -> map_inv identity st ->
  input_line identity n k line st = Ok st' -> map_inv identity st'.
Proof.
  intros Hc [Ho Hn Hf]. pose proof (Hn _ Hc) as Hlt.
  assert (Hrec : forall item, input_ok item -> map_inv identity (record_input identity n item st)).
  { intros item Hi. constructor; simpl.
    - by apply add_input_ok.
    - intros m ?. unfold add_input. rewrite length_alter. auto.
    - intros [?|E%String.eqb_eq]%orb_true_iff; [by apply add_input_owner, Hf|].
      subst. by apply add_input_new. }
  assert (Hok : forall name a s owner, input_ok (MapInput name (hex_value a) (hex_value s) owner))
    by (split; apply hex_value_nonneg).
  unfold input_line. destruct (pending_input st) as [name|].
  { destruct (re_match INPUT_CONTINUATION line) as [[c ?]|]; [|done]. intros [= <-].
    destruct (Hrec _ (Hok name (default [] (group 1 c)) (default [] (group 2 c)) (group_text 3 c))).
    by constructor. }
  destruct (re_match INPUT line) as [[c ?]|]; [|destruct (re_match INPUT_NAME_ONLY line) as [[c ?]|];
    [|destruct (re_match FILL line) as [[c ?]|]]]; intros [= <-].
  - by apply Hrec, Hok.
  - by constructor.
  - constructor; simpl; [apply add_input_ok; [apply Hok|done]|intros m ?; unfold add_input; rewrite length_alter; auto|].
    intros ?. by apply add_input_owner, Hf.
  - by constructor.
Qed.

Lemma open_output_inv identity name address size st :
  0 <= address -> 0 <= size -> map_inv identity st ->
  map_inv identity (open_output name address size st).
Proof.
  intros Ha Hs [Ho Hn Hf]. constructor; simpl.
  - apply Forall_app. split; [done|]. apply Forall_singleton. split; [done|]. split; [done|constructor].
  - intros m [= <-]. rewrite length_app. simpl. lia.
  - intros (o & i & ? & ?)%Hf. exists o, i. rewrite elem_of_app. auto.
Qed.

Lemma body_line_inv identity k line st st' :
  map_inv identity st -> body_line identity k line st = Ok st' -> map_inv identity st'.
Proof.
  intros Hi. unfold body_line. destruct (re_match OUT_NAME_ONLY line) as [[c ?]|].
  { intros [= <-]. destruct Hi. by constructor. }
  destruct (current st) as [n|] eqn:Hc; [|by intros [= <-]].
  destruct (contributions st !! n); [|by intros [= <-]].
  case_match; [|by intros [= <-]]. by apply input_line_inv.
Qed.

Lemma map_line_inv identity st line st' :
  map_inv identity st -> map_line identity st line = Ok st' -> map_inv identity st'.
Proof.
  intros Hi. destruct line as [k line]. unfold map_line.
  destruct (re_match OUT_SECTION line) as [[c ?]|].
  { case_match; [done|]. intros [= <-]. apply open_output_inv; [apply hex_value_nonneg..|done]. }
  destruct (pending_output st); [|by apply body_line_inv].
  destruct (re_match OUT_CONTINUATION line) as [[c ?]|].
  - intros [= <-]. destruct (open_output_inv identity s (group_hex 1 c) (group_hex 2 c) st);
      [apply hex_value_nonneg..|done|]. by constructor.
  - apply body_line_inv. destruct Hi. by constructor.
Qed.

Lemma parse_map_inv text identity outputs :
  parse_map text identity = Ok outputs ->
  Forall output_ok outputs /\ has_owner identity outputs.
Proof.
  unfold parse_map. intros (st & Hst & H)%bind_Ok.
  assert (map_inv identity st) as [Ho _ Hf].
  { eapply (fold_outcome_inv (map_inv identity)); [exact Hst| |].
    - by constructor.
    - intros a x b _. apply map_line_inv. }
  repeat case_match; simplify_eq. auto.
Qed.
