(* ===== verification/ElfImage.v ===== *)
(** * The ELF reader of the linked-storage audit

    [cstring] and [parse_elf] of
    [Tools/EmbeddedApplicationMacros/linked_storage_audit.py]: sections, and the
    symbols of allocated writable sections. *)
From S2P Require Import Prelude PyValue PyText Bytes Symbols.

Definition ALLOC : Z := 0x2.
Definition WRITE : Z := 0x1.

Record section := Section_ {
  sec_index : Z;
  sec_name : string;
  sec_type : Z;
  sec_flags : Z;
  sec_address : Z;
  sec_offset : Z;
  sec_size : Z;
  sec_link : Z;
  sec_info : Z;
  sec_alignment : Z;
  sec_entry_size : Z
}.
#[export] Instance section_eq_dec : EqDecision section.
Proof. solve_decision. Defined.

Record elf := Elf {
  elf_class_bits : Z;
  elf_big_endian : bool;
  elf_sections : list section;
  elf_symbols : list symbol
}.

Inductive elf_error :=
  | MalformedHeader | UnsupportedClass | TruncatedHeader64 | UnsupportedMachine (machine : Z)
  | MalformedSectionTable | SectionTableOutside | InvalidStringOffset | UnterminatedString
  | SectionOutside (name : string) | InvalidStringLink | MalformedSymbolTable
  | SymbolOutside (name : string) | NoSections.
#[export] Instance elf_error_eq_dec : EqDecision elf_error.
Proof. solve_decision. Defined.

Definition cstring (table : list Z) (offset : Z) : outcome elf_error string :=
  check ((0 <=? offset) && (offset <? len table)) InvalidStringOffset ;;
  match until_nul (drop (Z.to_nat offset) table) with
  | Some bytes => Ok (decode_replace bytes)
  | None => Raise UnterminatedString
  end.

(** The formats by class: header, section row and symbol row. *)
Definition header_fmt (class : Z) : format :=
  if class =? 1 then [2;2;4;4;4;4;4;2;2;2;2;2;2] else [2;2;4;8;8;8;4;2;2;2;2;2;2].
Definition section_fmt (class : Z) : format :=
  if class =? 1 then [4;4;4;4;4;4;4;4;4;4] else [4;4;8;8;8;8;4;4;8;8].
Definition symbol_fmt (class : Z) : format :=
  if class =? 1 then [4;4;4;1;1;2] else [4;1;1;2;8;8].

Definition read_section (data shstr : list Z) (indexed : Z * list Z) : outcome elf_error section :=
  let '(index, row) := indexed in
  name ← cstring shstr (field 0 row);
  let s := Section_ index name (field 1 row) (field 2 row) (field 3 row) (field 4 row)
                    (field 5 row) (field 6 row) (field 7 row) (field 8 row) (field 9 row) in
  check (negb (negb (sec_type s =? 8) && (len data <? sec_offset s + sec_size s)))
        (SectionOutside name) ;;
  Ok s.

(** [target["flags"] & (ALLOC | WRITE) == (ALLOC | WRITE)] *)
Definition alloc_writable (s : section) : bool :=
  Z.land (sec_flags s) (Z.lor ALLOC WRITE) =? Z.lor ALLOC WRITE.

(** [(name_off, value, size, info, shndx)] of a symbol row. *)
Definition symbol_fields (class : Z) (row : list Z) : Z * Z * Z * Z * Z :=
  if class =? 1 then (field 0 row, field 1 row, field 2 row, field 3 row, field 5 row)
  else (field 0 row, field 4 row, field 5 row, field 1 row, field 3 row).

(** One row of a symbol table: [None] when the loop continues without it. *)
Definition read_symbol (class : Z) (sections : list section) (strtab : list Z) (row : list Z) :
    outcome elf_error (option symbol) :=
  let '(name_off, value, size, info, shndx) := symbol_fields class row in
  name ← (if name_off =? 0 then Ok "" else cstring strtab name_off);
  if String.eqb name "" || (size =? 0) || (Z.of_nat (length sections) <=? shndx) then Ok None
  else
    match sections !! Z.to_nat shndx with
    | None => Crash IndexError
    | Some target =>
        if negb (alloc_writable target) then Ok None
        else
          check (negb ((value <? sec_address target)
                       || (sec_address target + sec_size target <? value + size)))
                (SymbolOutside name) ;;
          Ok (Some (Symbol name value size (sec_name target) shndx
                           (if Z.land info 0xF =? 1 then "OBJECT" else "other")))
    end.

Definition is_symbol_table (s : section) : bool := (sec_type s =? 2) || (sec_type s =? 11).

Definition read_symbol_table (class : Z) (big : bool) (data : list Z) (sections : list section)
    (symbols : list symbol) (s : section) : outcome elf_error (list symbol) :=
  if negb (is_symbol_table s) then Ok symbols
  else
    check (negb (Z.of_nat (length sections) <=? sec_link s)) InvalidStringLink ;;
    match sections !! Z.to_nat (sec_link s) with
    | None => Crash IndexError
    | Some strings =>
        let strtab := slice (sec_offset strings) (sec_offset strings + sec_size strings) data in
        let ent_size := if sec_entry_size s =? 0 then calcsize (symbol_fmt class)
                        else sec_entry_size s in
        check (negb ((ent_size <? calcsize (symbol_fmt class))
                     || negb (sec_size s mod ent_size =? 0))) MalformedSymbolTable ;;
        fold_outcome (fun symbols pos =>
            row ← unpack_from big (symbol_fmt class) data pos;
            found ← read_symbol class sections strtab row;
            Ok (match found with Some symbol => symbols ++ [symbol] | None => symbols end))
          symbols (py_range (sec_offset s) (sec_offset s + sec_size s) ent_size)
    end.

Definition elf_magic : list Z := [0x7F; 0x45; 0x4C; 0x46].

Definition parse_elf (data : list Z) : outcome elf_error elf :=
  check (negb ((len data <? 52) || negb (bool_decide (slice 0 4 data = elf_magic)))) MalformedHeader ;;
  let class := field 4 data in
  let encoding := field 5 data in
  check (((class =? 1) || (class =? 2)) && ((encoding =? 1) || (encoding =? 2))) UnsupportedClass ;;
  let big := negb (encoding =? 1) in
  check ((class =? 1) || negb (len data <? 64)) TruncatedHeader64 ;;
  header ← unpack_from big (header_fmt class) data 16;
  let machine := field 1 header in
  let shoff := field 5 header in
  let shentsize := field 10 header in
  let shnum := field 11 header in
  let shstrndx := field 12 header in
  check (machine =? 243) (UnsupportedMachine machine) ;;
  check (negb ((shnum =? 0) || (shnum <=? shstrndx) || (shentsize <? calcsize (section_fmt class))))
        MalformedSectionTable ;;
  check (shoff + shentsize * shnum <=? len data) SectionTableOutside ;;
  raw_sections ← map_outcome (fun i => unpack_from big (section_fmt class) data (shoff + i * shentsize))
                             (seqZ 0 shnum);
  match raw_sections !! Z.to_nat shstrndx with
  | None => Crash IndexError
  | Some string_sec =>
      let shstr := slice (field 4 string_sec) (field 4 string_sec + field 5 string_sec) data in
      sections ← map_outcome (read_section data shstr)
                             (zip (seqZ 0 (Z.of_nat (length raw_sections))) raw_sections);
      symbols ← fold_outcome (read_symbol_table class big data sections) [] sections;
      check (negb (bool_decide (sections = []))) NoSections ;;
      Ok (Elf (if class =? 1 then 32 else 64) big sections symbols)
  end.

(** ** What a parsed image guarantees *)
Record symbol_ok (sections : list section) (s : symbol) : Prop := {
  symbol_named : sym_name s <> "";
  symbol_sized : sym_size s <> 0;
  symbol_placed : exists target,
    sections !! Z.to_nat (sym_section_index s) = Some target /\
    sym_section s = sec_name target /\ alloc_writable target = true /\
    sec_address target <= sym_address s /\
    sym_address s + sym_size s <= sec_address target + sec_size target
}.

Lemma read_symbol_ok class sections strtab row s :
  read_symbol class sections strtab row = Ok (Some s) -> symbol_ok sections s.
Proof.
  unfold read_symbol.
  destruct (symbol_fields class row) as [[[[name_off value] size] info] shndx].
  intros (name & _ & H)%bind_Ok.
  destruct (String.eqb name "" || (size =? 0) || _) eqn:Hskip; [done|].
  apply orb_false_iff in Hskip as [[Hname Hsize]%orb_false_iff _]. bool_prop.
  apply String.eqb_neq in Hname.
  destruct (sections !! Z.to_nat shndx) as [target|] eqn:Hsec; [|done].
  destruct (negb (alloc_writable target)) eqn:Hflags; [done|].
  inv_ok. bool_prop. constructor; simpl; [done..|].
  exists target. repeat split; [done|by destruct (alloc_writable target)|lia..].
Qed.

Lemma read_symbol_table_ok class big data sections symbols s symbols' :
  read_symbol_table class big data sections symbols s = Ok symbols' ->
  Forall (symbol_ok sections) symbols -> Forall (symbol_ok sections) symbols'.
Proof.
  unfold read_symbol_table. intros H Hok. case_match; [by simplify_eq|].
  apply bind_Ok in H as (_ & _ & H). case_match; [|done].
  apply bind_Ok in H as (_ & _ & H).
  eapply (fold_outcome_inv (Forall (symbol_ok sections))); [exact H|done|].
  intros acc pos acc' _ Hacc Hstep.
  apply bind_Ok in Hstep as (row & _ & (found & Hread & [= <-])%bind_Ok).
  destruct found as [sym|]; [|done].
  apply Forall_app. split; [done|]. apply Forall_singleton. by eapply read_symbol_ok.
Qed.

(** [parse_elf] as one chain of steps, for its inversion. *)
Lemma parse_elf_inv data e :
  parse_elf data = Ok e ->
  exists class big raw shstr,
    map_outcome (read_section data shstr) (zip (seqZ 0 (Z.of_nat (length raw))) raw)
      = Ok (elf_sections e) /\
    fold_outcome (read_symbol_table class big data (elf_sections e)) [] (elf_sections e)
      = Ok (elf_symbols e).
Proof.
  unfold parse_elf. intros H.
  do 7 apply bind_Ok in H as (? & _ & H). apply bind_Ok in H as (raw & _ & H).
  case_match; [|done]. apply bind_Ok in H as (sections & Hs & H).
  apply bind_Ok in H as (symbols & Hy & H). apply bind_Ok in H as (_ & _ & [= <-]).
  by do 4 eexists.
Qed.

Lemma parse_elf_symbols_ok data e :
  parse_elf data = Ok e -> Forall (symbol_ok (elf_sections e)) (elf_symbols e).
Proof.
  intros (class & big & raw & shstr & _ & H)%parse_elf_inv.
  eapply (fold_outcome_inv (Forall (symbol_ok (elf_sections e)))); [exact H|constructor|].
  intros. by eapply read_symbol_table_ok.
Qed.

(** Every section but a NOBITS one lies inside the file. *)
Lemma read_section_inside data shstr indexed s :
  read_section data shstr indexed = Ok s ->
  sec_type s <> 8 -> sec_offset s + sec_size s <= len data.
Proof.
  destruct indexed as [index row]. unfold read_section.
  intros (name & _ & ([] & Hc & [= <-])%bind_Ok)%bind_Ok Ht; simpl in *.
  inv_ok. apply negb_true_iff in Hc. apply Z.eqb_neq in Ht. rewrite Ht in Hc. simpl in Hc.
  bool_prop. lia.
Qed.

Lemma parse_elf_sections_inside data e s :
  parse_elf data = Ok e -> s ∈ elf_sections e -> sec_type s <> 8 ->
  sec_offset s + sec_size s <= len data.
Proof.
  intros (class & big & raw & shstr & H & _)%parse_elf_inv Hs.
  destruct (map_outcome_elem _ _ _ _ H Hs) as (row & _ & Hr). by eapply read_section_inside.
Qed.

(** ** No builtin exception escapes the reader *)
Lemma cstring_no_crash table offset : no_crash (cstring table offset).
Proof. unfold cstring. apply no_crash_bind; [auto with nocrash|]. intros. by case_match. Qed.

Lemma no_crash_unpack {E} big fmt data offset :
  offset + calcsize fmt <= len data -> no_crash (unpack_from (E := E) big fmt data offset).
Proof. intros H. by destruct (unpack_from_ok (E := E) big fmt data offset H) as [row ->]. Qed.

Lemma symbol_fields_index class row :
  Forall (fun x => 0 <= x) row -> 0 <= (symbol_fields class row).2.
Proof. intros H. unfold symbol_fields. case_match; by apply field_nonneg. Qed.

Lemma read_symbol_no_crash class sections strtab row :
  Forall (fun x => 0 <= x) row -> no_crash (read_symbol class sections strtab row).
Proof.
  intros Hrow%(symbol_fields_index class). unfold read_symbol.
  destruct (symbol_fields class row) as [[[[name_off value] size] info] shndx]; simpl in Hrow.
  apply no_crash_bind; [case_match; auto using cstring_no_crash, no_crash_Ok|]. intros name _.
  destruct (_ || (Z.of_nat (length sections) <=? shndx)) eqn:E; [done|].
  apply orb_false_iff in E as [_ E]. bool_prop.
  destruct (lookup_lt_is_Some_2 sections (Z.to_nat shndx)) as [target ->]; [lia|].
  case_match; [done|]. eauto with nocrash.
Qed.

Lemma read_symbol_table_no_crash class big data sections symbols s :
  Forall is_byte data -> 0 <= sec_link s -> (is_symbol_table s = true -> sec_offset s + sec_size s <= len data) ->
  no_crash (read_symbol_table class big data sections symbols s).
Proof.
  intros Hdata Hlink Hin. unfold read_symbol_table.
  destruct (negb (is_symbol_table s)) eqn:Ht; [done|]. apply negb_false_iff in Ht.
  apply no_crash_bind; [auto with nocrash|]. intros [] H. inv_ok. bool_prop.
  destruct (lookup_lt_is_Some_2 sections (Z.to_nat (sec_link s))) as [strings ->]; [lia|].
  apply no_crash_bind; [auto with nocrash|]. intros [] Hc. inv_ok. bool_prop.
  set (ent_size := if sec_entry_size s =? 0 then _ else _) in *.
  assert (Hent : 0 < calcsize (symbol_fmt class)) by (unfold symbol_fmt; by case_match).
  apply no_crash_fold. intros acc pos Hpos.
  apply py_range_row_fits in Hpos; [|lia|done].
  specialize (Hin Ht).
  apply no_crash_bind; [apply no_crash_unpack; lia|]. intros row Hrow.
  apply no_crash_bind; [|done]. apply read_symbol_no_crash. by eapply unpack_from_nonneg.
Qed.

Lemma read_section_link data shstr index row s :
  Forall (fun x => 0 <= x) row -> read_section data shstr (index, row) = Ok s -> 0 <= sec_link s.
Proof.
  intros Hrow. unfold read_section.
  intros (name & _ & ([] & _ & [= <-])%bind_Ok)%bind_Ok; simpl. by apply field_nonneg.
Qed.

Lemma header_fits class data :
  (class =? 1) || negb (len data <? 64) = true -> 52 <= len data ->
  16 + calcsize (header_fmt class) <= len data.
Proof. unfold header_fmt. intros ? ?. case_match; simpl in *; bool_prop; simpl; lia. Qed.

Lemma parse_elf_no_crash data : Forall is_byte data -> no_crash (parse_elf data).
Proof.
  intros Hdata. unfold parse_elf.
  apply no_crash_bind; [auto with nocrash|]. intros [] H52. inv_ok. bool_prop.
  apply no_crash_bind; [auto with nocrash|]. intros [] _.
  apply no_crash_bind; [auto with nocrash|]. intros [] H64. inv_ok.
  set (class := field 4 data) in *. set (big := negb (field 5 data =? 1)) in *.
  apply no_crash_bind; [apply no_crash_unpack, header_fits; done|]. intros header Hheader.
  pose proof (unpack_from_nonneg _ _ _ _ _ Hdata Hheader) as Hpos.
  apply no_crash_bind; [auto with nocrash|]. intros [] _.
  apply no_crash_bind; [auto with nocrash|]. intros [] Htable. inv_ok. bool_prop.
  apply no_crash_bind; [auto with nocrash|]. intros [] Hfits. inv_ok. bool_prop.
  pose proof (field_nonneg 5 header Hpos). pose proof (field_nonneg 11 header Hpos).
  pose proof (field_nonneg 12 header Hpos).
  assert (0 < calcsize (section_fmt class)) by (unfold section_fmt; by case_match).
  apply no_crash_bind.
  { apply no_crash_map. intros i ?%elem_of_seqZ. apply no_crash_unpack.
    assert ((i + 1) * field 10 header <= field 11 header * field 10 header)
      by (apply Z.mul_le_mono_nonneg_r; lia). lia. }
  intros raw Hraw.
  pose proof (map_outcome_length _ _ _ Hraw) as Hlen. rewrite length_seqZ in Hlen.
  destruct (lookup_lt_is_Some_2 raw (Z.to_nat (field 12 header))) as [string_sec ->]; [lia|].
  set (shstr := slice _ _ _).
  apply no_crash_bind.
  { apply no_crash_map. intros [index row] _. unfold read_section.
    apply no_crash_bind; [apply cstring_no_crash|]. eauto with nocrash. }
  intros sections Hsections. apply no_crash_bind; [|eauto with nocrash].
  apply no_crash_fold. intros symbols s Hs.
  destruct (map_outcome_elem _ _ _ _ Hsections Hs) as ([index row] & Hrow & Hread).
  apply read_symbol_table_no_crash; [done| |].
  - eapply read_section_link; [|exact Hread].
    apply elem_of_zip_r in Hrow. destruct (map_outcome_elem _ _ _ _ Hraw Hrow) as (i & _ & Hi).
    by eapply unpack_from_nonneg.
  - intros Ht. eapply read_section_inside; [exact Hread|].
    unfold is_symbol_table in Ht. destruct (Z.eqb_spec (sec_type s) 2), (Z.eqb_spec (sec_type s) 11); simpl in *; lia || done.
Qed.

(** ** Sizes are positive when the data are bytes *)
Lemma read_symbol_size class sections strtab row s :
  Forall (fun x => 0 <= x) row -> read_symbol class sections strtab row = Ok (Some s) ->
  0 <= sym_address s /\ 0 < sym_size s.
Proof.
  intros Hrow H. pose proof (symbol_sized _ _ (read_symbol_ok _ _ _ _ _ H)) as Hne. revert H.
  assert (Hpos : 0 <= (symbol_fields class row).1.1.1.2 /\ 0 <= (symbol_fields class row).1.1.2)
    by (unfold symbol_fields; case_match; split; by apply field_nonneg).
  unfold read_symbol. destruct (symbol_fields class row) as [[[[name_off value] size] info] shndx].
  simpl in Hpos. intros (name & _ & H)%bind_Ok. destruct (_ || _); [done|].
  destruct (sections !! _) as [target|]; [|done]. destruct (negb (alloc_writable target)); [done|].
  apply bind_Ok in H as ([] & _ & [= <-]). simpl in *. lia.
Qed.

Lemma parse_elf_symbol_sizes data e :
  Forall is_byte data -> parse_elf data = Ok e ->
  Forall (fun s => 0 <= sym_address s /\ 0 < sym_size s) (elf_symbols e).
Proof.
  intros Hdata (class & big & raw & shstr & _ & H)%parse_elf_inv.
  eapply (fold_outcome_inv (Forall (fun s => 0 <= sym_address s /\ 0 < sym_size s))); [exact H|constructor|].
  intros acc s acc' _ Hacc Hstep. unfold read_symbol_table in Hstep. case_match; [by simplify_eq|].
  apply bind_Ok in Hstep as (_ & _ & Hstep). case_match; [|done].
  apply bind_Ok in Hstep as (_ & _ & Hstep).
  eapply (fold_outcome_inv (Forall (fun s => 0 <= sym_address s /\ 0 < sym_size s))); [exact Hstep|done|].
  intros acc1 pos acc1' _ Hacc1 Hstep1.
  apply bind_Ok in Hstep1 as (row & Hrow & (found & Hread & [= <-])%bind_Ok).
  destruct found as [sym|]; [|done].
  apply Forall_app. split; [done|]. apply Forall_singleton.
  eapply read_symbol_size; [|exact Hread]. by eapply unpack_from_nonneg.
Qed.
