(* ===== verification/StorageAudit.v ===== *)
(** * The linked-storage measurement

    [writable_section_class], [measure] and [enforce_static_storage_budget] of
    [Tools/EmbeddedApplicationMacros/linked_storage_audit.py]. *)
From S2P Require Import Prelude PyValue PyText JsonDoc Bytes ByteRanges Symbols LinkerMap ElfImage.

Inductive audit_error :=
  | ElfError (e : elf_error)
  | MapError (e : map_parse_error)
  | UnsupportedCategory (name : string)
  | ConflictingSymbols (overlaps : list (string * string))
  | DuplicateMapOutput (name : string)
  | MapDoesNotCover (name : string)
  | MapInputOutside (name : string)
  | IncompleteCoverage (name : string) (cursor : Z)
  | NoCombinedContribution
  | ManifestUnparsable | ManifestDuplicateKey (key : string) | ManifestNotObject
  | CapacitiesNotObject | CeilingNotUInt32 | NoValidDebit | AggregateMismatch.
#[export] Instance audit_error_eq_dec : EqDecision audit_error.
Proof. solve_decision. Defined.

(** ** Section classes *)
Inductive section_class := ClassBss | ClassData | ClassReserved | ClassReadOnlyContent.
#[export] Instance section_class_eq_dec : EqDecision section_class.
Proof. solve_decision. Defined.

(** [name.lower()], for tests against ASCII letters: the only other characters
    whose lower case holds an ASCII letter give [k] and [i]. *)
Definition lower (s : string) : string :=
  of_bytes ((fun b => if between 0x41 0x5A b then b + 0x20 else b) <$> string_bytes s).

Definition reserved_sections : list string :=
  [".noinit"; ".rtc_reserved"; ".iram0.text_end"; ".flash_rodata_dummy"; ".dram0.heap_start"].

Definition writable_section_class (name : string) : outcome audit_error section_class :=
  let lowered := lower name in
  if contains "bss" lowered then Ok ClassBss
  else if contains "data" lowered && negb (contains "rodata" lowered) then Ok ClassData
  else if bool_decide (name ∈ reserved_sections) then Ok ClassReserved
  else if contains "rodata" lowered then Ok ClassReadOnlyContent
  else Raise (UnsupportedCategory name).

(** ** Coverage of a writable section by the inputs of its map output *)
Definition in_stop (i : map_input) : Z := in_address i + in_size i.
Definition in_range (i : map_input) : range := (in_address i, in_stop i).

(** The sort key [(start, stop)]. *)
Definition input_le (a b : map_input) : Prop := range_le (in_range a) (in_range b).
#[export] Instance input_le_dec a b : Decision (input_le a b).
Proof. unfold input_le. apply _. Defined.

Definition coverage_step (name : string) (cursor : Z) (item : map_input) : outcome audit_error Z :=
  check (in_address item <=? cursor) (IncompleteCoverage name cursor) ;;
  Ok (Z.max cursor (in_stop item)).

Definition check_coverage (name : string) (mapped : map_output) : outcome audit_error unit :=
  let stop := out_address mapped + out_size mapped in
  for_each (fun item =>
      check (negb ((in_address item <? out_address mapped) || (stop <? in_stop item)))
            (MapInputOutside name)) (out_inputs mapped) ;;
  let sized := List.filter (fun item => negb (in_size item =? 0)) (out_inputs mapped) in
  cursor ← fold_outcome (coverage_step name) (out_address mapped) (sort_by input_le sized);
  check (cursor =? stop) (IncompleteCoverage name cursor).

Definition find_output (name : string) (outputs : list map_output) : option map_output :=
  List.find (fun o => String.eqb (out_name o) name) outputs.

Fixpoint check_unique_outputs (seen : list string) (outputs : list map_output) :
    outcome audit_error unit :=
  match outputs with
  | [] => Ok tt
  | o :: outputs =>
      check (negb (bool_decide (out_name o ∈ seen))) (DuplicateMapOutput (out_name o)) ;;
      check_unique_outputs (out_name o :: seen) outputs
  end.

Definition check_section (outputs : list map_output) (s : section) : outcome audit_error unit :=
  match find_output (sec_name s) outputs with
  | Some mapped =>
      check ((out_address mapped =? sec_address s) && (out_size mapped =? sec_size s))
            (MapDoesNotCover (sec_name s)) ;;
      check_coverage (sec_name s) mapped
  | None => Raise (MapDoesNotCover (sec_name s))
  end.

(** ** The combined object's contributions and the padding that touches them

    [selected] holds positions in the output's inputs: the code compares the
    items by identity. One pass of the [while] loop tests every item against the
    ranges selected before the pass. *)
Definition is_fill (i : map_input) : bool := String.eqb (in_section i) "*fill*".
Definition touches (ranges : list range) (i : map_input) : bool :=
  existsb (fun r => (in_stop i =? r.1) || (in_address i =? r.2)) ranges.
Definition selected_ranges (inputs : list map_input) (selected : list nat) : list range :=
  omap (fun n => in_range <$> inputs !! n) selected.

Definition fill_step (inputs : list map_input) (ranges : list range) (selected : list nat) (n : nat) :
    list nat :=
  match inputs !! n with
  | Some item =>
      if negb (is_fill item) || bool_decide (n ∈ selected) then selected
      else if touches ranges item then selected ++ [n] else selected
  | None => selected
  end.

Definition fill_pass (inputs : list map_input) (selected : list nat) : list nat :=
  foldl (fill_step inputs (selected_ranges inputs selected)) selected (seq 0 (length inputs)).

(** [while changed]: every pass but the last selects one more item. *)
Fixpoint fill_loop (fuel : nat) (inputs : list map_input) (selected : list nat) : list nat :=
  match fuel with
  | O => selected
  | S fuel =>
      let selected' := fill_pass inputs selected in
      if Nat.eqb (length selected') (length selected) then selected
      else fill_loop fuel inputs selected'
  end.

Definition matching_inputs (identity : string) (inputs : list map_input) : list nat :=
  List.filter (fun n => match inputs !! n with
                        | Some i => String.eqb (in_owner i) identity && negb (in_size i =? 0)
                        | None => false
                        end) (seq 0 (length inputs)).

Definition select_contributions (identity : string) (inputs : list map_input) : list nat :=
  match matching_inputs identity inputs with
  | [] => []
  | matching => fill_loop (S (length inputs)) inputs matching
  end.

(** The rows of [object_sections]: the output section and the input. *)
Definition contributions_of (identity : string) (o : map_output) : list (string * map_input) :=
  omap (fun n => pair (out_name o) <$> out_inputs o !! n)
       (select_contributions identity (out_inputs o)).

(** ** The report: the fields [measure] computes *)
Record report_symbol := ReportSymbol {
  rs_symbol : symbol;
  rs_aliases : list string;
  rs_range_bytes_union : Z;
  rs_recognized : option string
}.

Record storage_report := StorageReport {
  rp_sections : list (section * section_class);
  rp_data_bytes : Z;
  rp_bss_bytes : Z;
  rp_symbols : list report_symbol;
  rp_exact_union : Z;
  rp_contributions : list (string * map_input);
  rp_conservative_debit : Z;
  rp_symbol_ranges_inside : Z;
  rp_aggregate : Z
}.

(** [sorted(symbols, key=(address, size, name))] *)
Definition report_key_le (a b : symbol) : Prop :=
  sym_address a < sym_address b \/
  (sym_address a = sym_address b /\
   (sym_size a < sym_size b \/
    (sym_size a = sym_size b /\ String.leb (sym_name a) (sym_name b) = true))).
#[export] Instance report_key_le_dec a b : Decision (report_key_le a b).
Proof. unfold report_key_le. apply _. Defined.

Definition alias_key (s : symbol) : Z * Z * string := (sym_address s, sym_size s, sym_section s).
Definition aliases_of (symbols : list symbol) (s : symbol) : list string :=
  sorted_strings (sym_name <$> List.filter (fun t => bool_decide (alias_key t = alias_key s)) symbols).

Definition recognized_identity (name : string) : option string :=
  if contains "__axoloty_application_state" name then Some "generated-state"
  else if contains "phase4AgentA" name then Some "phase4AgentA"
  else if contains "phase4AgentB" name then Some "phase4AgentB" else None.

Definition report_symbol_of (symbols : list symbol) (s : symbol) : report_symbol :=
  let aliases := aliases_of symbols s in
  ReportSymbol s aliases
    (match aliases with a :: _ => if String.eqb a (sym_name s) then sym_size s else 0 | [] => 0 end)
    (recognized_identity (sym_name s)).

Definition symbol_range (s : symbol) : range := (sym_address s, sym_stop s).

(** The non-empty intersections of the symbol ranges with the object ranges. *)
Definition intersections (symbols objects : list range) : list range :=
  ab ← symbols;
  List.filter (fun r => r.1 <? r.2) ((fun cd => (Z.max ab.1 cd.1, Z.min ab.2 cd.2)) <$> objects).

Definition sum_of (f : section -> Z) (l : list section) : Z := foldr (fun s acc => f s + acc) 0 l.
Definition of_class (c : section_class) (classed : list (section * section_class)) : list section :=
  fst <$> List.filter (fun sc => bool_decide (sc.2 = c)) classed.

(** [measure] from the parsed image and the parsed map. *)
Definition measure_parsed (sections : list section) (elf_symbols : list symbol)
    (outputs : list map_output) (object_identity : string) : outcome audit_error storage_report :=
  let alloc_write := List.filter alloc_writable sections in
  classed ← map_outcome (fun s => pair s <$> writable_section_class (sec_name s)) alloc_write;
  let symbols := sort_by report_key_le elf_symbols in
  let overlaps := conflicting_overlaps symbols in
  check (bool_decide (overlaps = [])) (ConflictingSymbols overlaps) ;;
  check_unique_outputs [] outputs ;;
  for_each (check_section outputs) (List.filter (fun s => negb (sec_size s =? 0)) alloc_write) ;;
  let object_sections :=
    List.filter (fun o => bool_decide (out_name o ∈ sec_name <$> alloc_write)) outputs
      ≫= contributions_of object_identity in
  check (negb (bool_decide (object_sections = []))) NoCombinedContribution ;;
  let object_ranges := (fun x => in_range x.2) <$> object_sections in
  let combined_bytes := merged_bytes object_ranges in
  Ok (StorageReport classed
        (sum_of sec_size (of_class ClassData classed)) (sum_of sec_size (of_class ClassBss classed))
        (report_symbol_of symbols <$> symbols)
        (merged_bytes (symbol_range <$> symbols))
        object_sections combined_bytes
        (merged_bytes (intersections (symbol_range <$> symbols) object_ranges))
        combined_bytes).

Definition measure (elf_bytes map_bytes : list Z) (object_identity : string) :
    outcome audit_error storage_report :=
  image ← map_error ElfError (parse_elf elf_bytes);
  outputs ← map_error MapError (parse_map (decode_replace map_bytes) object_identity);
  measure_parsed (elf_sections image) (elf_symbols image) outputs object_identity.

(** ** The static-storage budget *)
Record budget := Budget {
  bd_actual : Z;
  bd_ceiling : Z;
  bd_headroom : Z;
  bd_passed : bool
}.

(** [manifest] is the tree of the manifest bytes, [None] when they do not decode
    or scan as JSON. *)
Definition enforce_static_storage_budget (report : storage_report) (manifest : option jtree) :
    outcome audit_error budget :=
  value ← (match manifest with
           | Some t => map_error ManifestDuplicateKey (loads_unique t)
           | None => Raise ManifestUnparsable
           end);
  match value with
  | PDict manifest =>
      match get "capacities" manifest with
      | PDict capacities =>
          let ceiling := get "applicationStaticStorageBytes" capacities in
          match as_int ceiling with
          | Some ceiling =>
              check (positive_uint32 (PInt ceiling)) CeilingNotUInt32 ;;
              let actual := rp_conservative_debit report in
              check (negb (actual <? 0)) NoValidDebit ;;
              check (rp_aggregate report =? actual) AggregateMismatch ;;
              Ok (Budget actual ceiling (ceiling - actual) (actual <=? ceiling))
          | None => Raise CeilingNotUInt32
          end
      | _ => Raise CapacitiesNotObject
      end
  | _ => Raise ManifestNotObject
  end.

(** The exit status of a run with [--enforce-static-storage-budget] that reached
    the comparison. *)
Definition budget_exit (b : budget) : Z := if bd_passed b then 0 else 2.

(** ** Coverage *)
#[export] Instance input_le_total : Total input_le.
Proof. intros a b. apply (total range_le). Qed.
#[export] Instance input_le_trans : Transitive input_le.
Proof. intros a b c. apply (transitivity (R := range_le)). Qed.

Lemma coverage_loop name cursor items cursor' :
  StronglySorted input_le items ->
  fold_outcome (coverage_step name) cursor items = Ok cursor' ->
  cursor <= cursor' /\
  (forall x, cursor <= x < cursor' -> exists i, i ∈ items /\ in_address i <= x < in_stop i) /\
  (forall i, i ∈ items -> in_stop i <= cursor').
Proof.
  intros Hs. revert cursor. induction Hs as [|i items Hs IH Hi]; intros cursor; simpl.
  { intros [= ->]. split; [lia|]. split; [intros; lia|]. intros i Hin. by apply elem_of_nil in Hin. }
  unfold coverage_step at 1. intros (c & ([] & Hc & [= <-])%bind_Ok & H)%bind_Ok.
  apply check_Ok in Hc. bool_prop. destruct (IH _ H) as (Hle & Hcov & Hmax).
  split; [lia|]. split.
  - intros x Hx. destruct (decide (Z.max cursor (in_stop i) <= x)).
    + destruct (Hcov x) as (j & ? & ?); [lia|]. exists j. split; [by apply list_elem_of_further|done].
    + exists i. split; [apply list_elem_of_here|lia].
  - intros j [->|Hj]%elem_of_cons; [lia|by apply Hmax].
Qed.

(** A checked output section is tiled by its inputs: together they cover
    exactly its addresses. *)
Lemma check_coverage_exact name o :
  Forall (fun i => 0 <= in_size i) (out_inputs o) -> check_coverage name o = Ok tt ->
  covered (in_range <$> out_inputs o) = addresses (out_address o, out_address o + out_size o).
Proof.
  intros Hpos H. unfold check_coverage in H.
  apply bind_Ok in H as ([] & Hin & H). apply for_each_Ok in Hin. rewrite Forall_forall in Hin, Hpos.
  apply bind_Ok in H as (cursor & Hloop & H). apply check_Ok in H. bool_prop. subst cursor.
  apply coverage_loop in Hloop as (_ & Hcov & _); [|apply sort_by_sorted; apply _].
  apply set_eq. intros x. rewrite elem_of_covered, elem_of_addresses. simpl.
  setoid_rewrite list_elem_of_fmap. split.
  - intros (r & (i & -> & Hi) & Hx). specialize (Hin i Hi). simpl in *.
    apply check_Ok in Hin. bool_prop. lia.
  - intros Hx. destruct (Hcov x Hx) as (i & Hi & ?).
    rewrite elem_of_sort_by, elem_of_filterb in Hi. destruct Hi as [Hi _].
    exists (in_range i). split; [by exists i|done].
Qed.
