(* ===== verification/FillClosure.v ===== *)
(** * The padding closure of the measurement

    The [while changed] loop of [measure] selects the linker's fill rows that
    touch a selected row, until nothing changes. It terminates, and it selects
    the least set that holds the combined object's sized inputs and every fill
    row adjacent to a member. *)
From S2P Require Import Prelude ByteRanges Symbols LinkerMap StorageAudit.

(** Two inputs are adjacent when one ends where the other starts. *)
Definition adjacent (a b : map_input) : Prop :=
  in_stop a = in_address b \/ in_address a = in_stop b.

(** The specification: what the combined object is charged for. *)
Inductive contributes (identity : string) (inputs : list map_input) : nat -> Prop :=
  | contributes_owned n i :
      inputs !! n = Some i -> in_owner i = identity -> in_size i <> 0 ->
      contributes identity inputs n
  | contributes_fill n i m j :
      inputs !! n = Some i -> is_fill i = true ->
      inputs !! m = Some j -> contributes identity inputs m -> adjacent i j ->
      contributes identity inputs n.

Section fill.
Context (inputs : list map_input).

Definition in_bounds (selected : list nat) : Prop :=
  NoDup selected /\ Forall (fun n => (n < length inputs)%nat) selected.

Definition closed (selected : list nat) : Prop :=
  forall n i, inputs !! n = Some i -> is_fill i = true ->
    touches (selected_ranges inputs selected) i = true -> n ∈ selected.

Lemma touches_selected selected i :
  touches (selected_ranges inputs selected) i = true <->
  exists m j, m ∈ selected /\ inputs !! m = Some j /\ adjacent i j.
Proof.
  unfold touches, selected_ranges, adjacent. rewrite existsb_elem.
  setoid_rewrite list_elem_of_omap. setoid_rewrite orb_true_iff. setoid_rewrite Z.eqb_eq. split.
  - intros (r & (m & Hm & Hr) & H). destruct (inputs !! m) as [j|] eqn:E; simplify_eq/=. eauto.
  - intros (m & j & Hm & Hj & H). exists (in_range j). split; [|done].
    exists m. split; [done|]. by rewrite Hj.
Qed.

(** One pass over the positions [todo], against fixed [ranges]. *)
Lemma fill_fold_spec ranges todo selected n :
  n ∈ foldl (fill_step inputs ranges) selected todo <->
  n ∈ selected \/
  (n ∈ todo /\ exists i, inputs !! n = Some i /\ is_fill i = true /\ touches ranges i = true).
Proof.
  revert selected. induction todo as [|m todo IH]; intros selected; simpl; [set_solver|].
  rewrite IH, elem_of_cons. unfold fill_step.
  destruct (inputs !! m) as [i|] eqn:E; [|naive_solver congruence].
  destruct (is_fill i) eqn:Ef; simpl; [|naive_solver congruence].
  case_bool_decide as Hm; [naive_solver congruence|].
  destruct (touches ranges i) eqn:Et; [|naive_solver congruence].
  rewrite elem_of_app, list_elem_of_singleton. naive_solver congruence.
Qed.

Lemma fill_fold_bounds ranges todo selected :
  in_bounds selected -> in_bounds (foldl (fill_step inputs ranges) selected todo) /\
  (length selected <= length (foldl (fill_step inputs ranges) selected todo))%nat /\
  (length selected = length (foldl (fill_step inputs ranges) selected todo) ->
   foldl (fill_step inputs ranges) selected todo = selected).
Proof.
  revert selected. induction todo as [|m todo IH]; intros selected Hb; simpl; [done|].
  assert (fill_step inputs ranges selected m = selected \/
          in_bounds (selected ++ [m]) /\ fill_step inputs ranges selected m = selected ++ [m])
    as [->|[Hb' ->]].
  { unfold fill_step. destruct (inputs !! m) as [i|] eqn:E; [|by left].
    destruct (is_fill i); simpl; [|by left]. case_bool_decide as Hm; [by left|].
    destruct (touches ranges i); [right|by left]. split; [|done].
    destruct Hb as [Hn Hf]. split.
    - apply NoDup_app. split; [done|]. split; [|apply NoDup_singleton].
      by intros x Hx ->%list_elem_of_singleton.
    - apply Forall_app. split; [done|]. apply Forall_singleton. by eapply lookup_lt_Some. }
  - by apply IH.
  - destruct (IH _ Hb') as (? & Hl & _). rewrite length_app in Hl; simpl in Hl.
    split; [done|]. split; [lia|]. intros. lia.
Qed.

Lemma fill_pass_spec selected n :
  n ∈ fill_pass inputs selected <->
  n ∈ selected \/
  exists i, inputs !! n = Some i /\ is_fill i = true /\
            touches (selected_ranges inputs selected) i = true.
Proof.
  unfold fill_pass. rewrite fill_fold_spec. split; [naive_solver|].
  intros [?|(i & Hi & ?)]; [by left|right]. split; [|by exists i].
  apply elem_of_seq. apply lookup_lt_Some in Hi. lia.
Qed.

Lemma bounded_length selected : in_bounds selected -> (length selected <= length inputs)%nat.
Proof.
  intros [Hn Hf]. rewrite <- (length_seq (length inputs) 0).
  apply submseteq_length, NoDup_submseteq; [done|].
  intros x Hx. rewrite Forall_forall in Hf. apply elem_of_seq. specialize (Hf x Hx). lia.
Qed.

(** Enough fuel: the loop ends in a closed selection. *)
Lemma fill_loop_closed fuel selected :
  in_bounds selected -> (length inputs - length selected < fuel)%nat ->
  closed (fill_loop fuel inputs selected).
Proof.
  revert selected. induction fuel as [|fuel IH]; intros selected Hb Hf; [lia|]. simpl.
  destruct (fill_fold_bounds (selected_ranges inputs selected) (seq 0 (length inputs)) selected Hb)
    as (Hb' & Hle & Heq). fold (fill_pass inputs selected) in Hb', Hle, Heq.
  destruct (Nat.eqb_spec (length (fill_pass inputs selected)) (length selected)) as [E|E].
  - intros n i Hi Hfill Ht. rewrite <- Heq by done. apply fill_pass_spec. eauto.
  - apply IH; [done|]. pose proof (bounded_length _ Hb'). lia.
Qed.

Lemma fill_loop_ind (P : nat -> Prop) fuel selected :
  (forall n i, inputs !! n = Some i -> is_fill i = true ->
     (exists m j, P m /\ inputs !! m = Some j /\ adjacent i j) -> P n) ->
  (forall n, n ∈ selected -> P n) ->
  (forall n, n ∈ selected -> n ∈ fill_loop fuel inputs selected) /\
  (forall n, n ∈ fill_loop fuel inputs selected -> P n).
Proof.
  intros Hstep. revert selected. induction fuel as [|fuel IH]; intros selected HP; simpl; [done|].
  destruct (Nat.eqb _ _); [done|].
  destruct (IH (fill_pass inputs selected)) as [H1 H2].
  - intros n [?|(i & Hi & Hf & (m & j & Hm & ? & ?)%touches_selected)]%fill_pass_spec; [auto|].
    eapply Hstep; [exact Hi|exact Hf|]. exists m, j. auto.
  - split; [|done]. intros n ?. apply H1, fill_pass_spec. by left.
Qed.
End fill.

Lemma elem_of_matching_inputs identity inputs n :
  n ∈ matching_inputs identity inputs <->
  exists i, inputs !! n = Some i /\ in_owner i = identity /\ in_size i <> 0.
Proof.
  unfold matching_inputs. rewrite elem_of_filterb, elem_of_seq.
  destruct (inputs !! n) as [i|] eqn:E; [|naive_solver].
  rewrite andb_true_iff, negb_true_iff, String.eqb_eq, Z.eqb_neq.
  apply lookup_lt_Some in E. naive_solver lia.
Qed.

Lemma matching_in_bounds identity inputs : in_bounds inputs (matching_inputs identity inputs).
Proof.
  split.
  - apply NoDup_ListNoDup, List.NoDup_filter, NoDup_ListNoDup, NoDup_seq.
  - apply Forall_forall. intros n (i & Hi & _)%elem_of_matching_inputs. by eapply lookup_lt_Some.
Qed.

Lemma select_contributions_elem identity inputs n :
  n ∈ select_contributions identity inputs <-> contributes identity inputs n.
Proof.
  unfold select_contributions.
  destruct (matching_inputs identity inputs) as [|m0 ms] eqn:E.
  - split; [by intros ?%elem_of_nil|]. induction 1 as [n i Hi Ho Hs|n i m j Hi Hf Hj _ IH _];
      [|by apply elem_of_nil in IH].
    rewrite <- E. apply elem_of_matching_inputs. eauto.
  - rewrite <- E. set (fuel := S (length inputs)).
    destruct (fill_loop_ind inputs (contributes identity inputs) fuel (matching_inputs identity inputs))
      as [Hkeep Honly].
    + intros k i Hi Hf (m & j & ? & ? & ?). by eapply contributes_fill.
    + intros k (i & ? & ? & ?)%elem_of_matching_inputs. by eapply contributes_owned.
    + split; [apply Honly|].
      assert (Hc : closed inputs (fill_loop fuel inputs (matching_inputs identity inputs))).
      { apply fill_loop_closed; [apply matching_in_bounds|unfold fuel; lia]. }
      induction 1 as [k i Hi Ho Hs|k i m j Hi Hf Hj _ IH Hadj].
      * apply Hkeep, elem_of_matching_inputs. eauto.
      * apply (Hc k i Hi Hf), touches_selected. eauto.
Qed.

(** A closed selection is a fixed point of the loop body. *)
Lemma closed_fill_pass inputs selected :
  closed inputs selected -> fill_pass inputs selected = selected.
Proof.
  intros Hc. unfold fill_pass. generalize (seq 0 (length inputs)) as todo.
  induction todo as [|n todo IH]; simpl; [done|].
  assert (fill_step inputs (selected_ranges inputs selected) selected n = selected) as ->; [|done].
  unfold fill_step. destruct (inputs !! n) as [i|] eqn:E; [|done].
  destruct (is_fill i) eqn:Ef; simpl; [|done]. case_bool_decide; [done|].
  destruct (touches _ i) eqn:Et; [|done].
  pose proof (Hc n i E Ef Et). contradiction.
Qed.

Lemma select_contributions_closed identity inputs :
  closed inputs (select_contributions identity inputs).
Proof.
  unfold select_contributions. destruct (matching_inputs identity inputs) eqn:E.
  - intros n i _ _ H. discriminate H.
  - rewrite <- E. apply fill_loop_closed; [apply matching_in_bounds|unfold lt; apply le_n_S, Nat.le_sub_l].
Qed.
