(* ===== verification/Fixture.v ===== *)
(** * A miniature linked image: concrete inputs for the storage theorems

    The ELF32 image, map and manifest of the audit's own self-test: a [.data]
    section of 8 bytes with two aliases of one 4-byte symbol, and a [.bss]
    section of 16 bytes of which the linker padded the last 8. *)
From S2P Require Import Prelude PyValue PyText JsonDoc Bytes ByteRanges Symbols LinkerMap ElfImage StorageAudit.

Definition nul_terminated (l : list string) : list Z :=
  0 :: concat ((fun s => string_bytes s ++ [0]) <$> l).
Definition names_table : list Z := nul_terminated [".shstrtab"; ".strtab"; ".symtab"; ".data"; ".bss"].
Definition symbol_names : list Z := nul_terminated ["state"; "state_alias"; "tail"].

Definition names_off : Z := 52.
Definition str_off : Z := names_off + len names_table.
Definition sym_off : Z := str_off + len symbol_names.
Definition data_off : Z := sym_off + 64.
Definition sections_off : Z := data_off + 8.

Definition fixture_elf : list Z :=
  elf_magic ++ [1; 1; 1; 0; 0; 0; 0; 0; 0; 0; 0; 0]
  ++ pack_fields (header_fmt 1) [2; 243; 1; 0; 0; sections_off; 0; 52; 32; 0; 40; 6; 1]
  ++ names_table ++ symbol_names
  ++ replicate 16 0
  ++ pack_fields (symbol_fmt 1) [1; 0x1000; 4; 0x11; 0; 4]
  ++ pack_fields (symbol_fmt 1) [7; 0x1000; 4; 0x11; 0; 4]
  ++ pack_fields (symbol_fmt 1) [19; 0x2000; 8; 0x11; 0; 5]
  ++ string_bytes "12345678"
  ++ concat (pack_fields (section_fmt 1) <$>
       [[0; 0; 0; 0; 0; 0; 0; 0; 0; 0];
        [1; 3; 0; 0; names_off; len names_table; 0; 0; 1; 0];
        [11; 3; 0; 0; str_off; len symbol_names; 0; 0; 1; 0];
        [19; 2; 0; 0; sym_off; 64; 2; 1; 4; 16];
        [27; 1; 3; 0x1000; data_off; 8; 0; 0; 4; 0];
        [33; 8; 3; 0x2000; data_off + 8; 16; 0; 0; 4; 0]]).

Definition fixture_map_bytes : list Z := string_bytes fixture_map.

Definition fixture_report : storage_report :=
  match measure fixture_elf fixture_map_bytes "combined.o" with
  | Ok r => r
  | _ => StorageReport [] 0 0 [] 0 [] 0 0 0
  end.

Lemma fixture_bytes : Forall is_byte fixture_elf.
Proof.
  apply Forall_forall. intros b Hb.
  assert (forallb (fun b => (0 <=? b) && (b <? 256)) fixture_elf = true) as H
    by (vm_compute; reflexivity).
  rewrite forallb_elem in H. specialize (H b Hb). unfold is_byte. bool_prop. lia.
Qed.

Lemma fixture_measured : measure fixture_elf fixture_map_bytes "combined.o" = Ok fixture_report.
Proof. vm_compute. reflexivity. Qed.

Example fixture_debit :
  rp_conservative_debit fixture_report = 24 /\ rp_symbol_ranges_inside fixture_report = 12 /\
  rp_exact_union fixture_report = 12 /\ rp_data_bytes fixture_report = 8 /\
  rp_bss_bytes fixture_report = 16.
Proof. vm_compute. repeat split. Qed.

Definition fixture_manifest (ceiling : Z) : jtree :=
  JObject [("capacities", JObject [("applicationStaticStorageBytes", JInt ceiling)])].

Example fixture_budget_23 :
  enforce_static_storage_budget fixture_report (Some (fixture_manifest 23)) = Ok (Budget 24 23 (-1) false).
Proof. vm_compute. reflexivity. Qed.
