(* ===== verification/Measurement.v ===== *)
(** * What a linked-storage measurement establishes *)
From S2P Require Import Prelude PyValue PyText JsonDoc Bytes ByteRanges Symbols LinkerMap ElfImage StorageAudit FillClosure Fixture.


Lemma measure_inv elf_bytes map_bytes identity r :
  measure elf_bytes map_bytes identity = Ok r ->
  exists image outputs,
    parse_elf elf_bytes = Ok image /\
    parse_map (decode_replace map_bytes) identity = Ok outputs /\
    measure_parsed (elf_sections image) (elf_symbols image) outputs identity = Ok r.
Proof.
  unfold measure. intros (image & He%map_error_Ok & (outputs & Hm%map_error_Ok & H)%bind_Ok)%bind_Ok.
  eauto.
Qed.

(** The successful steps of [measure_parsed]. *)
Record measured (sections : list section) (syms : list symbol) (outputs : list map_output)
    (identity : string) (r : storage_report) : Prop := {
  measured_no_overlap : conflicting_overlaps (sort_by report_key_le syms) = [];
  measured_sections : forall s, s ∈ sections -> alloc_writable s = true -> sec_size s <> 0 ->
    check_section outputs s = Ok tt;
  measured_contributions : rp_contributions r =
    (List.filter (fun o => bool_decide (out_name o ∈ sec_name <$> List.filter alloc_writable sections)) outputs
      ≫= contributions_of identity);
  measured_debit : rp_conservative_debit r = merged_bytes ((fun x => in_range x.2) <$> rp_contributions r);
  measured_aggregate : rp_aggregate r = rp_conservative_debit r;
  measured_union : rp_exact_union r = merged_bytes (symbol_range <$> sort_by report_key_le syms);
  measured_inside : rp_symbol_ranges_inside r =
    merged_bytes (intersections (symbol_range <$> sort_by report_key_le syms)
                                ((fun x => in_range x.2) <$> rp_contributions r))
}.

Lemma measure_parsed_inv sections syms outputs identity r :
  measure_parsed sections syms outputs identity = Ok r -> measured sections syms outputs identity r.
Proof.
  unfold measure_parsed. intros (classed & _ & H)%bind_Ok.
  apply bind_Ok in H as ([] & Hov & H). apply check_Ok in Hov. bool_prop.
  apply bind_Ok in H as ([] & _ & H). apply bind_Ok in H as ([] & Hs & H).
  apply for_each_Ok in Hs. rewrite Forall_forall in Hs.
  apply bind_Ok in H as ([] & _ & [= <-]). constructor; simpl; try done.
  intros s Hin Ha Hz. apply Hs. rewrite !elem_of_filterb, negb_true_iff, Z.eqb_neq. auto.
Qed.

Lemma covered_intersections syms objs :
  covered (intersections syms objs) = covered syms ∩ covered objs.
Proof.
  apply set_eq. intros x. rewrite elem_of_intersection, !elem_of_covered. split.
  - intros (r & Hr & Hx). apply list_elem_of_bind in Hr as (ab & Hr & Hab).
    apply elem_of_filterb in Hr as [Hr _]. apply list_elem_of_fmap in Hr as (cd & -> & Hcd).
    cbn [fst snd] in Hx. split; [exists ab|exists cd]; split; try done; lia.
  - intros [(ab & Hab & Hx) (cd & Hcd & Hy)].
    exists (Z.max ab.1 cd.1, Z.min ab.2 cd.2). split; [|cbn [fst snd]; lia].
    apply list_elem_of_bind. exists ab. split; [|done]. apply elem_of_filterb.
    split; [|cbn [fst snd]; lia]. apply list_elem_of_fmap. by exists cd.
Qed.

Lemma intersections_ordered syms objs : Forall well_ordered (intersections syms objs).
Proof.
  apply Forall_forall. intros r (ab & Hr & _)%list_elem_of_bind.
  apply elem_of_filterb in Hr as [_ Hr]. bool_prop. unfold well_ordered. lia.
Qed.

Lemma contributions_ordered sections syms outputs identity r :
  measured sections syms outputs identity r -> Forall output_ok outputs ->
  Forall well_ordered ((fun x => in_range x.2) <$> rp_contributions r).
Proof.
  intros Hm Ho. rewrite (measured_contributions _ _ _ _ _ Hm).
  apply Forall_fmap, Forall_forall. intros x (o & Hx & Hin)%list_elem_of_bind.
  apply elem_of_filterb in Hin as [Hin _]. rewrite Forall_forall in Ho.
  destruct (Ho o Hin) as (_ & _ & Hi).
  unfold contributions_of in Hx. apply list_elem_of_omap in Hx as (n & _ & Hn).
  destruct (out_inputs o !! n) as [i|] eqn:E; simplify_eq/=.
  rewrite Forall_forall in Hi. destruct (Hi i); [by eapply list_elem_of_lookup_2|].
  unfold well_ordered, in_range, in_stop; simpl. lia.
Qed.

Lemma only_aliases_overlap_perm l l' :
  l ≡ₚ l' -> only_aliases_overlap l -> only_aliases_overlap l'.
Proof. unfold only_aliases_overlap. intros Hp H a b. rewrite <- Hp. apply H. Qed.

Section measurement.
Context (elf_bytes map_bytes : list Z) (identity : string) (r : storage_report).
Hypothesis (Hbytes : Forall is_byte elf_bytes).
Hypothesis (Hmeasure : measure elf_bytes map_bytes identity = Ok r).

Lemma measure_facts :
  exists image outputs,
    parse_elf elf_bytes = Ok image /\
    parse_map (decode_replace map_bytes) identity = Ok outputs /\
    measured (elf_sections image) (elf_symbols image) outputs identity r /\
    Forall output_ok outputs /\
    Forall (fun s => 0 <= sym_address s /\ 0 < sym_size s) (elf_symbols image).
Proof.
  destruct (measure_inv _ _ _ _ Hmeasure) as (image & outputs & He & Hm & Hr).
  exists image, outputs. destruct (parse_map_inv _ _ _ Hm).
  eauto 10 using measure_parsed_inv, parse_elf_symbol_sizes.
Qed.
End measurement.

(** C12: the charge for the combined object is the number of addresses its
    contributions cover, aliases and overlapping rows counted once; the symbol
    bytes inside them are the symbol addresses the contributions cover, and
    never exceed the charge. *)
Theorem measure_charges_covered_addresses elf_bytes map_bytes identity r :
  Forall is_byte elf_bytes -> measure elf_bytes map_bytes identity = Ok r ->
  exists image, parse_elf elf_bytes = Ok image /\
    let charged := covered ((fun x => in_range x.2) <$> rp_contributions r) in
    let named := covered (symbol_range <$> elf_symbols image) in
    rp_aggregate r = Z.of_nat (size charged) /\
    rp_symbol_ranges_inside r = Z.of_nat (size (named ∩ charged)) /\
    rp_exact_union r = Z.of_nat (size named) /\
    rp_symbol_ranges_inside r <= rp_conservative_debit r.
Proof.
  intros Hb H. destruct (measure_facts _ _ _ _ Hb H) as (image & outputs & He & _ & Hm & Ho & Hs).
  exists image. split; [done|]. simpl.
  pose proof (contributions_ordered _ _ _ _ _ Hm Ho) as Hord.
  assert (Hsym : covered (symbol_range <$> sort_by report_key_le (elf_symbols image)) =
                 covered (symbol_range <$> elf_symbols image))
    by (apply covered_perm, fmap_Permutation, sort_by_perm).
  rewrite (measured_aggregate _ _ _ _ _ Hm), (measured_debit _ _ _ _ _ Hm),
    (measured_inside _ _ _ _ _ Hm), (measured_union _ _ _ _ _ Hm).
  rewrite (merged_bytes_covered (intersections _ _)) by apply intersections_ordered.
  rewrite (merged_bytes_covered (_ <$> rp_contributions r)) by done.
  rewrite merged_bytes_covered.
  - rewrite covered_intersections, Hsym. repeat split.
    apply Nat2Z.inj_le, subseteq_size. set_solver.
  - apply Forall_fmap. rewrite sort_by_perm. eapply Forall_impl; [exact Hs|].
    intros s [? ?]. unfold well_ordered, symbol_range, sym_stop; simpl. lia.
Qed.

(** C15: in a measured image, every allocated writable section of non-zero size
    is tiled by the inputs of the map output with its name, address and size, and
    two writable symbols of one section overlap only when they are aliases of
    the same range. *)
Theorem measure_accounts_for_writable_image elf_bytes map_bytes identity r :
  Forall is_byte elf_bytes -> measure elf_bytes map_bytes identity = Ok r ->
  exists image outputs,
    parse_elf elf_bytes = Ok image /\
    parse_map (decode_replace map_bytes) identity = Ok outputs /\
    only_aliases_overlap (elf_symbols image) /\
    forall s, s ∈ elf_sections image -> alloc_writable s = true -> sec_size s <> 0 ->
      exists o, o ∈ outputs /\ out_name o = sec_name s /\
        covered (in_range <$> out_inputs o) = addresses (sec_address s, sec_address s + sec_size s).
Proof.
  intros Hb H. destruct (measure_facts _ _ _ _ Hb H) as (image & outputs & He & Hp & Hm & Ho & Hs).
  exists image, outputs. repeat split; [done|done| |].
  - apply (only_aliases_overlap_perm _ _ (sort_by_perm report_key_le _)).
    apply conflicting_overlaps_nil; [|by apply Hm].
    rewrite sort_by_perm. eapply Forall_impl; [exact Hs|]. naive_solver.
  - intros s Hin Ha Hz. pose proof (measured_sections _ _ _ _ _ Hm s Hin Ha Hz) as Hc.
    unfold check_section in Hc. destruct (find_output (sec_name s) outputs) as [o|] eqn:Ef; [|done].
    apply List.find_some in Ef as [Hino En]. apply list_elem_of_In in Hino. apply String.eqb_eq in En.
    apply bind_Ok in Hc as ([] & Hsame & Hc). apply check_Ok in Hsame. bool_prop.
    exists o. split; [done|]. split; [done|].
    rewrite Forall_forall in Ho. destruct (Ho o Hino) as (_ & _ & Hi).
    rewrite (check_coverage_exact (sec_name s) o); [by repeat f_equal| |done].
    eapply Forall_impl; [exact Hi|]. by intros i [_ ?].
Qed.

(** ** Witnesses at the self-test's image *)
Lemma measure_charges_witness :
  Forall is_byte fixture_elf /\ measure fixture_elf fixture_map_bytes "combined.o" = Ok fixture_report /\
  rp_symbol_ranges_inside fixture_report <= rp_conservative_debit fixture_report.
Proof.
  split; [exact fixture_bytes|]. split; [exact fixture_measured|].
  destruct (measure_charges_covered_addresses _ _ _ _ fixture_bytes fixture_measured)
    as (image & _ & _ & _ & _ & H). exact H.
Defined.

Lemma measure_accounts_witness :
  Forall is_byte fixture_elf /\ measure fixture_elf fixture_map_bytes "combined.o" = Ok fixture_report /\
  exists image, parse_elf fixture_elf = Ok image /\ only_aliases_overlap (elf_symbols image).
Proof.
  split; [exact fixture_bytes|]. split; [exact fixture_measured|].
  destruct (measure_accounts_for_writable_image _ _ _ _ fixture_bytes fixture_measured)
    as (image & outputs & H & _ & Ho & _). exists image. split; [exact H|exact Ho].
Defined.
