(* ===== verification/StorageTheorems.v ===== *)
(** * Properties of the linked-storage audit, component by component

    Each theorem states what one routine of
    [Tools/EmbeddedApplicationMacros/linked_storage_audit.py] promises; the
    lemmas that carry the proofs are in the component's own file. *)
From S2P Require Import Prelude PyValue PyText JsonDoc Bytes ByteRanges Symbols LinkerMap ElfImage StorageAudit FillClosure Fixture Measurement.

(** C4: the audit charges exactly the inputs the specification [contributes]
    names, in the map outputs of the allocated writable sections: the combined
    object's inputs of non-zero size, and the padding rows adjacent to a charged
    row, transitively. *)
Theorem measure_charges_exactly elf_bytes map_bytes identity r :
  measure elf_bytes map_bytes identity = Ok r ->
  exists image outputs,
    parse_elf elf_bytes = Ok image /\
    parse_map (decode_replace map_bytes) identity = Ok outputs /\
    forall name i, (name, i) ∈ rp_contributions r <->
      exists o n, o ∈ outputs /\ out_name o = name /\
        (exists s, s ∈ elf_sections image /\ alloc_writable s = true /\ sec_name s = name) /\
        out_inputs o !! n = Some i /\ contributes identity (out_inputs o) n.
Proof.
  intros H. destruct (measure_inv _ _ _ _ H) as (image & outputs & He & Hm & Hr%measure_parsed_inv).
  exists image, outputs. split; [done|]. split; [done|]. intros name i.
  rewrite (measured_contributions _ _ _ _ _ Hr), list_elem_of_bind.
  setoid_rewrite elem_of_filterb. setoid_rewrite bool_decide_eq_true.
  setoid_rewrite list_elem_of_fmap. setoid_rewrite elem_of_filterb.
  unfold contributions_of. setoid_rewrite list_elem_of_omap.
  setoid_rewrite select_contributions_elem. split.
  - intros (o & (n & Hn & Hi) & Ho & s & Hs & ? & ?). apply fmap_Some in Hi as (j & Hj & [= -> ->]).
    exists o, n. eauto 10.
  - intros (o & n & Ho & <- & (s & ? & ? & ?) & Hi & Hc). exists o.
    split; [exists n; split; [done|]; by rewrite Hi|]. eauto 10.
Qed.

Lemma measure_charges_exactly_witness :
  measure fixture_elf fixture_map_bytes "combined.o" = Ok fixture_report /\
  exists image, parse_elf fixture_elf = Ok image.
Proof.
  split; [exact fixture_measured|].
  destruct (measure_charges_exactly _ _ _ _ fixture_measured) as (image & _ & H & _).
  exists image. exact H.
Defined.

(** The merge of sorted half-open ranges counts every covered address once,
    whatever the order and the overlaps of the ranges. *)
Theorem merged_bytes_is_union_size ranges ranges' :
  Forall well_ordered ranges -> ranges ≡ₚ ranges' ->
  merged_bytes ranges = Z.of_nat (size (covered ranges)) /\
  merged_bytes ranges' = merged_bytes ranges.
Proof.
  intros Hw Hp. rewrite !merged_bytes_covered by (done || by rewrite <- Hp).
  by rewrite (covered_perm _ _ Hp).
Qed.

Lemma merged_bytes_is_union_size_witness :
  merged_bytes [(2, 5); (0, 3); (8, 9)] = 6.
Proof.
  rewrite (proj2 (merged_bytes_is_union_size [(0, 3); (2, 5); (8, 9)] [(2, 5); (0, 3); (8, 9)]
    ltac:(repeat constructor; unfold well_ordered; simpl; lia) ltac:(constructor))).
  reflexivity.
Defined.

(** C37: the sweep over the sorted symbols finds no conflict exactly when symbols
    of one section overlap only as aliases of the same range. *)
Theorem conflicting_overlaps_complete symbols :
  Forall (fun s => 0 < sym_size s) symbols ->
  conflicting_overlaps symbols = [] <-> only_aliases_overlap symbols.
Proof. apply conflicting_overlaps_nil. Qed.

Lemma conflicting_overlaps_complete_witness :
  only_aliases_overlap [Symbol "state" 0x1000 4 ".data" 4 "OBJECT";
                        Symbol "state_alias" 0x1000 4 ".data" 4 "OBJECT";
                        Symbol "tail" 0x1004 8 ".data" 4 "OBJECT"].
Proof.
  apply conflicting_overlaps_complete; [repeat constructor; simpl; lia|]. vm_compute. reflexivity.
Defined.

(** The padding closure terminates with a set that is closed: a further pass
    selects nothing, so the [while changed] loop has reached its fixed point
    within the bound of its model. *)
Theorem fill_closure_terminates identity inputs :
  fill_pass inputs (select_contributions identity inputs) = select_contributions identity inputs.
Proof. apply closed_fill_pass, select_contributions_closed. Qed.

(** C38: reading an image never lets a builtin exception escape; a parsed image
    holds its sections inside the file, and every symbol it reports has a name and
    a size and lies inside an allocated writable section. *)
Theorem parse_elf_safe data :
  Forall is_byte data ->
  no_crash (parse_elf data) /\
  forall e, parse_elf data = Ok e ->
    (forall s, s ∈ elf_sections e -> sec_type s <> 8 -> sec_offset s + sec_size s <= len data) /\
    Forall (symbol_ok (elf_sections e)) (elf_symbols e).
Proof.
  intros Hb. split; [by apply parse_elf_no_crash|]. intros e He.
  split; [eauto using parse_elf_sections_inside|]. by eapply parse_elf_symbols_ok.
Qed.

Lemma parse_elf_safe_witness : no_crash (parse_elf fixture_elf).
Proof. exact (proj1 (parse_elf_safe fixture_elf fixture_bytes)). Defined.

(** A parsed map has non-negative addresses and sizes, and holds an input of
    the combined object the caller named. *)
Theorem parse_map_finds_object text identity outputs :
  parse_map text identity = Ok outputs ->
  Forall output_ok outputs /\ has_owner identity outputs.
Proof. apply parse_map_inv. Qed.

Lemma parse_map_finds_object_witness : has_owner "combined.o" fixture_outputs.
Proof. exact (proj2 (parse_map_finds_object _ _ _ parse_fixture_map)). Defined.

(** C40: [object_pairs_hook=unique_object] accepts exactly the documents in which
    no object repeats a key, and then builds the same value as [json.loads]. *)
Theorem loads_unique_exact t v :
  loads_unique t = Ok v <-> unique_keys t = true /\ v = loads t.
Proof.
  destruct (unique_keys t) eqn:E.
  - rewrite (loads_unique_accepts t E). naive_solver.
  - destruct (loads_unique_rejects t E) as [k ->]. naive_solver.
Qed.

Definition declares_ceiling (t : jtree) (ceiling : Z) : Prop :=
  unique_keys t = true /\ 0 < ceiling < 2 ^ 32 /\
  exists manifest capacities,
    loads t = PDict manifest /\ get "capacities" manifest = PDict capacities /\
    get "applicationStaticStorageBytes" capacities = PInt ceiling.

Definition charged_bytes (r : storage_report) : Z :=
  Z.of_nat (size (covered ((fun x => in_range x.2) <$> rp_contributions r))).

Lemma loads_unique_Ok t v : loads_unique t = Ok v -> unique_keys t = true /\ loads t = v.
Proof.
  destruct (unique_keys t) eqn:E.
  - rewrite (loads_unique_accepts t E). by intros [= <-].
  - by destruct (loads_unique_rejects t E) as [k ->].
Qed.

Lemma enforce_budget_Ok r t b :
  enforce_static_storage_budget r (Some t) = Ok b <->
  exists ceiling, declares_ceiling t ceiling /\ 0 <= rp_conservative_debit r /\
    rp_aggregate r = rp_conservative_debit r /\
    b = Budget (rp_conservative_debit r) ceiling (ceiling - rp_conservative_debit r)
               (rp_conservative_debit r <=? ceiling).
Proof.
  unfold enforce_static_storage_budget, declares_ceiling. split.
  - intros (v & Hv%map_error_Ok & H)%bind_Ok. apply loads_unique_Ok in Hv as [Hu <-].
    destruct (loads t) as [| | | | | |m] eqn:Em; try done.
    destruct (get "capacities" m) as [| | | | | |caps] eqn:Ec; try done.
    destruct (get "applicationStaticStorageBytes" caps) as [| |c| | | |] eqn:Ez; try done. simpl in H.
    rewrite !check_bind in H. repeat case_match; simplify_eq. bool_prop.
    exists c. split; [|lia || done]. split; [done|]. split; [lia|]. eauto.
  - intros (c & (Hu & Hc & m & caps & Hm & Hcaps & Hz) & Hd & Ha & ->).
    rewrite (loads_unique_accepts t Hu), Hm. simpl. rewrite Hcaps, Hz. simpl.
    rewrite !check_bind.
    rewrite (proj2 (andb_true_iff (0 <? c) _)) by (rewrite Z.ltb_lt, Z.leb_le; lia).
    rewrite (proj2 (Z.ltb_ge _ 0)) by done. by rewrite Ha, Z.eqb_refl.
Qed.

(** What the gate compares is the number of addresses charged. *)
Lemma measured_charge elf_bytes map_bytes identity r :
  Forall is_byte elf_bytes -> measure elf_bytes map_bytes identity = Ok r ->
  rp_conservative_debit r = charged_bytes r /\ rp_aggregate r = charged_bytes r /\ 0 <= charged_bytes r.
Proof.
  intros Hb H. destruct (measure_facts _ _ _ _ Hb H) as (image & outputs & _ & _ & Hm & Ho & _).
  assert (Hd : rp_conservative_debit r = charged_bytes r).
  { rewrite (measured_debit _ _ _ _ _ Hm). apply merged_bytes_covered.
    by eapply contributions_ordered. }
  rewrite (measured_aggregate _ _ _ _ _ Hm). split_and!; [done..|unfold charged_bytes; lia].
Qed.

(** C26: the static-storage gate. For a measured image, the comparison is reached
    exactly for manifests that repeat no key and declare a positive 32-bit
    ceiling, and the run then exits 0 exactly when the addresses charged to the
    combined object are at most that many. *)
Theorem storage_budget_gate elf_bytes map_bytes identity r t :
  Forall is_byte elf_bytes -> measure elf_bytes map_bytes identity = Ok r ->
  (forall ceiling, declares_ceiling t ceiling <->
     exists b, enforce_static_storage_budget r (Some t) = Ok b /\ bd_ceiling b = ceiling) /\
  (forall b, enforce_static_storage_budget r (Some t) = Ok b ->
     (budget_exit b = 0 <-> charged_bytes r <= bd_ceiling b) /\
     bd_headroom b = bd_ceiling b - charged_bytes r).
Proof.
  intros Hb H. destruct (measured_charge _ _ _ _ Hb H) as (Hd & Ha & Hpos).
  setoid_rewrite enforce_budget_Ok. rewrite Ha, Hd. split.
  - intros c. split.
    + intros Hc. eexists. split; [exists c; eauto|done].
    + by intros (b & (c' & Hc & _ & _ & ->) & <-).
  - intros b (c & Hc & _ & _ & ->). unfold budget_exit; simpl. split; [|done].
    destruct (Z.leb_spec (charged_bytes r) c); naive_solver lia.
Qed.

Lemma storage_budget_gate_witness :
  exists b, enforce_static_storage_budget fixture_report (Some (fixture_manifest 24)) = Ok b /\
    (budget_exit b = 0 <-> charged_bytes fixture_report <= bd_ceiling b).
Proof.
  exists (Budget 24 24 0 true).
  assert (E : enforce_static_storage_budget fixture_report (Some (fixture_manifest 24))
              = Ok (Budget 24 24 0 true)) by (vm_compute; reflexivity).
  split; [exact E|].
  exact (proj1 (proj2 (storage_budget_gate _ _ _ _ (fixture_manifest 24) fixture_bytes fixture_measured) _ E)).
Defined.
