(* ===== verification/PyFiles.v ===== *)
(** * Paths and files as [pathlib] presents them

    A pure path is its root and its parts. What the operating system answers
    (file contents, [resolve], [is_file], directory walks) is not code of the
    repository: it is an argument of the definitions that ask for it. *)
From S2P Require Import Prelude PyValue PyText JsonDoc.

Record path := MkPath { path_root : string; path_parts : list string }.
#[export] Instance path_eq_dec : EqDecision path.
Proof. solve_decision. Defined.

Definition slash : Ascii.ascii := Ascii.ascii_of_N 47.
Definition backslash : Ascii.ascii := Ascii.ascii_of_N 92.

(** [s.split(c)] for one ASCII character. *)
Fixpoint split_on (c : Ascii.ascii) (s : string) : list string :=
  match s with
  | EmptyString => [EmptyString]
  | String a s' =>
      if Ascii.eqb a c then EmptyString :: split_on c s'
      else match split_on c s' with
           | part :: parts => String a part :: parts
           | [] => [String a EmptyString]
           end
  end.

(** A POSIX root is one slash, or exactly two. *)
Definition root_of (s : string) : string :=
  if String.prefix "///" s then "/"
  else if String.prefix "//" s then "//"
  else if String.prefix "/" s then "/" else "".

Definition is_part (s : string) : bool := negb (String.eqb s "") && negb (String.eqb s ".").

(** [Path(s)] *)
Definition path_of (s : string) : path := MkPath (root_of s) (List.filter is_part (split_on slash s)).

(** [p / s]: an absolute [s] replaces [p]. *)
Definition path_join (p : path) (s : string) : path :=
  let q := path_of s in
  if String.eqb (path_root q) "" then MkPath (path_root p) (path_parts p ++ path_parts q) else q.

(** [p.name] *)
Definition path_name (p : path) : string := List.last (path_parts p) "".

Definition starts_with_parts (prefix l : list string) : bool :=
  bool_decide (take (length prefix) l = prefix).

(** [p.is_relative_to(q)], which compares the parts and does not look at [..]. *)
Definition is_relative_to (p q : path) : bool :=
  String.eqb (path_root p) (path_root q) && starts_with_parts (path_parts q) (path_parts p).

(** [p.relative_to(q)], when it is. *)
Definition relative_to (p q : path) : option path :=
  if is_relative_to p q then Some (MkPath "" (drop (length (path_parts q)) (path_parts p))) else None.

Definition join_with (sep : string) (l : list string) : string := String.concat sep l.

(** [p.as_posix()] *)
Definition as_posix (p : path) : string :=
  match path_root p, path_parts p with
  | EmptyString, [] => "."
  | r, l => r +:+ join_with "/" l
  end.

(** ** [os.path] on absolute paths *)
(** The part of [normpath] after splitting an absolute path. *)
Definition normal_parts (parts : list string) : list string :=
  foldl (fun acc part => if String.eqb part ".." then removelast acc else acc ++ [part]) [] parts.

(** [os.path.abspath(s)], from the working directory. *)
Definition abspath (cwd : path) (s : string) : path :=
  let p := path_join cwd s in MkPath (path_root p) (normal_parts (path_parts p)).
(** [os.path.abspath(os.path.join(p, s))] for an absolute [p]. *)
Definition abs_join (p : path) (s : string) : path := abspath p s.

Definition is_abs (s : string) : bool := String.prefix "/" s.
Definition basename (s : string) : string := List.last (split_on slash s) "".

(** [commonpath([candidate, directory]) == directory and candidate != directory]
    on two absolute paths; [commonpath] always starts with one slash. *)
Definition is_within (candidate directory : path) : bool :=
  String.eqb (path_root directory) "/" && starts_with_parts (path_parts directory) (path_parts candidate)
  && negb (bool_decide (candidate = directory)).

(** [relpath(candidate, directory)] of a path within the directory. *)
Definition relpath_within (candidate directory : path) : string :=
  join_with "/" (drop (length (path_parts directory)) (path_parts candidate)).

(** What [read_text(encoding="utf-8")] gives: [OSError], [UnicodeDecodeError], text. *)
Inductive textfile := TextUnreadable | TextNotUtf8 | Text (s : string).

(** The status of a process whose [main] catches the module's own error: an
    escaping builtin exception ends it with 1 and a traceback. *)
Definition exit_status {E A} (ok failed : Z) (m : outcome E A) : Z :=
  match m with Ok _ => ok | Raise _ => failed | Crash _ => 1 end.

Example path_of_dots : path_of "a//./b/" = MkPath "" ["a"; "b"].
Proof. reflexivity. Qed.
Example path_join_absolute : path_join (path_of "/repo") "/etc/x" = MkPath "/" ["etc"; "x"].
Proof. reflexivity. Qed.
Example path_name_dot : path_name (path_of ".") = "".
Proof. reflexivity. Qed.
Example as_posix_rel : as_posix (path_of "Sources/./A.swift") = "Sources/A.swift".
Proof. reflexivity. Qed.

(** ** Lemmas *)
Lemma is_relative_to_spec p q :
  is_relative_to p q = true <->
  path_root p = path_root q /\ exists rest, path_parts p = path_parts q ++ rest.
Proof.
  unfold is_relative_to, starts_with_parts. rewrite andb_true_iff, String.eqb_eq, bool_decide_eq_true.
  split; intros [Hr Hp]; split; try done.
  - exists (drop (length (path_parts q)) (path_parts p)). by rewrite <- Hp at 1; rewrite take_drop.
  - destruct Hp as [rest ->]. by rewrite take_app_length.
Qed.

Lemma split_on_no_char c s : has_char c s = false -> split_on c s = [s].
Proof.
  unfold has_char. induction s as [|a s IH]; simpl; [done|].
  intros [Ha Hs]%orb_false_iff. rewrite Ascii.eqb_sym in Ha. rewrite Ha. by rewrite IH.
Qed.

Lemma root_of_no_slash s : has_char slash s = false -> root_of s = "".
Proof.
  destruct s as [|a s]; [done|]. unfold has_char, root_of. cbn [String.list_ascii_of_string existsb].
  intros [Ha _]%orb_false_iff. cbn [String.prefix].
  destruct (Ascii.ascii_dec _ a) as [<-|]; [by rewrite Ascii.eqb_refl in Ha|done].
Qed.

(** A text without a slash is its own path name, unless it is empty or a dot. *)
Lemma path_name_no_slash s :
  has_char slash s = false -> is_part s = true -> path_name (path_of s) = s.
Proof.
  intros Hs Hp. unfold path_name, path_of. simpl. rewrite split_on_no_char by done.
  simpl. by rewrite Hp.
Qed.
