(* ===== verification/InventoryJoin.v ===== *)
(** * The inventory join

    [join_inventory] of [Tools/EmbeddedApplicationMacros/linked_storage_audit.py]:
    an application's inventory names the writable ELF symbols it owns; the join
    looks every one up in the image and in the linker map. *)
From S2P Require Import Prelude PyValue PyText JsonDoc PyFiles Bytes ByteRanges Symbols LinkerMap ElfImage StorageAudit.

Inductive join_problem :=
  | ExpectedSymbolMissing
  | MapOwnerMismatch (actual_owner actual_member : string)
  | MultipleSymbols (count : nat)
  | MapRangeNotUnique (matches : list (string * map_input)).
#[export] Instance join_problem_eq_dec : EqDecision join_problem.
Proof. solve_decision. Defined.

Abbreviation problem_row := (string * string * join_problem)%type. (* owner, raw name *)

Inductive join_error :=
  | JoinSection (e : audit_error)
  | InventoryNotObject | InventorySchema | ExpectedMemberInvalid | OwnerSyntax
  | MemberMismatch (inventory expected : string)
  | EntryNotObject | OwnerInvalid | CategoryInvalid (owner : string) | NoSourceIdentity (owner : string)
  | SourceKindMismatch (owner : string) | SourceUnavailable (owner : string)
  | SourceNameMissing (owner : string) | NoExpectedSymbols (owner : string)
  | WireProfilesMalformed (owner : string) | SymbolIdentityMalformed (owner : string)
  | SymbolAssignedTwice (raw_name : string) | SymbolOutsideData (raw_name : string)
  | SectionTypeUnsupported (raw_name : string) | MapInputSyntax (owner : string)
  | JoinFailed (unmatched ambiguous : list problem_row).

Abbreviation jrun := (outcome join_error).

Inductive backing := ZeroBacked | FileBacked.
#[export] Instance backing_eq_dec : EqDecision backing.
Proof. solve_decision. Defined.

(** A row of [joined]. *)
Record joined_symbol := JoinedSymbol {
  js_owner : string;
  js_category : string;
  js_source_path : string;
  js_source_name : string;
  js_source_sha256 : string;
  js_source_kind : string;
  js_raw_name : string;
  js_role : string;
  js_symbol : symbol;
  js_backing : backing;
  js_map_input : string * map_input;
  js_aliases : list string;
  js_charged : Z
}.

Abbreviation range_key := (string * Z * Z)%type.
Definition key_of (s : symbol) : range_key := (sym_section s, sym_address s, sym_size s).

(** The loop state of [join_inventory]. *)
Record join_state := JoinState {
  st_owners : list string;
  st_expected : list string;
  st_joined : list joined_symbol;
  st_unmatched : list problem_row;
  st_ambiguous : list problem_row;
  st_not_applicable : list string;
  st_charged : list range_key
}.
Definition join_start : join_state := JoinState [] [] [] [] [] [] [].

(** An entry whose fields have been checked. *)
Record entry := Entry {
  en_owner : string;
  en_category : string;
  en_source_path : string;
  en_source_name : string;
  en_source_kind : string;
  en_source_sha256 : string;
  en_expected : list pyval;
  en_applies_to : option (list pyval)
}.

Definition entry_categories : list string := ["app-state"; "app-global"; "initialization-control"].
Definition source_kinds : list string := ["swift-source"; "generator-source"].

Definition add_unmatched (row : problem_row) (st : join_state) : join_state :=
  JoinState (st_owners st) (st_expected st) (st_joined st) (st_unmatched st ++ [row])
            (st_ambiguous st) (st_not_applicable st) (st_charged st).
Definition add_ambiguous (row : problem_row) (st : join_state) : join_state :=
  JoinState (st_owners st) (st_expected st) (st_joined st) (st_unmatched st)
            (st_ambiguous st ++ [row]) (st_not_applicable st) (st_charged st).
Definition add_expected (raw_name : string) (st : join_state) : join_state :=
  JoinState (st_owners st) (raw_name :: st_expected st) (st_joined st) (st_unmatched st)
            (st_ambiguous st) (st_not_applicable st) (st_charged st).
Definition add_owner (owner : string) (st : join_state) : join_state :=
  JoinState (owner :: st_owners st) (st_expected st) (st_joined st) (st_unmatched st)
            (st_ambiguous st) (st_not_applicable st) (st_charged st).
Definition add_not_applicable (owner : string) (st : join_state) : join_state :=
  JoinState (st_owners st) (st_expected st) (st_joined st) (st_unmatched st)
            (st_ambiguous st) (st_not_applicable st ++ [owner]) (st_charged st).
Definition add_joined (row : joined_symbol) (key : range_key) (st : join_state) : join_state :=
  JoinState (st_owners st) (st_expected st) (st_joined st ++ [row]) (st_unmatched st)
            (st_ambiguous st) (st_not_applicable st) (key :: st_charged st).

(** Two dictionary reads of a value that may not be a dictionary. *)
Definition field_of (k : string) (v : pyval) : pyval :=
  match v with PDict d => get k d | _ => PNone end.

Section join.
(** The image, the map, the sources and the hash function of a run. *)
Context (symbols : list symbol) (map_outputs : list map_output).
Context (source_root : path) (resolve : path -> path) (read_bytes : path -> option string).
Context (sha256 : string -> string).
Context (expected_map_owner inventory_member : string).
Context (section_types : list (string * Z)) (wire_profile : option string).

(** The map inputs that contain a symbol. *)
Definition map_matches (s : symbol) : list (string * map_input) :=
  output ← map_outputs;
  if negb (String.eqb (out_name output) (sym_section s)) then []
  else pair (out_name output) <$>
         List.filter (fun i => negb (in_size i =? 0) && (in_address i <=? sym_address s)
                               && (sym_stop s <=? in_stop i)) (out_inputs output).

Definition symbol_aliases (s : symbol) (raw_name : string) : list string :=
  sorted_strings (sym_name <$>
    List.filter (fun o => (sym_address o =? sym_address s) && (sym_size o =? sym_size s)
                          && String.eqb (sym_section o) (sym_section s)
                          && negb (String.eqb (sym_name o) raw_name)) symbols).

Definition section_backing (s : symbol) (raw_name : string) : jrun backing :=
  match dict_get (sym_section s) section_types with
  | Some t => if t =? 8 then Ok ZeroBacked else if t =? 1 then Ok FileBacked
              else Raise (SectionTypeUnsupported raw_name)
  | None => Raise (SectionTypeUnsupported raw_name)
  end.

(** A symbol found once in the image. *)
Definition join_symbol (en : entry) (raw_name role : string) (st : join_state) (s : symbol) :
    jrun join_state :=
  class ← map_error JoinSection (writable_section_class (sym_section s));
  check (bool_decide (class = ClassData) || bool_decide (class = ClassBss)) (SymbolOutsideData raw_name) ;;
  backed ← section_backing s raw_name;
  match map_matches s with
  | [found] =>
      let actual_owner := in_owner found.2 in
      match object_member actual_owner with
      | None => Raise (MapInputSyntax actual_owner)
      | Some actual_member =>
          if negb (String.eqb actual_owner expected_map_owner)
             || negb (String.eqb actual_member inventory_member)
          then Ok (add_unmatched (en_owner en, raw_name, MapOwnerMismatch actual_owner actual_member) st)
          else
            let charge := if bool_decide (key_of s ∈ st_charged st) then 0 else sym_size s in
            Ok (add_joined
                  (JoinedSymbol (en_owner en) (en_category en) (en_source_path en) (en_source_name en)
                     (en_source_sha256 en) (en_source_kind en) raw_name role s backed found
                     (symbol_aliases s raw_name) charge)
                  (key_of s) st)
      end
  | found => Ok (add_ambiguous (en_owner en, raw_name, MapRangeNotUnique found) st)
  end.

(** One element of [expectedSymbols]. *)
Definition join_identity (en : entry) (st : join_state) (identity : pyval) : jrun join_state :=
  match field_of "rawName" identity, field_of "role" identity with
  | PStr raw_name, PStr role =>
      check (negb (bool_decide (raw_name ∈ st_expected st))) (SymbolAssignedTwice raw_name) ;;
      let st := add_expected raw_name st in
      match List.filter (fun s => String.eqb (sym_name s) raw_name) symbols with
      | [] => Ok (add_unmatched (en_owner en, raw_name, ExpectedSymbolMissing) st)
      | [s] => join_symbol en raw_name role st s
      | found => Ok (add_ambiguous (en_owner en, raw_name, MultipleSymbols (length found)) st)
      end
  | _, _ => Raise (SymbolIdentityMalformed (en_owner en))
  end.

Definition read_source (owner source_path : string) : jrun string :=
  let source_file := resolve (path_join source_root source_path) in
  check (is_relative_to source_file (resolve source_root)) (SourceUnavailable owner) ;;
  match read_bytes source_file with Some bytes => Ok bytes | None => Raise (SourceUnavailable owner) end.

Definition nonempty_str (v : pyval) : bool :=
  match v with PStr s => negb (String.eqb s "") | _ => false end.

(** [wireProfiles]: absent, or a list of names. *)
Definition wire_profiles (owner : string) (v : pyval) : jrun (option (list pyval)) :=
  match v with
  | PNone => Ok None
  | PList l =>
      check (negb (bool_decide (l = [])) && forallb nonempty_str l) (WireProfilesMalformed owner) ;;
      Ok (Some l)
  | _ => Raise (WireProfilesMalformed owner)
  end.

(** The checks of one entry, after its owner. *)
Definition check_entry (owner : string) (d : dict) : jrun entry :=
  known_category ← in_strings (get "category" d) entry_categories;
  check known_category (CategoryInvalid owner) ;;
  match get "category" d, get "sourcePath" d, get "sourceName" d with
  | PStr category, PStr source_path, PStr source_name =>
      known_kind ← in_strings (get "sourceKind" d) source_kinds;
      check known_kind (NoSourceIdentity owner) ;;
      match get "sourceKind" d with
      | PStr source_kind =>
          check (Bool.eqb (ends_with ".swift" source_path) (String.eqb source_kind "swift-source"))
                (SourceKindMismatch owner) ;;
          source_bytes ← read_source owner source_path;
          check (contains source_name source_bytes) (SourceNameMissing owner) ;;
          match get "expectedSymbols" d with
          | PList expected =>
              check (negb (bool_decide (expected = []))) (NoExpectedSymbols owner) ;;
              applies_to ← wire_profiles owner (get "wireProfiles" d);
              Ok (Entry owner category source_path source_name source_kind (sha256 source_bytes)
                        expected applies_to)
          | _ => Raise (NoExpectedSymbols owner)
          end
      | _ => Raise (NoSourceIdentity owner)
      end
  | _, _, _ => Raise (NoSourceIdentity owner)
  end.

(** [wire_profile is None or applies_to is None or wire_profile in applies_to] *)
Definition applicable (en : entry) : bool :=
  match wire_profile, en_applies_to en with
  | Some w, Some names => existsb (fun v => py_eq (PStr w) v) names
  | _, _ => true
  end.

Definition join_entry (st : join_state) (e : pyval) : jrun join_state :=
  match e with
  | PDict d =>
      match get "owner" d with
      | PStr owner =>
          check (negb (String.eqb owner "") && negb (bool_decide (owner ∈ st_owners st))) OwnerInvalid ;;
          let st := add_owner owner st in
          en ← check_entry owner d;
          if applicable en then fold_outcome (join_identity en) st (en_expected en)
          else Ok (add_not_applicable owner st)
      | _ => Raise OwnerInvalid
      end
  | _ => Raise EntryNotObject
  end.
End join.

(** The result of the join. *)
Record inventory_join := InventoryJoin_ {
  ij_path : path;
  ij_app : pyval;
  ij_member : string;
  ij_owners : list string;
  ij_symbols : list joined_symbol;
  ij_not_applicable : list string;
  ij_union_bytes : Z;
  ij_claimed_complete : bool
}.

Definition joined_range (j : joined_symbol) : range := symbol_range (js_symbol j).

Definition joined_union (joined : list joined_symbol) : Z :=
  foldr (fun kg acc => merged_bytes (joined_range <$> kg.2) + acc) 0
        (group_by (fun j => sym_section (js_symbol j)) joined).

Definition exact_member (v : pyval) : option string :=
  match v with
  | PStr s => if bool_decide (object_member s = Some s) then Some s else None
  | _ => None
  end.

Definition join_inventory (inventory : pyval) (symbols : list symbol) (map_outputs : list map_output)
    (source_root : path) (resolve : path -> path) (read_bytes : path -> option string)
    (sha256 : string -> string) (expected_map_owner : string)
    (section_types : list (string * Z)) (wire_profile : option string) : jrun inventory_join :=
  match inventory with
  | PDict d =>
      match get "entries" d with
      | PList entries =>
          check (py_eq (get "schemaVersion" d) (PInt 1)) InventorySchema ;;
          match exact_member (get "expectedMapMember" d) with
          | None => Raise ExpectedMemberInvalid
          | Some inventory_member =>
              match object_member expected_map_owner with
              | None => Raise OwnerSyntax
              | Some expected_member =>
                  check (String.eqb inventory_member expected_member)
                        (MemberMismatch inventory_member expected_member) ;;
                  st ← fold_outcome
                         (join_entry symbols map_outputs source_root resolve read_bytes sha256
                            expected_map_owner inventory_member section_types wire_profile)
                         join_start entries;
                  check (bool_decide (st_unmatched st = []) && bool_decide (st_ambiguous st = []))
                        (JoinFailed (st_unmatched st) (st_ambiguous st)) ;;
                  match get_default "path" (PStr "") d with
                  | PStr p =>
                      Ok (InventoryJoin_ (resolve (path_join source_root p)) (get "app" d) inventory_member
                            (sorted_strings (dedup (js_owner <$> st_joined st))) (st_joined st)
                            (sorted_strings (st_not_applicable st)) (joined_union (st_joined st))
                            (match get "coverage" d with
                             | PDict c => is_true (get "complete" c) | _ => false end))
                  | _ => Crash TypeError
                  end
              end
          end
      | _ => Raise InventorySchema
      end
  | _ => Raise InventoryNotObject
  end.
