(* ===== verification/JoinTheorems.v ===== *)
(** * What a successful inventory join establishes *)
From S2P Require Import Prelude PyValue PyText JsonDoc PyFiles Bytes ByteRanges Symbols LinkerMap ElfImage StorageAudit InventoryJoin.

(** ** Tagged addresses: the bytes of a set of keys, section by section *)
Definition tagged (section : string) (X : gset Z) : gset (string * Z) :=
  list_to_set (pair section <$> elements X).
Definition key_section (k : range_key) : string := k.1.1.
Definition key_range (k : range_key) : range := (k.1.2, k.1.2 + k.2).
Definition key_bytes (k : range_key) : gset (string * Z) := tagged (key_section k) (addresses (key_range k)).
Definition keys_bytes (l : list range_key) : gset (string * Z) := ⋃ (key_bytes <$> l).

Lemma elem_of_tagged s X x : x ∈ tagged s X <-> x.1 = s /\ x.2 ∈ X.
Proof.
  unfold tagged. rewrite elem_of_list_to_set, list_elem_of_fmap. destruct x as [t z]. simpl.
  setoid_rewrite elem_of_elements. naive_solver.
Qed.

Lemma size_tagged s X : size (tagged s X) = size X.
Proof.
  unfold tagged. rewrite size_list_to_set; [by rewrite length_fmap|].
  apply NoDup_fmap; [by intros ? ? [= ->]|apply NoDup_elements].
Qed.

Lemma elem_of_keys_bytes x l :
  x ∈ keys_bytes l <-> exists k, k ∈ l /\ key_section k = x.1 /\ (key_range k).1 <= x.2 < (key_range k).2.
Proof.
  unfold keys_bytes. rewrite elem_of_union_list. setoid_rewrite list_elem_of_fmap. split.
  - intros (X & (k & -> & Hk) & Hx). apply elem_of_tagged in Hx as [? ?%elem_of_addresses]. eauto.
  - intros (k & Hk & Hs & Hx). exists (key_bytes k). split; [eauto|].
    apply elem_of_tagged. split; [done|]. by apply elem_of_addresses.
Qed.

(** Keys of one section overlap only when they are equal. *)
Definition keys_compatible (l : list range_key) : Prop :=
  forall a b, a ∈ l -> b ∈ l -> key_section a = key_section b ->
    (key_range a).1 < (key_range b).2 -> (key_range b).1 < (key_range a).2 -> a = b.

(** The charges of the loop: a key that was charged before costs nothing. *)
Fixpoint distinct_bytes (l : list range_key) : Z :=
  match l with
  | [] => 0
  | k :: l => (if bool_decide (k ∈ l) then 0 else k.2) + distinct_bytes l
  end.

Lemma distinct_bytes_size l :
  keys_compatible l -> Forall (fun k : range_key => 0 < k.2) l ->
  distinct_bytes l = Z.of_nat (size (keys_bytes l)).
Proof.
  induction l as [|k l IH]; intros Hc Hp; [done|]. apply Forall_cons in Hp as [Hk Hp].
  cbn [distinct_bytes]. rewrite IH; [|intros a b ? ?; apply Hc; by apply list_elem_of_further|done].
  assert (Hcons : keys_bytes (k :: l) = key_bytes k ∪ keys_bytes l) by done. rewrite Hcons.
  case_bool_decide as Hin.
  - rewrite subseteq_union_1_L; [lia|]. intros x [? ?%elem_of_addresses]%elem_of_tagged.
    apply elem_of_keys_bytes. eauto.
  - rewrite size_union.
    + unfold key_bytes at 1. rewrite size_tagged, Nat2Z.inj_add, size_addresses;
        unfold well_ordered, key_range; simpl; lia.
    + intros x [Hs Hx%elem_of_addresses]%elem_of_tagged (k' & Hk' & Hs' & Hx')%elem_of_keys_bytes.
      apply Hin. rewrite (Hc k k'); [done|apply list_elem_of_here|by apply list_elem_of_further|congruence|lia|lia].
Qed.

(** ** The union by section *)
Section union.
Context {A : Type} (key : A -> range_key).

Lemma grouped_union_size (groups : list (string * list A)) :
  NoDup groups.*1 ->
  (forall s g x, (s, g) ∈ groups -> x ∈ g -> key_section (key x) = s /\ 0 < (key x).2) ->
  foldr (fun sg acc => merged_bytes ((fun x => key_range (key x)) <$> sg.2) + acc) 0 groups =
  Z.of_nat (size (keys_bytes (key <$> mjoin groups.*2))).
Proof.
  induction groups as [|[s g] groups IH]; intros Hn Hg; [done|].
  rewrite fmap_cons in Hn. apply NoDup_cons in Hn as [Hs Hn]. cbn [foldr fst snd] in *.
  assert (mjoin ((s, g) :: groups).*2 = g ++ mjoin groups.*2) as -> by done.
  rewrite IH; [|done|intros; eapply Hg; [by apply list_elem_of_further|done]].
  assert (Hhere : forall x, x ∈ g -> key_section (key x) = s /\ 0 < (key x).2)
    by (intros; eapply Hg; [apply list_elem_of_here|done]).
  rewrite fmap_app.
  assert (Hsplit : keys_bytes ((key <$> g) ++ (key <$> mjoin groups.*2)) =
    tagged s (covered ((fun x => key_range (key x)) <$> g)) ∪ keys_bytes (key <$> mjoin groups.*2)).
  { apply set_eq. intros x. rewrite elem_of_union, elem_of_tagged, !elem_of_keys_bytes, elem_of_covered.
    setoid_rewrite elem_of_app. setoid_rewrite list_elem_of_fmap. split.
    - intros (k & [(y & -> & Hy)|?] & Hk & Hx); [left|right; eauto].
      destruct (Hhere y Hy). split; [congruence|]. eauto.
    - intros [[Hx (r & (y & -> & Hy) & Hr)]|(k & ? & ?)]; [|eauto].
      destruct (Hhere y Hy). exists (key y). split; [by left; eauto|]. split; [congruence|done]. }
  rewrite Hsplit, size_union, size_tagged, Nat2Z.inj_add.
  - rewrite merged_bytes_covered; [done|]. apply Forall_fmap, Forall_forall. intros x Hx.
    destruct (Hhere x Hx). unfold well_ordered, key_range; simpl; lia.
  - intros x [Hx _]%elem_of_tagged (k & Hk & Hks & _)%elem_of_keys_bytes.
    apply list_elem_of_fmap in Hk as (y & -> & (g' & Hy & Hg')%list_elem_of_join).
    apply list_elem_of_fmap in Hg' as ([s' g''] & -> & Hin).
    destruct (Hg s' g'' y) as [Hy' _]; [by apply list_elem_of_further|done|].
    apply Hs. apply list_elem_of_fmap. exists (s', g''). split; [|done]. simpl. congruence.
Qed.

Lemma group_union_size (l : list A) :
  Forall (fun x => 0 < (key x).2) l ->
  foldr (fun sg acc => merged_bytes ((fun x => key_range (key x)) <$> sg.2) + acc) 0
    (group_by (fun x => key_section (key x)) l) =
  Z.of_nat (size (keys_bytes (key <$> l))).
Proof.
  intros Hp. destruct (group_by_grouped (fun x => key_section (key x)) l) as (Hn & Hg & Hc).
  rewrite grouped_union_size; [|done|].
  - f_equal. f_equal. apply set_eq. intros x. rewrite !elem_of_keys_bytes.
    setoid_rewrite list_elem_of_fmap. setoid_rewrite list_elem_of_join.
    setoid_rewrite list_elem_of_fmap. split.
    + intros (k & (y & -> & (g & Hy & ([s g'] & -> & Hin))) & ?).
      apply (Hg s g' y Hin) in Hy as [? _]. eauto.
    + intros (k & (y & -> & Hy) & ?). destruct (Hc y Hy) as [g Hin].
      exists (key y). split; [|done]. exists y. split; [done|]. exists g.
      split; [by apply (Hg _ _ y Hin)|]. by exists (key_section (key y), g).
  - intros s g x Hin Hx. apply (Hg s g x Hin) in Hx as [Hx <-]. rewrite Forall_forall in Hp. auto.
Qed.
End union.

Definition charged_total (joined : list joined_symbol) : Z := foldr (fun j acc => js_charged j + acc) 0 joined.

Lemma charged_total_snoc joined j : charged_total (joined ++ [j]) = charged_total joined + js_charged j.
Proof. induction joined as [|k joined IH]; simpl in *; lia. Qed.

Lemma joined_union_size joined :
  Forall (fun j => 0 < sym_size (js_symbol j)) joined ->
  joined_union joined = Z.of_nat (size (keys_bytes ((fun j => key_of (js_symbol j)) <$> joined))).
Proof. intros Hp. apply (group_union_size (fun j => key_of (js_symbol j))). exact Hp. Qed.

(** ** The rows of a join *)
Section rows.
Context (symbols : list symbol) (map_outputs : list map_output).
Context (source_root : path) (resolve : path -> path) (read_bytes : path -> option string).
Context (sha256 : string -> string).
Context (expected_map_owner inventory_member : string).
Context (section_types : list (string * Z)) (wire_profile : option string).

(** A source reference: a file under the root that holds the name. *)
Definition source_reference (source_path source_name hash : string) : Prop :=
  exists bytes, let source_file := resolve (path_join source_root source_path) in
    is_relative_to source_file (resolve source_root) = true /\
    read_bytes source_file = Some bytes /\ contains source_name bytes = true /\ hash = sha256 bytes.

Record row_ok (j : joined_symbol) : Prop := {
  row_symbol : js_symbol j ∈ symbols /\ sym_name (js_symbol j) = js_raw_name j /\
    forall s, s ∈ symbols -> sym_name s = js_raw_name j -> s = js_symbol j;
  row_class : writable_section_class (sym_section (js_symbol j)) = Ok ClassData \/
    writable_section_class (sym_section (js_symbol j)) = Ok ClassBss;
  row_backing : dict_get (sym_section (js_symbol j)) section_types =
    Some (match js_backing j with ZeroBacked => 8 | FileBacked => 1 end);
  row_input : map_matches map_outputs (js_symbol j) = [js_map_input j] /\
    in_owner (js_map_input j).2 = expected_map_owner;
  row_source : source_reference (js_source_path j) (js_source_name j) (js_source_sha256 j)
}.

Definition problems (st : join_state) : Prop := st_unmatched st <> [] \/ st_ambiguous st <> [].

Record join_inv (st : join_state) : Prop := {
  ji_rows : Forall row_ok (st_joined st);
  ji_keys : st_charged st = reverse ((fun j => key_of (js_symbol j)) <$> st_joined st);
  ji_charges : charged_total (st_joined st) = distinct_bytes (st_charged st);
  ji_names : NoDup (js_raw_name <$> st_joined st);
  ji_expected : forall j, j ∈ st_joined st -> js_raw_name j ∈ st_expected st
}.

(** A symbol name an entry expects has its row, or the join will fail. *)
Definition accounted (owner raw_name : string) (st : join_state) : Prop :=
  problems st \/ exists j, j ∈ st_joined st /\ js_owner j = owner /\ js_raw_name j = raw_name.

Definition grows (st st' : join_state) : Prop :=
  (forall j, j ∈ st_joined st -> j ∈ st_joined st') /\ (problems st -> problems st').

Lemma accounted_grows owner raw st st' : grows st st' -> accounted owner raw st -> accounted owner raw st'.
Proof. intros [Hj Hp] [?|(j & ? & ? & ?)]; [left; auto|right; eauto]. Qed.

Lemma grows_trans st1 st2 st3 : grows st1 st2 -> grows st2 st3 -> grows st1 st3.
Proof. unfold grows. naive_solver. Qed.

Lemma problems_unmatched row st : problems (add_unmatched row st).
Proof. left. simpl. by destruct (st_unmatched st). Qed.
Lemma problems_ambiguous row st : problems (add_ambiguous row st).
Proof. right. simpl. by destruct (st_ambiguous st). Qed.

Lemma join_inv_expected raw st : join_inv st -> join_inv (add_expected raw st).
Proof. intros [????]. constructor; simpl; try done. intros. apply list_elem_of_further. auto. Qed.
Lemma join_inv_unmatched row st : join_inv st -> join_inv (add_unmatched row st).
Proof. intros [????]. by constructor. Qed.
Lemma join_inv_ambiguous row st : join_inv st -> join_inv (add_ambiguous row st).
Proof. intros [????]. by constructor. Qed.

Definition entry_source (en : entry) : Prop :=
  source_reference (en_source_path en) (en_source_name en) (en_source_sha256 en).

Lemma join_symbol_inv en raw role st s st' :
  join_inv st -> entry_source en -> raw ∉ st_expected st ->
  List.filter (fun s => String.eqb (sym_name s) raw) symbols = [s] ->
  join_symbol symbols map_outputs expected_map_owner inventory_member section_types en raw role
    (add_expected raw st) s = Ok st' ->
  join_inv st' /\ grows st st' /\ accounted (en_owner en) raw st'.
Proof.
  intros Hi Hsrc Hfresh Hs H. unfold join_symbol in H.
  apply bind_Ok in H as (class & Hclass & H). apply bind_Ok in H as ([] & Hkind%check_Ok & H).
  apply bind_Ok in H as (backed & Hback & H).
  assert (Hclass' : writable_section_class (sym_section s) = Ok class)
    by (destruct (writable_section_class _); by simplify_eq/=).
  assert (Hdict : dict_get (sym_section s) section_types
                  = Some (match backed with ZeroBacked => 8 | FileBacked => 1 end)).
  { unfold section_backing in Hback. destruct (dict_get _ _) as [t|]; [|done].
    destruct (Z.eqb_spec t 8) as [Et|]; [rewrite Et; by simplify_eq|].
    destruct (Z.eqb_spec t 1) as [Et|]; [rewrite Et; by simplify_eq|done]. }
  assert (Hthe : forall t, t ∈ symbols /\ sym_name t = raw <-> t = s).
  { intros t. transitivity (t ∈ [s]); [|apply list_elem_of_singleton].
    by rewrite <- Hs, elem_of_filterb, String.eqb_eq. }
  destruct (proj2 (Hthe s) eq_refl) as [Hin Hname].
  destruct (map_matches map_outputs s) as [|found [|? ?]] eqn:Em.
  - injection H as <-. split; [by apply join_inv_ambiguous, join_inv_expected|].
    pose proof (problems_ambiguous (en_owner en, raw, MapRangeNotUnique []) (add_expected raw st)).
    split; [by split|by left].
  - destruct (object_member (in_owner found.2)) as [member|]; [|done].
    destruct (String.eqb (in_owner found.2) expected_map_owner) eqn:Eo; simpl in H.
    2: { injection H as <-. split; [by apply join_inv_unmatched, join_inv_expected|].
         set (row := (_, _, _)). pose proof (problems_unmatched row (add_expected raw st)).
         split; [by split|by left]. }
    destruct (String.eqb member inventory_member); simpl in H.
    2: { injection H as <-. split; [by apply join_inv_unmatched, join_inv_expected|].
         set (row := (_, _, _)). pose proof (problems_unmatched row (add_expected raw st)).
         split; [by split|by left]. }
    apply String.eqb_eq in Eo. set (row := JoinedSymbol _ _ _ _ _ _ _ _ _ _ _ _ _) in H. injection H as <-.
    assert (Hrow : row_ok row).
    { constructor; simpl; try done.
      - split; [done|]. split; [done|]. intros t Ht Hn. by apply Hthe.
      - rewrite Hclass'. apply orb_true_iff in Hkind.
        destruct Hkind as [E%bool_decide_eq_true|E%bool_decide_eq_true]; rewrite E; auto. }
    split; [|split].
    + destruct Hi as [Hr Hk Hc Hn He]. constructor; simpl.
      * apply Forall_app. split; [done|]. by apply Forall_singleton.
      * rewrite fmap_app, reverse_app, Hk. done.
      * rewrite charged_total_snoc, Hc. unfold row; simpl. unfold key_of. simpl.
        case_bool_decide; simpl; lia.
      * rewrite fmap_app. apply NoDup_app. split; [done|]. split; [|apply NoDup_singleton].
        intros x (j & -> & Hj)%list_elem_of_fmap Hx%list_elem_of_singleton.
        simpl in Hx. apply Hfresh. rewrite <- Hx. by apply He.
      * intros j [Hj| ->%list_elem_of_singleton]%elem_of_app; [|apply list_elem_of_here].
        apply list_elem_of_further. auto.
    + split; [|done]. intros j Hj. simpl. apply elem_of_app. by left.
    + right. exists row. split; [simpl; apply elem_of_app; right; apply list_elem_of_here|done].
  - injection H as <-. split; [by apply join_inv_ambiguous, join_inv_expected|].
    set (row := (_, _, _)). pose proof (problems_ambiguous row (add_expected raw st)).
    split; [by split|by left].
Qed.

Abbreviation identity_step := (join_identity symbols map_outputs expected_map_owner inventory_member section_types).
Abbreviation entry_step := (join_entry symbols map_outputs source_root resolve read_bytes sha256
  expected_map_owner inventory_member section_types wire_profile).
Abbreviation entry_checks := (check_entry source_root resolve read_bytes sha256).

Lemma join_identity_inv en st identity st' :
  join_inv st -> entry_source en -> identity_step en st identity = Ok st' ->
  join_inv st' /\ grows st st' /\
  exists raw, field_of "rawName" identity = PStr raw /\ accounted (en_owner en) raw st'.
Proof.
  intros Hi Hsrc H. unfold join_identity in H.
  destruct (field_of "rawName" identity) as [| | | |raw| |]; try done.
  destruct (field_of "role" identity) as [| | | |role| |]; try done.
  apply bind_Ok in H as ([] & Hfresh%check_Ok & H). bool_prop.
  destruct (List.filter _ symbols) as [|s [|? ?]] eqn:Es.
  - injection H as <-. split; [by apply join_inv_unmatched, join_inv_expected|].
    set (row := (_, _, _)). pose proof (problems_unmatched row (add_expected raw st)).
    split; [by split|]. exists raw. split; [done|by left].
  - apply join_symbol_inv in H as (? & ? & ?); try done. eauto.
  - injection H as <-. split; [by apply join_inv_ambiguous, join_inv_expected|].
    set (row := (_, _, _)). pose proof (problems_ambiguous row (add_expected raw st)).
    split; [by split|]. exists raw. split; [done|by left].
Qed.

Lemma join_identities_inv en identities st st' :
  join_inv st -> entry_source en -> fold_outcome (identity_step en) st identities = Ok st' ->
  join_inv st' /\ grows st st' /\
  forall identity, identity ∈ identities ->
    exists raw, field_of "rawName" identity = PStr raw /\ accounted (en_owner en) raw st'.
Proof.
  revert st. induction identities as [|i identities IH]; intros st Hi Hsrc; cbn [fold_outcome].
  { intros [= <-]. split; [done|]. split; [by split|]. by intros ? ?%elem_of_nil. }
  intros (st1 & H1 & H)%bind_Ok. apply join_identity_inv in H1 as (Hi1 & Hg1 & Hraw); [|done..].
  apply IH in H as (Hi2 & Hg2 & Hall); [|done..].
  split; [done|]. split; [by eapply grows_trans|].
  intros identity [->|?]%elem_of_cons; [|by apply Hall].
  destruct Hraw as (raw & ? & ?). exists raw. split; [done|]. by eapply accounted_grows.
Qed.

Lemma check_entry_Ok owner d en :
  entry_checks owner d = Ok en ->
  entry_source en /\ en_owner en = owner /\ get "expectedSymbols" d = PList (en_expected en) /\
  get "wireProfiles" d = match en_applies_to en with Some l => PList l | None => PNone end.
Proof.
  unfold check_entry. intros (? & _ & H)%bind_Ok. apply bind_Ok in H as (_ & _ & H).
  destruct (get "category" d) as [| | | |cat| |]; try done.
  destruct (get "sourcePath" d) as [| | | |sp| |]; try done.
  destruct (get "sourceName" d) as [| | | |sn| |]; try done.
  apply bind_Ok in H as (? & _ & H). apply bind_Ok in H as (_ & _ & H).
  destruct (get "sourceKind" d) as [| | | |kind| |]; try done.
  apply bind_Ok in H as (_ & _ & H). apply bind_Ok in H as (bytes & Hb & H).
  apply bind_Ok in H as (_ & Hc%check_Ok & H).
  destruct (get "expectedSymbols" d) as [| | | | |expected|]; try done.
  apply bind_Ok in H as (_ & _ & H). apply bind_Ok in H as (applies & Ha & [= <-]).
  unfold read_source in Hb. apply bind_Ok in Hb as (_ & Hrel%check_Ok & Hb).
  destruct (read_bytes _) as [bytes'|] eqn:Er; simplify_eq.
  split; [by exists bytes|]. split; [done|]. split; [done|]. simpl.
  unfold wire_profiles in Ha. destruct (get "wireProfiles" d) as [| | | | |l|]; try done; [by simplify_eq|].
  by apply bind_Ok in Ha as (_ & _ & [= <-]).
Qed.

(** The rows an applicable entry must have. *)
Definition entry_accounted (st : join_state) (e : pyval) : Prop :=
  exists d owner en, e = PDict d /\ get "owner" d = PStr owner /\ entry_checks owner d = Ok en /\
    (applicable wire_profile en = true -> forall identity, identity ∈ en_expected en ->
       exists raw, field_of "rawName" identity = PStr raw /\ accounted owner raw st).

Lemma join_entry_inv st e st' :
  join_inv st -> entry_step st e = Ok st' -> join_inv st' /\ grows st st' /\ entry_accounted st' e.
Proof.
  intros Hi H. unfold join_entry in H. destruct e as [| | | | | |d]; try done.
  destruct (get "owner" d) as [| | | |owner| |] eqn:Eo; try done.
  apply bind_Ok in H as (_ & _ & H). apply bind_Ok in H as (en & Hen & H).
  pose proof (check_entry_Ok _ _ _ Hen) as (Hsrc & Hown & _).
  assert (Hi' : join_inv (add_owner owner st)) by (destruct Hi; by constructor).
  unfold entry_accounted. destruct (applicable wire_profile en) eqn:Ea.
  - apply join_identities_inv in H as (? & Hg & Hall); [|done..].
    split; [done|]. split; [exact Hg|]. exists d, owner, en. rewrite <- Hown. split_and!; [done|congruence|congruence|by intros _].
  - injection H as <-. split; [destruct Hi; by constructor|]. split; [by split|].
    exists d, owner, en. split_and!; try done. by rewrite Ea.
Qed.

Lemma entry_accounted_grows st st' e : grows st st' -> entry_accounted st e -> entry_accounted st' e.
Proof.
  intros Hg (d & owner & en & -> & Ho & He & Hall). exists d, owner, en. split_and!; [done..|].
  intros Ha i Hin. destruct (Hall Ha i Hin) as (raw & ? & ?). exists raw.
  split; [done|]. by eapply accounted_grows.
Qed.

Lemma join_entries_inv st entries st' :
  join_inv st -> fold_outcome entry_step st entries = Ok st' ->
  join_inv st' /\ grows st st' /\ Forall (entry_accounted st') entries.
Proof.
  revert st. induction entries as [|e entries IH]; intros st Hi; cbn [fold_outcome].
  { intros [= <-]. split; [done|]. split; [by split|constructor]. }
  intros (st1 & H1 & H)%bind_Ok. apply join_entry_inv in H1 as (Hi1 & Hg1 & He); [|done].
  apply IH in H as (? & Hg2 & ?); [|done]. split; [done|]. split; [by eapply grows_trans|].
  constructor; [by eapply entry_accounted_grows|done].
Qed.
End rows.

Lemma join_start_inv symbols map_outputs root resolve read sha owner types :
  join_inv symbols map_outputs root resolve read sha owner types join_start.
Proof. constructor; simpl; [constructor|done|done|constructor|by intros ? ?%elem_of_nil]. Qed.

Section inventory.
Context (symbols : list symbol) (map_outputs : list map_output).
Context (source_root : path) (resolve : path -> path) (read_bytes : path -> option string).
Context (sha256 : string -> string).
Context (expected_map_owner : string).
Context (section_types : list (string * Z)) (wire_profile : option string).

Abbreviation row_valid := (row_ok symbols map_outputs source_root resolve read_bytes sha256
  expected_map_owner section_types).
Abbreviation join_of inventory := (join_inventory inventory symbols map_outputs source_root resolve
  read_bytes sha256 expected_map_owner section_types wire_profile).

(** An entry of the inventory, checked, with the rows of its symbols. *)
Definition entry_joined (joined : list joined_symbol) (e : pyval) : Prop :=
  exists d owner en, e = PDict d /\ get "owner" d = PStr owner /\
    check_entry source_root resolve read_bytes sha256 owner d = Ok en /\
    (applicable wire_profile en = true -> forall identity, identity ∈ en_expected en ->
       exists j, j ∈ joined /\ js_owner j = owner /\ field_of "rawName" identity = PStr (js_raw_name j)).

Lemma join_inventory_inv inventory r :
  join_of inventory = Ok r ->
  exists d entries st, inventory = PDict d /\ get "entries" d = PList entries /\
    ij_symbols r = st_joined st /\ ij_union_bytes r = joined_union (st_joined st) /\
    join_inv symbols map_outputs source_root resolve read_bytes sha256 expected_map_owner section_types st /\
    Forall (entry_joined (st_joined st)) entries.
Proof.
  unfold join_inventory. destruct inventory as [| | | | | |d]; try done.
  destruct (get "entries" d) as [| | | | |entries|] eqn:Ee; try done.
  intros (_ & _ & H)%bind_Ok. destruct (exact_member _) as [member|]; [|done].
  destruct (object_member expected_map_owner); [|done].
  apply bind_Ok in H as (_ & _ & H). apply bind_Ok in H as (st & Hst & H).
  apply bind_Ok in H as (_ & Hclean%check_Ok & H). bool_prop.
  destruct (get_default "path" (PStr "") d); try done. injection H as <-. simpl.
  apply join_entries_inv in Hst as (Hi & _ & Hall); [|apply join_start_inv].
  exists d, entries, st. split_and!; try done.
  eapply Forall_impl; [exact Hall|]. intros e (ed & owner & en & -> & Ho & Hen & Hacc).
  exists ed, owner, en. split_and!; try done. intros Ha i Hin.
  destruct (Hacc Ha i Hin) as (raw & Hraw & [[?|?]|(j & ? & ? & <-)]); [done..|]. eauto.
Qed.
End inventory.

(** C11: a successful join accounts for the whole inventory. Every row is a symbol
    found once in the image, in a [.data] or [.bss] section, contained in exactly
    one map input, which belongs to the combined object, and its source reference
    names a file under the source root that holds the name. No raw name has two
    rows; and every symbol that an applicable entry expects has a row of that
    entry's owner. *)
Theorem inventory_join_accounts inventory symbols map_outputs source_root resolve read_bytes sha256
    expected_map_owner section_types wire_profile r :
  join_inventory inventory symbols map_outputs source_root resolve read_bytes sha256
    expected_map_owner section_types wire_profile = Ok r ->
  Forall (row_ok symbols map_outputs source_root resolve read_bytes sha256 expected_map_owner section_types)
    (ij_symbols r) /\
  NoDup (js_raw_name <$> ij_symbols r) /\
  exists d entries, inventory = PDict d /\ get "entries" d = PList entries /\
    Forall (entry_joined source_root resolve read_bytes sha256 wire_profile (ij_symbols r)) entries.
Proof.
  intros (d & entries & st & -> & He & Hj & _ & [Hr _ _ Hn _] & Hall)%join_inventory_inv.
  rewrite Hj. split; [done|]. split; [done|]. by exists d, entries.
Qed.

(** Symbols of the image overlap only as aliases, and a section name stands for
    one section. *)
Definition sections_named_once (symbols : list symbol) : Prop :=
  forall a b, a ∈ symbols -> b ∈ symbols -> sym_section a = sym_section b ->
    sym_section_index a = sym_section_index b.

(** The charges of a join's rows add up to the union of their ranges, section
    by section: an alias of a charged range costs nothing, and nothing else is
    counted twice. *)
Theorem inventory_join_charges_union inventory symbols map_outputs source_root resolve read_bytes sha256
    expected_map_owner section_types wire_profile r :
  join_inventory inventory symbols map_outputs source_root resolve read_bytes sha256
    expected_map_owner section_types wire_profile = Ok r ->
  Forall (fun s => 0 < sym_size s) symbols -> only_aliases_overlap symbols -> sections_named_once symbols ->
  charged_total (ij_symbols r) = ij_union_bytes r /\
  ij_union_bytes r = Z.of_nat (size (keys_bytes ((fun j => key_of (js_symbol j)) <$> ij_symbols r))).
Proof.
  intros (d & entries & st & -> & _ & -> & -> & [Hr Hk Hc _ _] & _)%join_inventory_inv Hpos Hov Hsec.
  assert (Hin : forall j, j ∈ st_joined st -> js_symbol j ∈ symbols).
  { intros j Hj. rewrite Forall_forall in Hr. by destruct (row_symbol _ _ _ _ _ _ _ _ _ (Hr j Hj)). }
  assert (Hpos' : Forall (fun j => 0 < sym_size (js_symbol j)) (st_joined st)).
  { rewrite Forall_forall in Hpos. apply Forall_forall. auto. }
  rewrite joined_union_size by done. split; [|done]. rewrite Hc, Hk, distinct_bytes_size.
  - f_equal. f_equal. apply set_eq. intros x. rewrite !elem_of_keys_bytes. by setoid_rewrite elem_of_reverse.
  - intros a b Ha Hb Hs H1 H2.
    apply elem_of_reverse, list_elem_of_fmap in Ha as (ja & -> & Hja).
    apply elem_of_reverse, list_elem_of_fmap in Hb as (jb & -> & Hjb).
    unfold key_section, key_range, key_of in *; simpl in *.
    assert (Hsame : sym_range (js_symbol ja) = sym_range (js_symbol jb)).
    { apply Hov; [auto..|]. split; [by apply Hsec; auto|]. unfold sym_stop. lia. }
    unfold sym_range in Hsame. congruence.
  - apply Forall_forall. intros k (j & -> & Hj)%elem_of_reverse%list_elem_of_fmap.
    rewrite Forall_forall in Hpos'. by apply (Hpos' j).
Qed.

(** ** Witnesses *)
Definition join_symbols : list symbol :=
  [Symbol "state" 0x1000 4 ".data" 4 "OBJECT"; Symbol "state_alias" 0x1000 4 ".data" 4 "OBJECT";
   Symbol "tail" 0x2000 8 ".bss" 5 "OBJECT"].
Definition expected_symbol (name : string) : pyval := PDict [("rawName", PStr name); ("role", PStr "storage")].
Definition join_entry_value (owner : string) (names : list string) : pyval :=
  PDict [("owner", PStr owner); ("category", PStr "app-state"); ("sourcePath", PStr "Agent.swift");
         ("sourceName", PStr "state"); ("sourceKind", PStr "swift-source");
         ("expectedSymbols", PList (expected_symbol <$> names))].
Definition join_inventory_value : pyval :=
  PDict [("schemaVersion", PInt 1); ("expectedMapMember", PStr "combined.o"); ("app", PStr "agent");
         ("entries", PList [join_entry_value "first" ["state"; "tail"];
                            join_entry_value "second" ["state_alias"]])].
Definition join_run : jrun inventory_join :=
  join_inventory join_inventory_value join_symbols fixture_outputs (path_of "/app") (fun p => p)
    (fun p => if String.eqb (as_posix p) "/app/Agent.swift" then Some "var state = 0" else None)
    (fun _ => "digest") "combined.o" [(".data", 1); (".bss", 8)] (Some "axoloty1CBOR").
Definition join_result : inventory_join :=
  match join_run with Ok r => r | _ => InventoryJoin_ (path_of "") PNone "" [] [] [] 0 false end.

Lemma join_runs : join_run = Ok join_result.
Proof. vm_compute. reflexivity. Qed.

Example join_charges : js_charged <$> ij_symbols join_result = [4; 8; 0] /\ ij_union_bytes join_result = 12.
Proof. vm_compute. split; reflexivity. Qed.

Lemma join_symbols_sized : Forall (fun s => 0 < sym_size s) join_symbols.
Proof. repeat constructor. Qed.
Lemma join_symbols_aliases : only_aliases_overlap join_symbols.
Proof. apply conflicting_overlaps_nil; [apply join_symbols_sized|vm_compute; reflexivity]. Qed.
Lemma join_symbols_sections : sections_named_once join_symbols.
Proof.
  intros a b Ha Hb. unfold join_symbols in *.
  repeat (apply elem_of_cons in Ha as [->|Ha]); try (by apply elem_of_nil in Ha);
  repeat (apply elem_of_cons in Hb as [->|Hb]); try (by apply elem_of_nil in Hb); done.
Qed.

Lemma inventory_join_accounts_witness :
  join_run = Ok join_result /\ NoDup (js_raw_name <$> ij_symbols join_result).
Proof.
  split; [exact join_runs|].
  exact (proj1 (proj2 (inventory_join_accounts _ _ _ _ _ _ _ _ _ _ _ join_runs))).
Defined.

Lemma inventory_join_charges_union_witness :
  charged_total (ij_symbols join_result) = ij_union_bytes join_result.
Proof.
  exact (proj1 (inventory_join_charges_union _ _ _ _ _ _ _ _ _ _ _ join_runs
    join_symbols_sized join_symbols_aliases join_symbols_sections)).
Defined.
