(* ===== verification/AuditMain.v ===== *)
(** * The audit's command line

    [main] of [Tools/EmbeddedApplicationMacros/linked_storage_audit.py]: the
    measurement, the budget gate and the inventory join of one run, and its exit
    status. *)
From S2P Require Import Prelude PyValue PyText JsonDoc PyFiles Bytes ByteRanges Symbols LinkerMap ElfImage StorageAudit Fixture Measurement StorageTheorems InventoryJoin JoinTheorems.

(** The bytes of a file, [None] for an [OSError]. *)
Abbreviation file_bytes := (option (list Z)).

Record audit_arguments := AuditArguments {
  au_elf : option file_bytes;
  au_map : option file_bytes;
  au_combined_object : option string;
  au_wire_profile : option string;
  au_inventory : option document;
  au_inventory_path : path;            (* resolved *)
  au_enforce : bool;
  au_app_manifest : option document
}.

Inductive main_error :=
  | Usage | ReadError | AuditFailed (e : audit_error) | InventoryFailed (e : join_error)
  | ManifestRequired | InventoryUnparsable.

Record audit_result := AuditResult {
  ar_report : storage_report;
  ar_budget : option budget;
  ar_join : option inventory_join
}.

Definition path_parent (p : path) : path := MkPath (path_root p) (removelast (path_parts p)).

Section main.
Context (resolve : path -> path) (read_bytes : path -> option string) (sha256 : string -> string).

Definition read_file (f : file_bytes) : outcome main_error (list Z) :=
  match f with Some bytes => Ok bytes | None => Raise ReadError end.

(** The tree of the manifest bytes: the gate itself reports bytes that do not
    decode or scan. *)
Definition manifest_tree (doc : document) : outcome main_error (option jtree) :=
  match doc with
  | DocUnreadable => Raise ReadError
  | DocNotText | DocInvalid => Ok None
  | Doc t => Ok (Some t)
  end.

Definition audit_budget (a : audit_arguments) (report : storage_report) :
    outcome main_error (option budget) :=
  if au_enforce a then
    match au_app_manifest a with
    | None => Raise ManifestRequired
    | Some doc =>
        manifest ← manifest_tree doc;
        Some <$> map_error AuditFailed (enforce_static_storage_budget report manifest)
    end
  else Ok None.

(** [{section["name"]: section["type"] for section in elf["sections"]}] *)
Definition section_types_of (sections : list section) : list (string * Z) :=
  dict_of ((fun s => (sec_name s, sec_type s)) <$> sections).

(** [inventory["path"] = ...] assigns into the parsed document. *)
Definition audit_join (a : audit_arguments) (elf_bytes map_bytes : list Z) (identity : string) :
    outcome main_error (option inventory_join) :=
  match au_inventory a with
  | None => Ok None
  | Some doc =>
      inventory ← (match doc with
                   | DocUnreadable => Raise ReadError
                   | DocNotText | DocInvalid => Raise InventoryUnparsable
                   | Doc t => Ok (loads t)
                   end);
      match inventory with
      | PDict d =>
          let d := dict_set "path" (PStr (as_posix (au_inventory_path a))) d in
          image ← map_error (fun e => AuditFailed (ElfError e)) (parse_elf elf_bytes);
          outputs ← map_error (fun e => AuditFailed (MapError e))
                              (parse_map (decode_replace map_bytes) identity);
          Some <$> map_error InventoryFailed
            (join_inventory (PDict d) (elf_symbols image) outputs (path_parent (au_inventory_path a))
               resolve read_bytes sha256 identity (section_types_of (elf_sections image))
               (au_wire_profile a))
      | _ => Crash TypeError
      end
  end.

Definition audit_run (a : audit_arguments) : outcome main_error audit_result :=
  check (negb (match au_app_manifest a with Some _ => negb (au_enforce a) | None => false end)) Usage ;;
  match au_elf a, au_map a, au_combined_object a with
  | Some elf_file, Some map_file, Some identity =>
      check (negb (String.eqb identity "")) Usage ;;
      elf_bytes ← read_file elf_file;
      map_bytes ← read_file map_file;
      report ← map_error AuditFailed (measure elf_bytes map_bytes identity);
      comparison ← audit_budget a report;
      joined ← audit_join a elf_bytes map_bytes identity;
      Ok (AuditResult report comparison joined)
  | _, _, _ => Raise Usage
  end.

(** The exit status: [ValueError], [UnicodeError] and [OSError] are caught with
    the module's own errors, any other builtin exception ends the run with a
    traceback. *)
Definition audit_status (a : audit_arguments) : Z :=
  match audit_run a with
  | Ok r => match ar_budget r with Some b => budget_exit b | None => 0 end
  | Raise _ => 2
  | Crash (ValueError | UnicodeError | OSError) => 2
  | Crash _ => 1
  end.
End main.

(** C5: an enforcing run that exits 0 has measured its image: its manifest repeats
    no key and declares a positive 32-bit ceiling, and the addresses that the
    combined object's contributions cover are no more than the ceiling. When the
    run names an inventory, the join of that inventory with the image succeeded. *)
Theorem audit_exit_zero resolve read_bytes sha256 a elf_bytes :
  audit_status resolve read_bytes sha256 a = 0 -> au_enforce a = true ->
  au_elf a = Some (Some elf_bytes) -> Forall is_byte elf_bytes ->
  exists map_bytes identity t ceiling report joined,
    au_map a = Some (Some map_bytes) /\ au_combined_object a = Some identity /\
    au_app_manifest a = Some (Doc t) /\ declares_ceiling t ceiling /\
    measure elf_bytes map_bytes identity = Ok report /\ charged_bytes report <= ceiling /\
    audit_run resolve read_bytes sha256 a =
      Ok (AuditResult report (Some (Budget (charged_bytes report) ceiling
                                           (ceiling - charged_bytes report) true)) joined) /\
    (au_inventory a = None <-> joined = None).
Proof.
  unfold audit_status. destruct (audit_run resolve read_bytes sha256 a) as [r|e|[]] eqn:Erun; try done.
  intros Hexit Henf Helf Hbytes. revert Erun. unfold audit_run. rewrite Helf.
  intros (_ & _ & H)%bind_Ok.
  destruct (au_map a) as [map_file|]; [|done]. destruct (au_combined_object a) as [identity|]; [|done].
  apply bind_Ok in H as (_ & _ & H). apply bind_Ok in H as (? & [= <-] & H).
  apply bind_Ok in H as (map_bytes & Hmap & H). destruct map_file as [mb|]; simplify_eq/=.
  apply bind_Ok in H as (report & Hm%map_error_Ok & H). apply bind_Ok in H as (cmp & Hcmp & H).
  apply bind_Ok in H as (joined & Hjoin & [= <-]). simpl in Hexit.
  unfold audit_budget in Hcmp. rewrite Henf in Hcmp.
  destruct (au_app_manifest a) as [doc|]; [|done].
  apply bind_Ok in Hcmp as (manifest & Hdoc & (b & Hb%map_error_Ok & ->)%fmap_Ok).
  destruct (measured_charge _ _ _ _ Hbytes Hm) as (Hd & Ha & Hpos).
  destruct manifest as [t|]; [|done].
  assert (doc = Doc t) as -> by (destruct doc; by simplify_eq/=).
  apply enforce_budget_Ok in Hb as (ceiling & Hc & _ & _ & ->). rewrite Hd in Hexit |- *.
  unfold budget_exit in Hexit; simpl in Hexit.
  destruct (Z.leb_spec (charged_bytes report) ceiling); [|done].
  exists map_bytes, identity, t, ceiling, report, joined. split_and!; try done.
  unfold audit_join in Hjoin. destruct (au_inventory a) as [doc|]; [|by simplify_eq].
  split; [done|]. intros ->. apply bind_Ok in Hjoin as (inv & _ & Hjoin). destruct inv; try done.
  apply bind_Ok in Hjoin as (? & _ & Hjoin). apply bind_Ok in Hjoin as (? & _ & Hjoin).
  by apply fmap_Ok in Hjoin as (? & _ & ?).
Qed.

Definition fixture_audit (ceiling : Z) : audit_arguments :=
  AuditArguments (Some (Some fixture_elf)) (Some (Some fixture_map_bytes)) (Some "combined.o") None None
    (path_of "/app/inventory.json") true (Some (Doc (fixture_manifest ceiling))).

Lemma fixture_audit_passes : audit_status (fun p => p) (fun _ => None) (fun _ => "") (fixture_audit 24) = 0.
Proof. vm_compute. reflexivity. Qed.
Example fixture_audit_exceeds : audit_status (fun p => p) (fun _ => None) (fun _ => "") (fixture_audit 23) = 2.
Proof. vm_compute. reflexivity. Qed.

Lemma audit_exit_zero_witness : exists t ceiling, au_app_manifest (fixture_audit 24) = Some (Doc t) /\
  declares_ceiling t ceiling.
Proof.
  destruct (audit_exit_zero (fun p => p) (fun _ => None) (fun _ => "") (fixture_audit 24) fixture_elf
    fixture_audit_passes eq_refl eq_refl fixture_bytes)
    as (m & i & t & c & r & j & _ & _ & Ht & Hd & _).
  exists t, c. split; [exact Ht|exact Hd].
Defined.

(** An inventory whose root is an array: the run ends with a traceback, before the
    join's own check of the root. *)
Example array_inventory_crashes :
  audit_status (fun p => p) (fun _ => None) (fun _ => "")
    (AuditArguments (Some (Some fixture_elf)) (Some (Some fixture_map_bytes)) (Some "combined.o") None
       (Some (Doc (JArray []))) (path_of "/app/inventory.json") false None) = 1.
Proof. vm_compute. reflexivity. Qed.
