(* ===== verification/StoragePolicy.v ===== *)
(** * The static-storage policy of a configured image

    [Tools/EmbeddedApplicationMacros/static_storage_policy.py]: what the CMake
    cache selects, and which budget the selected application's manifest and
    inventory declare. *)
From S2P Require Import Prelude PyValue PyText JsonDoc PyFiles.

Inductive policy_error :=
  | PolicyDuplicateKey (key : string)
  | PolicyUnreadable (label : string) | PolicyNotObject (label : string)
  | PolicyCacheUnreadable | PolicyScenarioNotUnique | PolicyTransportNotZenohPico
  | PolicyCapacitiesNotObject | PolicyCeilingInvalid
  | PolicyInventoryMismatch | PolicyMemberInvalid.
#[export] Instance policy_error_eq_dec : EqDecision policy_error.
Proof. solve_decision. Defined.

Definition read_object (doc : document) (label : string) : outcome policy_error dict :=
  value ← (match doc with
           | DocUnreadable | DocInvalid => Raise (PolicyUnreadable label)
           | DocNotText => Crash UnicodeError
           | Doc t => map_error PolicyDuplicateKey (loads_unique t)
           end);
  match value with PDict d => Ok d | _ => Raise (PolicyNotObject label) end.

(** [line[len(key):] for ... if line.startswith(key)] for one line. *)
Definition after_prefix (key : string) (line : list Z) : option (list Z) :=
  let key := codepoints key in
  if bool_decide (take (length key) line = key) then Some (drop (length key) line) else None.

(** [line.split("=", 1)[1]], when there is an equals sign. *)
Fixpoint after_equals (line : list Z) : option (list Z) :=
  match line with
  | [] => None
  | c :: line => if c =? 0x3D then Some line else after_equals line
  end.

Definition scenario_key : string := "AXOLOTY_QUALIFICATION_CARRIER_SCENARIO:BOOL=".
Definition transport_prefix : string := "AXOLOTY_TRANSPORT_DIR:".

Definition scenario_values (cache_lines : list (list Z)) : list string :=
  of_codepoints <$> omap (after_prefix scenario_key) cache_lines.
Definition transport_values (cache_lines : list (list Z)) : list string :=
  of_codepoints <$> omap (fun line => after_prefix transport_prefix line ≫= fun _ => after_equals line)
                         cache_lines.

Definition static_field : string := "applicationStaticStorageBytes".

Definition object_suffix (member : string) : bool := ends_with ".o" member || ends_with ".obj" member.

Definition member_ok (member : pyval) : bool :=
  match member with
  | PStr m =>
      negb (String.eqb m "" || has_char slash m || has_char backslash m
            || negb (String.eqb (path_name (path_of m)) m) || negb (object_suffix m))
  | _ => false
  end.

(** [classify] from the contents of the cache, the manifest and the inventory. *)
Definition classify (cache : textfile) (manifest_doc inventory_doc : document) :
    outcome policy_error string :=
  cache_lines ← (match cache with
                 | TextUnreadable => Raise PolicyCacheUnreadable
                 | TextNotUtf8 => Crash UnicodeError
                 | Text s => Ok (split_lines (codepoints s))
                 end);
  match scenario_values cache_lines with
  | [value] =>
      if String.eqb value "ON" then
        match transport_values cache_lines with
        | [directory] =>
            check (String.eqb (path_name (path_of directory)) "zenoh-pico") PolicyTransportNotZenohPico ;;
            Ok "c-only"
        | _ => Raise PolicyTransportNotZenohPico
        end
      else if String.eqb value "OFF" then
        manifest ← read_object manifest_doc "selected app manifest";
        match get "capacities" manifest with
        | PDict capacities =>
            match dict_get static_field capacities with
            | None => Ok "swift-not-configured"
            | Some ceiling =>
                check (positive_uint32 ceiling) PolicyCeilingInvalid ;;
                inventory ← read_object inventory_doc "selected app storage inventory";
                let app_name := get "name" manifest in
                check (negb (negb (py_eq (get "schemaVersion" inventory) (PInt 1))
                             || negb (py_eq (get "app" inventory) app_name)
                             || negb (is_str app_name) || negb (truthy app_name)))
                      PolicyInventoryMismatch ;;
                let member := get "expectedMapMember" inventory in
                check (member_ok member) PolicyMemberInvalid ;;
                match member with
                | PStr m => Ok ("swift-configured:" +:+ m)
                | _ => Crash TypeError
                end
            end
        | _ => Raise PolicyCapacitiesNotObject
        end
      else Raise PolicyScenarioNotUnique
  | _ => Raise PolicyScenarioNotUnique
  end.

(** [main]: the printed line and the exit status. *)
Definition policy_main (cache : textfile) (manifest_doc inventory_doc : document) :
    option string * Z :=
  let result := classify cache manifest_doc inventory_doc in
  (match result with Ok line => Some line | _ => None end, exit_status 0 2 result).

(** ** Lemmas *)
Lemma read_object_Ok doc label d :
  read_object doc label = Ok d <->
  exists t, doc = Doc t /\ unique_keys t = true /\ loads t = PDict d.
Proof.
  unfold read_object. split.
  - intros (v & Hv & H)%bind_Ok. destruct doc as [| | |t]; try done. exists t. split; [done|].
    destruct (unique_keys t) eqn:E.
    + rewrite (loads_unique_accepts t E) in Hv. simplify_eq/=. destruct (loads t); naive_solver.
    + by destruct (loads_unique_rejects t E) as [k Hk]; rewrite Hk in Hv.
  - intros (t & -> & Hu & Hd). by rewrite (loads_unique_accepts t Hu), Hd.
Qed.

Record member_name (m : string) : Prop := {
  member_nonempty : m <> "";
  member_flat : has_char slash m = false /\ has_char backslash m = false;
  member_object : object_suffix m = true
}.

Lemma member_ok_spec v : member_ok v = true <-> exists m, v = PStr m /\ member_name m.
Proof.
  unfold member_ok. destruct v as [| | | |m| |]; try (split; [done|by intros (? & ? & _)]).
  rewrite negb_true_iff, !orb_false_iff, !negb_false_iff, String.eqb_eq, String.eqb_neq. split.
  - intros ((((? & ?) & ?) & _) & ?). exists m. split; [done|]. by constructor.
  - intros (m' & [= <-] & [Hn [Hs Hb] Ho]). repeat split; try done.
    apply path_name_no_slash; [done|]. unfold is_part.
    rewrite andb_true_iff, !negb_true_iff, !String.eqb_neq. split; [done|].
    intros ->. by vm_compute in Ho.
Qed.
