(* ===== verification/PolicyTheorems.v ===== *)
(** * Properties of the static-storage policy

    [classify] of [static_storage_policy.py] on every branch, and its agreement
    with the budget gate of [linked_storage_audit.py], which reads the same
    manifest later in the build. *)
From S2P Require Import Prelude PyValue PyText JsonDoc PyFiles StorageAudit Fixture Measurement StorageTheorems StoragePolicy.

(** The cache holds exactly one scenario line, with this value. *)
Definition selects (cache : textfile) (value : string) : Prop :=
  exists s, cache = Text s /\ scenario_values (split_lines (codepoints s)) = [value].

Record declares_inventory (t : jtree) (app : pyval) (member : string) : Prop := {
  inventory_unique : unique_keys t = true;
  inventory_fields : exists d, loads t = PDict d /\
    py_eq (get "schemaVersion" d) (PInt 1) = true /\
    py_eq (get "app" d) app = true /\ get "expectedMapMember" d = PStr member;
  inventory_app : exists name, app = PStr name /\ name <> "";
  inventory_member : member_name member
}.

Definition manifest_field (field : string) (t : jtree) : pyval :=
  match loads t with PDict d => get field d | _ => PNone end.

Lemma app_name_ok v : negb (negb (is_str v) || negb (truthy v)) = true <-> exists n, v = PStr n /\ n <> "".
Proof.
  destruct v as [| | | |s| |]; simpl; try (split; [done|by intros (? & ? & _)]).
  rewrite !negb_involutive, negb_true_iff, String.eqb_neq. naive_solver.
Qed.

(** [classify] from its [OFF] branch on. *)
Definition classify_swift (md id : document) : outcome policy_error string :=
  classify (Text (scenario_key +:+ "OFF")) md id.

Lemma classify_selects_off cache md id :
  selects cache "OFF" -> classify cache md id = classify_swift md id.
Proof.
  intros (s & -> & Hv). unfold classify_swift, classify. simpl. rewrite Hv. reflexivity.
Qed.

Lemma declared_ceiling_manifest t c :
  declares_ceiling t c <->
  unique_keys t = true /\ exists m caps, loads t = PDict m /\ get "capacities" m = PDict caps /\
    dict_get static_field caps = Some (PInt c) /\ positive_uint32 (PInt c) = true.
Proof.
  unfold declares_ceiling. setoid_rewrite positive_uint32_true. split.
  - intros (Hu & Hc & m & caps & Hm & Hcaps & Hf). split; [done|]. exists m, caps.
    split; [done|]. split; [done|]. split; [by apply get_not_none|]. eauto.
  - intros (Hu & m & caps & Hm & Hcaps & Hf & (z & [= <-] & Hz)). split; [done|]. split; [done|].
    exists m, caps. split; [done|]. split; [done|]. by apply get_Some.
Qed.

Lemma classify_swift_Ok md id line :
  classify_swift md id = Ok line <->
  exists t m caps, md = Doc t /\ unique_keys t = true /\ loads t = PDict m /\
    get "capacities" m = PDict caps /\
    ((dict_get static_field caps = None /\ line = "swift-not-configured") \/
     exists c ti member, dict_get static_field caps = Some (PInt c) /\ positive_uint32 (PInt c) = true /\
       id = Doc ti /\ declares_inventory ti (get "name" m) member /\
       line = "swift-configured:" +:+ member).
Proof.
  unfold classify_swift, classify. cbn [mbind outcome_bind].
  assert (scenario_values (split_lines (codepoints (scenario_key +:+ "OFF"))) = ["OFF"]) as -> by
    (vm_compute; reflexivity).
  simpl (String.eqb "OFF" _). cbv iota. split.
  - intros (m & (t & -> & Hu & Hm)%read_object_Ok & H)%bind_Ok.
    destruct (get "capacities" m) as [| | | | | |caps] eqn:Ec; try done.
    exists t, m, caps. repeat split; [done..|].
    destruct (dict_get static_field caps) as [v|] eqn:Ef; [right|left; by simplify_eq].
    apply bind_Ok in H as ([] & Hv%check_Ok & H).
    apply bind_Ok in H as (inv & (ti & -> & Hui & Hinv)%read_object_Ok & H).
    apply bind_Ok in H as ([] & Hmatch%check_Ok & H).
    apply bind_Ok in H as ([] & Hmem%check_Ok & H).
    apply member_ok_spec in Hmem as (member & Hmember & Hname). rewrite Hmember in H. simplify_eq/=.
    pose proof Hv as (c & -> & _)%positive_uint32_true.
    rewrite <- !orb_assoc, negb_orb, negb_orb, !negb_involutive in Hmatch.
    apply andb_true_iff in Hmatch as [H1 [H2 H3]%andb_true_iff].
    exists c, ti, member. split_and!; try done. constructor; [done|eauto| |done].
    by apply app_name_ok.
  - intros (t & m & caps & -> & Hu & Hm & Hc & Hcases).
    assert (read_object (Doc t) "selected app manifest" = Ok m) as -> by (apply read_object_Ok; eauto).
    simpl. rewrite Hc. destruct Hcases as [[-> ->]|(c & ti & member & -> & Hv & -> & Hinv & ->)]; [done|].
    rewrite Hv. destruct Hinv as [Hui (d & Hd & H1 & H2 & Hmember) Happ Hname].
    assert (read_object (Doc ti) "selected app storage inventory" = Ok d) as ->
      by (apply read_object_Ok; eauto).
    simpl. rewrite H1, H2. apply app_name_ok in Happ. rewrite negb_orb in Happ.
    apply andb_true_iff in Happ as [Ha Hb]. apply negb_true_iff in Ha, Hb. rewrite Ha, Hb. simpl.
    rewrite Hmember. rewrite (proj2 (member_ok_spec (PStr member))) by eauto. done.
Qed.

Definition selects_zenoh_pico (cache : textfile) : Prop :=
  exists s directory, cache = Text s /\
    transport_values (split_lines (codepoints s)) = [directory] /\
    path_name (path_of directory) = "zenoh-pico".

(** What each line [classify] prints means. *)
Inductive policy_line (cache : textfile) (md id : document) : string -> Prop :=
  | line_c_only : selects cache "ON" -> selects_zenoh_pico cache -> policy_line cache md id "c-only"
  | line_not_configured t m caps :
      selects cache "OFF" -> md = Doc t -> unique_keys t = true -> loads t = PDict m ->
      get "capacities" m = PDict caps -> dict_get static_field caps = None ->
      policy_line cache md id "swift-not-configured"
  | line_configured t c ti member :
      selects cache "OFF" -> md = Doc t -> declares_ceiling t c ->
      id = Doc ti -> declares_inventory ti (manifest_field "name" t) member ->
      policy_line cache md id ("swift-configured:" +:+ member).

Lemma classify_Ok_selects cache md id line :
  classify cache md id = Ok line ->
  (selects cache "ON" /\ selects_zenoh_pico cache /\ line = "c-only") \/
  (selects cache "OFF" /\ classify_swift md id = Ok line).
Proof.
  intros H. assert (Hs : exists s, cache = Text s) by (destruct cache as [| |s]; eauto; done).
  destruct Hs as [s ->]. pose proof H as Hrun. unfold classify in H. cbn [mbind outcome_bind] in H.
  destruct (scenario_values _) as [|value [|? ?]] eqn:Ev; try done.
  destruct (String.eqb_spec value "ON") as [->|Hon].
  - left. destruct (transport_values _) as [|dir [|? ?]] eqn:Et; try done.
    apply bind_Ok in H as ([] & Hd%check_Ok%String.eqb_eq & [= <-]).
    split_and!; [by exists s|by exists s, dir|done].
  - right. destruct (String.eqb_spec value "OFF") as [->|]; [|done].
    assert (Hsel : selects (Text s) "OFF") by by exists s.
    split; [done|]. by rewrite <- (classify_selects_off _ _ _ Hsel).
Qed.

(** C34: [classify] prints a line exactly when the cache, the manifest and the
    inventory declare what the line says: one normalised scenario, for a Swift
    image a positive 32-bit ceiling, and then an inventory of the same application
    with a plain object name. *)
Theorem policy_line_exact cache md id line :
  classify cache md id = Ok line <-> policy_line cache md id line.
Proof.
  split.
  - intros [(? & ? & ->)|[Hoff H]]%classify_Ok_selects; [by constructor|].
    apply classify_swift_Ok in H as (t & m & caps & -> & Hu & Hm & Hc & Hcase).
    destruct Hcase as [[Hf ->]|(c & ti & member & Hf & Hv & -> & Hinv & ->)].
    + by eapply line_not_configured.
    + eapply line_configured; try done; [by apply declared_ceiling_manifest; eauto 10|].
      unfold manifest_field. by rewrite Hm.
  - intros [(s & -> & Hv) (s' & dir & [= <-] & Ht & Hn)|t m caps Hoff -> Hu Hm Hc Hf
           |t c ti member Hoff -> Hd -> Hinv].
    + unfold classify. cbn [mbind outcome_bind]. rewrite Hv.
      change (String.eqb "ON" "ON") with true. cbv iota. rewrite Ht, Hn. reflexivity.
    + rewrite (classify_selects_off _ _ _ Hoff). apply classify_swift_Ok. exists t, m, caps. eauto 10.
    + rewrite (classify_selects_off _ _ _ Hoff). apply classify_swift_Ok.
      apply declared_ceiling_manifest in Hd as (Hu & m & caps & Hm & Hc & Hf & Hv).
      exists t, m, caps. split_and!; try done. right. exists c, ti, member. split_and!; try done.
      unfold manifest_field in Hinv. by rewrite Hm in Hinv.
Qed.

(** C35: the policy and the budget gate read a manifest alike. Where the policy
    says a Swift image has no configured budget, the gate refuses the manifest for
    want of a ceiling; where it names a map member, the gate finds the ceiling. *)
Theorem policy_agrees_with_gate cache t id line r :
  selects cache "OFF" -> classify cache (Doc t) id = Ok line ->
  (line = "swift-not-configured" /\
   enforce_static_storage_budget r (Some t) = Raise CeilingNotUInt32) \/
  (exists member c, line = "swift-configured:" +:+ member /\ declares_ceiling t c /\
    (0 <= rp_conservative_debit r -> rp_aggregate r = rp_conservative_debit r ->
     exists b, enforce_static_storage_budget r (Some t) = Ok b /\ bd_ceiling b = c)).
Proof.
  intros Hoff. rewrite (classify_selects_off _ _ _ Hoff).
  intros (t' & m & caps & [= <-] & Hu & Hm & Hc & Hcase)%classify_swift_Ok.
  destruct Hcase as [[Hf ->]|(c & ti & member & Hf & Hv & -> & Hinv & ->)]; [left|right].
  - split; [done|]. unfold enforce_static_storage_budget.
    rewrite (loads_unique_accepts t Hu), Hm. cbn. rewrite Hc. fold static_field.
    unfold get at 1. by rewrite Hf.
  - assert (Hd : declares_ceiling t c) by (apply declared_ceiling_manifest; eauto 10).
    exists member, c. split_and!; [done..|]. intros Hpos Hagg.
    exists (Budget (rp_conservative_debit r) c (c - rp_conservative_debit r)
                   (rp_conservative_debit r <=? c)). split; [|done].
    apply enforce_budget_Ok. by exists c.
Qed.

(** A configured Swift application. *)
Definition off_cache : textfile := Text (scenario_key +:+ "OFF").
Definition agent_manifest : jtree :=
  JObject [("name", JStr "agent"); ("capacities", JObject [(static_field, JInt 24)])].
Definition agent_inventory : jtree :=
  JObject [("schemaVersion", JInt 1); ("app", JStr "agent"); ("expectedMapMember", JStr "combined.o")].

Lemma off_cache_selects : selects off_cache "OFF".
Proof. exists (scenario_key +:+ "OFF"). split; [reflexivity|vm_compute; reflexivity]. Qed.

Example classify_agent :
  classify off_cache (Doc agent_manifest) (Doc agent_inventory) = Ok "swift-configured:combined.o".
Proof. vm_compute. reflexivity. Qed.

Lemma policy_agrees_with_gate_witness :
  exists member c, "swift-configured:combined.o" = "swift-configured:" +:+ member /\
    declares_ceiling agent_manifest c.
Proof.
  destruct (policy_agrees_with_gate off_cache agent_manifest (Doc agent_inventory) _ fixture_report
    off_cache_selects classify_agent) as [[H _]|(m & c & H & Hd & _)]; [discriminate H|].
  exists m, c. split; [exact H|exact Hd].
Defined.
