(* ===== verification/Catalog.v ===== *)
(** * Manifest capabilities, their ABI bits and their function fields

    [Tools/capability_catalog.py] and the mask functions of
    [Tools/validate-composition.py]: [abi_mask], [field_mask] and
    [ordered_function_fields]. *)
From S2P Require Import Prelude PyValue PyText PyRegex JsonDoc PyFiles.

(** A capability name, its ABI macro and its function fields, in the order of
    the dictionary literal. *)
Abbreviation catalog := (list (string * (string * list string))).

Definition PLATFORM : catalog :=
  [("clock.monotonicMicroseconds", ("AXOLOTY_PLATFORM_CAP_CLOCK", ["clock_now_microseconds"]));
   ("scheduler.delayTicks", ("AXOLOTY_PLATFORM_CAP_DELAY", ["delay_ticks"]));
   ("device.restart", ("AXOLOTY_PLATFORM_CAP_RESTART", ["restart"]));
   ("console.write", ("AXOLOTY_PLATFORM_CAP_LOG", ["write_log"]));
   ("diagnostics.heap", ("AXOLOTY_PLATFORM_CAP_DIAGNOSTICS", ["heap_trace_begin"; "heap_trace_end"]));
   ("diagnostics.stack", ("AXOLOTY_PLATFORM_CAP_DIAGNOSTICS", ["read_metrics"]));
   ("network.configuration", ("AXOLOTY_PLATFORM_CAP_NETWORK_CONFIG",
      ["network_configured"; "network_role"; "network_scenario"]));
   ("network.bootstrap", ("AXOLOTY_PLATFORM_CAP_NETWORK_BOOTSTRAP", ["network_prepare"; "network_cleanup"]));
   ("network.reconnect", ("AXOLOTY_PLATFORM_CAP_NETWORK_RECONNECT", ["network_reconnect"]));
   ("device.displayName", ("AXOLOTY_PLATFORM_CAP_DEVICE_NAME", ["device_display_name"]))].

Definition CARRIER : catalog :=
  [("lastWill", ("AXOLOTY_CARRIER_CAP_LAST_WILL", ["supports_last_will"; "configure_last_will"]));
   ("connect", ("AXOLOTY_CARRIER_CAP_CONNECT", ["connect"]));
   ("subscribe", ("AXOLOTY_CARRIER_CAP_SUBSCRIBE", ["subscribe"]));
   ("unsubscribe", ("AXOLOTY_CARRIER_CAP_UNSUBSCRIBE", ["unsubscribe"]));
   ("publish", ("AXOLOTY_CARRIER_CAP_PUBLISH", ["publish"]));
   ("poll", ("AXOLOTY_CARRIER_CAP_POLL", ["poll_one_event"]));
   ("reconnect", ("AXOLOTY_CARRIER_CAP_RECONNECT", ["wait_for_reconnect"]));
   ("disconnect", ("AXOLOTY_CARRIER_CAP_DISCONNECT", ["disconnect"]));
   ("networkProbe", ("AXOLOTY_CARRIER_CAP_NETWORK_PROBE", ["copy_probe_topic"; "copy_probe_payload"]))].

(** ** The bits of the function fields *)
Definition ordered_function_fields (c : catalog) : list string :=
  dedup (c ≫= fun entry => entry.2.2).

(** [{field for name in names for field in catalog[name][1]}] *)
Definition required_fields {E} (names : list string) (c : catalog) : outcome E (gset string) :=
  fields ← map_outcome (fun name =>
      match dict_get name c with Some (_, fields) => Ok fields | None => Crash KeyError end) names;
  Ok (list_to_set (concat fields)).

(** [sum(1 << index for index, field in enumerate(fields) if field in required)] *)
Fixpoint field_bits (index : Z) (fields : list string) (required : gset string) : Z :=
  match fields with
  | [] => 0
  | field :: fields =>
      (if bool_decide (field ∈ required) then Z.shiftl 1 index else 0)
      + field_bits (index + 1) fields required
  end.

Definition field_mask {E} (names : list string) (c : catalog) : outcome E Z :=
  required ← required_fields names c;
  Ok (field_bits 0 (ordered_function_fields c) required).

(** ** The ABI bits of a header *)
Definition Digits : rx := Plus true (Chr (between 0x30 0x39)).
Definition MacroChar : rx := Chr (fun c => between 0x41 0x5A c || (c =? 0x5F)).

Definition CAP_DEFINE : rx :=
  rx_seq [LineStart; Str "#define"; Plus true Space;
          Group 1 (rx_seq [Str "AXOLOTY_"; Alt (Str "PLATFORM") (Str "CARRIER"); Str "_CAP_";
                           Plus true MacroChar]);
          Plus true Space; Str "UINT64_C(";
          Group 2 (Alt (Seq (Str "0x") (Plus true Hex)) Digits); Str ")"].

(** [re.findall] with a pattern that reads at least one character. *)
Fixpoint findall (fuel : nat) (r : rx) (prev : option Z) (s : list Z) : list captures :=
  match fuel with
  | O => []
  | S fuel =>
      match rx_match r prev s [] (fun prev rest c => Some (prev, rest, c)) with
      | Some (prev', rest, c) => c :: findall fuel r prev' rest
      | None => match s with x :: s' => findall fuel r (Some x) s' | [] => [] end
      end
  end.
Definition re_findall (r : rx) (s : list Z) : list captures := findall (S (length s)) r None s.

(** [int(text, 0)] of [0x] and hexadecimal digits, or of decimal digits: a
    decimal literal that is not zero has no leading zero. *)
Definition decimal_digits (l : list Z) : Z := foldl (fun acc c => acc * 10 + (c - 0x30)) 0 l.
Definition int_base0 {E} (text : list Z) : outcome E Z :=
  match text with
  | 0x30 :: 0x78 :: digits => Ok (hex_value digits)
  | 0x30 :: _ => if forallb (Z.eqb 0x30) text then Ok 0 else Crash ValueError
  | _ => Ok (decimal_digits text)
  end.

Inductive mask_error := NoBitDefinition (name macro : string).

Definition header_macros {E} (text : string) : outcome E (list (string * Z)) :=
  pairs ← map_outcome (fun c =>
      value ← int_base0 (default [] (group 2 c));
      Ok (of_codepoints (default [] (group 1 c)), value)) (re_findall CAP_DEFINE (codepoints text));
  Ok (dict_of pairs).

(** [abi_mask]: [names] lists the set in the order it is iterated. *)
Definition mask_step (macros : list (string * Z)) (c : catalog) (mask : Z) (name : string) :
    outcome mask_error Z :=
  match dict_get name c with
  | None => Crash KeyError
  | Some (macro, _) =>
      match dict_get macro macros with
      | Some bits => Ok (Z.lor mask bits)
      | None => Raise (NoBitDefinition name macro)
      end
  end.

Definition abi_mask (header : textfile) (names : list string) (c : catalog) : outcome mask_error Z :=
  macros ← (match header with
            | TextUnreadable => Crash OSError
            | TextNotUtf8 => Crash UnicodeError
            | Text s => header_macros s
            end);
  fold_outcome (mask_step macros c) 0 names.

(** ** Lemmas *)
Lemma field_bits_shift k fields required :
  0 <= k -> field_bits k fields required = 2 ^ k * field_bits 0 fields required.
Proof.
  revert k. induction fields as [|f fields IH]; intros k Hk; cbn [field_bits]; [lia|].
  rewrite (IH (k + 1)), (IH (0 + 1)), Z.pow_add_r by lia.
  change (2 ^ (0 + 1)) with 2. change (2 ^ 1) with 2.
  case_bool_decide; rewrite ?Z.shiftl_mul_pow2 by lia; change (2 ^ 0) with 1; ring.
Qed.

Lemma field_bits_cons f fields required :
  field_bits 0 (f :: fields) required =
  2 * field_bits 0 fields required + Z.b2z (bool_decide (f ∈ required)).
Proof.
  cbn [field_bits]. rewrite (field_bits_shift (0 + 1)) by lia.
  change (2 ^ (0 + 1)) with 2. change (Z.shiftl 1 0) with 1. case_bool_decide; simpl Z.b2z; lia.
Qed.

Lemma field_bits_testbit fields required (i : nat) :
  Z.testbit (field_bits 0 fields required) (Z.of_nat i) = true <->
  exists f, fields !! i = Some f /\ f ∈ required.
Proof.
  revert i. induction fields as [|f fields IH]; intros i.
  { simpl. rewrite Z.bits_0. split; [done|]. by intros (? & ? & _). }
  rewrite field_bits_cons. destruct i as [|i].
  - simpl Z.of_nat. rewrite Z.testbit_0_r. rewrite bool_decide_eq_true. naive_solver.
  - rewrite Nat2Z.inj_succ, Z.testbit_succ_r by lia. apply IH.
Qed.

Lemma field_bits_bound fields required :
  0 <= field_bits 0 fields required < 2 ^ Z.of_nat (length fields).
Proof.
  induction fields as [|f fields IH]; [simpl; lia|].
  rewrite field_bits_cons. cbn [length]. rewrite Nat2Z.inj_succ, Z.pow_succ_r by lia.
  case_bool_decide; simpl Z.b2z; lia.
Qed.

(** A name requires a field, or an ABI bit, when its catalog entry lists it. *)
Definition name_field (c : catalog) (name field : string) : Prop :=
  exists macro fields, dict_get name c = Some (macro, fields) /\ field ∈ fields.
Definition name_bits (macros : list (string * Z)) (c : catalog) (name : string) (bits : Z) : Prop :=
  exists macro fields, dict_get name c = Some (macro, fields) /\ dict_get macro macros = Some bits.

Lemma required_fields_spec {E} names c r :
  required_fields (E := E) names c = Ok r ->
  forall field, field ∈ r <-> exists name, name ∈ names /\ name_field c name field.
Proof.
  unfold required_fields. intros (fs & Hfs & [= <-])%bind_Ok field.
  apply map_outcome_Ok in Hfs. rewrite elem_of_list_to_set. revert Hfs.
  induction 1 as [|name l names fs Hl Hfs IH]; simpl.
  { split; [by intros ?%elem_of_nil|]. by intros (? & ?%elem_of_nil & _). }
  rewrite elem_of_app, IH. destruct (dict_get name c) as [[macro l']|] eqn:Eg; [|done]. simplify_eq.
  setoid_rewrite elem_of_cons. unfold name_field. naive_solver.
Qed.

Lemma required_fields_known {E} names c :
  (forall name, name ∈ names -> name ∈ keys c) -> exists r, required_fields (E := E) names c = Ok r.
Proof.
  unfold required_fields. intros Hk.
  assert (exists fs, map_outcome (E := E) (fun name =>
      match dict_get name c with Some (_, fields) => Ok fields | None => Crash KeyError end) names = Ok fs)
    as [fs ->]; [|eauto].
  induction names as [|name names IH]; simpl; [eauto|].
  destruct (proj1 (elem_of_keys name c)) as [[macro fields] ->]; [apply Hk, list_elem_of_here|].
  destruct IH as [fs ->]; [|eauto]. intros. apply Hk. by apply list_elem_of_further.
Qed.

Lemma mask_fold macros c names mask m :
  fold_outcome (mask_step macros c) mask names = Ok m ->
  forall i, 0 <= i -> Z.testbit m i = true <->
    Z.testbit mask i = true \/
    exists name bits, name ∈ names /\ name_bits macros c name bits /\ Z.testbit bits i = true.
Proof.
  revert mask. induction names as [|name names IH]; intros mask; simpl.
  { intros [= ->] i Hi. split; [by left|]. intros [?|(? & ? & ?%elem_of_nil & _)]; done. }
  intros (mask' & Hs & H)%bind_Ok i Hi. rewrite (IH _ H i Hi). unfold mask_step in Hs.
  destruct (dict_get name c) as [[macro fields]|] eqn:Ec; [|done].
  destruct (dict_get macro macros) as [bits|] eqn:Em; [|done]. simplify_eq.
  rewrite Z.lor_spec, orb_true_iff. setoid_rewrite elem_of_cons. split.
  - intros [[?|?]|(n & b & ? & ? & ?)]; [by left| |right; eauto 10].
    right. exists name, bits. split; [by left|]. split; [by exists macro, fields|done].
  - intros [?|(n & b & [->|?] & Hb & ?)]; [by left; left| |right; eauto].
    destruct Hb as (macro' & fields' & ? & ?). simplify_eq. left. by right.
Qed.

(** The fold succeeds exactly when every name has a bit definition. *)
Lemma mask_fold_Ok macros c names mask :
  (exists m, fold_outcome (mask_step macros c) mask names = Ok m) <->
  forall name, name ∈ names -> exists bits, name_bits macros c name bits.
Proof.
  revert mask. induction names as [|name names IH]; intros mask; simpl.
  { split; [by intros _ ? ?%elem_of_nil|eauto]. }
  unfold name_bits. split.
  - intros (m & (mask' & Hs & H)%bind_Ok). intros n [->|Hn]%elem_of_cons; [|by eapply IH; eauto].
    unfold mask_step in Hs. destruct (dict_get name c) as [[macro fields]|] eqn:Ec; [|done].
    destruct (dict_get macro macros) as [bits|] eqn:Em; [|done]. eauto.
  - intros H. destruct (H name (list_elem_of_here _ _)) as (bits & macro & fields & Hc & Hm).
    assert (mask_step macros c mask name = Ok (Z.lor mask bits)) as ->
      by (unfold mask_step; by rewrite Hc, Hm). cbn [mbind outcome_bind]. apply IH. intros. apply H. by apply list_elem_of_further.
Qed.

Lemma mask_fold_perm macros c names names' m :
  names ≡ₚ names' -> fold_outcome (mask_step macros c) 0 names = Ok m ->
  fold_outcome (mask_step macros c) 0 names' = Ok m.
Proof.
  intros Hp H. destruct (proj2 (mask_fold_Ok macros c names' 0)) as [m' Hm'].
  { intros name. rewrite <- Hp. apply (proj1 (mask_fold_Ok macros c names 0)). eauto. }
  rewrite Hm'. f_equal. apply Z.bits_inj'. intros i Hi. apply eq_true_iff_eq.
  rewrite (mask_fold _ _ _ _ _ Hm' i Hi), (mask_fold _ _ _ _ _ H i Hi). by setoid_rewrite Hp.
Qed.

Lemma abi_mask_inv header names c m :
  abi_mask header names c = Ok m <->
  exists s macros, header = Text s /\ header_macros (E := mask_error) s = Ok macros /\
    fold_outcome (mask_step macros c) 0 names = Ok m.
Proof.
  unfold abi_mask. rewrite bind_Ok. destruct header; naive_solver.
Qed.

Lemma mask_included m m' :
  (forall i, 0 <= i -> Z.testbit m i = true -> Z.testbit m' i = true) -> Z.land m' m = m.
Proof.
  intros H. apply Z.bits_inj'. intros i Hi. rewrite Z.land_spec. specialize (H i Hi).
  destruct (Z.testbit m i); [by rewrite H|apply andb_false_r].
Qed.

Lemma abi_mask_included header required provided c bits bits' :
  required ⊆ provided ->
  abi_mask header required c = Ok bits -> abi_mask header provided c = Ok bits' ->
  Z.land bits' bits = bits.
Proof.
  intros Hsub (s & macros & -> & Hm & Hb)%abi_mask_inv (s' & macros' & [= <-] & Hm' & Hb')%abi_mask_inv.
  rewrite Hm in Hm'. injection Hm' as <-. apply mask_included; intros i Hi.
  rewrite (mask_fold _ _ _ _ _ Hb i Hi), (mask_fold _ _ _ _ _ Hb' i Hi). rewrite Z.bits_0.
  intros [?|(name & b & Hn & ?)]; [done|right]. exists name, b. split; [by apply Hsub|done].
Qed.

Lemma field_mask_included {E} required provided c fields fields' :
  required ⊆ provided ->
  field_mask (E := E) required c = Ok fields -> field_mask (E := E) provided c = Ok fields' ->
  Z.land fields' fields = fields.
Proof.
  unfold field_mask. intros Hsub (r & Hr & [= <-])%bind_Ok (r' & Hr' & [= <-])%bind_Ok.
  apply mask_included; intros i Hi.
  rewrite <- (Z2Nat.id i) by done. rewrite !field_bits_testbit. intros (f & Hf & Hin).
  exists f. split; [done|]. rewrite (required_fields_spec _ _ _ Hr') by done.
  apply (required_fields_spec _ _ _ Hr) in Hin as (name & Hn & ?). exists name. split; [by apply Hsub|done].
Qed.

(** Bit [i] of a field mask is set exactly when the [i]-th function field of
    the catalog, in its deduplicated order, belongs to a required capability; the
    mask holds no other bit. *)
Theorem field_mask_bits names c m :
  field_mask (E := mask_error) names c = Ok m ->
  0 <= m < 2 ^ Z.of_nat (length (ordered_function_fields c)) /\
  NoDup (ordered_function_fields c) /\
  forall i field, ordered_function_fields c !! i = Some field ->
    Z.testbit m (Z.of_nat i) = true <-> exists name, name ∈ names /\ name_field c name field.
Proof.
  unfold field_mask. intros (r & Hr & [= <-])%bind_Ok. split; [apply field_bits_bound|].
  split; [apply dedup_spec|]. intros i field Hf. rewrite field_bits_testbit.
  rewrite <- (required_fields_spec _ _ _ Hr). naive_solver.
Qed.

(** An ABI mask holds exactly the bits the header defines for the macros of
    the named capabilities, whatever the order in which the set is iterated. *)
Theorem abi_mask_bits header names names' c m :
  abi_mask header names c = Ok m -> names ≡ₚ names' ->
  abi_mask header names' c = Ok m /\
  exists s macros, header = Text s /\ header_macros (E := mask_error) s = Ok macros /\
    forall i, 0 <= i ->
      Z.testbit m i = true <->
      exists name bits, name ∈ names /\ name_bits macros c name bits /\ Z.testbit bits i = true.
Proof.
  intros (s & macros & -> & Hm & Hf)%abi_mask_inv Hp. split.
  - apply abi_mask_inv. exists s, macros. eauto using mask_fold_perm.
  - exists s, macros. split_and!; [done..|]. intros i Hi.
    rewrite (mask_fold _ _ _ _ _ Hf i Hi), Z.bits_0. naive_solver.
Qed.

(** A composition whose required capabilities are among the provided ones
    passes the ABI check of the generated record,
    [(provided & required) == required], for the capability and the function bits. *)
Theorem requirements_pass_abi_check header required provided c bits bits' fields fields' :
  required ⊆ provided ->
  abi_mask header required c = Ok bits -> abi_mask header provided c = Ok bits' ->
  field_mask (E := mask_error) required c = Ok fields ->
  field_mask (E := mask_error) provided c = Ok fields' ->
  Z.land bits' bits = bits /\ Z.land fields' fields = fields.
Proof.
  intros. split; [by eapply abi_mask_included|by eapply field_mask_included].
Qed.

(** A header with two of the platform bits. *)
Definition small_header : string :=
  "#define AXOLOTY_PLATFORM_CAP_CLOCK UINT64_C(0x0000000000000001)" +:+ newline_text +:+
  "#define AXOLOTY_PLATFORM_CAP_DELAY UINT64_C(2)" +:+ newline_text.

Example small_header_masks :
  abi_mask (Text small_header) ["scheduler.delayTicks"] PLATFORM = Ok 2 /\
  abi_mask (Text small_header) ["scheduler.delayTicks"; "clock.monotonicMicroseconds"] PLATFORM = Ok 3 /\
  field_mask (E := mask_error) ["scheduler.delayTicks"] PLATFORM = Ok 2 /\
  field_mask (E := mask_error) ["scheduler.delayTicks"; "clock.monotonicMicroseconds"] PLATFORM = Ok 3.
Proof. vm_compute. repeat split. Qed.

Lemma field_mask_bits_witness :
  field_mask (E := mask_error) ["diagnostics.heap"] PLATFORM = Ok 48 /\ 0 <= 48 < 2 ^ 14.
Proof.
  split; [vm_compute; reflexivity|].
  exact (proj1 (field_mask_bits ["diagnostics.heap"] PLATFORM 48 ltac:(vm_compute; reflexivity))).
Defined.

Lemma abi_mask_bits_witness :
  abi_mask (Text small_header) ["clock.monotonicMicroseconds"; "scheduler.delayTicks"] PLATFORM = Ok 3.
Proof.
  exact (proj1 (abi_mask_bits (Text small_header)
    ["scheduler.delayTicks"; "clock.monotonicMicroseconds"]
    ["clock.monotonicMicroseconds"; "scheduler.delayTicks"] PLATFORM 3
    ltac:(vm_compute; reflexivity) ltac:(constructor))).
Defined.

Lemma requirements_pass_abi_check_witness : Z.land 3 2 = 2.
Proof.
  refine (proj1 (requirements_pass_abi_check (Text small_header) ["scheduler.delayTicks"]
    ["scheduler.delayTicks"; "clock.monotonicMicroseconds"] PLATFORM 2 3 2 3 _ _ _ _ _));
    [set_solver|vm_compute; reflexivity..].
Defined.
