(* ===== verification/Composition.v ===== *)
(** * The composition validator

    [Tools/validate-composition.py]: a profile selects one application, one
    platform and one transport; [validate] reads their manifests and accepts the
    selection, or refuses it with a [CompositionError]. *)
From S2P Require Import Prelude PyValue PyText JsonDoc PyFiles Catalog.

(** ** What the operating system answers *)
Record repository := Repository {
  repo_document : path -> document;      (* the JSON text of a file *)
  repo_text : path -> textfile;          (* [read_text(encoding="utf-8")] *)
  repo_resolve : path -> path;           (* [resolve()] *)
  repo_is_file : path -> bool;
  repo_swift_files : path -> list path   (* [rglob("*.swift")] *)
}.

Inductive composition_error :=
  | CannotRead (p : path) | NotJsonObject (p : path)
  | NotCapabilityArray (label : string) | DuplicateCapability (label : string)
  | NoRequirements | UnknownCapability (axis : string) (names : list string)
  | NoCapacities | CapacityInvalid (name : string)
  | LimitsInvalid | LimitInvalid (name : string)
  | CapacityExceedsCeiling (name : string)
  | MissingCapability (axis : string) (names : list string)
  | ProfileSchema | UnknownProfileKeys (names : list string) | FieldNotSelected (field : string)
  | ManifestSchema (axis : string) | ManifestName (axis : string)
  | WireProfileInvalid | CoreRevisionMismatch
  | SourcesInvalid | SourceNotSwift | SourceEscapes (source : string)
  | SourceInventoryDiffers (unlisted stale : list string)
  | ProfileRequired
  | MaskError (e : mask_error).

Abbreviation run := (outcome composition_error).

(** ** Reading documents and capability arrays *)
Definition read_json (repo : repository) (p : path) : run dict :=
  value ← (match repo_document repo p with
           | DocUnreadable | DocInvalid => Raise (CannotRead p)
           | DocNotText => Crash UnicodeError
           | Doc t => Ok (loads t)
           end);
  match value with PDict d => Ok d | _ => Raise (NotJsonObject p) end.

Definition string_set (value : pyval) (label : string) : run (gset string) :=
  match value with
  | PList l =>
      check (forallb is_str l) (NotCapabilityArray label) ;;
      let names := omap as_str l in
      let values : gset string := list_to_set names in
      check (Nat.eqb (size values) (length names)) (DuplicateCapability label) ;;
      Ok values
  | _ => Raise (NotCapabilityArray label)
  end.

Definition sorted_set (s : gset string) : list string := sorted_strings (elements s).

(** [unknown = sorted(names - catalog.keys()); if unknown: raise] *)
Definition check_known (axis : string) (names : gset string) (c : catalog) : run unit :=
  let unknown := sorted_set (names ∖ key_set c) in
  check (bool_decide (unknown = [])) (UnknownCapability axis unknown).

Definition required_capacities : list string :=
  ["maxTopicLength"; "maxPayloadSize"; "applicationStateBytes"].
Definition static_capacity : string := "applicationStaticStorageBytes".

Abbreviation requirements := (gset string * gset string * dict)%type.

Definition app_requirements (manifest : dict) : run requirements :=
  match get "requirements" manifest with
  | PDict requirements =>
      platform_required ← string_set (get "platform" requirements) "requirements.platform";
      carrier_required ← string_set (get "carrier" requirements) "requirements.carrier";
      check_known "platform" platform_required PLATFORM ;;
      check_known "carrier" carrier_required CARRIER ;;
      match get "capacities" manifest with
      | PDict capacities =>
          for_each (fun name => check (positive_uint32 (get name capacities)) (CapacityInvalid name))
                   required_capacities ;;
          check (match dict_get static_capacity capacities with
                 | Some value => positive_uint32 value
                 | None => true
                 end) (CapacityInvalid static_capacity) ;;
          Ok (platform_required, carrier_required, capacities)
      | _ => Raise NoCapacities
      end
  | _ => Raise NoRequirements
  end.

Definition CARRIER_LIMIT_NAMES : list string := ["maxTopicLength"; "maxPayloadSize"].

Definition transport_limits (manifest : dict) : run dict :=
  match get "limits" manifest with
  | PDict limits =>
      check (bool_decide (key_set limits = list_to_set CARRIER_LIMIT_NAMES)) LimitsInvalid ;;
      for_each (fun name =>
          value ← item name limits; check (positive_uint32 value) (LimitInvalid name))
        CARRIER_LIMIT_NAMES ;;
      map_outcome (fun name => value ← item name limits; Ok (name, value)) CARRIER_LIMIT_NAMES
  | _ => Raise LimitsInvalid
  end.

(** [d[k]] of a dictionary whose values have been checked to be integers. *)
Definition int_item (k : string) (d : dict) : run Z :=
  value ← item k d;
  match value with PInt z => Ok z | _ => Crash TypeError end.

Definition check_capacities (capacities limits : dict) : run unit :=
  for_each (fun name =>
      capacity ← int_item name capacities;
      limit ← int_item name limits;
      check (negb (limit <? capacity)) (CapacityExceedsCeiling name)) CARRIER_LIMIT_NAMES.

Definition check_requirements (axis : string) (required available : gset string) : run unit :=
  let missing := sorted_set (required ∖ available) in
  check (bool_decide (missing = [])) (MissingCapability axis missing).

(** ** [validate] *)
Definition WIRE_PROFILES : list string := ["coaty3JSON"; "axoloty1CBOR"].
Definition PROFILE_KEYS : list string :=
  ["schemaVersion"; "name"; "application"; "platform"; "transport"; "board";
   "configuration"; "core"; "budgets"; "qualification"].

(** The three axes: the directory and the manifest of a selection. *)
Inductive axis := Application | Platform | Transport.
Definition axis_name (a : axis) : string :=
  match a with Application => "application" | Platform => "platform" | Transport => "transport" end.
Definition axis_root (a : axis) : string :=
  match a with Application => "Applications" | Platform => "Platforms" | Transport => "Transports" end.
Definition axis_file (a : axis) : string :=
  match a with Application => "app.json" | Platform => "platform.json" | Transport => "transport.json" end.
Definition axis_dir (repo_root : path) (a : axis) (selected : string) : path :=
  path_join (path_join repo_root (axis_root a)) selected.

Definition selected_field (profile : dict) (a : axis) : run string :=
  match get (axis_name a) profile with
  | PStr s => check (negb (String.eqb s "")) (FieldNotSelected (axis_name a)) ;; Ok s
  | _ => Raise (FieldNotSelected (axis_name a))
  end.

Definition axis_manifest (repo : repository) (repo_root : path) (a : axis) (selected : string) : run dict :=
  manifest ← read_json repo (path_join (axis_dir repo_root a selected) (axis_file a));
  check (py_eq (get "schemaVersion" manifest) (PInt 1)) (ManifestSchema (axis_name a)) ;;
  check (py_eq (get "name" manifest) (PStr selected)) (ManifestName (axis_name a)) ;;
  Ok manifest.

Definition check_core (profile lock : dict) : run unit :=
  let locked_core := get_default "core" (PDict lock) lock in
  match get "core" profile with
  | PDict core =>
      revision ← get_attr "revision" locked_core;
      check (py_eq (get "revision" core) revision) CoreRevisionMismatch
  | _ => Raise CoreRevisionMismatch
  end.

Definition check_source (repo : repository) (app_dir : path) (source : pyval) : run unit :=
  match source with
  | PStr s =>
      check (ends_with ".swift" s) SourceNotSwift ;;
      let p := repo_resolve repo (path_join app_dir s) in
      check (is_relative_to p (repo_resolve repo app_dir) && repo_is_file repo p) (SourceEscapes s)
  | _ => Raise SourceNotSwift
  end.

Definition discovered_sources (repo : repository) (app_dir : path) : run (gset string) :=
  names ← map_outcome (fun p =>
      match relative_to p app_dir with
      | Some rel => Ok (as_posix rel)
      | None => Crash ValueError
      end) (List.filter (repo_is_file repo) (repo_swift_files repo app_dir));
  Ok (list_to_set names).

Definition check_sources (repo : repository) (app_dir : path) (sources : pyval) : run unit :=
  match sources with
  | PList l =>
      check (negb (bool_decide (l = []))) SourcesInvalid ;;
      for_each (check_source repo app_dir) l ;;
      discovered ← discovered_sources repo app_dir;
      let listed : gset string := list_to_set (omap as_str l) in
      check (bool_decide (listed = discovered))
            (SourceInventoryDiffers (sorted_set (discovered ∖ listed)) (sorted_set (listed ∖ discovered)))
  | _ => Raise SourcesInvalid
  end.

Definition validate (repo : repository) (repo_root profile_path : path) : run requirements :=
  profile ← read_json repo profile_path;
  check (py_eq (get_default "schemaVersion" (PInt 1) profile) (PInt 1)) ProfileSchema ;;
  let unknown_keys := sorted_set (key_set profile ∖ list_to_set PROFILE_KEYS) in
  check (bool_decide (unknown_keys = [])) (UnknownProfileKeys unknown_keys) ;;
  application ← selected_field profile Application;
  platform ← selected_field profile Platform;
  transport ← selected_field profile Transport;
  app_manifest ← axis_manifest repo repo_root Application application;
  platform_manifest ← axis_manifest repo repo_root Platform platform;
  transport_manifest ← axis_manifest repo repo_root Transport transport;
  known_wire ← in_strings (get "wireProfile" transport_manifest) WIRE_PROFILES;
  check known_wire WireProfileInvalid ;;
  lock ← read_json repo (path_join repo_root "axoloty-core.lock.json");
  check_core profile lock ;;
  required ← app_requirements app_manifest;
  let '(platform_required, carrier_required, capacities) := required in
  platform_available ← string_set (get "capabilities" platform_manifest) "platform.json capabilities";
  carrier_available ← string_set (get "capabilities" transport_manifest) "transport.json capabilities";
  check_known "platform" platform_available PLATFORM ;;
  check_known "carrier" carrier_available CARRIER ;;
  limits ← transport_limits transport_manifest;
  check_capacities capacities limits ;;
  check_requirements "platform" platform_required platform_available ;;
  check_requirements "carrier" carrier_required carrier_available ;;
  check_sources repo (axis_dir repo_root Application application) (get "sources" app_manifest) ;;
  Ok (platform_required, carrier_required, capacities).

Definition load_composition (repo : repository) (repo_root : path)
    (profile_path app_manifest_path : option path) : run requirements :=
  match app_manifest_path with
  | None =>
      match profile_path with
      | None => Raise ProfileRequired
      | Some p => validate repo repo_root p
      end
  | Some p => manifest ← read_json repo p; app_requirements manifest
  end.
