(* ===== verification/Emission.v ===== *)
(** * The files the composition validator generates

    [write_if_changed], the renderers of the carrier bounds and of the Swift
    requirement record, and [main] of [Tools/validate-composition.py]. *)
From S2P Require Import Prelude PyValue PyText JsonDoc PyFiles Catalog Composition.
From stdpp Require Import pretty.
#[local] Open Scope Z_scope.

Definition unlines (l : list string) : string := String.concat "" ((fun s => s +:+ newline_text) <$> l).

(** ** [write_if_changed] *)
(** The UTF-8 decoder is strict: re-encoding a replaced sequence differs. *)
Definition is_utf8 (bytes : string) : bool := String.eqb (of_codepoints (codepoints bytes)) bytes.

(** Universal newlines, on the bytes: no other sequence holds these two. *)
Fixpoint universal_newlines (s : string) : string :=
  match s with
  | EmptyString => EmptyString
  | String a s' =>
      if Ascii.eqb a (Ascii.ascii_of_N 13) then
        match s' with
        | String b s'' =>
            if Ascii.eqb b (Ascii.ascii_of_N 10)
            then String (Ascii.ascii_of_N 10) (universal_newlines s'')
            else String (Ascii.ascii_of_N 10) (universal_newlines s')
        | EmptyString => String (Ascii.ascii_of_N 10) EmptyString
        end
      else String a (universal_newlines s')
  end.

Definition read_text {E} (bytes : string) : outcome E string :=
  if is_utf8 bytes then Ok (universal_newlines bytes) else Crash UnicodeError.

(** The bytes at [output], [None] where it is not a file, and the bytes after
    the call together with whether it wrote. *)
Definition write_if_changed {E} (current : option string) (text : string) : outcome E (string * bool) :=
  match current with
  | Some bytes =>
      content ← read_text bytes;
      if String.eqb content text then Ok (bytes, false) else Ok (text, true)
  | None => Ok (text, true)
  end.

(** ** Renderers *)
Definition carrier_bounds (capacities : dict) : run (Z * Z) :=
  topic ← int_item "maxTopicLength" capacities;
  payload ← int_item "maxPayloadSize" capacities;
  Ok (topic, payload).

Definition carrier_bounds_swift (capacities : dict) : run string :=
  bounds ← carrier_bounds capacities;
  let '(topic, payload) := bounds in
  Ok (unlines
    ["// Generated by Tools/validate-composition.py. Do not edit.";
     "// Copyright (c) 2026 Atakan DULKER. Licensed under the MIT License.";
     "";
     "/// The topic and payload bounds the carrier is composed with: the selected";
     "/// application's declared capacities. A carrier sizes its fixed storage to";
     "/// these, so it never holds more than the application can read.";
     "enum EmbeddedCarrierBounds {";
     "    /// The longest topic or key, in bytes.";
     "    static let maxTopicLength = " +:+ pretty topic;
     "    /// The longest payload, in bytes.";
     "    static let maxPayloadSize = " +:+ pretty payload;
     "    /// Fixed storage for one topic or key. A generic integer argument must be a";
     "    /// literal, so the generator writes it out.";
     "    typealias TopicStorage = InlineArray<" +:+ pretty topic +:+ ", UInt8>";
     "}"]).

Definition carrier_bounds_header (capacities : dict) : run string :=
  bounds ← carrier_bounds capacities;
  let '(topic, payload) := bounds in
  Ok (unlines
    ["/* Generated by Tools/validate-composition.py. Do not edit. */";
     "/* Copyright (c) 2026 Atakan DULKER. Licensed under the MIT License. */";
     "";
     "#ifndef AXOLOTY_CARRIER_BOUNDS_H";
     "#define AXOLOTY_CARRIER_BOUNDS_H";
     "";
     "/* The topic and payload bounds the carrier is composed with: the selected";
     " * application's declared capacities. A carrier sizes its fixed storage to";
     " * these, so it never holds more than the application can read. */";
     "#define AXOLOTY_CARRIER_MAX_TOPIC_BYTES " +:+ pretty topic;
     "#define AXOLOTY_CARRIER_MAX_PAYLOAD_BYTES " +:+ pretty payload;
     "";
     "#endif"]).

Definition carrier_bounds_cmake (capacities : dict) : run string :=
  bounds ← carrier_bounds capacities;
  let '(topic, payload) := bounds in
  Ok (unlines
    ["# Generated by Tools/validate-composition.py. Do not edit.";
     "# Copyright (c) 2026 Atakan DULKER. Licensed under the MIT License.";
     "set(AXOLOTY_CARRIER_MAX_TOPIC_BYTES " +:+ pretty topic +:+ ")";
     "set(AXOLOTY_CARRIER_MAX_PAYLOAD_BYTES " +:+ pretty payload +:+ ")"]).

(** The requirement record of [swift_requirements]: the two sets are given in the
    order in which they are iterated. *)
Record swift_record := SwiftRecord {
  sw_trace_witness : bool;
  sw_platform_bits : Z; sw_carrier_bits : Z;
  sw_platform_fields : Z; sw_carrier_fields : Z;
  sw_topic : Z; sw_payload : Z; sw_state : Z
}.

Definition swift_record_of (platform_header carrier_header : textfile)
    (platform_names carrier_names : list string) (capacities : dict) : run swift_record :=
  platform_bits ← map_error MaskError (abi_mask platform_header platform_names PLATFORM);
  carrier_bits ← map_error MaskError (abi_mask carrier_header carrier_names CARRIER);
  platform_fields ← field_mask platform_names PLATFORM;
  carrier_fields ← field_mask carrier_names CARRIER;
  trace_fields ← required_fields platform_names PLATFORM;
  let trace_witness :=
    bool_decide ("diagnostics.heap" ∈ platform_names)
    && bool_decide ("heap_trace_begin" ∈ trace_fields) && bool_decide ("heap_trace_end" ∈ trace_fields) in
  topic ← int_item "maxTopicLength" capacities;
  payload ← int_item "maxPayloadSize" capacities;
  state ← int_item "applicationStateBytes" capacities;
  Ok (SwiftRecord trace_witness platform_bits carrier_bits platform_fields carrier_fields
                  topic payload state).

Definition swift_source (r : swift_record) : string :=
  unlines
    ["// Generated by Tools/validate-composition.py. Do not edit.";
     "// Copyright (c) 2026 Atakan DULKER. Licensed under the MIT License.";
     "";
     "/// The selected application's manifest-derived ABI requirements and bounds.";
     "public enum EmbeddedApplicationRequirements"
       +:+ (if sw_trace_witness r then ": EmbeddedHeapTraceInitializationRequirements" else "") +:+ " {";
     "    /// The single fixed requirement record selected for this image.";
     "    public static let current = EmbeddedRequirements(";
     "        platformCapabilities: " +:+ pretty (sw_platform_bits r) +:+ ",";
     "        carrierCapabilities: " +:+ pretty (sw_carrier_bits r) +:+ ",";
     "        platformFunctions: " +:+ pretty (sw_platform_fields r) +:+ ",";
     "        carrierFunctions: " +:+ pretty (sw_carrier_fields r) +:+ ",";
     "        maxTopicLength: " +:+ pretty (sw_topic r) +:+ ",";
     "        maxPayloadSize: " +:+ pretty (sw_payload r) +:+ ",";
     "        applicationStateBytes: " +:+ pretty (sw_state r);
     "    )";
     "}"].

Definition swift_requirements (repo : repository) (repo_root : path)
    (platform_names carrier_names : gset string) (capacities : dict) : run string :=
  r ← swift_record_of (repo_text repo (path_join repo_root "Interop/axoloty_platform_v1.h"))
                      (repo_text repo (path_join repo_root "Interop/axoloty_carrier_v1.h"))
                      (elements platform_names) (elements carrier_names) capacities;
  Ok (swift_source r).

(** ** [main] *)
Record arguments := Arguments {
  arg_repo_root : path;
  arg_profile : option path;
  arg_app_manifest : option path;
  arg_emit_requirements : option path;
  arg_emit_swift : option path;
  arg_emit_header : option path;
  arg_emit_cmake : option path
}.

Definition bounds_emitters (a : arguments) : list (option path * (dict -> run string)) :=
  [(arg_emit_swift a, carrier_bounds_swift);
   (arg_emit_header a, carrier_bounds_header);
   (arg_emit_cmake a, carrier_bounds_cmake)].

Definition is_given {A} (o : option A) : bool := match o with Some _ => true | None => false end.

(** The [write_if_changed] calls of a run, in order, with their texts; an error
    ends the run after the calls already made. *)
Definition emit (capacities : dict) (calls : list (path * string))
    (emitter : option path * (dict -> run string)) : run (list (path * string)) :=
  match emitter.1 with
  | Some output => text ← emitter.2 capacities; Ok (calls ++ [(output, text)])
  | None => Ok calls
  end.

Definition composition_run (repo : repository) (a : arguments) : run (list (path * string)) :=
  let repo_root := repo_resolve repo (arg_repo_root a) in
  let profile := repo_resolve repo <$> arg_profile a in
  let app_manifest := repo_resolve repo <$> arg_app_manifest a in
  check (negb (negb (is_given (arg_emit_requirements a))
               && negb (existsb (fun e => is_given e.1) (bounds_emitters a))
               && negb (is_given profile))) ProfileRequired ;;
  composition ← load_composition repo repo_root profile app_manifest;
  let '(platform_names, carrier_names, capacities) := composition in
  calls ← (match arg_emit_requirements a with
           | Some output =>
               text ← swift_requirements repo repo_root platform_names carrier_names capacities;
               Ok [(output, text)]
           | None => Ok []
           end);
  fold_outcome (emit capacities) calls (bounds_emitters a).

Definition composition_status (repo : repository) (a : arguments) : Z :=
  exit_status 0 1 (composition_run repo a).

Example unlines_two : unlines ["a"; "b"] = "a" +:+ newline_text +:+ "b" +:+ newline_text.
Proof. reflexivity. Qed.
Example crlf_unchanged :
  write_if_changed (E := Empty_set) (Some (of_bytes [0x61; 13; 10])) (of_bytes [0x61; 10])
  = Ok (of_bytes [0x61; 13; 10], false).
Proof. vm_compute. reflexivity. Qed.
