(* ===== verification/CompositionFixture.v ===== *)
(** * A miniature repository: concrete inputs for the composition theorems *)
From S2P Require Import Prelude PyValue PyText JsonDoc PyFiles Catalog Composition Emission.

Definition fixture_profile : jtree :=
  JObject [("schemaVersion", JInt 1); ("name", JStr "demo"); ("application", JStr "agent");
           ("platform", JStr "linux"); ("transport", JStr "loop");
           ("core", JObject [("revision", JStr "abc")])].
Definition fixture_app : jtree :=
  JObject [("schemaVersion", JInt 1); ("name", JStr "agent");
           ("requirements", JObject [("platform", JArray [JStr "scheduler.delayTicks"]);
                                     ("carrier", JArray [JStr "publish"])]);
           ("capacities", JObject [("maxTopicLength", JInt 64); ("maxPayloadSize", JInt 256);
                                   ("applicationStateBytes", JInt 512)]);
           ("sources", JArray [JStr "Agent.swift"])].
Definition fixture_platform : jtree :=
  JObject [("schemaVersion", JInt 1); ("name", JStr "linux");
           ("capabilities", JArray [JStr "clock.monotonicMicroseconds"; JStr "scheduler.delayTicks"])].
Definition fixture_transport : jtree :=
  JObject [("schemaVersion", JInt 1); ("name", JStr "loop"); ("wireProfile", JStr "axoloty1CBOR");
           ("capabilities", JArray [JStr "connect"; JStr "publish"]);
           ("limits", JObject [("maxTopicLength", JInt 128); ("maxPayloadSize", JInt 256)])].
Definition fixture_lock : jtree := JObject [("core", JObject [("revision", JStr "abc")])].

Definition carrier_header : string :=
  "#define AXOLOTY_CARRIER_CAP_CONNECT UINT64_C(0x2)" +:+ newline_text +:+
  "#define AXOLOTY_CARRIER_CAP_PUBLISH UINT64_C(0x10)" +:+ newline_text.

Definition fixture_files : list (string * document) :=
  [("/repo/profile.json", Doc fixture_profile);
   ("/repo/Applications/agent/app.json", Doc fixture_app);
   ("/repo/Platforms/linux/platform.json", Doc fixture_platform);
   ("/repo/Transports/loop/transport.json", Doc fixture_transport);
   ("/repo/axoloty-core.lock.json", Doc fixture_lock)].
Definition fixture_sources : list string := ["/repo/Applications/agent/Agent.swift"].

Definition fixture_repository : repository :=
  {| repo_document p := default DocUnreadable (dict_get (as_posix p) fixture_files);
     repo_text p := if String.eqb (as_posix p) "/repo/Interop/axoloty_platform_v1.h" then Text small_header
                    else if String.eqb (as_posix p) "/repo/Interop/axoloty_carrier_v1.h" then Text carrier_header
                    else TextUnreadable;
     repo_resolve p := p;
     repo_is_file p := bool_decide (as_posix p ∈ fixture_sources);
     repo_swift_files p := path_of <$> fixture_sources |}.

Definition fixture_root : path := path_of "/repo".
Definition fixture_profile_path : path := path_of "/repo/profile.json".
Definition fixture_capacities : dict :=
  [("maxTopicLength", PInt 64); ("maxPayloadSize", PInt 256); ("applicationStateBytes", PInt 512)].

Lemma fixture_validates :
  validate fixture_repository fixture_root fixture_profile_path =
  Ok ({["scheduler.delayTicks"]}, {["publish"]}, fixture_capacities).
Proof. vm_compute. reflexivity. Qed.

Definition fixture_record : swift_record := SwiftRecord false 2 16 2 32 64 256 512.
Lemma fixture_record_of :
  swift_record_of (Text small_header) (Text carrier_header)
    (elements ({["scheduler.delayTicks"]} : gset string)) (elements ({["publish"]} : gset string))
    fixture_capacities = Ok fixture_record.
Proof. vm_compute. reflexivity. Qed.

Example fixture_arguments_run :
  composition_status fixture_repository
    (Arguments fixture_root (Some fixture_profile_path) None None (Some (path_of "out.swift")) None None) = 0.
Proof. vm_compute. reflexivity. Qed.
Example fixture_arguments_none :
  composition_status fixture_repository (Arguments fixture_root None None None None None None) = 1.
Proof. vm_compute. reflexivity. Qed.
