(* ===== verification/CompositionTheorems.v ===== *)
(** * What an accepted composition is

    [composition] states the contract of [validate] declaratively; the theorem
    says that [validate] accepts exactly the selections that satisfy it. *)
From S2P Require Import Prelude PyValue PyText JsonDoc PyFiles Catalog Composition.

(** ** The specification *)
Definition object_at (repo : repository) (p : path) (d : dict) : Prop :=
  exists t, repo_document repo p = Doc t /\ loads t = PDict d.

Definition capability_array (v : pyval) (names : gset string) : Prop :=
  exists l, v = PList (PStr <$> l) /\ NoDup l /\ names = list_to_set l.

Definition uint32 (v : pyval) : Prop := exists z, v = PInt z /\ 0 < z < 2 ^ 32.

Record requires (manifest : dict) (platform carrier : gset string) (capacities : dict) : Prop := {
  requires_arrays : exists r, get "requirements" manifest = PDict r /\
    capability_array (get "platform" r) platform /\ capability_array (get "carrier" r) carrier;
  requires_known : platform ⊆ key_set PLATFORM /\ carrier ⊆ key_set CARRIER;
  requires_capacities : get "capacities" manifest = PDict capacities;
  requires_positive : Forall (fun name => uint32 (get name capacities)) required_capacities;
  requires_static : forall v, dict_get static_capacity capacities = Some v -> uint32 v
}.

(** The transport declares the two ceilings, and the application stays under. *)
Definition under_ceilings (capacities transport : dict) : Prop :=
  exists limits, get "limits" transport = PDict limits /\
    key_set limits = list_to_set CARRIER_LIMIT_NAMES /\
    Forall (fun name => exists capacity limit,
      dict_get name capacities = Some (PInt capacity) /\ dict_get name limits = Some (PInt limit) /\
      0 < limit < 2 ^ 32 /\ capacity <= limit) CARRIER_LIMIT_NAMES.

(** The sources of the application manifest are the Swift files of its tree. *)
Definition sources_match (repo : repository) (dir : path) (v : pyval) : Prop :=
  exists names, v = PList (PStr <$> names) /\ names <> [] /\
    Forall (fun s => ends_with ".swift" s = true /\
      let p := repo_resolve repo (path_join dir s) in
      is_relative_to p (repo_resolve repo dir) = true /\ repo_is_file repo p = true) names /\
    (forall p, p ∈ repo_swift_files repo dir -> repo_is_file repo p = true ->
       is_relative_to p dir = true) /\
    forall s, s ∈ names <-> exists p rel,
      p ∈ repo_swift_files repo dir /\ repo_is_file repo p = true /\
      relative_to p dir = Some rel /\ as_posix rel = s.

Definition is_manifest (repo : repository) (root : path) (a : axis) (selected : string) (d : dict) : Prop :=
  object_at repo (path_join (axis_dir root a selected) (axis_file a)) d /\
  py_eq (get "schemaVersion" d) (PInt 1) = true /\ get "name" d = PStr selected.

Definition same_core (profile lock : dict) : Prop :=
  exists core locked, get "core" profile = PDict core /\
    get_default "core" (PDict lock) lock = PDict locked /\
    py_eq (get "revision" core) (get "revision" locked) = true.

Record composition (repo : repository) (root : path) (profile : dict)
    (application platform transport : string) (p c : gset string) (capacities : dict) : Prop := {
  comp_schema : py_eq (get_default "schemaVersion" (PInt 1) profile) (PInt 1) = true;
  comp_keys : key_set profile ⊆ list_to_set PROFILE_KEYS;
  comp_selected : get "application" profile = PStr application /\
    get "platform" profile = PStr platform /\ get "transport" profile = PStr transport;
  comp_nonempty : application <> "" /\ platform <> "" /\ transport <> "";
  comp_core : exists lock, object_at repo (path_join root "axoloty-core.lock.json") lock /\
    same_core profile lock;
  comp_manifests : exists app plat tr,
    is_manifest repo root Application application app /\
    is_manifest repo root Platform platform plat /\
    is_manifest repo root Transport transport tr /\
    (exists wire, get "wireProfile" tr = PStr wire /\ wire ∈ WIRE_PROFILES) /\
    requires app p c capacities /\
    (exists available, capability_array (get "capabilities" plat) available /\
       p ⊆ available /\ available ⊆ key_set PLATFORM) /\
    (exists available, capability_array (get "capabilities" tr) available /\
       c ⊆ available /\ available ⊆ key_set CARRIER) /\
    under_ceilings capacities tr /\
    sources_match repo (axis_dir root Application application) (get "sources" app)
}.

(** ** Each step against its part of the specification *)
Lemma read_json_Ok repo p d : read_json repo p = Ok d <-> object_at repo p d.
Proof.
  unfold read_json, object_at. split.
  - intros (v & Hv & H)%bind_Ok. destruct (repo_document repo p) as [| | |t]; try done.
    exists t. split; [done|]. simplify_eq. by destruct (loads t); simplify_eq.
  - intros (t & -> & Ht). simpl. by rewrite Ht.
Qed.

Lemma string_set_Ok v label s : string_set v label = Ok s <-> capability_array v s.
Proof.
  unfold string_set, capability_array. split.
  - destruct v as [| | | | |l|]; try done.
    intros ([] & Hs%check_Ok%strings_list & ([] & Hn%check_Ok & [= <-])%bind_Ok)%bind_Ok.
    apply Nat.eqb_eq, size_list_to_set_NoDup in Hn. exists (omap as_str l). by rewrite <- Hs.
  - intros (l & -> & Hn & ->). rewrite strings_forallb, as_str_strings. simpl.
    by rewrite (proj2 (Nat.eqb_eq _ _)) by by apply size_list_to_set_NoDup.
Qed.

Lemma sorted_set_nil (s : gset string) : sorted_set s = [] <-> s = ∅.
Proof.
  unfold sorted_set, sorted_strings. split.
  - intros H. apply leibniz_equiv, elements_empty_inv, Permutation_nil. rewrite <- H. apply sort_by_perm.
  - intros ->. by rewrite elements_empty.
Qed.

Lemma sorted_difference_nil (a b : gset string) : sorted_set (a ∖ b) = [] <-> a ⊆ b.
Proof.
  rewrite sorted_set_nil. split; [|set_solver]. intros H x Hx.
  destruct (decide (x ∈ b)) as [|Hb]; [done|]. assert (x ∈ a ∖ b) as Hin by set_solver.
  by rewrite H in Hin; apply elem_of_empty in Hin.
Qed.

Lemma check_known_Ok name names c u : check_known name names c = Ok u <-> names ⊆ key_set c.
Proof. unfold check_known. by rewrite check_Ok, bool_decide_eq_true, sorted_difference_nil. Qed.

Lemma check_requirements_Ok name required available u :
  check_requirements name required available = Ok u <-> required ⊆ available.
Proof. unfold check_requirements. by rewrite check_Ok, bool_decide_eq_true, sorted_difference_nil. Qed.

(** ** [app_requirements] *)
Lemma uint32_true v : positive_uint32 v = true <-> uint32 v.
Proof. apply positive_uint32_true. Qed.

Lemma app_requirements_Ok manifest p c caps :
  app_requirements manifest = Ok (p, c, caps) <-> requires manifest p c caps.
Proof.
  unfold app_requirements. split.
  - intros H. destruct (get "requirements" manifest) as [| | | | | |r] eqn:Er; try done.
    apply bind_Ok in H as (p' & Hp%string_set_Ok & H). apply bind_Ok in H as (c' & Hc%string_set_Ok & H).
    apply bind_Ok in H as (? & Hkp%check_known_Ok & H). apply bind_Ok in H as (? & Hkc%check_known_Ok & H).
    destruct (get "capacities" manifest) as [| | | | | |caps'] eqn:Ec; try done.
    apply bind_Ok in H as (? & Hpos%for_each_Ok & H). apply bind_Ok in H as (? & Hstatic%check_Ok & H).
    simplify_eq. constructor; [eauto|done|done| |].
    + eapply Forall_impl; [exact Hpos|]. intros name Hn%check_Ok. by apply uint32_true.
    + intros v Hv. rewrite Hv in Hstatic. by apply uint32_true.
  - intros [(r & Hr & Hp & Hc) [Hkp Hkc] Hcaps Hpos Hstatic]. rewrite Hr.
    rewrite (proj2 (string_set_Ok _ _ _) Hp). cbn [mbind outcome_bind].
    rewrite (proj2 (string_set_Ok _ _ _) Hc). cbn [mbind outcome_bind].
    rewrite (proj2 (check_known_Ok "platform" p PLATFORM tt) Hkp),
      (proj2 (check_known_Ok "carrier" c CARRIER tt) Hkc). cbn [mbind outcome_bind]. rewrite Hcaps.
    rewrite (proj2 (for_each_Ok _ required_capacities tt)); [cbn [mbind outcome_bind]|].
    + rewrite (proj2 (check_Ok _ _ tt)); [done|].
      destruct (dict_get static_capacity caps) eqn:E; [|done]. apply uint32_true, Hstatic. done.
    + eapply Forall_impl; [exact Hpos|]. intros name ?%uint32_true. by apply check_Ok.
Qed.

(** ** The ceilings *)
Lemma int_item_Ok k d z : int_item k d = Ok z <-> dict_get k d = Some (PInt z).
Proof.
  unfold int_item. rewrite bind_Ok. setoid_rewrite item_Ok. split.
  - intros (v & -> & H). destruct v; naive_solver.
  - intros ->. by exists (PInt z).
Qed.

Lemma transport_limits_Ok tr limits' :
  transport_limits tr = Ok limits' <->
  exists limits, get "limits" tr = PDict limits /\ key_set limits = list_to_set CARRIER_LIMIT_NAMES /\
    exists topic payload, dict_get "maxTopicLength" limits = Some topic /\
      dict_get "maxPayloadSize" limits = Some payload /\ uint32 topic /\ uint32 payload /\
      limits' = [("maxTopicLength", topic); ("maxPayloadSize", payload)].
Proof.
  unfold transport_limits. split.
  - intros H. destruct (get "limits" tr) as [| | | | | |limits] eqn:E; try done.
    exists limits. split; [done|]. rewrite check_bind in H. case_bool_decide as Hk; [|done].
    split; [done|]. simpl in H.
    destruct (dict_get "maxTopicLength" limits) as [topic|] eqn:Et; unfold item in H; rewrite Et in H; [|done].
    destruct (dict_get "maxPayloadSize" limits) as [payload|] eqn:Ep; simpl in H;
      [|by destruct (positive_uint32 topic)]. exists topic, payload.
    destruct (positive_uint32 topic) eqn:Ht; [|done]. destruct (positive_uint32 payload) eqn:Hp; [|done].
    simpl in H. simplify_eq. rewrite <- !uint32_true. done.
  - intros (limits & -> & Hk & topic & payload & Et & Ep & Ht%uint32_true & Hp%uint32_true & ->).
    rewrite check_bind, bool_decide_eq_true_2 by done. simpl. unfold item. rewrite Et, Ep. simpl.
    by rewrite Ht, Hp.
Qed.

Lemma ceilings_Ok capacities tr :
  (exists limits, transport_limits tr = Ok limits /\ check_capacities capacities limits = Ok tt) <->
  under_ceilings capacities tr.
Proof.
  unfold under_ceilings. setoid_rewrite transport_limits_Ok. unfold check_capacities. split.
  - intros (limits' & (limits & Hl & Hk & topic & payload & Et & Ep & (zt & -> & Ht) & (zp & -> & Hp) & ->) & H).
    exists limits. split_and!; [done..|]. apply for_each_Ok in H.
    assert (Hstep : forall name z, dict_get name limits = Some (PInt z) -> 0 < z < 2 ^ 32 ->
      dict_get name [("maxTopicLength", PInt zt); ("maxPayloadSize", PInt zp)] = Some (PInt z) ->
      (capacity ← int_item name capacities;
       limit ← int_item name [("maxTopicLength", PInt zt); ("maxPayloadSize", PInt zp)];
       check (negb (limit <? capacity)) (CapacityExceedsCeiling name)) = Ok tt ->
      exists capacity limit, dict_get name capacities = Some (PInt capacity) /\
        dict_get name limits = Some (PInt limit) /\ 0 < limit < 2 ^ 32 /\ capacity <= limit).
    { intros name z Hz Hpos Hz' (cap & Hcap%int_item_Ok & (lim & Hlim%int_item_Ok & Hc%check_Ok)%bind_Ok)%bind_Ok.
      rewrite Hz' in Hlim. simplify_eq. exists cap, lim. bool_prop. auto. }
    apply Forall_cons in H as [H1 [H2 _]%Forall_cons].
    repeat constructor; eapply Hstep; eauto.
  - intros (limits & Hl & Hk & [(ct & zt & Hct & Hzt & Ht & Hlt) [(cp & zp & Hcp & Hzp & Hp & Hlp) _]%Forall_cons]%Forall_cons).
    eexists. split.
    + exists limits. split_and!; [done..|]. exists (PInt zt), (PInt zp).
      split_and!; [done|done|by exists zt|by exists zp|reflexivity].
    + unfold CARRIER_LIMIT_NAMES, int_item, item. simpl. rewrite Hct, Hcp. simpl.
      by rewrite (proj2 (Z.ltb_ge _ _) Hlt), (proj2 (Z.ltb_ge _ _) Hlp).
Qed.

(** ** Sources *)
Definition source_ok (repo : repository) (dir : path) (s : string) : Prop :=
  ends_with ".swift" s = true /\
  let p := repo_resolve repo (path_join dir s) in
  is_relative_to p (repo_resolve repo dir) = true /\ repo_is_file repo p = true.

Lemma check_source_Ok repo dir v u :
  check_source repo dir v = Ok u <-> exists s, v = PStr s /\ source_ok repo dir s.
Proof.
  destruct u. unfold check_source, source_ok. split.
  - destruct v as [| | | |s| |]; try done. intros (? & ?%check_Ok & H%check_Ok)%bind_Ok.
    bool_prop. eauto.
  - intros (s & -> & Hs & Hrel & Hfile). rewrite Hs. simpl. by rewrite Hrel, Hfile.
Qed.

Lemma discovered_Ok repo dir d :
  discovered_sources repo dir = Ok d ->
  (forall p, p ∈ repo_swift_files repo dir -> repo_is_file repo p = true -> is_relative_to p dir = true) /\
  forall s, s ∈ d <-> exists p rel, p ∈ repo_swift_files repo dir /\ repo_is_file repo p = true /\
    relative_to p dir = Some rel /\ as_posix rel = s.
Proof.
  unfold discovered_sources. intros (names & Hn%map_outcome_Ok & [= <-])%bind_Ok.
  assert (Hrel : forall p, p ∈ repo_swift_files repo dir -> repo_is_file repo p = true ->
    exists rel, relative_to p dir = Some rel /\ as_posix rel ∈ names).
  { intros p Hp Hf. assert (p ∈ List.filter (repo_is_file repo) (repo_swift_files repo dir)) as Hin
      by by apply elem_of_filterb.
    apply list_elem_of_lookup in Hin as [i Hi].
    destruct (Forall2_lookup_l _ _ _ _ _ Hn Hi) as (s & Hs & Hp').
    destruct (relative_to p dir) as [rel|]; [|done]. exists rel. split; [done|]. simplify_eq.
    by eapply list_elem_of_lookup_2. }
  split.
  - intros p Hp Hf. destruct (Hrel p Hp Hf) as (rel & H & _). unfold relative_to in H.
    by destruct (is_relative_to p dir).
  - intros s. rewrite elem_of_list_to_set. split.
    + intros [i Hi]%list_elem_of_lookup. destruct (Forall2_lookup_r _ _ _ _ _ Hn Hi) as (p & Hp & Hs).
      apply list_elem_of_lookup_2, elem_of_filterb in Hp as [Hin Hf].
      destruct (relative_to p dir) as [rel|] eqn:E; [|done]. simplify_eq. eauto 10.
    + intros (p & rel & Hp & Hf & Hr & <-). destruct (Hrel p Hp Hf) as (rel' & ? & ?). by simplify_eq.
Qed.

Lemma discovered_total repo dir :
  (forall p, p ∈ repo_swift_files repo dir -> repo_is_file repo p = true -> is_relative_to p dir = true) ->
  exists d, discovered_sources repo dir = Ok d.
Proof.
  unfold discovered_sources. intros H.
  assert (Hf : forall p, p ∈ List.filter (repo_is_file repo) (repo_swift_files repo dir) ->
    is_relative_to p dir = true) by (intros p [? ?]%elem_of_filterb; auto).
  induction (List.filter _ _) as [|p l IH]; simpl; [eauto|].
  pose proof (Hf p (list_elem_of_here _ _)) as Hp.
  destruct (relative_to p dir) as [rel|] eqn:Er; [|by unfold relative_to in Er; rewrite Hp in Er]. simpl.
  destruct IH as [d Hd]; [intros; apply Hf; by apply list_elem_of_further|].
  apply bind_Ok in Hd as (names & -> & _). simpl. eauto.
Qed.

Lemma check_sources_Ok repo dir v u : check_sources repo dir v = Ok u <-> sources_match repo dir v.
Proof.
  unfold check_sources, sources_match. fold (source_ok repo dir). split.
  - destruct v as [| | | | |l|]; try done.
    intros (? & Hne%check_Ok & (? & Hs%for_each_Ok & (d & Hd & H%check_Ok)%bind_Ok)%bind_Ok)%bind_Ok.
    bool_prop. apply discovered_Ok in Hd as [Hall Hd].
    assert (Hl : l = PStr <$> omap as_str l).
    { apply strings_list, forallb_elem. intros w Hw. rewrite Forall_forall in Hs.
      by apply Hs, check_source_Ok in Hw as (s & -> & _). }
    exists (omap as_str l). split_and!; [by rewrite <- Hl| | |done|].
    + intros E. rewrite E in Hl. by apply Hne.
    + rewrite Hl in Hs. apply Forall_fmap in Hs. eapply Forall_impl; [exact Hs|].
      intros s (s' & [= <-] & ?)%check_source_Ok. done.
    + intros s. rewrite <- Hd, <- H. by rewrite elem_of_list_to_set.
  - intros (names & -> & Hne & Hs & Hall & Hmatch). rewrite check_bind.
    rewrite bool_decide_eq_false_2 by (by destruct names). cbn [negb].
    rewrite (proj2 (for_each_Ok _ (PStr <$> names) tt)); cbn [mbind outcome_bind].
    + destruct (discovered_total repo dir Hall) as [d Hd]. rewrite Hd. cbn [mbind outcome_bind].
      apply discovered_Ok in Hd as [_ Hd]. rewrite as_str_strings. apply check_Ok, bool_decide_eq_true.
      apply set_eq. intros s. by rewrite elem_of_list_to_set, Hd.
    + apply Forall_fmap. eapply Forall_impl; [exact Hs|]. intros s ?. apply (check_source_Ok _ _ _ tt). eauto.
Qed.

(** ** The axes *)
Lemma axis_manifest_Ok repo root a selected d :
  axis_manifest repo root a selected = Ok d <-> is_manifest repo root a selected d.
Proof.
  unfold axis_manifest, is_manifest. split.
  - intros (d' & Hd%read_json_Ok & (? & Hs%check_Ok & (? & Hn%check_Ok & [= <-])%bind_Ok)%bind_Ok)%bind_Ok.
    by apply py_eq_str_r in Hn.
  - intros (Hd & Hs & Hn). rewrite (proj2 (read_json_Ok _ _ _) Hd). cbn [mbind outcome_bind].
    rewrite Hs, Hn. simpl. by rewrite String.eqb_refl.
Qed.

Lemma selected_field_Ok profile a s :
  selected_field profile a = Ok s <-> get (axis_name a) profile = PStr s /\ s <> "".
Proof.
  unfold selected_field. split.
  - destruct (get _ _); try done. intros (? & Hs%check_Ok & [= <-])%bind_Ok.
    apply negb_true_iff, String.eqb_neq in Hs. done.
  - intros [-> Hs%String.eqb_neq]. by rewrite Hs.
Qed.

Lemma check_core_Ok profile lock u : check_core profile lock = Ok u <-> same_core profile lock.
Proof.
  destruct u. unfold check_core, same_core. split.
  - destruct (get "core" profile) as [| | | | | |core] eqn:Ec; try done.
    intros (rev & Hr & H%check_Ok)%bind_Ok. destruct (get_default _ _ _) as [| | | | | |locked] eqn:El; try done.
    simpl in Hr. simplify_eq. eauto.
  - intros (core & locked & -> & -> & H). simpl. by rewrite H.
Qed.

Lemma validate_Ok repo root profile_path p c capacities :
  validate repo root profile_path = Ok (p, c, capacities) <->
  exists profile application platform transport,
    object_at repo profile_path profile /\
    composition repo root profile application platform transport p c capacities.
Proof.
  unfold validate. rewrite bind_Ok. setoid_rewrite read_json_Ok. split.
  - intros (profile & Hp & (? & Hschema%check_Ok & H)%bind_Ok). exists profile.
    apply bind_Ok in H as (? & Hkeys%check_Ok & H). bool_prop. rewrite sorted_difference_nil in Hkeys.
    apply bind_Ok in H as (application & [Happ Happ']%selected_field_Ok & H).
    apply bind_Ok in H as (platform & [Hplat Hplat']%selected_field_Ok & H).
    apply bind_Ok in H as (transport & [Htr Htr']%selected_field_Ok & H).
    apply bind_Ok in H as (app & Happm%axis_manifest_Ok & H).
    apply bind_Ok in H as (plat & Hplatm%axis_manifest_Ok & H).
    apply bind_Ok in H as (tr & Htrm%axis_manifest_Ok & H).
    apply bind_Ok in H as (wire & Hwire & H). apply bind_Ok in H as (? & Hw%check_Ok & H). subst wire.
    apply in_strings_true in Hwire as (wire & Hwire & Hin).
    apply bind_Ok in H as (lock & Hlock%read_json_Ok & H). apply bind_Ok in H as (? & Hcore%check_core_Ok & H).
    apply bind_Ok in H as ([[p' c'] caps'] & Hreq%app_requirements_Ok & H).
    apply bind_Ok in H as (pa & Hpa%string_set_Ok & H). apply bind_Ok in H as (ca & Hca%string_set_Ok & H).
    apply bind_Ok in H as (? & Hkp%check_known_Ok & H). apply bind_Ok in H as (? & Hkc%check_known_Ok & H).
    apply bind_Ok in H as (limits & Hlim & H). apply bind_Ok in H as ([] & Hcap & H).
    apply bind_Ok in H as (? & Hrp%check_requirements_Ok & H).
    apply bind_Ok in H as (? & Hrc%check_requirements_Ok & H).
    apply bind_Ok in H as (? & Hsrc%check_sources_Ok & H). simplify_eq.
    assert (under_ceilings capacities tr) by (apply ceilings_Ok; eauto).
    exists application, platform, transport. split; [done|]. constructor; eauto.
    exists app, plat, tr. split_and!; eauto.
  - intros (profile & application & platform & transport & Hp & [Hschema Hkeys (Happ & Hplat & Htr)
      (Happ' & Hplat' & Htr') (lock & Hlock & Hcore) (app & plat & tr & Happm & Hplatm & Htrm &
      (wire & Hwire & Hin) & Hreq & (pa & Hpa & Hrp & Hkp) & (ca & Hca & Hrc & Hkc) & Hceil & Hsrc)]).
    exists profile. split; [done|].
    eapply bind_run; [by rewrite check_Ok|].
    eapply bind_run; [by apply check_Ok, bool_decide_eq_true, sorted_difference_nil|].
    do 3 (eapply bind_run; [by apply selected_field_Ok|]).
    do 3 (eapply bind_run; [by apply axis_manifest_Ok|]).
    eapply bind_run; [apply in_strings_true; eauto|]. eapply bind_run; [done|].
    eapply bind_run; [by apply read_json_Ok|]. eapply bind_run; [by apply check_core_Ok|].
    eapply bind_run; [by apply app_requirements_Ok|].
    do 2 (eapply bind_run; [by apply string_set_Ok|]).
    do 2 (eapply bind_run; [by apply check_known_Ok|]).
    apply ceilings_Ok in Hceil as (limits & Hlim & Hcap).
    eapply bind_run; [exact Hlim|]. eapply bind_run; [exact Hcap|].
    do 2 (eapply bind_run; [by apply check_requirements_Ok|]).
    eapply bind_run; [by apply check_sources_Ok|]. done.
    Unshelve. all: exact tt.
Qed.

(** C9: [validate] accepts exactly the compositions of the contract, with the
    requirement sets and the capacities of the application. *)
Theorem validate_exact repo root profile_path p c capacities :
  validate repo root profile_path = Ok (p, c, capacities) <->
  exists profile application platform transport,
    object_at repo profile_path profile /\
    composition repo root profile application platform transport p c capacities.
Proof. apply validate_Ok. Qed.
