(* ===== verification/EmissionTheorems.v ===== *)
(** * Properties of the generated files *)
From S2P Require Import Prelude PyValue PyText JsonDoc PyFiles Catalog Composition Emission CompositionFixture CompositionTheorems.

Lemma swift_record_inv ph ch ps cs capacities r :
  swift_record_of ph ch ps cs capacities = Ok r ->
  abi_mask ph ps PLATFORM = Ok (sw_platform_bits r) /\
  abi_mask ch cs CARRIER = Ok (sw_carrier_bits r) /\
  field_mask (E := composition_error) ps PLATFORM = Ok (sw_platform_fields r) /\
  field_mask (E := composition_error) cs CARRIER = Ok (sw_carrier_fields r) /\
  carrier_bounds capacities = Ok (sw_topic r, sw_payload r) /\
  int_item "applicationStateBytes" capacities = Ok (sw_state r).
Proof.
  unfold swift_record_of, carrier_bounds. intros H.
  apply bind_Ok in H as (pb & Hpb & H). apply bind_Ok in H as (cb & Hcb & H).
  apply bind_Ok in H as (pf & Hpf & H). apply bind_Ok in H as (cf & Hcf & H).
  apply bind_Ok in H as (? & _ & H).
  apply bind_Ok in H as (t & Ht & H). apply bind_Ok in H as (p & Hp & H).
  apply bind_Ok in H as (s & Hs & [= <-]). simpl.
  destruct (abi_mask ph ps PLATFORM); simplify_eq/=. destruct (abi_mask ch cs CARRIER); simplify_eq/=.
  rewrite Ht. simpl. rewrite Hp. done.
Qed.

Lemma field_mask_any {E F} names c m : field_mask (E := E) names c = Ok m -> field_mask (E := F) names c = Ok m.
Proof.
  unfold field_mask. intros (r & Hr & [= <-])%bind_Ok. eapply bind_run; [|done].
  revert Hr. unfold required_fields. intros (fs & Hfs & [= <-])%bind_Ok. eapply bind_run; [|done].
  apply map_outcome_Ok in Hfs. apply map_outcome_Ok. eapply Forall2_impl; [exact Hfs|].
  intros name fields. simpl. by destruct (dict_get name c) as [[? ?]|]; intros; simplify_eq.
Qed.

Lemma requires_uint32 manifest p c caps name z :
  requires manifest p c caps -> name ∈ required_capacities -> int_item name caps = Ok z -> 0 < z < 2 ^ 32.
Proof.
  intros [_ _ _ Hpos _] Hin Hz%int_item_Ok. rewrite Forall_forall in Hpos.
  destruct (Hpos name Hin) as (z' & Hz' & ?). rewrite (get_Some _ _ _ Hz) in Hz'. by simplify_eq.
Qed.

Lemma fields_64 c names m :
  (length (ordered_function_fields c) <= 64)%nat -> field_mask (E := mask_error) names c = Ok m ->
  0 <= m < 2 ^ 64.
Proof.
  unfold field_mask. intros Hl (r & _ & [= <-])%bind_Ok.
  pose proof (field_bits_bound (ordered_function_fields c) r).
  assert (2 ^ Z.of_nat (length (ordered_function_fields c)) <= 2 ^ 64) by (apply Z.pow_le_mono_r; lia). lia.
Qed.

Lemma elements_mono (a b : gset string) : a ⊆ b -> elements a ⊆ elements b.
Proof. intros H x. rewrite !elem_of_elements. apply H. Qed.

(** What a set of provided capabilities must offer for the record's ABI check
    against a header: the bits and the fields of the required ones. *)
Definition passes_check (header : textfile) (c : catalog) (provided : gset string) (bits fields : Z) : Prop :=
  forall bits' fields',
    abi_mask header (elements provided) c = Ok bits' ->
    field_mask (E := mask_error) (elements provided) c = Ok fields' ->
    Z.land bits' bits = bits /\ Z.land fields' fields = fields.

Lemma provided_passes header c required provided bits fields :
  required ⊆ provided -> abi_mask header (elements required) c = Ok bits ->
  field_mask (E := mask_error) (elements required) c = Ok fields ->
  passes_check header c provided bits fields.
Proof.
  intros Hsub%elements_mono Hb Hf bits' fields' Hb' Hf'.
  split; [by eapply abi_mask_included|by eapply field_mask_included].
Qed.

Lemma under_ceiling capacities tr name z :
  under_ceilings capacities tr -> name ∈ CARRIER_LIMIT_NAMES -> int_item name capacities = Ok z ->
  exists limits limit, get "limits" tr = PDict limits /\ get name limits = PInt limit /\ z <= limit.
Proof.
  intros (limits & Hl & _ & Hall) Hin Hz%int_item_Ok. rewrite Forall_forall in Hall.
  destruct (Hall name Hin) as (z' & limit & Hz' & Hlim & _ & Hle). rewrite Hz in Hz'. simplify_eq.
  exists limits, limit. split_and!; [done|by apply get_Some|done].
Qed.




