(* ===== verification/Evidence.v ===== *)
(** * Qualification evidence

    [validate_evidence], [discover_evidence], [cited_evidence_problems] and
    [required_check_problems] of [Tools/validate-release-manifest.py]. *)
From S2P Require Import Prelude PyValue PyText JsonDoc PyFiles.
From stdpp Require Import pretty.
#[local] Open Scope Z_scope.

(** A problem is its format string and the values it is formatted with. *)
Record problem := Problem { p_format : string; p_args : list pyval }.

(** [load] raises one [ValueError] for a file that is not readable JSON. *)
Inductive release_error := NotReadableJson (p : path).
Abbreviation rrun := (outcome release_error).

(** What the operating system answers. *)
Record release_files := ReleaseFiles {
  rf_document : path -> document;
  rf_text : path -> textfile;
  rf_isfile : path -> bool;
  rf_isdir : path -> bool;
  rf_listdir : path -> list string;
  rf_cwd : path
}.

Definition load (fs : release_files) (p : path) : rrun pyval :=
  match rf_document fs p with
  | Doc t => Ok (loads t)
  | _ => Raise (NotReadableJson p)
  end.

Definition is_nonempty_string (v : pyval) : bool :=
  match v with PStr s => has_text s | _ => false end.

Section str.
(** [repr] of a float, a list or a dict. *)
Context (repr : pyval -> string).

Definition py_str (v : pyval) : string :=
  match v with
  | PStr s => s
  | PNone => "None"
  | PBool b => if b then "True" else "False"
  | PInt z => pretty z
  | _ => repr v
  end.
End str.

Definition joined (root : path) (l : list string) : path := foldl path_join root l.

Definition STATUSES : list pyval := [PStr "passed"; PStr "failed"; PStr "unexecuted"].
Definition executed_statuses : list pyval := [PStr "passed"; PStr "failed"].

Section evidence.
Context (repr : pyval -> string).

(** [value = str(record.get(field, "")); value and not HEX.fullmatch(value)] *)
Definition hex_or_empty (digits : nat) (field : string) (record : dict) : bool :=
  let text := py_str repr (get_default field (PStr "") record) in
  String.eqb text "" || is_hex_text digits text.

Definition executed_fields (tier : pyval) : list string :=
  if py_eq tier (PStr "component")
  then ["component"; "artifactSHA256"; "coreRevision"; "result"; "toolchain"]
  else ["firmwareSHA256"; "coreRevision"; "result"]
       ++ (if py_eq tier (PStr "build") then ["toolchain"] else ["device"; "protocol"]).

Definition validate_evidence (record : pyval) (p : string) : rrun (list problem) :=
  match record with
  | PDict record =>
      let at_path := [PStr p] in
      let status := get "status" record in
      known_status ← in_set status STATUSES;
      let tier := get "tier" record in
      known_tier ← in_set tier [PStr "build"; PStr "component"; PStr "device"; PNone];
      executed ← in_set status executed_statuses;
      Ok (unless (py_eq (get "schemaVersion" record) (PInt 1)) (Problem "%s: schemaVersion must be 1" at_path)
          ++ unless known_status (Problem "%s: status must be one of %s"
               (at_path ++ [PList [PStr "failed"; PStr "passed"; PStr "unexecuted"]]))
          ++ (["profile"; "check"; "recordedAt"] ≫= fun field =>
                unless (truthy (get field record)) (Problem "%s: %s is required" (at_path ++ [PStr field])))
          ++ unless known_tier
               (Problem "%s: tier must be build, component, or device when present, found %r" (at_path ++ [tier]))
          ++ (if (executed : bool) then
                (executed_fields tier ≫= fun field =>
                   unless (truthy (get field record))
                     (Problem "%s: an executed %s record must name %s"
                        (at_path ++ [if truthy tier then tier else PStr "device"; PStr field])))
                ++ unless (hex_or_empty 64 "firmwareSHA256" record)
                     (Problem "%s: firmwareSHA256 must be 64 lowercase hexadecimal characters" at_path)
                ++ unless (hex_or_empty 64 "artifactSHA256" record)
                     (Problem "%s: artifactSHA256 must be 64 lowercase hexadecimal characters" at_path)
                ++ unless (hex_or_empty 40 "coreRevision" record)
                     (Problem "%s: coreRevision must be a full commit SHA" at_path)
                ++ unless (hex_or_empty 40 "firmwareRevision" record)
                     (Problem "%s: firmwareRevision must be a full commit SHA" at_path)
              else unless (negb (py_eq status (PStr "unexecuted") && negb (truthy (get "reason" record))))
                     (Problem "%s: an unexecuted record must state a reason" at_path)))
  | _ => Crash AttributeError
  end.

(** ** [discover_evidence] *)
Definition evidence_dir (repo_root : path) : path := joined repo_root ["docs"; "evidence"].

Definition discovered_entry (name : string) (record : dict) : rrun dict :=
  executed ← in_set (get "status" record) executed_statuses;
  Ok ([("path", PStr ("docs/evidence/" +:+ name)); ("check", get "check" record);
       ("tier", get "tier" record); ("status", get "status" record)]
      ++ if (executed : bool)
         then [("coreRevision", get "coreRevision" record); ("firmwareSHA256", get "firmwareSHA256" record);
               ("firmwareRevision", get "firmwareRevision" record); ("device", get "device" record)]
         else [("reason", get "reason" record)]).

Definition discover_file (fs : release_files) (dir : path) (profile_name : pyval) (name : string) :
    rrun (list dict) :=
  if negb (ends_with ".json" name) then Ok []
  else
    record ← load fs (path_join dir name);
    match record with
    | PDict record =>
        if py_eq (get "profile" record) profile_name
        then entry ← discovered_entry name record; Ok [entry]
        else Ok []
    | _ => Ok []
    end.

Definition discover_evidence (fs : release_files) (repo_root : path) (profile_name : pyval) :
    rrun (list dict) :=
  let dir := evidence_dir repo_root in
  if negb (rf_isdir fs dir) then Ok []
  else collect (discover_file fs dir profile_name) (sorted_strings (rf_listdir fs dir)).

(** ** [cited_evidence_problems] *)
Definition cited_fields : list string :=
  ["check"; "tier"; "status"; "coreRevision"; "firmwareSHA256"; "firmwareRevision"; "device"; "reason"].

Definition entry_path (entry : dict) : string :=
  match get "path" entry with PStr p => p | _ => "" end.

Definition cited_problems (actual : list (string * dict)) (compare_revision : bool) (entry : pyval) :
    rrun (list problem) :=
  match entry with
  | PDict entry =>
      let p := get "path" entry in
      if negb (hashable p) then Crash TypeError
      else
        match (match p with PStr s => dict_get s actual | _ => None end) with
        | None => Ok [Problem "evidence %r is not a record of this profile in docs/evidence" [p]]
        | Some record =>
            Ok (cited_fields ≫= fun field =>
                  if String.eqb field "firmwareRevision" && negb compare_revision then []
                  else unless (py_eq (get field entry) (get field record))
                         (Problem "evidence %s cites %s %r, but the record says %r; a certificate whose records were rerun needs a revocation record marking it superseded"
                            [p; PStr field; get field entry; get field record]))
        end
  | _ => Ok []
  end.

Definition cited_paths (cited : list pyval) : list pyval :=
  omap (fun entry => match entry with PDict d => Some (get "path" d) | _ => None end) cited.

(** [{item.get("check") for item in required_checks if isinstance(item, dict)}] *)
Definition required_names (required_checks : pyval) : rrun (list pyval) :=
  match required_checks with
  | PList items =>
      map_outcome (fun v => if hashable v then Ok v else Crash TypeError)
        (omap (fun item => match item with PDict d => Some (get "check" d) | _ => None end) items)
  | _ => Ok []
  end.

Definition uncited_problems (cited : list pyval) (required : list pyval) (record : dict) :
    rrun (list problem) :=
  let p := get "path" record in
  if existsb (same_value p) cited then Ok []
  else if py_eq (get "status" record) (PStr "failed") then
    Ok [Problem "evidence %s is a failed record of this profile and the manifest does not cite it" [p]]
  else
    needed ← in_set (get "check" record) required;
    Ok (unless (negb needed)
          (Problem "evidence %s is a record of required check %s and the manifest does not cite it"
             [p; get "check" record])).

Definition cited_evidence_problems (cited : list pyval) (discovered : list dict) (required_checks : pyval)
    (compare_revision : bool) : rrun (list problem) :=
  let actual := dict_of ((fun entry => (entry_path entry, entry)) <$> discovered) in
  wrong ← collect (cited_problems actual compare_revision) cited;
  required ← required_names required_checks;
  missing ← collect (uncited_problems (cited_paths cited) required) discovered;
  Ok (wrong ++ missing).

(** ** [required_check_problems] *)
Record required_check := RequiredCheck {
  rc_check : string;
  rc_variant : bool;
  rc_records : Z;
  rc_units : Z
}.

Definition positive_int (v : pyval) : option Z :=
  match v with PInt z => if z <? 1 then None else Some z | _ => None end.

Definition dict_field (k : string) (v : pyval) : pyval :=
  match v with PDict d => get k d | _ => PNone end.

(** The shape test of one required check: [None] when it is malformed. *)
Definition read_required (required : pyval) : rrun (option required_check) :=
  let check := dict_field "check" required in
  if negb (is_nonempty_string check) then Ok None
  else
    let artifact := dict_field "artifact" required in
    known ← in_strings artifact ["release"; "variant"];
    match check, known, positive_int (dict_field "records" required),
          positive_int (dict_field "units" required) with
    | PStr name, true, Some records, Some units =>
        Ok (Some (RequiredCheck name (negb (py_eq artifact (PStr "release"))) records units))
    | _, _, _, _ => Ok None
    end.

Section required.
Context (core_sha image_sha : string) (firmware_revision : pyval).

Definition for_check (rc : required_check) (entry : pyval) : bool :=
  match entry with PDict d => py_eq (get "check" d) (PStr (rc_check rc)) | _ => false end.

Definition accepts (rc : required_check) (entry : pyval) : rrun bool :=
  match entry with
  | PDict d =>
      device_tier ← in_set (get "tier" d) [PStr "device"; PNone];
      Ok (device_tier
          && py_eq (get "status" d) (PStr "passed")
          && py_eq (get "coreRevision" d) (PStr core_sha)
          && (if rc_variant rc
              then is_hex_text 64 (py_str repr (get_default "firmwareSHA256" (PStr "") d))
                   && (is_none firmware_revision || py_eq (get "firmwareRevision" d) firmware_revision)
              else py_eq (get "firmwareSHA256" d) (PStr image_sha)))
  | _ => Ok false
  end.

Definition observed_devices (accepted : list pyval) : gset string :=
  list_to_set (omap (fun entry => match dict_field "device" entry with
                                  | PStr s => if has_text s then Some s else None
                                  | _ => None
                                  end) accepted).

Definition is_stale (rc : required_check) (entry : pyval) : bool :=
  match entry with
  | PDict d =>
      rc_variant rc && negb (is_none firmware_revision)
      && py_eq (get "status" d) (PStr "passed") && py_eq (get "coreRevision" d) (PStr core_sha)
      && negb (py_eq (get "firmwareRevision" d) firmware_revision)
  | _ => false
  end.

Definition check_problems (entries : list pyval) (required : pyval) : rrun (list problem) :=
  shape ← read_required required;
  match shape with
  | None => Ok [Problem "malformed required check: %r" [required]]
  | Some rc =>
      let name := PStr (rc_check rc) in
      let records := List.filter (for_check rc) entries in
      accepted ← filter_outcome (accepts rc) records;
      let observed := observed_devices accepted in
      let count {A} (l : list A) := PInt (Z.of_nat (length l)) in
      if bool_decide (records = []) then Ok [Problem "required check %s has no record" [name]]
      else if negb (Nat.eqb (length accepted) (length records)) then
        match List.filter (is_stale rc) records with
        | stale :: _ =>
            Ok [Problem "required check %s has a record from firmware revision %s, not this certificate's %s; rerun it at this revision"
                  [name; dict_field "firmwareRevision" stale; firmware_revision]]
        | [] => Ok [Problem "required check %s has a record that did not pass for this build" [name]]
        end
      else if Z.of_nat (length accepted) <? rc_records rc then
        Ok [Problem "required check %s has %d of %d required records" [name; count accepted; PInt (rc_records rc)]]
      else if Z.of_nat (size observed) <? rc_units rc then
        Ok [Problem "required check %s ran on %d of %d required units"
              [name; PInt (Z.of_nat (size observed)); PInt (rc_units rc)]]
      else Ok []
  end.

Definition required_check_problems (required_checks : pyval) (entries : list pyval) : rrun (list problem) :=
  match required_checks with
  | PList ((_ :: _) as items) => collect (check_problems entries) items
  | _ => Ok [Problem "qualification.requiredChecks must name at least one check" []]
  end.
End required.
End evidence.
