(* ===== verification/TransportSource.v ===== *)
(** * The transport source and the revocation record of a release manifest

    [espidf_component_version], [validate_transport_source] and [load_revocation]
    of [Tools/validate-release-manifest.py]. *)
From S2P Require Import Prelude PyValue PyText PyRegex JsonDoc PyFiles Evidence.

(** ** [espidf_component_version] *)
Definition SpaceChar : rx := Chr (Z.eqb 0x20).
Definition NotSpaceChar : rx := Chr (fun c => negb (is_space c)).
Definition Quote : rx := Chr (Z.eqb 0x27).

Definition COMPONENT_LINE : rx :=
  rx_seq [Times 2 SpaceChar; NotSpaceChar; Star true Any; Str ":"; Star true Space; Eol].
Definition COMPONENT_START : rx := Seq (Times 2 SpaceChar) NotSpaceChar.
Definition VERSION_LINE : rx :=
  rx_seq [Times 4 SpaceChar; Str "version:"; Star true Space; Opt Quote;
          Group 1 (Plus true (Chr (fun c => negb (c =? 0x27) && negb (is_space c)))); Opt Quote;
          Star true Space; Eol].

Definition rx_matches (r : rx) (line : list Z) : bool :=
  match re_match r line with Some _ => true | None => false end.

(** The lines after the component's own line. *)
Fixpoint component_lines (component : list Z) (lines : list (list Z)) : option (list (list Z)) :=
  match lines with
  | [] => None
  | line :: lines =>
      if rx_matches COMPONENT_LINE line && bool_decide (strip line = component ++ [0x3A])
      then Some lines else component_lines component lines
  end.

Fixpoint version_line (lines : list (list Z)) : option string :=
  match lines with
  | [] => None
  | line :: lines =>
      if rx_matches COMPONENT_START line then None
      else match re_match VERSION_LINE line with
           | Some (c, _) => Some (of_codepoints (default [] (group 1 c)))
           | None => version_line lines
           end
  end.

Definition espidf_component_version (text component : string) : option string :=
  component_lines (codepoints component) (split_lines (codepoints text)) ≫= version_line.

Definition ESPIDF_BACKENDS : list (string * string) := [("mqtt-espidf", "esp-idf/mqtt")].

(** ** [validate_transport_source] *)
Definition json_source_problems (transport source : dict) (relative : string) : list problem :=
  let component := get "component" source in
  let version := get "version" source in
  let revision := get "revision" source in
  unless (negb (is_nonempty_string component && negb (py_eq (get "backend" transport) component)))
    (Problem "transport.backend %r does not match %s component %r"
       [get "backend" transport; PStr relative; component])
  ++ (if negb (is_nonempty_string version)
      then [Problem "%s does not declare a version" [PStr relative]]
      else unless (py_eq (get "version" transport) version)
             (Problem "transport.version %r does not match %s version %r"
                [get "version" transport; PStr relative; version]))
  ++ (if is_none revision
      then unless (is_none (get "revision" transport))
             (Problem "transport.revision is %r but %s pins no revision" [get "revision" transport; PStr relative])
      else unless (py_eq (get "revision" transport) revision)
             (Problem "transport.revision %r does not match %s revision %r"
                [get "revision" transport; PStr relative; revision])).

Definition backend_problems (transport : dict) : rrun (list problem) :=
  let name := get "name" transport in
  if negb (hashable name) then Crash TypeError
  else
    match (match name with PStr s => dict_get s ESPIDF_BACKENDS | _ => None end) with
    | None => Ok [Problem "transport.name %r has no ESP-IDF backend identity" [name]]
    | Some expected =>
        Ok (unless (py_eq (get "backend" transport) (PStr expected))
              (Problem "transport.backend %r does not match the ESP-IDF backend %r for transport %r"
                 [get "backend" transport; PStr expected; name]))
    end.

Definition lock_source_problems (fs : release_files) (transport : dict) (source_path : path) (relative : string) :
    rrun (list problem) :=
  match get "component" transport with
  | PStr component =>
      if negb (has_text component) then
        Ok [Problem "transport.component is required when the backend version comes from an ESP-IDF dependency manifest" []]
      else
        backend ← backend_problems transport;
        match rf_text fs source_path with
        | TextUnreadable => Ok [Problem "%s is not readable: %s" [PStr relative]]
        | TextNotUtf8 => Crash UnicodeError
        | Text text =>
            Ok (backend
                ++ match espidf_component_version text component with
                   | None => [Problem "transport.component %r is not a component of %s" [PStr component; PStr relative]]
                   | Some version =>
                       unless (py_eq (get "version" transport) (PStr version))
                         (Problem "transport.version %r does not match %s component %r version %r"
                            [get "version" transport; PStr relative; PStr component; PStr version])
                   end
                ++ unless (is_none (get "revision" transport))
                     (Problem "transport.revision must be null for an ESP-IDF dependency manifest" []))
        end
  | _ => Ok [Problem "transport.component is required when the backend version comes from an ESP-IDF dependency manifest" []]
  end.

Definition validate_transport_source (fs : release_files) (transport : dict) (source_path : path)
    (relative : string) : rrun (list problem) :=
  if ends_with ".json" (as_posix source_path) then
    match load fs source_path with
    | Raise _ => Ok [Problem "%s is not readable JSON: %s" [PStr relative]]
    | Crash x => Crash x
    | Ok (PDict source) => Ok (json_source_problems transport source relative)
    | Ok _ => Ok [Problem "%s must be a JSON object" [PStr relative]]
    end
  else lock_source_problems fs transport source_path relative.

(** ** [load_revocation] *)
Definition revocation_problems (record : dict) (revocation_path : path) (expected_manifest_path : string) :
    list problem :=
  let at_path := [PStr (as_posix revocation_path)] in
  unless (py_eq (get "schemaVersion" record) (PInt 1)) (Problem "revocation %s: schemaVersion must be 1" at_path)
  ++ unless (py_eq (get "status" record) (PStr "revoked")) (Problem "revocation %s: status must be revoked" at_path)
  ++ unless (py_eq (get "manifestPath" record) (PStr expected_manifest_path))
       (Problem "revocation %s: manifestPath must be %r" (at_path ++ [PStr expected_manifest_path]))
  ++ unless (is_nonempty_string (get "reason" record)) (Problem "revocation %s: reason is required" at_path).

(** The record, when there is one, and its problems. *)
Definition load_revocation (fs : release_files) (repo_root manifest_path : path) :
    option dict * list problem :=
  let releases_dir := path_join repo_root "releases" in
  if negb (is_within manifest_path releases_dir) then (None, [])
  else
    let relative_manifest := relpath_within manifest_path releases_dir in
    if String.prefix "revocations/" relative_manifest then (None, [])
    else
      let revocation_path := joined releases_dir ["revocations"; relative_manifest] in
      if negb (rf_isfile fs revocation_path) then (None, [])
      else
        match load fs revocation_path with
        | Ok (PDict record) =>
            (Some record, revocation_problems record revocation_path (relpath_within manifest_path repo_root))
        | Ok _ => (None, [Problem "revocation %s must be a JSON object" [PStr (as_posix revocation_path)]])
        | _ => (None, [Problem "revocation %s is invalid: %s" [PStr (as_posix revocation_path)]])
        end.

Definition dependencies_lock : string :=
  "dependencies:" +:+ newline_text +:+ "  espressif/mqtt:" +:+ newline_text +:+
  "    version: '1.2.3'" +:+ newline_text +:+ "  idf:" +:+ newline_text +:+
  "    version: 5.5.1" +:+ newline_text.
Example component_version :
  espidf_component_version dependencies_lock "idf" = Some "5.5.1" /\
  espidf_component_version dependencies_lock "espressif/mqtt" = Some "1.2.3" /\
  espidf_component_version dependencies_lock "mqtt" = None.
Proof. vm_compute. repeat split. Qed.
