(* ===== verification/SizeReport.v ===== *)
(** * The size report of a release manifest

    [validate_size_report] of [Tools/validate-release-manifest.py]. *)
From S2P Require Import Prelude PyValue PyText JsonDoc PyFiles Evidence.

Definition SIZE_METRICS : list string :=
  ["imageBytes"; "flashTextBytes"; "flashRodataBytes"; "iramTextBytes"; "initializedDataBytes";
   "dramBssBytes"; "staticRamBytes"].
Definition BUDGET_METRICS : list string := ["imageBytes"; "flashTextBytes"; "staticRamBytes"; "dramBssBytes"].
Definition RUNTIME_METRICS : list string := ["minimumFreeHeapBytes"; "stackRemainingBytes"].
Definition MAX_SAFE_INTEGER : Z := 9007199254740991.

Definition safe_integer (v : pyval) (minimum : Z) : bool :=
  match v with PInt z => (minimum <=? z) && (z <=? MAX_SAFE_INTEGER) | _ => false end.

Definition C_ONLY_REASON : string := "configured C-only carrier qualification image".
Definition NETWORK_VARIANT_REASON : string :=
  "network-configured variant of an image whose budgets exclude the network stack".

Definition names_set (l : list string) : gset string := list_to_set l.
Definition has_exactly (d : dict) (names : list string) : bool := bool_decide (key_set d = names_set names).
Definition has_only (d : dict) (names : list string) : bool := bool_decide (key_set d ⊆ names_set names).

Definition is_hex64 (v : pyval) : bool := match v with PStr s => is_hex_text 64 s | _ => false end.
Definition int_of (v : pyval) : Z := match v with PInt z => z | _ => 0 end.

(** Equality of [json.dumps(v, sort_keys=True)] with that of [w]: the types of
    the scalars count, the order of the keys does not. *)
Fixpoint json_same (v w : pyval) {struct v} : bool :=
  match v, w with
  | PNone, PNone => true
  | PBool a, PBool b => Bool.eqb a b
  | PInt a, PInt b => a =? b
  | PStr a, PStr b => String.eqb a b
  | PFloat a, PFloat b => bool_decide (a = b)
  | PList l, PList m =>
      (fix go (l m : list pyval) : bool :=
         match l, m with
         | [], [] => true
         | x :: l, y :: m => json_same x y && go l m
         | _, _ => false
         end) l m
  | PDict d, PDict d' =>
      Nat.eqb (length d) (length d') &&
      (fix go (d : dict) : bool :=
         match d with
         | [] => true
         | (k, x) :: d =>
             match dict_get k d' with Some y => json_same x y && go d | None => false end
         end) d
  | _, _ => false
  end.

Definition size_problem (message : string) : problem := Problem ("resources.report." +:+ message) [].
Definition size_check (condition : bool) (message : string) : list problem :=
  unless condition (size_problem message).

(** [(manifest.get(k) if isinstance(manifest.get(k), dict) else {}).get(f)] *)
Definition nested (k f : string) (manifest : dict) : pyval := dict_field f (get k manifest).

Definition valid_configuration (configuration expected_name : pyval) : bool :=
  match configuration with
  | PDict c =>
      (has_exactly c ["name"; "sdkconfigSha256"; "networkConfigured"]
       || has_exactly c ["name"; "sdkconfigSha256"; "networkConfigured"; "networkPlaceholder"])
      && is_nonempty_string (get "name" c) && py_eq (get "name" c) expected_name
      && is_hex64 (get "sdkconfigSha256" c)
      && is_bool (get "networkConfigured" c)
      && (negb (has_key "networkPlaceholder" c)
          || (is_true (get "networkPlaceholder" c) && is_true (get "networkConfigured" c)))
  | _ => false
  end.

Definition identity_problems (report manifest : dict) : list problem :=
  [("profile", get "profile" manifest); ("application", get "application" manifest);
   ("platform", get "platform" manifest); ("transport", nested "transport" "name" manifest);
   ("coreRevision", nested "axoloty" "sha" manifest)] ≫= fun fe =>
    size_check (is_nonempty_string fe.2 && py_eq (get fe.1 report) fe.2) (fe.1 +:+ " does not match manifest").

Definition valid_metrics (metrics : pyval) : option dict :=
  match metrics with
  | PDict m => if has_exactly m SIZE_METRICS && forallb (fun kv => safe_integer kv.2 0) m then Some m else None
  | _ => None
  end.

Definition metric (k : string) (m : dict) : Z := int_of (get k m).

Definition metrics_problems (metrics : option dict) : list problem :=
  match metrics with
  | None => [size_problem "metrics are invalid"]
  | Some m =>
      let total := metric "iramTextBytes" m + metric "initializedDataBytes" m + metric "dramBssBytes" m in
      size_check (safe_integer (PInt total) 0 && (metric "staticRamBytes" m =? total))
                 "static RAM does not match components"
  end.

Definition valid_image (image : pyval) : option dict :=
  match image with
  | PDict i =>
      if has_exactly i ["bytes"; "sha256"; "appPartitionBytes"; "partitionHeadroomBytes"]
         && (safe_integer (get "bytes" i) 1 && safe_integer (get "appPartitionBytes" i) 1
             && is_int (get "partitionHeadroomBytes" i)
             && (Z.abs (metric "partitionHeadroomBytes" i) <=? MAX_SAFE_INTEGER)
             && (metric "partitionHeadroomBytes" i =? metric "appPartitionBytes" i - metric "bytes" i)
             && is_hex64 (get "sha256" i))
      then Some i else None
  | _ => None
  end.

Definition image_problems (image metrics : option dict) (manifest : dict) : list problem :=
  match image with
  | None => [size_problem "image is invalid"]
  | Some i =>
      size_check (py_eq (get "bytes" i) (nested "image" "byteCount" manifest)
                  && py_eq (get "sha256" i) (nested "image" "sha256" manifest))
                 "image does not match manifest image"
      ++ match metrics with
         | Some m => size_check (metric "imageBytes" m =? metric "bytes" i) "image metric does not match image bytes"
         | None => []
         end
  end.

(** ** Budgets *)
(** A non-empty dictionary of positive safe integers over the given metrics. *)
Definition budget_dict (names : list string) (v : pyval) : bool :=
  match v with
  | PDict d => negb (bool_decide (d = [])) && has_only d names && forallb (fun kv => safe_integer kv.2 1) d
  | _ => false
  end.

Definition profile_dict (profile : pyval) : dict := match profile with PDict p => p | _ => [] end.

(** [profile.get("budgets", {}) if isinstance(profile, dict) else {}] *)
Definition declared_budgets (profile : pyval) : pyval :=
  match profile with PDict p => get_default "budgets" (PDict []) p | _ => PDict [] end.

Definition budgets_shape (declared : pyval) : bool :=
  match declared with
  | PDict d =>
      has_only d ["basis"; "build"; "runtime"; "networkStack"]
      && (negb (has_key "basis" d) || is_nonempty_string (get "basis" d))
      && (negb (has_key "networkStack" d) || is_bool (get "networkStack" d))
  | _ => false
  end.

Definition profile_problems (profile : pyval) : list problem :=
  let declared := declared_budgets profile in
  (if has_key "budgets" (profile_dict profile)
   then size_check (budgets_shape declared) "profile budgets are invalid" else [])
  ++ match declared with
     | PDict d =>
         (if has_key "runtime" d
          then size_check (budget_dict RUNTIME_METRICS (get "runtime" d)) "profile runtime budgets are invalid"
          else [])
         ++ (if has_key "build" d
             then size_check (budget_dict BUDGET_METRICS (get "build" d)) "profile build budgets are invalid"
             else [])
     | _ => []
     end.

(** The rows the report must hold, one for every budgeted metric. *)
Definition expected_row (m build : dict) (k : string) : pyval :=
  PDict [("metric", PStr k); ("measured", get k m); ("budget", get k build);
         ("headroomBytes", PInt (metric k build - metric k m));
         ("passed", PBool (metric k m <=? metric k build))].
Definition budgeted (build : dict) : list string := List.filter (fun k => has_key k build) BUDGET_METRICS.
Definition expected_rows (m build : dict) : list pyval := expected_row m build <$> budgeted build.
Definition all_passed (m build : dict) : bool :=
  forallb (fun k => metric k m <=? metric k build) (budgeted build).

Definition valid_budgets (budgets : pyval) : option (dict * dict) :=
  match budgets with
  | PDict b =>
      match get "build" b with
      | PDict build =>
          if has_exactly b ["basis"; "build"] && budget_dict BUDGET_METRICS (PDict build)
          then Some (b, build) else None
      | _ => None
      end
  | _ => None
  end.

Definition gated_problems (report enforcement : dict) (status : pyval) (metrics : option dict)
    (declared : pyval) : list problem :=
  match valid_budgets (get "budgets" report) with
  | None => [size_problem "budgets are invalid"]
  | Some (budgets, build) =>
      size_check (py_eq (PDict build) (dict_field "build" declared)
                  && py_eq (get "basis" budgets) (dict_field "basis" declared)) "budgets do not match profile"
      ++ size_check
           (has_exactly enforcement ["status"; "results"] && is_list (get "results" enforcement)
            && match metrics with
               | Some m => json_same (get "results" enforcement) (PList (expected_rows m build))
                           && Bool.eqb (all_passed m build) (py_eq status (PStr "passed"))
               | None => false
               end)
           "verdicts are inconsistent"
  end.

Definition ungated_problems (report enforcement manifest : dict) (profile status declared configuration : pyval) :
    list problem :=
  let not_applicable := py_eq status (PStr "not-applicable") in
  let reason := if not_applicable then get "reason" enforcement
                else PStr "the profile declares no build budgets" in
  (if not_applicable
   then size_check (in_tuple reason [C_ONLY_REASON; NETWORK_VARIANT_REASON])
                   "not-applicable reason is not recognized"
   else [])
  ++ size_check (is_none (get "budgets" report)
                 && py_eq (PDict enforcement) (PDict [("status", status); ("reason", reason)]))
                "enforcement is inconsistent"
  ++ (if not_applicable then
        let unqualified := py_eq (nested "qualification" "status" manifest) (PStr "unqualified") in
        let requirements :=
          match get "qualification" (profile_dict profile) with
          | PDict q => get_default "requiredChecks" (PList []) q | _ => PList [] end in
        if py_eq reason (PStr C_ONLY_REASON) then
          size_check
            (unqualified && py_eq (get "transport" (profile_dict profile)) (PStr "zenoh-pico")
             && match requirements with
                | PList l => existsb (fun r => py_eq (dict_field "check" r) (PStr "c-only-carrier-scenario")
                                               && py_eq (dict_field "artifact" r) (PStr "variant")) l
                | _ => false
                end)
            "C-only report requires the unqualified Zenoh qualification variant"
        else if py_eq reason (PStr NETWORK_VARIANT_REASON) then
          size_check
            (unqualified && is_false (dict_field "networkStack" declared)
             && is_dict (dict_field "build" declared)
             && is_true (dict_field "networkConfigured" configuration))
            "network variant report requires an unqualified manifest, a profile whose budgets declare networkStack false, and a network-configured image"
        else []
      else [])
  ++ (if py_eq status (PStr "not-configured")
      then size_check (is_none (dict_field "build" declared)) "not-configured contradicts profile budgets"
      else []).

Definition report_fields : list string :=
  ["schemaVersion"; "kind"; "profile"; "application"; "platform"; "transport"; "coreRevision";
   "configuration"; "metrics"; "image"; "budgets"; "enforcement"].

Definition measurement_problems (report manifest : dict) (profile : pyval) : list problem :=
  let configuration := get "configuration" report in
  let expected_name :=
    match profile with PDict p => get_default "configuration" (PStr "default") p | _ => PNone end in
  let metrics := valid_metrics (get "metrics" report) in
  size_check (has_exactly report report_fields) "has invalid fields"
  ++ size_check (valid_configuration configuration expected_name)
       "configuration is invalid or does not match profile"
  ++ size_check (is_int (get "schemaVersion" report) && py_eq (get "schemaVersion" report) (PInt 1)
                 && py_eq (get "kind" report) (PStr "build-size")) "has invalid schema or kind"
  ++ identity_problems report manifest
  ++ metrics_problems metrics
  ++ image_problems (valid_image (get "image" report)) metrics manifest.

Definition validate_size_report (report : pyval) (manifest : dict) (profile : pyval) : list problem :=
  match report with
  | PDict report =>
      measurement_problems report manifest profile
      ++ match get "enforcement" report with
         | PDict enforcement =>
             let status := get "status" enforcement in
             let declared := declared_budgets profile in
             size_check (in_tuple status ["passed"; "not-applicable"; "not-configured"])
                        "enforcement status is invalid"
             ++ profile_problems profile
             ++ (if in_tuple status ["passed"; "failed"] then
                   gated_problems report enforcement status (valid_metrics (get "metrics" report)) declared
                 else if in_tuple status ["not-applicable"; "not-configured"] then
                   ungated_problems report enforcement manifest profile status declared
                                    (get "configuration" report)
                 else [])
         | _ => [Problem "resources.report.enforcement must be an object" []]
         end
  | _ => [Problem "resources.report must be an object" []]
  end.
