(* ===== verification/SizeTheorems.v ===== *)
(** * What an accepted size report certifies *)
From S2P Require Import Prelude PyValue PyText JsonDoc PyFiles Evidence SizeReport.

Lemma size_check_nil b m : size_check b m = [] <-> b = true.
Proof. apply unless_nil. Qed.

(** Splits an empty concatenation of problem lists. *)
Ltac no_problems :=
  repeat match goal with
  | H : _ ++ _ = [] |- _ => apply app_nil in H as [? H]
  | H : size_check _ _ = [] |- _ => apply size_check_nil in H
  end.

Lemma bind_nil {A B} (f : A -> list B) l : l ≫= f = [] <-> Forall (fun x => f x = []) l.
Proof.
  induction l as [|x l IH]; [by rewrite Forall_nil|]. change (f x ++ (l ≫= f) = [] <-> Forall (fun x => f x = []) (x :: l)).
  rewrite Forall_cons, <- IH. split; [apply app_nil|by intros [-> ->]].
Qed.

Lemma safe_integer_spec v low : safe_integer v low = true <-> exists z, v = PInt z /\ low <= z <= MAX_SAFE_INTEGER.
Proof.
  unfold safe_integer. destruct v; try (split; [done|by intros (? & ? & _)]).
  rewrite andb_true_iff, !Z.leb_le. naive_solver.
Qed.

Lemma has_exactly_get d names k : has_exactly d names = true -> k ∈ names -> is_Some (dict_get k d).
Proof.
  unfold has_exactly, names_set. rewrite bool_decide_eq_true. intros H Hk.
  apply elem_of_key_set. rewrite H. by apply elem_of_list_to_set.
Qed.

Lemma valid_metrics_Some v m :
  valid_metrics v = Some m ->
  v = PDict m /\ forall k, k ∈ SIZE_METRICS -> exists z, dict_get k m = Some (PInt z) /\ 0 <= z <= MAX_SAFE_INTEGER.
Proof.
  unfold valid_metrics. destruct v as [| | | | | |d]; try done.
  destruct (has_exactly d SIZE_METRICS && _) eqn:E; [|done]. intros [= <-]. bool_prop.
  split; [done|]. intros k Hk.
  destruct (has_exactly_get _ _ _ ltac:(eassumption) Hk) as [v Hv].
  match goal with H : forallb _ d = true |- _ => rewrite forallb_elem in H; specialize (H _ (dict_get_elem _ _ _ Hv)) as Hs end.
  simpl in Hs. apply safe_integer_spec in Hs as (z & -> & ?). eauto.
Qed.

Lemma valid_image_Some v i :
  valid_image v = Some i ->
  v = PDict i /\ 1 <= metric "bytes" i <= MAX_SAFE_INTEGER /\ get "bytes" i = PInt (metric "bytes" i) /\
  metric "partitionHeadroomBytes" i = metric "appPartitionBytes" i - metric "bytes" i /\
  is_hex64 (get "sha256" i) = true.
Proof.
  unfold valid_image. destruct v as [| | | | | |d]; try done.
  destruct (has_exactly d _ && _) eqn:E; [|done]. intros [= <-]. bool_prop.
  match goal with H : safe_integer (get "bytes" d) 1 = true |- _ =>
    apply safe_integer_spec in H as (z & Hz & ?) end.
  unfold metric at 1 2 3. rewrite Hz. done.
Qed.

(** The successful parts of a report without problems. *)
Lemma size_report_inv report manifest profile :
  validate_size_report report manifest profile = [] ->
  exists r e, report = PDict r /\ measurement_problems r manifest profile = [] /\
    get "enforcement" r = PDict e /\ profile_problems profile = [] /\
    in_tuple (get "status" e) ["passed"; "not-applicable"; "not-configured"] = true /\
    (if in_tuple (get "status" e) ["passed"; "failed"]
     then gated_problems r e (get "status" e) (valid_metrics (get "metrics" r)) (declared_budgets profile)
     else if in_tuple (get "status" e) ["not-applicable"; "not-configured"]
     then ungated_problems r e manifest profile (get "status" e) (declared_budgets profile) (get "configuration" r)
     else []) = [].
Proof.
  unfold validate_size_report. destruct report as [| | | | | |r]; try done. intros [Hm H]%app_nil.
  destruct (get "enforcement" r) as [| | | | | |e] eqn:Ee; try done.
  apply app_nil in H as [Hs%size_check_nil H]. apply app_nil in H as [Hp H]. exists r, e. eauto 10.
Qed.

Lemma size_consistent report manifest profile :
  validate_size_report report manifest profile = [] ->
  exists r m i, report = PDict r /\ get "metrics" r = PDict m /\ get "image" r = PDict i /\
    (forall k, k ∈ SIZE_METRICS -> exists z, dict_get k m = Some (PInt z) /\ 0 <= z <= MAX_SAFE_INTEGER) /\
    metric "staticRamBytes" m =
      metric "iramTextBytes" m + metric "initializedDataBytes" m + metric "dramBssBytes" m /\
    metric "imageBytes" m = metric "bytes" i /\
    metric "partitionHeadroomBytes" i = metric "appPartitionBytes" i - metric "bytes" i /\
    py_eq (get "bytes" i) (nested "image" "byteCount" manifest) = true /\
    py_eq (get "sha256" i) (nested "image" "sha256" manifest) = true /\
    Forall (fun k => py_eq (get k r) (get k manifest) = true /\ is_nonempty_string (get k manifest) = true)
      ["profile"; "application"; "platform"] /\
    py_eq (get "transport" r) (nested "transport" "name" manifest) = true /\
    py_eq (get "coreRevision" r) (nested "axoloty" "sha" manifest) = true.
Proof.
  intros (r & e & -> & Hm & _)%size_report_inv. unfold measurement_problems in Hm. no_problems.
  unfold metrics_problems, image_problems in *.
  destruct (valid_metrics (get "metrics" r)) as [m|] eqn:Emet; [|done].
  destruct (valid_image (get "image" r)) as [i|] eqn:Eimg; [|done]. no_problems. bool_prop.
  apply valid_metrics_Some in Emet as [Hmd Hall]. apply valid_image_Some in Eimg as (Hid' & _ & _ & Hhead & _).
  match goal with H : identity_problems r manifest = [] |- _ => rename H into Hid end.
  unfold identity_problems in Hid. apply bind_nil in Hid.
  repeat (apply Forall_cons in Hid as [?%size_check_nil Hid]). simpl in *. bool_prop.
  exists r, m, i. split_and!; try done. by repeat constructor.
Qed.

(** ** The budget gate *)
Lemma in_tuple_true v names : in_tuple v names = true <-> exists s, s ∈ names /\ v = PStr s.
Proof.
  unfold in_tuple. rewrite existsb_elem. setoid_rewrite py_eq_str_r. done.
Qed.

Lemma qualified_gated report manifest profile :
  validate_size_report report manifest profile = [] ->
  nested "qualification" "status" manifest = PStr "qualified" ->
  dict_field "build" (declared_budgets profile) <> PNone ->
  exists r e, report = PDict r /\ get "enforcement" r = PDict e /\ profile_problems profile = [] /\
    get "status" e = PStr "passed" /\
    gated_problems r e (PStr "passed") (valid_metrics (get "metrics" r)) (declared_budgets profile) = [].
Proof.
  intros (r & e & -> & _ & He & Hp & Hs & H)%size_report_inv Hq Hb. exists r, e.
  apply in_tuple_true in Hs as (s & Hs & Est). rewrite Est in H.
  repeat (apply elem_of_cons in Hs as [->|Hs]); [done| | |by apply elem_of_nil in Hs]; exfalso.
  - cbn [in_tuple existsb py_eq] in H. change (in_tuple (PStr "not-applicable") ["passed"; "failed"]) with false in H.
    change (in_tuple (PStr "not-applicable") ["not-applicable"; "not-configured"]) with true in H.
    cbv iota in H. unfold ungated_problems in H. rewrite Hq in H.
    change (py_eq (PStr "not-applicable") (PStr "not-applicable")) with true in H. cbv iota zeta in H.
    apply app_nil in H as [Hreason%size_check_nil H]. apply app_nil in H as [_ H]. apply app_nil in H as [H _].
    apply in_tuple_true in Hreason as (reason & Hin & Hr). rewrite Hr in H.
    repeat (apply elem_of_cons in Hin as [->|Hin]); [| |by apply elem_of_nil in Hin]; discriminate H.
  - change (in_tuple (PStr "not-configured") ["passed"; "failed"]) with false in H.
    change (in_tuple (PStr "not-configured") ["not-applicable"; "not-configured"]) with true in H.
    cbv iota in H. unfold ungated_problems in H.
    change (py_eq (PStr "not-configured") (PStr "not-applicable")) with false in H.
    change (py_eq (PStr "not-configured") (PStr "not-configured")) with true in H. cbv iota zeta in H.
    apply app_nil in H as [_ H]. apply app_nil in H as [_ H]. apply app_nil in H as [_ H%size_check_nil].
    by destruct (dict_field "build" (declared_budgets profile)).
Qed.

Lemma declared_build_dict profile :
  profile_problems profile = [] -> dict_field "build" (declared_budgets profile) <> PNone ->
  exists build, dict_field "build" (declared_budgets profile) = PDict build /\
    budget_dict BUDGET_METRICS (PDict build) = true.
Proof.
  unfold profile_problems. intros [_ H]%app_nil Hb.
  destruct (declared_budgets profile) as [| | | | | |d]; try done. simpl in Hb.
  apply app_nil in H as [_ H]. unfold has_key, get in *. simpl. unfold get.
  destruct (dict_get "build" d) as [v|]; [|done]. apply size_check_nil in H. simpl in *.
  destruct v as [| | | | | |build]; try done. by exists build.
Qed.

Lemma budget_dict_get names d k v :
  budget_dict names (PDict d) = true -> dict_get k d = Some v ->
  k ∈ names /\ exists z, v = PInt z /\ 1 <= z <= MAX_SAFE_INTEGER.
Proof.
  unfold budget_dict, has_only, names_set. intros H Hk. bool_prop. split.
  - assert (k ∈ key_set d) as Hin by (apply elem_of_key_set; eauto).
    match goal with H : key_set d ⊆ _ |- _ => apply H in Hin end. by apply elem_of_list_to_set in Hin.
  - match goal with H : forallb _ d = true |- _ => rewrite forallb_elem in H;
      specialize (H _ (dict_get_elem _ _ _ Hk)) as Hs end. simpl in Hs. by apply safe_integer_spec.
Qed.

(** The profile's build budgets are a dictionary with unique keys when the profile
    is a parsed document. *)
Lemma declared_build_keys profile build :
  well_formed profile = true -> dict_field "build" (declared_budgets profile) = PDict build ->
  NoDup (keys build).
Proof.
  intros Hw Hb. assert (Hd : well_formed (declared_budgets profile) = true).
  { unfold declared_budgets, get_default. destruct profile as [| | | | | |p]; try done.
    apply well_formed_dict in Hw as [_ Hw]. specialize (Hw "budgets"). unfold get in Hw.
    by destruct (dict_get "budgets" p). }
  destruct (declared_budgets profile) as [| | | | | |d]; try done. simpl in Hb.
  apply well_formed_dict in Hd as [_ Hd]. specialize (Hd "build"). rewrite Hb in Hd.
  by apply well_formed_dict in Hd as [? _].
Qed.

Lemma size_within_budget report manifest profile :
  well_formed report = true -> well_formed profile = true ->
  validate_size_report report manifest profile = [] ->
  nested "qualification" "status" manifest = PStr "qualified" ->
  dict_field "build" (declared_budgets profile) <> PNone ->
  exists r m build, report = PDict r /\ get "metrics" r = PDict m /\
    dict_field "build" (declared_budgets profile) = PDict build /\ build <> [] /\
    forall k v, dict_get k build = Some v ->
      exists budget measured, v = PInt budget /\ dict_get k m = Some (PInt measured) /\
        k ∈ BUDGET_METRICS /\ 0 <= measured <= budget.
Proof.
  intros Hwr Hwp Hv Hq Hb. destruct (qualified_gated _ _ _ Hv Hq Hb) as (r & e & -> & He & Hp & Hs & H).
  destruct (declared_build_dict _ Hp Hb) as (build & Hbuild & Hdict). unfold gated_problems in H.
  unfold valid_budgets in H. destruct (get "budgets" r) as [| | | | | |bs] eqn:Ebs; try done.
  destruct (get "build" bs) as [| | | | | |rbuild] eqn:Erb; try done.
  destruct (has_exactly bs _ && _) eqn:Evb; [|done].
  apply app_nil in H as [Hsame%size_check_nil Hverdict%size_check_nil]. bool_prop.
  destruct (valid_metrics (get "metrics" r)) as [m|] eqn:Em; [|done]. bool_prop.
  apply valid_metrics_Some in Em as [Hm Hall]. exists r, m, build. split_and!; [done..| |].
  { intros ->. by unfold budget_dict in Hdict. }
  intros k v Hkv. destruct (budget_dict_get _ _ _ _ Hdict Hkv) as (Hk & budget & -> & Hpos).
  assert (Hnr : NoDup (keys rbuild)).
  { apply well_formed_dict in Hwr as [_ Hwr]. specialize (Hwr "budgets"). rewrite Ebs in Hwr.
    apply well_formed_dict in Hwr as [_ Hwr]. specialize (Hwr "build"). rewrite Erb in Hwr.
    by apply well_formed_dict in Hwr as [? _]. }
  match goal with H : py_eq (PDict rbuild) _ = true |- _ => rewrite Hbuild in H; rename H into Heq end.
  destruct (py_eq_dict_lookup _ _ _ _ Hnr (declared_build_keys _ _ Hwp Hbuild) Heq Hkv) as (x & Hx & Hxy).
  match goal with H : budget_dict _ (PDict rbuild) = true |- _ =>
    destruct (budget_dict_get _ _ _ _ H Hx) as (_ & z & -> & _) end.
  apply py_eq_int_r in Hxy; [|done]. simplify_eq.
  assert (Hks : k ∈ SIZE_METRICS) by (unfold BUDGET_METRICS, SIZE_METRICS in *; set_solver).
  destruct (Hall k Hks) as (measured & Hmk & ?).
  exists budget, measured. split; [done|]. split; [done|]. split; [done|].
  match goal with H : Bool.eqb (all_passed m rbuild) _ = true |- _ => rename H into Hpass end.
  apply eqb_prop in Hpass. unfold all_passed in Hpass. change (py_eq (PStr "passed") (PStr "passed")) with true in Hpass.
  rewrite forallb_elem in Hpass. specialize (Hpass k).
  unfold metric in Hpass. rewrite (get_Some _ _ _ Hmk), (get_Some _ _ _ Hx) in Hpass. simpl in Hpass.
  split; [lia|]. apply Z.leb_le, Hpass. unfold budgeted. apply elem_of_filterb. split; [done|].
  apply has_key_true. eauto.
Qed.

(** An accepted report is consistent and bound to its manifest: it names the
    manifest's profile, application, platform, transport and Core revision; its
    metrics are safe integers whose static RAM is the sum of the three components;
    its image is the manifest's image, with the partition headroom its sizes give. *)
Theorem size_report_consistent report manifest profile :
  validate_size_report report manifest profile = [] ->
  exists r m i, report = PDict r /\ get "metrics" r = PDict m /\ get "image" r = PDict i /\
    (forall k, k ∈ SIZE_METRICS -> exists z, dict_get k m = Some (PInt z) /\ 0 <= z <= MAX_SAFE_INTEGER) /\
    metric "staticRamBytes" m =
      metric "iramTextBytes" m + metric "initializedDataBytes" m + metric "dramBssBytes" m /\
    metric "imageBytes" m = metric "bytes" i /\
    metric "partitionHeadroomBytes" i = metric "appPartitionBytes" i - metric "bytes" i /\
    py_eq (get "bytes" i) (nested "image" "byteCount" manifest) = true /\
    py_eq (get "sha256" i) (nested "image" "sha256" manifest) = true /\
    Forall (fun k => py_eq (get k r) (get k manifest) = true /\ is_nonempty_string (get k manifest) = true)
      ["profile"; "application"; "platform"] /\
    py_eq (get "transport" r) (nested "transport" "name" manifest) = true /\
    py_eq (get "coreRevision" r) (nested "axoloty" "sha" manifest) = true.
Proof. apply size_consistent. Qed.

