(* ===== verification/EvidenceTheorems.v ===== *)
(** * What the evidence checks establish

    A certificate is a claim about the records in [docs/evidence]; these theorems
    say that the checks find every record, that a manifest cannot misstate or omit
    one, and what satisfying the required checks means. *)
From S2P Require Import Prelude PyValue PyText JsonDoc PyFiles Evidence SizeTheorems.

(** ** Required checks *)
Section required.
Context (repr : pyval -> string) (core_sha image_sha : string) (firmware_revision : pyval).

(** A record that counts for a check: a device record (or one without a tier)
    that passed on this Core revision, on this image for a release check, on any
    named image of this firmware revision for a variant check. *)
Definition counts (rc : required_check) (entry : pyval) : Prop :=
  exists d, entry = PDict d /\
    (get "tier" d = PStr "device" \/ get "tier" d = PNone) /\
    get "status" d = PStr "passed" /\ get "coreRevision" d = PStr core_sha /\
    if rc_variant rc
    then is_hex_text 64 (py_str repr (get_default "firmwareSHA256" (PStr "") d)) = true /\
         (firmware_revision = PNone \/ py_eq (get "firmwareRevision" d) firmware_revision = true)
    else get "firmwareSHA256" d = PStr image_sha.

Lemma accepts_true rc entry :
  accepts repr core_sha image_sha firmware_revision rc entry = Ok true <-> counts rc entry.
Proof.
  unfold accepts, counts. split.
  - destruct entry as [| | | | | |d]; try done. intros (tier & Ht & H)%bind_Ok. injection H as H. bool_prop.
    exists d. split; [done|]. subst tier. split.
    + unfold in_set in Ht. destruct (hashable _); [|done]. injection Ht as Ht.
      cbn [existsb] in Ht. unfold same_value in Ht. rewrite !andb_false_r, !orb_false_l, orb_false_r in Ht.
      apply orb_true_iff in Ht as [?%py_eq_str_r|?%py_eq_none_r]; auto.
    + repeat match goal with H : py_eq _ (PStr _) = true |- _ => apply py_eq_str_r in H end.
      split; [done|]. split; [done|]. destruct (rc_variant rc); [|by apply py_eq_str_r]. bool_prop.
      split; [done|]. match goal with H : _ \/ _ |- _ => destruct H as [H|H] end; [left|by right].
      by destruct firmware_revision.
  - intros (d & -> & Ht & Hs & Hc & H).
    assert (in_set (E := release_error) (get "tier" d) [PStr "device"; PNone] = Ok true) as ->.
    { unfold in_set, same_value. by destruct Ht as [->| ->]. }
    simpl. rewrite Hs, Hc. simpl. rewrite String.eqb_refl. simpl. f_equal.
    destruct (rc_variant rc).
    + destruct H as [-> [->| ->]]; [done|by rewrite orb_true_r].
    + rewrite H. simpl. by rewrite String.eqb_refl.
Qed.

(** The requirement of one check. *)
Record satisfied (entries : list pyval) (rc : required_check) : Prop := {
  sat_recorded : exists e, e ∈ entries /\ for_check rc e = true;
  sat_passed : forall e, e ∈ entries -> for_check rc e = true -> counts rc e;
  sat_records : rc_records rc <= Z.of_nat (length (List.filter (for_check rc) entries));
  sat_units : rc_units rc <= Z.of_nat (size (observed_devices (List.filter (for_check rc) entries)))
}.

Lemma filter_all_true {A} (f : A -> rrun bool) l :
  Forall (fun x => f x = Ok true) l -> filter_outcome f l = Ok l.
Proof. induction 1 as [|x l Hx _ IH]; simpl; [done|]. by rewrite Hx, IH. Qed.

Lemma check_problems_nil entries item :
  check_problems repr core_sha image_sha firmware_revision entries item = Ok [] <->
  exists rc, read_required item = Ok (Some rc) /\ satisfied entries rc.
Proof.
  unfold check_problems. split.
  - intros (shape & Hshape & H)%bind_Ok. destruct shape as [rc|]; [|done]. exists rc. split; [done|].
    apply bind_Ok in H as (accepted & Hacc & H).
    case_bool_decide as Hne; [done|].
    destruct (Nat.eqb_spec (length accepted) (length (List.filter (for_check rc) entries))) as [Hl|Hl]; simpl in H;
      [|destruct (List.filter (is_stale _ _ _) _); done].
    destruct (filter_outcome_length _ _ _ Hacc Hl) as [-> Hall].
    destruct (Z.ltb_spec (Z.of_nat (length (List.filter (for_check rc) entries))) (rc_records rc)); [done|].
    destruct (Z.ltb_spec (Z.of_nat (size (observed_devices (List.filter (for_check rc) entries)))) (rc_units rc)); [done|].
    constructor; try done.
    + destruct (List.filter (for_check rc) entries) as [|e l] eqn:E; [done|]. exists e.
      apply elem_of_filterb. rewrite E. apply list_elem_of_here.
    + intros e He Hf. rewrite Forall_forall in Hall. apply accepts_true, Hall. by apply elem_of_filterb.
  - intros (rc & -> & [Hrec Hpass Hcount Hunits]). simpl.
    rewrite filter_all_true; [|apply Forall_forall; intros e [? ?]%elem_of_filterb; apply accepts_true; auto].
    simpl. rewrite bool_decide_eq_false_2.
    + rewrite Nat.eqb_refl. simpl. by rewrite (proj2 (Z.ltb_ge _ _) Hcount), (proj2 (Z.ltb_ge _ _) Hunits).
    + intros E. destruct Hrec as (e & He & Hf).
      assert (e ∈ List.filter (for_check rc) entries) as Hin by by apply elem_of_filterb.
      rewrite E in Hin. by apply elem_of_nil in Hin.
Qed.

Lemma required_check_problems_nil required entries :
  required_check_problems repr core_sha image_sha firmware_revision required entries = Ok [] <->
  exists items, required = PList items /\ items <> [] /\
    Forall (fun item => exists rc, read_required item = Ok (Some rc) /\ satisfied entries rc) items.
Proof.
  unfold required_check_problems. split.
  - destruct required as [| | | | |[|i items]|]; try done. rewrite collect_nil. intros H.
    exists (i :: items). split; [done|]. split; [done|]. eapply Forall_impl; [exact H|].
    intros item. apply check_problems_nil.
  - intros (items & -> & Hne & H). destruct items as [|i items]; [done|]. apply collect_nil.
    eapply Forall_impl; [exact H|]. intros item. apply check_problems_nil.
Qed.
End required.

(** C31: the required checks report no problem exactly when there is at least one
    and each is well formed and satisfied: it has records, every record of the
    check counts for this certificate, and there are enough of them from enough
    distinct devices. *)
Theorem required_checks_satisfied repr core_sha image_sha firmware_revision required entries :
  required_check_problems repr core_sha image_sha firmware_revision required entries = Ok [] <->
  exists items, required = PList items /\ items <> [] /\
    Forall (fun item => exists rc, read_required item = Ok (Some rc) /\
      satisfied repr core_sha image_sha firmware_revision entries rc) items.
Proof. apply required_check_problems_nil. Qed.

(** ** Discovery *)
Definition json_record (fs : release_files) (p : path) (record : dict) : Prop :=
  exists t, rf_document fs p = Doc t /\ loads t = PDict record.

Definition cites_as (name : string) (record entry : dict) : Prop :=
  entry_path entry = "docs/evidence/" +:+ name /\ get "path" entry = PStr ("docs/evidence/" +:+ name) /\
  Forall (fun k => get k entry = get k record) ["check"; "tier"; "status"] /\
  (if in_tuple (get "status" record) ["passed"; "failed"]
   then Forall (fun k => get k entry = get k record) ["coreRevision"; "firmwareSHA256"; "firmwareRevision"; "device"]
   else get "reason" entry = get "reason" record).

Lemma discovered_entry_spec name record entry :
  discovered_entry name record = Ok entry -> cites_as name record entry.
Proof.
  unfold discovered_entry. intros (executed & He & [= <-])%bind_Ok.
  assert (in_tuple (get "status" record) ["passed"; "failed"] = executed) as Hex.
  { unfold in_set in He. destruct (hashable _); [|done]. injection He as <-.
    unfold in_tuple, executed_statuses, same_value. cbn [existsb is_nan]. by rewrite !andb_false_r. }
  unfold cites_as. rewrite Hex. destruct executed.
  - split_and!; [done|done|by repeat constructor|by repeat constructor].
  - split_and!; [done|done|by repeat constructor|done].
Qed.

Lemma collect_elem {E A P} (f : A -> outcome E (list P)) l ps p :
  collect f l = Ok ps -> (p ∈ ps <-> exists x qs, x ∈ l /\ f x = Ok qs /\ p ∈ qs).
Proof.
  revert ps. induction l as [|x l IH]; intros ps; simpl.
  { intros [= <-]. split; [by intros ?%elem_of_nil|by intros (? & ? & ?%elem_of_nil & _)]. }
  intros (qs & Hx & (rs & Hl & [= <-])%bind_Ok)%bind_Ok. rewrite elem_of_app, (IH _ Hl).
  setoid_rewrite elem_of_cons. split.
  - intros [?|(y & ss & ? & ? & ?)]; eauto 10.
  - intros (y & ss & [->|?] & Hy & ?); [left; congruence|right; eauto].
Qed.

Lemma collect_run {E A P} (f : A -> outcome E (list P)) l ps x :
  collect f l = Ok ps -> x ∈ l -> exists qs, f x = Ok qs.
Proof.
  revert ps. induction l as [|y l IH]; intros ps; simpl; [by intros _ ?%elem_of_nil|].
  intros (qs & Hx & (rs & Hl & _)%bind_Ok)%bind_Ok [->|?]%elem_of_cons; eauto.
Qed.

Lemma discover_spec fs repo_root profile_name ds :
  discover_evidence fs repo_root profile_name = Ok ds -> rf_isdir fs (evidence_dir repo_root) = true ->
  (forall entry, entry ∈ ds -> exists name record,
     name ∈ rf_listdir fs (evidence_dir repo_root) /\
     json_record fs (path_join (evidence_dir repo_root) name) record /\
     py_eq (get "profile" record) profile_name = true /\ cites_as name record entry) /\
  (forall name, name ∈ rf_listdir fs (evidence_dir repo_root) -> ends_with ".json" name = true ->
     exists v, load fs (path_join (evidence_dir repo_root) name) = Ok v /\
     forall record, v = PDict record -> py_eq (get "profile" record) profile_name = true ->
       exists entry, entry ∈ ds /\ cites_as name record entry).
Proof.
  unfold discover_evidence. intros H Hd. rewrite Hd in H. simpl in H. split.
  - intros entry Hin. apply (collect_elem _ _ _ _ H) in Hin as (name & qs & Hname & Hf & Hin).
    unfold sorted_strings in Hname. rewrite elem_of_sort_by in Hname. unfold discover_file in Hf.
    destruct (ends_with ".json" name); simpl in Hf; [|injection Hf as <-; by apply elem_of_nil in Hin].
    apply bind_Ok in Hf as (v & Hload & Hf).
    destruct v as [| | | | | |record]; try (injection Hf as <-; by apply elem_of_nil in Hin).
    destruct (py_eq (get "profile" record) profile_name) eqn:Ep; [|injection Hf as <-; by apply elem_of_nil in Hin].
    apply bind_Ok in Hf as (e & He & [= <-]). apply list_elem_of_singleton in Hin as ->.
    exists name, record. split; [done|]. split; [|split; [done|by apply discovered_entry_spec]].
    unfold load in Hload. destruct (rf_document fs _) as [| | |t] eqn:Ed; try done. exists t.
    split; [done|]. by injection Hload.
  - intros name Hname Hext. assert (Hs : name ∈ sorted_strings (rf_listdir fs (evidence_dir repo_root)))
      by (unfold sorted_strings; by rewrite elem_of_sort_by).
    destruct (collect_run _ _ _ _ H Hs) as [qs Hf]. pose proof Hf as Hf'. unfold discover_file in Hf.
    rewrite Hext in Hf. simpl in Hf. apply bind_Ok in Hf as (v & Hload & Hf). exists v. split; [done|].
    intros record -> Hp. rewrite Hp in Hf. apply bind_Ok in Hf as (entry & He & [= <-]).
    exists entry. split; [|by apply discovered_entry_spec].
    apply (collect_elem _ _ _ _ H). exists name, [entry]. split; [done|]. split; [done|apply list_elem_of_here].
Qed.

(** The discovery leaves nothing out. Every JSON record of the profile in
    docs/evidence becomes one entry that cites it as it is, a failed one included,
    and every entry cites such a record. *)
Theorem discover_evidence_complete fs repo_root profile_name ds :
  discover_evidence fs repo_root profile_name = Ok ds -> rf_isdir fs (evidence_dir repo_root) = true ->
  (forall entry, entry ∈ ds -> exists name record,
     name ∈ rf_listdir fs (evidence_dir repo_root) /\
     json_record fs (path_join (evidence_dir repo_root) name) record /\
     py_eq (get "profile" record) profile_name = true /\ cites_as name record entry) /\
  (forall name record, name ∈ rf_listdir fs (evidence_dir repo_root) -> ends_with ".json" name = true ->
     json_record fs (path_join (evidence_dir repo_root) name) record ->
     py_eq (get "profile" record) profile_name = true ->
     exists entry, entry ∈ ds /\ cites_as name record entry).
Proof.
  intros H Hd. destruct (discover_spec _ _ _ _ H Hd) as [Honly Hall]. split; [done|].
  intros name record Hname Hext (t & Hdoc & Ht) Hp.
  destruct (Hall name Hname Hext) as (v & Hload & Hv). apply Hv; [|done].
  unfold load in Hload. rewrite Hdoc in Hload. by injection Hload as <-.
Qed.

(** ** Citation *)
Definition agrees (compare_revision : bool) (entry record : dict) : Prop :=
  forall field, field ∈ cited_fields -> (field = "firmwareRevision" -> compare_revision = true) ->
    py_eq (get field entry) (get field record) = true.

(** A record the manifest must cite: a failed one, or one of a required check. *)
Definition must_cite (required_checks : pyval) (record : dict) : Prop :=
  get "status" record = PStr "failed" \/
  exists items item, required_checks = PList items /\ PDict item ∈ items /\
    py_eq (get "check" record) (get "check" item) = true.

Lemma cited_problems_nil discovered compare_revision entry :
  cited_problems (dict_of ((fun e => (entry_path e, e)) <$> discovered)) compare_revision (PDict entry) = Ok [] ->
  exists record, record ∈ discovered /\ get "path" entry = PStr (entry_path record) /\
    agrees compare_revision entry record.
Proof.
  unfold cited_problems. destruct (negb _); [done|].
  destruct (get "path" entry) as [| | | |p| |] eqn:Ep; try done.
  destruct (dict_get p _) as [record|] eqn:Er; [|done]. intros H%Ok_inj.
  apply dict_of_elem, list_elem_of_fmap in Er as (record' & [= Hp <-] & Hin). subst p.
  exists record. split; [done|]. split; [done|]. intros field Hf Hrev. apply bind_nil in H.
  rewrite Forall_forall in H. specialize (H field Hf).
  cbv beta in H. destruct (String.eqb_spec field "firmwareRevision") as [E|]; simpl in H.
  - rewrite (Hrev E) in H. by apply unless_nil in H.
  - by apply unless_nil in H.
Qed.

Lemma required_names_elem required_checks names items item :
  required_names required_checks = Ok names -> required_checks = PList items -> PDict item ∈ items ->
  get "check" item ∈ names.
Proof.
  intros H -> Hin. simpl in H. apply map_outcome_Ok in H.
  assert (get "check" item ∈ omap (fun item => match item with PDict d => Some (get "check" d) | _ => None end) items) as Hc
    by (apply list_elem_of_omap; by exists (PDict item)).
  apply list_elem_of_lookup in Hc as [i Hi]. destruct (Forall2_lookup_l _ _ _ _ _ H Hi) as (v & Hv & Hok).
  destruct (hashable (get "check" item)); [|done]. injection Hok as ->. by eapply list_elem_of_lookup_2.
Qed.

Lemma uncited_problems_nil cited names record p :
  get "path" record = PStr p -> uncited_problems (cited_paths cited) names record = Ok [] ->
  (exists d, PDict d ∈ cited /\ get "path" d = PStr p) \/
  (get "status" record <> PStr "failed" /\
   forall v, v ∈ names -> py_eq (get "check" record) v = false).
Proof.
  intros Hp. unfold uncited_problems. rewrite Hp.
  destruct (existsb (same_value (PStr p)) (cited_paths cited)) eqn:Ec.
  - intros _. left. apply existsb_elem in Ec as (v & Hv & Hsame).
    unfold cited_paths in Hv. apply list_elem_of_omap in Hv as (e & He & Hev).
    destruct e as [| | | | | |d]; simplify_eq. exists d. split; [done|].
    unfold same_value in Hsame. simpl in Hsame. by apply py_eq_str_l in Hsame.
  - destruct (py_eq (get "status" record) (PStr "failed")) eqn:Es; [done|].
    intros (needed & Hn & H)%bind_Ok. injection H as H. apply unless_nil, negb_true_iff in H. subst needed.
    right. split.
    + intros E. rewrite E in Es. by rewrite (proj2 (py_eq_str_r _ _) eq_refl) in Es.
    + intros v Hv. unfold in_set in Hn. destruct (hashable _); [|done]. injection Hn as Hn.
      rewrite existsb_elem_false in Hn. specialize (Hn v Hv). unfold same_value in Hn.
      by apply orb_false_iff in Hn as [_ ?].
Qed.

Lemma cited_evidence_nil cited discovered required_checks compare_revision :
  cited_evidence_problems cited discovered required_checks compare_revision = Ok [] ->
  (forall entry, PDict entry ∈ cited -> exists record, record ∈ discovered /\
     get "path" entry = PStr (entry_path record) /\ agrees compare_revision entry record) /\
  (forall record p, record ∈ discovered -> get "path" record = PStr p -> must_cite required_checks record ->
     exists entry, PDict entry ∈ cited /\ get "path" entry = PStr p).
Proof.
  unfold cited_evidence_problems. intros (wrong & Hw & H)%bind_Ok.
  apply bind_Ok in H as (names & Hnames & H). apply bind_Ok in H as (missing & Hm & H%Ok_inj).
  apply app_nil in H as [-> ->]. rewrite collect_nil, Forall_forall in Hw.
  rewrite collect_nil, Forall_forall in Hm. split.
  - intros entry Hin. by apply Hw, cited_problems_nil in Hin.
  - intros record p Hin Hp Hmust.
    destruct (uncited_problems_nil _ _ _ _ Hp (Hm _ Hin)) as [?|[Hs Hc]]; [done|exfalso].
    destruct Hmust as [?|(items & item & Hitems & Hitem & Heq)]; [done|].
    rewrite (Hc (get "check" item)) in Heq; [done|]. by eapply required_names_elem.
Qed.

(** A manifest cannot misstate or hide a record. When the citation check
    reports no problem, every cited entry is a discovered record that agrees with
    it field by field, and every discovered record that failed or belongs to a
    required check is cited. *)
Theorem cited_evidence_faithful cited discovered required_checks compare_revision :
  cited_evidence_problems cited discovered required_checks compare_revision = Ok [] ->
  (forall entry, PDict entry ∈ cited -> exists record, record ∈ discovered /\
     get "path" entry = PStr (entry_path record) /\ agrees compare_revision entry record) /\
  (forall record p, record ∈ discovered -> get "path" record = PStr p -> must_cite required_checks record ->
     exists entry, PDict entry ∈ cited /\ get "path" entry = PStr p).
Proof. apply cited_evidence_nil. Qed.
