(* ===== verification/ReleaseManifest.v ===== *)
(** * The release-manifest validator

    [validate] and [main] of [Tools/validate-release-manifest.py]. [validate]
    collects problems; it is divided here as its own comments divide it, and the
    parts are joined in the code's order. *)
From S2P Require Import Prelude PyValue PyText PyRegex JsonDoc PyFiles Evidence SizeReport TransportSource.

Definition as_object (v : pyval) : dict := match v with PDict d => d | _ => [] end.
(** [if not isinstance(v, dict): problems.append(...); v = {}] *)
Definition object_problem (v : pyval) (message : string) : list problem :=
  unless (is_dict v) (Problem message []).

Section manifest.
Context (fs : release_files) (repr : pyval -> string) (repo_root : path).

Definition hex_text (digits : nat) (v : pyval) : bool := is_hex_text digits (py_str repr v).

(** ** Schema and mode *)
Definition schema_problems (manifest : dict) : rrun (list problem) :=
  schema ← in_set (get "schemaVersion" manifest) [PInt 1; PInt 2];
  mode ← in_set (get "mode" manifest) [PStr "release"; PStr "preview"];
  Ok (unless schema (Problem "schemaVersion must be 1 or 2, found %r" [get "schemaVersion" manifest])
      ++ unless mode (Problem "mode must be release or preview, found %r" [get "mode" manifest])).

(** ** Profile identity and the declared axes *)
Definition transport_name (manifest : dict) : pyval := dict_field "name" (get "transport" manifest).

Definition declared_field_problems (profile_name : string) (manifest profile : dict) (field : string) :
    list problem :=
  let declared := get field profile in
  if negb (is_nonempty_string declared)
  then [Problem "Profiles/%s/profile.json does not declare %s" [PStr profile_name; PStr field]]
  else unless (py_eq (get field manifest) declared)
         (Problem "%s is %r but the profile declares %r" [PStr field; get field manifest; declared]).

Definition axis_problems (field axis : string) (v : pyval) : list problem :=
  match v with
  | PStr s =>
      unless (negb (has_text s && negb (rf_isdir fs (joined repo_root [axis; s]))))
        (Problem "%s %r does not exist under %s/" [PStr field; v; PStr axis])
  | _ => []
  end.

(** The profile, [None] when it was not read, and the problems of its fields. *)
Definition profile_part (manifest : dict) : rrun (pyval * list problem) :=
  match get "profile" manifest with
  | PStr profile_name =>
      if negb (has_text profile_name) then Ok (PNone, [Problem "profile is required" []])
      else
        let profile_path := joined repo_root ["Profiles"; profile_name; "profile.json"] in
        if negb (rf_isfile fs profile_path)
        then Ok (PNone, [Problem "profile %r has no Profiles/%s/profile.json" [PStr profile_name; PStr profile_name]])
        else
          profile ← load fs profile_path;
          match profile with
          | PDict p =>
              let declared_transport := get "transport" p in
              Ok (profile,
                  (["application"; "platform"; "board"] ≫= declared_field_problems profile_name manifest p)
                  ++ (if negb (is_nonempty_string declared_transport)
                      then [Problem "Profiles/%s/profile.json does not declare transport" [PStr profile_name]]
                      else unless (py_eq (transport_name manifest) declared_transport)
                             (Problem "transport.name is %r but the profile declares %r"
                                [transport_name manifest; declared_transport]))
                  ++ axis_problems "application" "Applications" (get "application" manifest)
                  ++ axis_problems "platform" "Platforms" (get "platform" manifest)
                  ++ axis_problems "transport" "Transports" (transport_name manifest))
          | _ => Crash AttributeError
          end
  | _ => Ok (PNone, [Problem "profile is required" []])
  end.

(** ** Transport backend *)
Definition transport_fields (transport : dict) : list problem :=
  (["name"; "backend"; "version"; "versionSource"] ≫= fun field =>
     unless (is_nonempty_string (get field transport)) (Problem "transport.%s is required" [PStr field]))
  ++ (if negb (has_key "component" transport)
      then [Problem "transport.component is required; it names the pinned entry that supplies the backend" []]
      else unless (is_none (get "component" transport) || is_nonempty_string (get "component" transport))
             (Problem "transport.component must be a non-empty string or null" []))
  ++ (if negb (has_key "revision" transport)
      then [Problem "transport.revision is required; it is the pinned backend commit or null" []]
      else unless (is_none (get "revision" transport) || hex_text 40 (get "revision" transport))
             (Problem "transport.revision must be null or a full commit SHA" [])).

Definition version_source_problems (manifest transport : dict) : rrun (list problem) :=
  match get "versionSource" transport with
  | PStr version_source =>
      if negb (has_text version_source) then Ok []
      else if is_abs version_source || bool_decide (".." ∈ split_on slash version_source)
      then Ok [Problem "transport.versionSource must be a repository-relative path" []]
      else
        let source_path := abs_join repo_root version_source in
        let within :=
          match get "platform" manifest with
          | PStr name => has_text name && is_within source_path (abspath (path_join repo_root "Platforms") name)
          | _ => false
          end in
        if negb within
        then Ok [Problem "transport.versionSource %r is outside Platforms/%s"
                   [PStr version_source; get "platform" manifest]]
        else if negb (rf_isfile fs source_path)
        then Ok [Problem "transport.versionSource %r does not exist" [PStr version_source]]
        else validate_transport_source fs transport source_path version_source
  | _ => Ok []
  end.

Definition transport_part (manifest : dict) : rrun (list problem) :=
  let transport := as_object (get "transport" manifest) in
  source ← version_source_problems manifest transport;
  Ok (object_problem (get "transport" manifest) "transport must be an object"
      ++ transport_fields transport ++ source).

(** ** Axoloty identity: the lock decides a release *)
Definition axoloty_sha (manifest : dict) : string :=
  py_str repr (get_default "sha" (PStr "") (as_object (get "axoloty" manifest))).

Definition lock_core : rrun dict :=
  let lock_path := path_join repo_root "axoloty-core.lock.json" in
  lock ← (if rf_isfile fs lock_path then load fs lock_path else Ok (PDict []));
  core ← get_attr "core" lock;
  Ok (as_object core).

Definition axoloty_problems (manifest lock : dict) : list problem :=
  let mode := get "mode" manifest in
  let axoloty := as_object (get "axoloty" manifest) in
  let sha := axoloty_sha manifest in
  object_problem (get "axoloty" manifest) "axoloty must be an object"
  ++ unless (is_hex_text 40 sha)
       (Problem "axoloty.sha must be a full 40-character commit SHA, found %r" [get "sha" axoloty])
  ++ unless (is_false (get "dirty" axoloty))
       (Problem "axoloty.dirty must be false; a release is built from a clean Core checkout" [])
  ++ unless (is_nonempty_string (get "contractSha256" axoloty)
             && hex_text 64 (get_default "contractSha256" (PStr "") axoloty))
       (Problem "axoloty.contractSha256 must be a SHA-256" [])
  ++ (if py_eq mode (PStr "release") then
        unless (py_eq (PStr sha) (get "revision" lock))
          (Problem "axoloty.sha does not match the lock revision" [])
        ++ unless (py_eq (get "version" axoloty) (get "version" lock))
             (Problem "axoloty.version does not match the lock version" [])
        ++ unless (py_eq (get "tag" axoloty) (get "tag" lock))
             (Problem "axoloty.tag does not match the lock tag" [])
        ++ unless (is_nonempty_string (get "tag" axoloty))
             (Problem "axoloty.tag is required; a release certificate must name a tagged Core revision" [])
      else if py_eq mode (PStr "preview") then
        unless (negb (py_eq (PStr sha) (get "revision" lock)))
          (Problem "a preview manifest must build an off-lock Axoloty revision" [])
        ++ unless (is_none (get "version" axoloty) && is_none (get "tag" axoloty))
             (Problem "a preview manifest must not assert an Axoloty version or tag" [])
      else []).

(** ** Embedded identity: VERSION decides *)
Definition DecimalDigits : rx := Plus true (Chr is_decimal).
Definition VERSION : rx :=
  rx_seq [Group 1 (rx_seq [DecimalDigits; Str "."; DecimalDigits; Str "."; DecimalDigits]);
          Str "-embedded."; Group 2 (Seq (Chr (between 0x31 0x39)) (Star true (Chr is_decimal))); Eol].

Definition version_problems (manifest embedded lock : dict) : rrun (list problem) :=
  let version_path := path_join repo_root "VERSION" in
  if negb (rf_isfile fs version_path) then Ok [Problem "VERSION is missing" []]
  else
    match rf_text fs version_path with
    | TextUnreadable => Crash OSError
    | TextNotUtf8 => Crash UnicodeError
    | Text text =>
        let version_chars := strip (codepoints text) in
        let version_text := of_codepoints version_chars in
        Ok (unless (py_eq (get "version" embedded) (PStr version_text))
              (Problem "embedded.version %r does not match VERSION %r" [get "version" embedded; PStr version_text])
            ++ match re_fullmatch VERSION version_chars with
               | None => [Problem "VERSION is not <base>-embedded.<revision>: %r" [PStr version_text]]
               | Some c =>
                   let base := of_codepoints (default [] (group 1 c)) in
                   unless (negb (negb (py_eq (get "mode" manifest) (PStr "preview"))
                                 && negb (py_eq (PStr base) (get "version" lock))))
                     (Problem "VERSION base %s does not match the lock version %s" [PStr base; get "version" lock])
               end)
    end.

Definition embedded_part (manifest lock : dict) : rrun (list problem) :=
  let embedded := as_object (get "embedded" manifest) in
  version ← version_problems manifest embedded lock;
  Ok (object_problem (get "embedded" manifest) "embedded must be an object"
      ++ version
      ++ unless (hex_text 40 (get_default "sha" (PStr "") embedded))
           (Problem "embedded.sha must be a full 40-character commit SHA" [])
      ++ unless (is_false (get "dirty" embedded))
           (Problem "embedded.dirty must be false; a release is built from a clean firmware checkout" [])).

(** ** Toolchain, configuration, image *)
Definition image_sha (manifest : dict) : string :=
  py_str repr (get_default "sha256" (PStr "") (as_object (get "image" manifest))).

Definition build_problems (manifest : dict) : list problem :=
  let toolchain := as_object (get "toolchain" manifest) in
  let image := as_object (get "image" manifest) in
  object_problem (get "toolchain" manifest) "toolchain must be an object"
  ++ (["swift"; "sdk"; "target"] ≫= fun field =>
        unless (is_nonempty_string (get field toolchain))
          (Problem "toolchain.%s is required; the build observed it" [PStr field]))
  ++ unless (hex_text 64 (get_default "configurationFingerprint" (PStr "") manifest))
       (Problem "configurationFingerprint must be a SHA-256" [])
  ++ object_problem (get "image" manifest) "image must be an object"
  ++ unless (match get "path" image with
             | PStr p => has_text p && String.eqb (basename p) p | _ => false end)
       (Problem "image.path must be a file name, not a machine path" [])
  ++ unless (is_hex_text 64 (image_sha manifest)) (Problem "image.sha256 must be a SHA-256" [])
  ++ unless (match get "byteCount" image with PInt z => 0 <? z | _ => false end)
       (Problem "image.byteCount must be a positive integer" []).

(** ** Resources *)
Definition SIZE_REPORT_GRANDFATHERED : list string :=
  ["esp32c6-mqtt/0.8.2-embedded.2"; "esp32c6-mqtt/0.10.0-embedded.2";
   "esp32c6-zenoh/0.10.0-embedded.1"; "esp32c6-zenoh/0.10.0-embedded.2"].
Definition FIRMWARE_REVISION_GRANDFATHERED : list (string * string) :=
  [("esp32c6-mqtt/0.10.0-embedded.2", "0b4bc08406f25b1a4cb61423cc955a2690c54a1c");
   ("esp32c6-zenoh/0.10.0-embedded.2", "e6543e140b226001765c925de4e566c3e29cb5e0")].

Definition release_key (manifest : dict) : string :=
  py_str repr (get "profile" manifest) +:+ "/"
  +:+ py_str repr (get "version" (as_object (get "embedded" manifest))).

Definition declares_build_budgets (profile : pyval) : bool :=
  match dict_field "budgets" profile with PDict b => has_key "build" b | _ => false end.

Definition resources_problems (manifest : dict) (profile : pyval) : list problem :=
  match get "resources" manifest with
  | PNone =>
      unless (negb (declares_build_budgets profile
                    && negb (bool_decide (release_key manifest ∈ SIZE_REPORT_GRANDFATHERED))))
        (Problem "resources is null but profile %s declares budgets.build; a release must carry a size report"
           [get "profile" manifest])
  | PDict resources =>
      if has_exactly resources ["available"; "report"] && is_true (get "available" resources)
      then validate_size_report (get "report" resources) manifest profile
      else [Problem "resources must be null or {available: true, report: {...}}" []]
  | _ => [Problem "resources must be null or {available: true, report: {...}}" []]
  end.

(** ** Qualification *)
(** One cited entry: its problems, and whether it matches this build. *)
Definition cited_entry (sha image : string) (entry : pyval) : rrun (list problem * bool) :=
  match entry with
  | PDict e =>
      match get "path" e with
      | PStr relative =>
          if negb (has_text relative)
          then Ok ([Problem "each qualification.evidence entry must name a path" []], false)
          else
            let candidate := abs_join repo_root relative in
            if negb (is_within candidate (evidence_dir repo_root))
            then Ok ([Problem "evidence path %r is outside docs/evidence" [PStr relative]], false)
            else if negb (rf_isfile fs candidate)
            then Ok ([Problem "evidence path %r does not exist" [PStr relative]], false)
            else
              record ← load fs candidate;
              ps ← validate_evidence repr record relative;
              device_tier ← in_set (dict_field "tier" record) [PStr "device"; PNone];
              Ok (ps, py_eq (get "status" e) (PStr "passed") && py_eq (get "coreRevision" e) (PStr sha)
                      && py_eq (get "firmwareSHA256" e) (PStr image) && device_tier)
      | _ => Ok ([Problem "each qualification.evidence entry must name a path" []], false)
      end
  | _ => Ok ([Problem "each qualification.evidence entry must name a path" []], false)
  end.

(** [(profile.get("qualification") or {}).get("requiredChecks") if isinstance(profile, dict) else None] *)
Definition declared_checks (profile : pyval) : rrun pyval :=
  match profile with
  | PDict p =>
      let q := get "qualification" p in
      get_attr "requiredChecks" (if truthy q then q else PDict [])
  | _ => Ok PNone
  end.

Definition is_grandfathered (manifest : dict) : bool :=
  py_eq (match dict_get (release_key manifest) FIRMWARE_REVISION_GRANDFATHERED with
         | Some sha => PStr sha | None => PNone end)
        (get "sha" (as_object (get "embedded" manifest))).

Definition qualified_problems (manifest qualification : dict) (profile : pyval) (entries : list pyval) :
    rrun (list problem) :=
  let grandfathered := is_grandfathered manifest in
  let firmware_revision :=
    if grandfathered then PNone else get "sha" (as_object (get "embedded" manifest)) in
  let required_checks := get "requiredChecks" qualification in
  let schema2 := py_eq (get "schemaVersion" manifest) (PInt 2) in
  declared ← declared_checks profile;
  discovered ← (if is_nonempty_string (get "profile" manifest)
                then discover_evidence fs repo_root (get "profile" manifest) else Ok []);
  cited ← cited_evidence_problems entries discovered required_checks (negb grandfathered);
  required ← (if schema2
              then required_check_problems repr (axoloty_sha manifest) (image_sha manifest) firmware_revision
                     required_checks (PDict <$> discovered)
              else Ok []);
  Ok ((if is_none declared then []
       else if negb schema2
       then [Problem "a qualified manifest of a profile with required checks must be schema 2" []]
       else unless (py_eq required_checks declared)
              (Problem "qualification.requiredChecks does not match the profile" []))
      ++ cited ++ required).

Definition qualification_part (manifest : dict) (profile : pyval) : rrun (list problem) :=
  let qualification := as_object (get "qualification" manifest) in
  let status := get "status" qualification in
  known ← in_set status [PStr "qualified"; PStr "unqualified"];
  let entries := match get "evidence" qualification with PList l => l | _ => [] end in
  checked ← map_outcome (cited_entry (axoloty_sha manifest) (image_sha manifest)) entries;
  let qualified := py_eq status (PStr "qualified") in
  required ← (if qualified then qualified_problems manifest qualification profile entries else Ok []);
  Ok (object_problem (get "qualification" manifest) "qualification must be an object"
      ++ unless known (Problem "qualification.status must be qualified or unqualified" [])
      ++ unless (is_list (get "evidence" qualification)) (Problem "qualification.evidence must be a list" [])
      ++ concat checked.*1
      ++ unless (negb (qualified && negb (existsb snd checked)))
           (Problem "a qualified manifest needs a passed evidence record for this Core revision and image checksum" [])
      ++ required).

(** ** Compatibility statement *)
Definition compatibility_problems (manifest : dict) : list problem :=
  let compatibility := as_object (get "compatibility" manifest) in
  let expected := if py_eq (get "mode" manifest) (PStr "preview") then PStr "preview"
                  else get "status" (as_object (get "qualification" manifest)) in
  object_problem (get "compatibility" manifest) "compatibility must be an object"
  ++ unless (py_eq (get "scope" compatibility) (PStr "profile"))
       (Problem "compatibility.scope must be profile; compatibility is per profile" [])
  ++ unless (py_eq (get "status" compatibility) expected)
       (Problem "compatibility.status must be %r, found %r" [expected; get "status" compatibility])
  ++ unless (is_nonempty_string (get "description" compatibility))
       (Problem "compatibility.description is required" []).

(** ** [validate] on an object *)
Definition validate_object (manifest : dict) (revocation : option dict) (revocation_problems : list problem)
    (require_qualified allow_revoked : bool) : rrun (list problem) :=
  schema ← schema_problems manifest;
  profile_result ← profile_part manifest;
  let '(profile, profile_ps) := profile_result in
  transport ← transport_part manifest;
  lock ← lock_core;
  embedded ← embedded_part manifest lock;
  qualification ← qualification_part manifest profile;
  let status := get "status" (as_object (get "qualification" manifest)) in
  revoked ← (match revocation with
             | Some record =>
                 if allow_revoked then Ok []
                 else reason ← item "reason" record;
                      Ok [Problem "this release certificate is revoked: %s" [reason]]
             | None => Ok []
             end);
  Ok (revocation_problems ++ schema ++ profile_ps
      ++ unless (is_nonempty_string (get "board" manifest))
           (Problem "board is required; a release names the qualified board" [])
      ++ transport ++ axoloty_problems manifest lock ++ embedded ++ build_problems manifest
      ++ resources_problems manifest profile ++ qualification
      ++ unless (negb (require_qualified && negb (py_eq status (PStr "qualified"))))
           (Problem "this manifest is not qualified; a published release must be" [])
      ++ revoked ++ compatibility_problems manifest).
End manifest.

(** [validate]: the problems and the revocation record. *)
Definition validate (fs : release_files) (repr : pyval -> string) (root manifest_file : string)
    (require_qualified allow_revoked : bool) : rrun (list problem * option dict) :=
  let repo_root := abspath (rf_cwd fs) root in
  let manifest_path := abspath (rf_cwd fs) manifest_file in
  manifest ← load fs manifest_path;
  let '(revocation, revocation_ps) := load_revocation fs repo_root manifest_path in
  match revocation with
  | Some _ =>
      if allow_revoked then Ok (revocation_ps, revocation)
      else
        match manifest with
        | PDict m =>
            ps ← validate_object fs repr repo_root m revocation revocation_ps require_qualified allow_revoked;
            Ok (ps, revocation)
        | _ => Ok ([Problem "manifest must be a JSON object, found %s" []], revocation)
        end
  | None =>
      match manifest with
      | PDict m =>
          ps ← validate_object fs repr repo_root m revocation revocation_ps require_qualified allow_revoked;
          Ok (ps, revocation)
      | _ => Ok ([Problem "manifest must be a JSON object, found %s" []], revocation)
      end
  end.

Inductive verdict := Revoked (reason : pyval) | Certified | PreviewOnly | Invalid (problems : list problem).

(** [main] after the arguments: what it prints, before it returns. *)
Definition judge (fs : release_files) (repr : pyval -> string) (root manifest_file : string)
    (require_qualified allow_revoked : bool) : rrun verdict :=
  result ← validate fs repr root manifest_file require_qualified allow_revoked;
  let '(problems, revocation) := result in
  match problems with
  | _ :: _ => Ok (Invalid problems)
  | [] =>
      manifest ← load fs (abspath (rf_cwd fs) manifest_file);
      mode ← get_attr "mode" manifest;
      match revocation with
      | Some record => reason ← item "reason" record; Ok (Revoked reason)
      | None => Ok (if py_eq mode (PStr "release") then Certified else PreviewOnly)
      end
  end.

Definition release_flags : list string := ["--require-qualified"; "--allow-revoked"].

(** The exit status: a [ValueError] of the validation is reported, any other
    builtin exception ends the run with a traceback; both give 1. *)
Definition release_main (fs : release_files) (repr : pyval -> string) (argv : list string) : Z :=
  match List.filter (fun a => negb (bool_decide (a ∈ release_flags))) argv with
  | [_; root; manifest_file] =>
      match judge fs repr root manifest_file (bool_decide ("--require-qualified" ∈ argv))
                  (bool_decide ("--allow-revoked" ∈ argv)) with
      | Ok (Invalid _) => 1
      | Ok _ => 0
      | Raise _ | Crash _ => 1
      end
  | _ => 2
  end.
