(* ===== verification/ReleaseFixture.v ===== *)
(** * A miniature release: concrete inputs for the release-manifest theorems *)
From S2P Require Import Prelude PyValue PyText JsonDoc PyFiles Evidence SizeReport TransportSource ReleaseManifest.

Definition sha_core : string := "1111111111111111111111111111111111111111".
Definition sha_firmware : string := "2222222222222222222222222222222222222222".
Definition sha_image : string := "aaaaaaaaaaaaaaaaaaaaaaaaaaaaaaaaaaaaaaaaaaaaaaaaaaaaaaaaaaaaaaaa".
Definition sha_other : string := "bbbbbbbbbbbbbbbbbbbbbbbbbbbbbbbbbbbbbbbbbbbbbbbbbbbbbbbbbbbbbbbb".

Definition release_checks : jtree :=
  JArray [JObject [("check", JStr "boot"); ("artifact", JStr "release"); ("records", JInt 1); ("units", JInt 1)]].

Definition release_profile : jtree :=
  JObject [("application", JStr "agent"); ("platform", JStr "esp32"); ("board", JStr "devkit");
           ("transport", JStr "zenoh-pico");
           ("budgets", JObject [("basis", JStr "partition"); ("build", JObject [("imageBytes", JInt 1000)])]);
           ("qualification", JObject [("requiredChecks", release_checks)])].

Definition boot_record : jtree :=
  JObject [("schemaVersion", JInt 1); ("profile", JStr "demo"); ("check", JStr "boot"); ("recordedAt", JStr "now");
           ("tier", JStr "device"); ("status", JStr "passed"); ("coreRevision", JStr sha_core);
           ("firmwareSHA256", JStr sha_image); ("firmwareRevision", JStr sha_firmware);
           ("device", JStr "unit-a"); ("protocol", JStr "axoloty"); ("result", JStr "ok")].
Definition boot_citation : jtree :=
  JObject [("path", JStr "docs/evidence/boot.json"); ("check", JStr "boot"); ("tier", JStr "device");
           ("status", JStr "passed"); ("coreRevision", JStr sha_core); ("firmwareSHA256", JStr sha_image);
           ("firmwareRevision", JStr sha_firmware); ("device", JStr "unit-a")].

Definition fixture_metrics : jtree :=
  JObject [("imageBytes", JInt 900); ("flashTextBytes", JInt 500); ("flashRodataBytes", JInt 100);
           ("iramTextBytes", JInt 30); ("initializedDataBytes", JInt 20); ("dramBssBytes", JInt 50);
           ("staticRamBytes", JInt 100)].
Definition fixture_size_report : jtree :=
  JObject [("schemaVersion", JInt 1); ("kind", JStr "build-size"); ("profile", JStr "demo");
           ("application", JStr "agent"); ("platform", JStr "esp32"); ("transport", JStr "zenoh-pico");
           ("coreRevision", JStr sha_core);
           ("configuration", JObject [("name", JStr "default"); ("sdkconfigSha256", JStr sha_other);
                                      ("networkConfigured", JBool false)]);
           ("metrics", fixture_metrics);
           ("image", JObject [("bytes", JInt 900); ("sha256", JStr sha_image); ("appPartitionBytes", JInt 2000);
                              ("partitionHeadroomBytes", JInt 1100)]);
           ("budgets", JObject [("basis", JStr "partition"); ("build", JObject [("imageBytes", JInt 1000)])]);
           ("enforcement",
             JObject [("status", JStr "passed");
                      ("results", JArray [JObject [("metric", JStr "imageBytes"); ("measured", JInt 900);
                                                   ("budget", JInt 1000); ("headroomBytes", JInt 100);
                                                   ("passed", JBool true)]])])].

Definition release_manifest : jtree :=
  JObject [("schemaVersion", JInt 2); ("mode", JStr "release"); ("profile", JStr "demo");
           ("application", JStr "agent"); ("platform", JStr "esp32"); ("board", JStr "devkit");
           ("transport", JObject [("name", JStr "zenoh-pico"); ("backend", JStr "zenoh-pico"); ("version", JStr "1.0");
                                  ("versionSource", JStr "Platforms/esp32/zenoh.json");
                                  ("component", JStr "zenoh-pico"); ("revision", JNull)]);
           ("axoloty", JObject [("sha", JStr sha_core); ("dirty", JBool false); ("contractSha256", JStr sha_other);
                                ("version", JStr "0.1.0"); ("tag", JStr "v0.1.0")]);
           ("embedded", JObject [("version", JStr "0.1.0-embedded.1"); ("sha", JStr sha_firmware);
                                 ("dirty", JBool false)]);
           ("toolchain", JObject [("swift", JStr "6"); ("sdk", JStr "5.5"); ("target", JStr "riscv32")]);
           ("configurationFingerprint", JStr sha_other);
           ("image", JObject [("path", JStr "demo.bin"); ("sha256", JStr sha_image); ("byteCount", JInt 900)]);
           ("resources", JObject [("available", JBool true); ("report", fixture_size_report)]);
           ("qualification", JObject [("status", JStr "qualified"); ("evidence", JArray [boot_citation]);
                                      ("requiredChecks", release_checks)]);
           ("compatibility", JObject [("scope", JStr "profile"); ("status", JStr "qualified");
                                      ("description", JStr "one profile")])].

Definition release_lock : jtree :=
  JObject [("core", JObject [("revision", JStr sha_core); ("version", JStr "0.1.0"); ("tag", JStr "v0.1.0")])].
Definition transport_source : jtree :=
  JObject [("component", JStr "zenoh-pico"); ("version", JStr "1.0")].

Definition release_documents (extra : list (string * document)) : list (string * document) :=
  [("/repo/releases/demo.json", Doc release_manifest);
   ("/repo/Profiles/demo/profile.json", Doc release_profile);
   ("/repo/Platforms/esp32/zenoh.json", Doc transport_source);
   ("/repo/axoloty-core.lock.json", Doc release_lock);
   ("/repo/docs/evidence/boot.json", Doc boot_record)] ++ extra.

(** The repository, with further documents and further evidence files. *)
Definition release_repository (extra : list (string * document)) (evidence : list string) : release_files :=
  {| rf_document p := default DocUnreadable (dict_get (as_posix p) (release_documents extra));
     rf_text p := if String.eqb (as_posix p) "/repo/VERSION" then Text "0.1.0-embedded.1" else TextUnreadable;
     rf_isfile p := has_key (as_posix p) (release_documents extra) || String.eqb (as_posix p) "/repo/VERSION";
     rf_isdir p := bool_decide (as_posix p ∈ ["/repo/Applications/agent"; "/repo/Platforms/esp32";
                                              "/repo/Transports/zenoh-pico"; "/repo/docs/evidence"]);
     rf_listdir p := "boot.json" :: evidence;
     rf_cwd := path_of "/repo" |}.

Definition fixture_release : release_files := release_repository [] [].
Definition no_repr : pyval -> string := fun _ => "repr".

Lemma fixture_certified : judge fixture_release no_repr "/repo" "releases/demo.json" true false = Ok Certified.
Proof. vm_compute. reflexivity. Qed.

Lemma fixture_exit : release_main fixture_release no_repr
  ["validate-release-manifest.py"; "/repo"; "releases/demo.json"; "--require-qualified"] = 0.
Proof. vm_compute. reflexivity. Qed.

(** A failed record that the manifest does not cite. *)
Definition failed_record : jtree :=
  JObject [("schemaVersion", JInt 1); ("profile", JStr "demo"); ("check", JStr "soak"); ("status", JStr "failed")].
Example hidden_failure :
  judge (release_repository [("/repo/docs/evidence/soak.failed.json", Doc failed_record)] ["soak.failed.json"])
    no_repr "/repo" "releases/demo.json" true false =
  Ok (Invalid [Problem "evidence %s is a failed record of this profile and the manifest does not cite it"
                 [PStr "docs/evidence/soak.failed.json"]]).
Proof. vm_compute. reflexivity. Qed.

(** A revocation record that gives no reason: the problems found so far are lost
    to a [KeyError]. *)
Definition revocation_without_reason : jtree :=
  JObject [("schemaVersion", JInt 1); ("status", JStr "revoked"); ("manifestPath", JStr "releases/demo.json")].
Example revocation_without_reason_crashes :
  judge (release_repository [("/repo/releases/revocations/demo.json", Doc revocation_without_reason)] [])
    no_repr "/repo" "releases/demo.json" true false = Crash KeyError.
Proof. vm_compute. reflexivity. Qed.
