(* ===== verification/ReleaseTheorems.v ===== *)
(** * What a certified release manifest guarantees *)
From S2P Require Import Prelude PyValue PyText PyRegex JsonDoc PyFiles Evidence SizeReport TransportSource SizeTheorems EvidenceTheorems ReleaseManifest ReleaseFixture.

Lemma object_problem_nil v message : object_problem v message = [] <-> exists d, v = PDict d.
Proof. unfold object_problem. rewrite unless_nil. destruct v; naive_solver. Qed.

(** The parts of [validate_object] when it reports nothing. *)
Record clean (fs : release_files) (repr : pyval -> string) (root : path) (m : dict)
    (profile : pyval) (lock : dict) (require_qualified : bool) : Prop := {
  clean_schema : schema_problems m = Ok [];
  clean_profile : profile_part fs root m = Ok (profile, []);
  clean_board : is_nonempty_string (get "board" m) = true;
  clean_transport : transport_part fs repr root m = Ok [];
  clean_lock : lock_core fs root = Ok lock;
  clean_axoloty : axoloty_problems repr m lock = [];
  clean_embedded : embedded_part fs repr root m lock = Ok [];
  clean_build : build_problems repr m = [];
  clean_resources : resources_problems repr m profile = [];
  clean_qualification : qualification_part fs repr root m profile = Ok [];
  clean_required : require_qualified = true -> nested "qualification" "status" m = PStr "qualified";
  clean_compatibility : compatibility_problems m = []
}.

Lemma as_object_get k f m : get f (as_object (get k m)) = nested k f m.
Proof. unfold nested, dict_field, as_object. by destruct (get k m). Qed.

Lemma validate_object_nil fs repr root m revocation ps require_qualified allow_revoked :
  validate_object fs repr root m revocation ps require_qualified allow_revoked = Ok [] ->
  exists profile lock, clean fs repr root m profile lock require_qualified /\ ps = [] /\
    (revocation = None \/ allow_revoked = true).
Proof.
  unfold validate_object. intros (schema & Hschema & H)%bind_Ok.
  apply bind_Ok in H as ([profile pps] & Hprofile & H). apply bind_Ok in H as (transport & Htransport & H).
  apply bind_Ok in H as (lock & Hlock & H). apply bind_Ok in H as (embedded & Hembedded & H).
  apply bind_Ok in H as (qualification & Hqual & H). apply bind_Ok in H as (revoked & Hrevoked & H%Ok_inj).
  do 12 (apply app_nil in H as [? H]); subst. exists profile, lock. split; [|split; [done|]].
  - constructor; try done; try (eapply unless_nil; eassumption).
    intros ->. match goal with H : unless (negb (true && _)) _ = [] |- _ =>
      apply unless_nil in H; cbn [andb] in H; rewrite negb_involutive, as_object_get in H end.
    by apply py_eq_str_r.
  - destruct revocation as [record|]; [|by left]. destruct allow_revoked; [by right|].
    by apply bind_Ok in Hrevoked as (? & _ & ?).
Qed.

Lemma judge_certified fs repr root file require_qualified allow_revoked :
  judge fs repr root file require_qualified allow_revoked = Ok Certified ->
  let repo_root := abspath (rf_cwd fs) root in
  let manifest_path := abspath (rf_cwd fs) file in
  exists m profile lock, load fs manifest_path = Ok (PDict m) /\
    load_revocation fs repo_root manifest_path = (None, []) /\ get "mode" m = PStr "release" /\
    clean fs repr repo_root m profile lock require_qualified.
Proof.
  unfold judge, validate. intros ([problems revocation] & Hv & H)%bind_Ok.
  destruct problems as [|? ?]; [|done].
  apply bind_Ok in H as (manifest & Hload & H). apply bind_Ok in H as (mode & Hmode & H).
  destruct revocation as [record|].
  { by apply bind_Ok in H as (? & _ & ?). }
  rewrite Hload in Hv. cbn [mbind outcome_bind] in Hv.
  destruct (load_revocation _ _ _) as [[record|] ps].
  { destruct allow_revoked; [by simplify_eq|]. destruct manifest; try by simplify_eq.
    by apply bind_Ok in Hv as (? & _ & ?). }
  destruct manifest as [| | | | | |m]; try by simplify_eq.
  apply bind_Ok in Hv as (problems & Hv & [= ->]).
  apply validate_object_nil in Hv as (profile & lock & Hc & -> & _).
  exists m, profile, lock. split_and!; try done. simpl in Hmode. simplify_eq.
  destruct (py_eq (get "mode" m) (PStr "release")) eqn:E; [by apply py_eq_str_r|done].
Qed.

(** ** Identity *)
(** C10: a certified manifest names this repository's release: a clean Axoloty
    checkout at exactly the locked revision, version and tag, a clean firmware
    checkout, the version that VERSION states, whose base is the locked version,
    and the axes that its profile declares. It is not revoked. *)
Theorem certified_identity fs repr root file require_qualified :
  judge fs repr root file require_qualified false = Ok Certified ->
  let repo_root := abspath (rf_cwd fs) root in
  exists m lock, load fs (abspath (rf_cwd fs) file) = Ok (PDict m) /\ lock_core fs repo_root = Ok lock /\
    (load_revocation fs repo_root (abspath (rf_cwd fs) file)).1 = None /\
    is_hex_text 40 (axoloty_sha repr m) = true /\ get "revision" lock = PStr (axoloty_sha repr m) /\
    (exists tag, nested "axoloty" "tag" m = PStr tag /\ get "tag" lock = PStr tag) /\
    py_eq (nested "axoloty" "version" m) (get "version" lock) = true /\
    nested "axoloty" "dirty" m = PBool false /\ nested "embedded" "dirty" m = PBool false /\
    is_hex_text 64 (image_sha repr m) = true /\
    exists text base, rf_text fs (path_join repo_root "VERSION") = Text text /\
      nested "embedded" "version" m = PStr (of_codepoints (strip (codepoints text))) /\
      get "version" lock = PStr base.
Proof.
  intros (m & profile & lock & Hload & Hrev & Hmode & Hc)%judge_certified. exists m, lock.
  split; [done|]. split; [apply Hc|]. rewrite Hrev. split; [done|].
  pose proof (clean_axoloty _ _ _ _ _ _ _ Hc) as Ha. unfold axoloty_problems in Ha.
  rewrite !as_object_get, Hmode in Ha. change (py_eq (PStr "release") (PStr "release")) with true in Ha.
  cbv iota in Ha. repeat (apply app_nil in Ha as [?%unless_nil Ha] || apply app_nil in Ha as [? Ha]).
  apply unless_nil in Ha.
  pose proof (clean_build _ _ _ _ _ _ _ Hc) as Hb. unfold build_problems in Hb.
  apply app_nil in Hb as [_ Hb]. apply app_nil in Hb as [_ Hb]. apply app_nil in Hb as [_ Hb].
  apply app_nil in Hb as [_ Hb]. apply app_nil in Hb as [_ Hb]. apply app_nil in Hb as [Himage%unless_nil _].
  pose proof (clean_embedded _ _ _ _ _ _ _ Hc) as He. unfold embedded_part in He.
  apply bind_Ok in He as (vps & Hv & He%Ok_inj). rewrite !as_object_get in He.
  apply app_nil in He as [_ He]. apply app_nil in He as [-> He].
  apply app_nil in He as [_ Hdirty%unless_nil].
  unfold version_problems in Hv. destruct (negb _); [done|].
  destruct (rf_text fs _) as [| |text] eqn:Et; [done..|]. apply Ok_inj, app_nil in Hv as [Hver%unless_nil Hbase].
  rewrite as_object_get in Hver. apply py_eq_str_r in Hver.
  destruct (re_fullmatch VERSION _) as [c|]; [|done]. apply unless_nil in Hbase. rewrite Hmode in Hbase.
  simpl in Hbase. bool_prop. set (base := of_codepoints _) in Hbase.
  match goal with H : py_eq (PStr (axoloty_sha _ _)) _ = true |- _ => apply py_eq_str_l in H end.
  apply py_eq_str_l in Hbase.
  repeat match goal with H : is_false ?v = true |- _ =>
    assert (v = PBool false) by (by destruct v as [|[]| | | | |]); clear H end.
  split_and!; try done.
  - destruct (nested "axoloty" "tag" m) as [| | | |tag| |]; try done. exists tag. split; [done|].
    match goal with H : py_eq (PStr tag) _ = true |- _ => by apply py_eq_str_l in H end.
  - exists text, base. done.
Qed.

Lemma certified_identity_witness :
  judge fixture_release no_repr "/repo" "releases/demo.json" true false = Ok Certified /\
  exists m, load fixture_release (path_of "/repo/releases/demo.json") = Ok (PDict m) /\
    nested "axoloty" "dirty" m = PBool false.
Proof.
  split; [exact fixture_certified|].
  destruct (certified_identity _ _ _ _ _ fixture_certified) as (m & l & Hm & _ & _ & _ & _ & _ & _ & Hd & _).
  exists m. split; [exact Hm|exact Hd].
Defined.

(** ** Qualification *)
Definition evidence_entries (m : dict) : list pyval :=
  match nested "qualification" "evidence" m with PList l => l | _ => [] end.
Definition certificate_revision (repr : pyval -> string) (m : dict) : pyval :=
  if is_grandfathered repr m then PNone else nested "embedded" "sha" m.

(** The steps of a qualified manifest without problems. *)
Record qualified (fs : release_files) (repr : pyval -> string) (root : path) (m : dict) (profile : pyval) : Prop := {
  qualified_entries : exists checked, nested "qualification" "evidence" m = PList (evidence_entries m) /\
    map_outcome (cited_entry fs repr root (axoloty_sha repr m) (image_sha repr m)) (evidence_entries m) = Ok checked /\
    concat checked.*1 = [] /\ existsb snd checked = true;
  qualified_records : exists ds, discover_evidence fs root (get "profile" m) = Ok ds /\
    cited_evidence_problems (evidence_entries m) ds (nested "qualification" "requiredChecks" m)
      (negb (is_grandfathered repr m)) = Ok [] /\
    (py_eq (get "schemaVersion" m) (PInt 2) = true ->
     required_check_problems repr (axoloty_sha repr m) (image_sha repr m) (certificate_revision repr m)
       (nested "qualification" "requiredChecks" m) (PDict <$> ds) = Ok []);
  qualified_declared : exists declared, declared_checks profile = Ok declared /\
    (declared <> PNone -> py_eq (get "schemaVersion" m) (PInt 2) = true /\
       py_eq (nested "qualification" "requiredChecks" m) declared = true)
}.

Lemma profile_named fs root m profile :
  profile_part fs root m = Ok (profile, []) -> is_nonempty_string (get "profile" m) = true.
Proof.
  unfold profile_part. destruct (get "profile" m) as [| | | |p| |]; try done. simpl.
  by destruct (has_text p).
Qed.

Lemma clean_qualified fs repr root m profile lock :
  clean fs repr root m profile lock true -> qualified fs repr root m profile.
Proof.
  intros Hc. pose proof (clean_required _ _ _ _ _ _ _ Hc eq_refl) as Hstatus.
  pose proof (profile_named _ _ _ _ (clean_profile _ _ _ _ _ _ _ Hc)) as Hname.
  pose proof (clean_qualification _ _ _ _ _ _ _ Hc) as H. unfold qualification_part in H.
  rewrite !as_object_get, Hstatus in H. apply bind_Ok in H as (known & _ & H).
  fold (evidence_entries m) in H. apply bind_Ok in H as (checked & Hchecked & H).
  apply bind_Ok in H as (required & Hreq & H%Ok_inj).
  apply app_nil in H as [_ H]. apply app_nil in H as [_ H]. apply app_nil in H as [Hlist%unless_nil H].
  apply app_nil in H as [Hps H]. apply app_nil in H as [Hmatch%unless_nil ->].
  change (py_eq (PStr "qualified") (PStr "qualified")) with true in *. cbn [andb] in Hmatch.
  rewrite negb_involutive in Hmatch. unfold qualified_problems in Hreq. rewrite !as_object_get in Hreq.
  fold (certificate_revision repr m) in Hreq.
  apply bind_Ok in Hreq as (declared & Hdecl & Hreq). rewrite Hname in Hreq.
  apply bind_Ok in Hreq as (ds & Hds & Hreq). apply bind_Ok in Hreq as (cps & Hcited & Hreq).
  apply bind_Ok in Hreq as (rps & Hrequired & Hreq%Ok_inj).
  assert (Hq : get "requiredChecks" (as_object (get "qualification" m)) = nested "qualification" "requiredChecks" m)
    by apply as_object_get.
  apply app_nil in Hreq as [Hd Hreq]. apply app_nil in Hreq as [-> ->]. constructor.
  - exists checked. split_and!; try done. unfold evidence_entries.
    by destruct (nested "qualification" "evidence" m).
  - exists ds. split_and!; [done|done|]. intros H2. by rewrite H2 in Hrequired.
  - exists declared. split; [done|]. intros Hne. destruct (is_none declared) eqn:E; [by destruct declared|].
    destruct (py_eq (get "schemaVersion" m) (PInt 2)); [|done]. cbn [negb] in Hd. by apply unless_nil in Hd.
Qed.

(** A citation that matches the build: its record is a file of docs/evidence that
    is valid evidence, and it cites a passed device record of this Core revision
    and this image. *)
Definition matching_citation (fs : release_files) (repr : pyval -> string) (root : path) (m entry : dict) : Prop :=
  exists relative record, get "path" entry = PStr relative /\
    is_within (abs_join root relative) (evidence_dir root) = true /\
    load fs (abs_join root relative) = Ok (PDict record) /\
    validate_evidence repr (PDict record) relative = Ok [] /\
    get "status" entry = PStr "passed" /\ get "coreRevision" entry = PStr (axoloty_sha repr m) /\
    get "firmwareSHA256" entry = PStr (image_sha repr m) /\
    (get "tier" record = PStr "device" \/ get "tier" record = PNone).

Lemma in_set_device v b :
  in_set (E := release_error) v [PStr "device"; PNone] = Ok b -> b = true -> v = PStr "device" \/ v = PNone.
Proof.
  unfold in_set. destruct (hashable v); [|done]. intros <-%Ok_inj H.
  apply existsb_elem in H as (w & Hw & Hsame). unfold same_value in Hsame.
  apply elem_of_cons in Hw as [->|Hw]; [left|apply list_elem_of_singleton in Hw as ->; right];
    rewrite andb_false_r in Hsame; cbn [orb] in Hsame; [by apply py_eq_str_r|by apply py_eq_none_r].
Qed.

Lemma cited_entry_match fs repr root m e ps :
  cited_entry fs repr root (axoloty_sha repr m) (image_sha repr m) e = Ok (ps, true) -> ps = [] ->
  exists entry, e = PDict entry /\ matching_citation fs repr root m entry.
Proof.
  unfold cited_entry. destruct e as [| | | | | |entry]; try done.
  destruct (get "path" entry) as [| | | |relative| |] eqn:Ep; try done.
  destruct (negb _); [done|]. destruct (is_within _ _) eqn:Ew; [|done]. cbn [negb].
  destruct (negb (rf_isfile _ _)); [done|].
  intros (record & Hload & (ps' & Hps & (tier & Ht & [= <- H])%bind_Ok)%bind_Ok)%bind_Ok ->.
  destruct record as [| | | | | |record]; try done. bool_prop. subst tier.
  exists entry. split; [done|]. exists relative, record.
  repeat match goal with H : py_eq _ (PStr _) = true |- _ => apply py_eq_str_r in H end.
  split_and!; try done. by apply in_set_device in Ht.
Qed.

(** C6: a certified manifest is qualified by the evidence in the repository, not by
    its own account of it. It cites a passed device record of its Core revision
    and image; every citation agrees with the discovered record of its path; and
    every record of the profile in docs/evidence that failed is cited. *)
Theorem certified_evidence fs repr root file :
  judge fs repr root file true false = Ok Certified ->
  let repo_root := abspath (rf_cwd fs) root in
  exists m ds, load fs (abspath (rf_cwd fs) file) = Ok (PDict m) /\
    discover_evidence fs repo_root (get "profile" m) = Ok ds /\
    (exists entry, PDict entry ∈ evidence_entries m /\ matching_citation fs repr repo_root m entry) /\
    (forall entry, PDict entry ∈ evidence_entries m -> exists record, record ∈ ds /\
       get "path" entry = PStr (entry_path record) /\
       agrees (negb (is_grandfathered repr m)) entry record) /\
    (forall name record, name ∈ rf_listdir fs (evidence_dir repo_root) -> ends_with ".json" name = true ->
       json_record fs (path_join (evidence_dir repo_root) name) record ->
       py_eq (get "profile" record) (get "profile" m) = true -> get "status" record = PStr "failed" ->
       exists entry, PDict entry ∈ evidence_entries m /\ get "path" entry = PStr ("docs/evidence/" +:+ name)).
Proof.
  intros (m & profile & lock & Hload & _ & _ & Hc%clean_qualified)%judge_certified.
  destruct Hc as [(checked & Hlist & Hchecked & Hps & Hmatch) (ds & Hds & Hcited & _) _].
  exists m, ds. split; [done|]. split; [done|].
  assert (Hentry : exists entry, PDict entry ∈ evidence_entries m /\
            matching_citation fs repr (abspath (rf_cwd fs) root) m entry).
  { apply existsb_elem in Hmatch as ([ps b] & Hin & Hb). simpl in Hb. subst b.
    destruct (map_outcome_elem _ _ _ _ Hchecked Hin) as (e & He & Hrun).
    assert (ps = []) as ->.
    { assert (ps ∈ checked.*1) as Hp by (apply list_elem_of_fmap; by exists (ps, true)).
      apply list_elem_of_split in Hp as (l1 & l2 & E). rewrite E in Hps.
      rewrite concat_app in Hps. apply app_nil in Hps as [_ Hps]. by apply app_nil in Hps as [? _]. }
    destruct (cited_entry_match _ _ _ _ _ _ Hrun eq_refl) as (entry & -> & ?). eauto. }
  split; [done|]. apply cited_evidence_nil in Hcited as [Hagree Hmust]. split; [done|].
  intros name record Hname Hext (t & Hdoc & Ht) Hprof Hfailed.
  destruct Hentry as (entry & Hin & _). destruct (Hagree _ Hin) as (found & Hfound & _).
  destruct (rf_isdir fs (evidence_dir (abspath (rf_cwd fs) root))) eqn:Hdir.
  2: { unfold discover_evidence in Hds. rewrite Hdir in Hds. injection Hds as <-. by apply elem_of_nil in Hfound. }
  destruct (discover_spec _ _ _ _ Hds Hdir) as [_ Hall]. destruct (Hall name Hname Hext) as (v & Hv & Hvs).
  unfold load in Hv. rewrite Hdoc in Hv. apply Ok_inj in Hv. subst v.
  destruct (Hvs record Ht Hprof) as (e & He & (_ & Hpath & Hfields & _)).
  apply (Hmust e _ He Hpath). left. rewrite Forall_forall in Hfields. rewrite Hfields; [done|].
  unfold cited_fields. set_solver.
Qed.

(** C14: the required checks of a certified schema 2 manifest hold in the
    repository. There is at least one, they are the profile's where the profile
    declares any, and every one is satisfied by the discovered records: all the
    records of the check passed for this Core revision and for this image, or this
    firmware revision, and enough of them ran on enough distinct devices. *)
Theorem certified_checks fs repr root file :
  judge fs repr root file true false = Ok Certified ->
  exists m profile ds declared, load fs (abspath (rf_cwd fs) file) = Ok (PDict m) /\
    profile_part fs (abspath (rf_cwd fs) root) m = Ok (profile, []) /\
    declared_checks profile = Ok declared /\
    discover_evidence fs (abspath (rf_cwd fs) root) (get "profile" m) = Ok ds /\
    (declared <> PNone -> py_eq (get "schemaVersion" m) (PInt 2) = true /\
       py_eq (nested "qualification" "requiredChecks" m) declared = true) /\
    (py_eq (get "schemaVersion" m) (PInt 2) = true ->
     exists items, nested "qualification" "requiredChecks" m = PList items /\ items <> [] /\
       Forall (fun item => exists rc, read_required item = Ok (Some rc) /\
         satisfied repr (axoloty_sha repr m) (image_sha repr m) (certificate_revision repr m)
           (PDict <$> ds) rc) items).
Proof.
  intros (m & profile & lock & Hload & _ & _ & Hc)%judge_certified.
  pose proof (clean_profile _ _ _ _ _ _ _ Hc) as Hprofile.
  apply clean_qualified in Hc as [_ (ds & Hds & _ & Hreq) (declared & Hdecl & Hd)].
  exists m, profile, ds, declared. split_and!; try done. intros H2.
  by apply required_check_problems_nil, Hreq.
Qed.

Lemma certified_evidence_witness : exists m entry,
  load fixture_release (path_of "/repo/releases/demo.json") = Ok (PDict m) /\ PDict entry ∈ evidence_entries m.
Proof.
  destruct (certified_evidence _ _ _ _ fixture_certified) as (m & ds & Hm & _ & (entry & He & _) & _).
  exists m, entry. split; [exact Hm|exact He].
Defined.

Lemma certified_checks_witness : exists ds,
  discover_evidence fixture_release (path_of "/repo") (PStr "demo") = Ok ds.
Proof.
  destruct (certified_checks _ _ _ _ fixture_certified) as (m & p & ds & d & Hm & _ & _ & Hds & _).
  injection Hm as <-. exists ds. exact Hds.
Defined.

(** ** Budgets *)
Lemma load_well_formed fs p v : load fs p = Ok v -> well_formed v = true.
Proof. unfold load. destruct (rf_document fs p); try done. intros <-%Ok_inj. apply loads_well_formed. Qed.

Lemma profile_part_well_formed fs root m profile ps :
  profile_part fs root m = Ok (profile, ps) -> well_formed profile = true.
Proof.
  unfold profile_part. destruct (get "profile" m) as [| | | |name| |]; try by intros [= <- _].
  destruct (negb _); [by intros [= <- _]|]. destruct (negb _); [by intros [= <- _]|].
  intros (p & Hp & H)%bind_Ok. destruct p as [| | | | | |d]; try done. injection H as <- _.
  by eapply load_well_formed.
Qed.

Lemma declares_build profile :
  declares_build_budgets profile = true -> profile_problems profile = [] ->
  dict_field "build" (declared_budgets profile) <> PNone.
Proof.
  unfold declares_build_budgets, profile_problems, declared_budgets, dict_field, get_default.
  destruct profile as [| | | | | |p]; try done. unfold get at 1 2.
  destruct (dict_get "budgets" p) as [b|] eqn:Eb; [|done]. simpl. destruct b as [| | | | | |d]; try done.
  intros Hk [_ [_ H]%app_nil]%app_nil. unfold has_key in H, Hk. unfold get in *.
  destruct (dict_get "build" d) as [v|]; [|done]. simpl in *. apply size_check_nil in H. by destruct v.
Qed.



(** ** The command *)
(** C33: without [--allow-revoked], the command exits 0 only for a manifest object
    that has no revocation record and no problem: whatever its mode, its identity,
    image, evidence and compatibility parts are clean, and with
    [--require-qualified] it is qualified. *)
Theorem exit_zero_clean fs repr argv :
  release_main fs repr argv = 0 -> "--allow-revoked" ∉ argv ->
  exists program root file m profile lock,
    List.filter (fun a => negb (bool_decide (a ∈ release_flags))) argv = [program; root; file] /\
    load fs (abspath (rf_cwd fs) file) = Ok (PDict m) /\
    load_revocation fs (abspath (rf_cwd fs) root) (abspath (rf_cwd fs) file) = (None, []) /\
    clean fs repr (abspath (rf_cwd fs) root) m profile lock (bool_decide ("--require-qualified" ∈ argv)).
Proof.
  unfold release_main. destruct (List.filter _ argv) as [|program [|root [|file [|? ?]]]]; try done.
  intros H Hallow. rewrite (bool_decide_eq_false_2 _ Hallow) in H.
  destruct (judge _ _ _ _ _ _) as [v|?|?] eqn:Ej; [|done|done].
  unfold judge in Ej. apply bind_Ok in Ej as ([problems revocation] & Hv & Ej).
  destruct problems as [|? ?]; [|injection Ej as <-; done]. clear Ej H.
  unfold validate in Hv. apply bind_Ok in Hv as (manifest & Hload & Hv).
  exists program, root, file. destruct (load_revocation _ _ _) as [[record|] ps] eqn:Erev.
  - destruct manifest as [| | | | | |m]; try done. apply bind_Ok in Hv as (ps' & Hv & [= -> _]).
    apply validate_object_nil in Hv as (? & ? & _ & _ & [?|?]); done.
  - destruct manifest as [| | | | | |m]; try done. apply bind_Ok in Hv as (ps' & Hv & [= -> _]).
    apply validate_object_nil in Hv as (profile & lock & Hc & -> & _). exists m, profile, lock. done.
Qed.

Lemma exit_zero_clean_witness : exists program root file,
  program = "validate-release-manifest.py" /\ root = "/repo" /\ file = "releases/demo.json" /\
  load_revocation fixture_release (path_of "/repo") (path_of "/repo/releases/demo.json") = (None, []).
Proof.
  assert (Hallow : "--allow-revoked" ∉ ["validate-release-manifest.py"; "/repo"; "releases/demo.json";
    "--require-qualified"]).
  { intros H. repeat (apply elem_of_cons in H as [H|H]; [discriminate H|]). by apply elem_of_nil in H. }
  destruct (exit_zero_clean fixture_release no_repr _ fixture_exit Hallow)
    as (p & r & f & m & pr & l & E & _ & Hrev & _).
  vm_compute in E. injection E as <- <- <-. eexists _, _, _. split; [reflexivity|split; [reflexivity|split; [reflexivity|exact Hrev]]].
Defined.

(** ** Witnesses of the report and evidence theorems at the fixture *)
Definition fixture_report_value : pyval := loads fixture_size_report.
Definition fixture_manifest_dict : dict := as_object (loads release_manifest).
Definition fixture_profile_value : pyval := loads release_profile.

Lemma fixture_report_accepted :
  validate_size_report fixture_report_value fixture_manifest_dict fixture_profile_value = [].
Proof. vm_compute. reflexivity. Qed.

Lemma size_report_consistent_witness : exists r m, fixture_report_value = PDict r /\ get "metrics" r = PDict m.
Proof.
  destruct (size_report_consistent _ _ _ fixture_report_accepted) as (r & m & i & Hr & Hm & _).
  exists r, m. split; [exact Hr|exact Hm].
Defined.


Definition boot_entry : dict := as_object (loads boot_citation).
Lemma fixture_discovered :
  discover_evidence fixture_release (path_of "/repo") (PStr "demo") = Ok [boot_entry].
Proof. vm_compute. reflexivity. Qed.

Lemma discover_evidence_complete_witness :
  exists name record, name ∈ ["boot.json"] /\ cites_as name record boot_entry.
Proof.
  destruct (proj1 (discover_evidence_complete _ _ _ _ fixture_discovered eq_refl) boot_entry
    ltac:(apply list_elem_of_here)) as (name & record & Hn & _ & _ & Hc).
  exists name, record. split; [exact Hn|exact Hc].
Defined.

Lemma cited_evidence_faithful_witness :
  exists record, record ∈ [boot_entry] /\ agrees true boot_entry record.
Proof.
  destruct (proj1 (cited_evidence_faithful [PDict boot_entry] [boot_entry] (loads release_checks) true
    ltac:(vm_compute; reflexivity)) boot_entry ltac:(apply list_elem_of_here)) as (record & Hr & _ & Ha).
  exists record. split; [exact Hr|exact Ha].
Defined.
