(* ===== verification/PyInt.v ===== *)
(** * Integer literals and searching

    [int(text, 0)], [re.search], [str.split] and [str.lower] as the stack tools
    use them. *)
From S2P Require Import Prelude PyValue PyText PyRegex PyFiles.

(** ** [int(text, 0)]

    A digit or white space outside ASCII counts as its ASCII form; the text is
    then stripped of ASCII white space. *)
Definition ascii_space (c : Z) : bool := between 0x9 0xD c || (c =? 0x20).
Definition to_ascii (c : Z) : Z :=
  if c <? 0x80 then c
  else match decimal_value c with
       | Some d => 0x30 + d
       | None => if is_space c then 0x20 else 0x3F
       end.
Fixpoint lstrip_ascii (l : list Z) : list Z :=
  match l with c :: l' => if ascii_space c then lstrip_ascii l' else l | [] => [] end.
Definition strip_ascii (l : list Z) : list Z := reverse (lstrip_ascii (reverse (lstrip_ascii l))).

(** The value of a digit in the given base. *)
Definition digit_value (base c : Z) : option Z :=
  let d := if between 0x30 0x39 c then c - 0x30
           else if between 0x61 0x7A c then c - 0x57
           else if between 0x41 0x5A c then c - 0x37 else base in
  if d <? base then Some d else None.

(** Digits with single underscores between them; [after_digit] tells whether an
    underscore, or the end, may come next. *)
Fixpoint digits_value (base acc : Z) (after_digit : bool) (l : list Z) : option Z :=
  match l with
  | [] => if after_digit then Some acc else None
  | c :: l =>
      if c =? 0x5F then if after_digit then digits_value base acc false l else None
      else match digit_value base c with
           | Some d => digits_value base (acc * base + d) true l
           | None => None
           end
  end.

(** The base a prefix selects, and the rest: one underscore may follow it. *)
Definition base_prefix (l : list Z) : option (Z * list Z) :=
  match l with
  | 0x30 :: c :: l =>
      let rest := match l with 0x5F :: l' => l' | _ => l end in
      if (c =? 0x78) || (c =? 0x58) then Some (16, rest)
      else if (c =? 0x6F) || (c =? 0x4F) then Some (8, rest)
      else if (c =? 0x62) || (c =? 0x42) then Some (2, rest)
      else None
  | _ => None
  end.

(** A literal without sign: a decimal one that is not zero has no leading zero. *)
Definition unsigned_literal (l : list Z) : option Z :=
  match base_prefix l with
  | Some (base, digits) => digits_value base 0 false digits
  | None =>
      value ← digits_value 10 0 false l;
      match l with
      | 0x30 :: _ => if value =? 0 then Some 0 else None
      | _ => Some value
      end
  end.

Definition int_literal (text : list Z) : option Z :=
  match strip_ascii (to_ascii <$> text) with
  | 0x2B :: l => unsigned_literal l
  | 0x2D :: l => Z.opp <$> unsigned_literal l
  | l => unsigned_literal l
  end.

Example int_literals :
  (int_literal ∘ codepoints) <$>
    ["0"; "-16"; " +42 "; "0x1F"; "-0X1f"; "0b101"; "0o17"; "0x_1"; "0_0"; "1_000"; "٣"] =
  [Some 0; Some (-16); Some 42; Some 31; Some (-31); Some 5; Some 15; Some 1; Some 0; Some 1000; Some 3].
Proof. vm_compute. reflexivity. Qed.
Example int_not_literals :
  (int_literal ∘ codepoints) <$>
    [""; "01"; "0_1"; "0x"; "0x1_"; "1__0"; "- 5"; "--1"; "_1"; "0b12"; "sp"; "%lo(x)"] = replicate 12 None.
Proof. vm_compute. reflexivity. Qed.

(** ** [re.search]: the leftmost match *)
Fixpoint search_at (r : rx) (prev : option Z) (s : list Z) : option captures :=
  match rx_match r prev s [] (fun _ _ c => Some c) with
  | Some c => Some c
  | None => match s with x :: s' => search_at r (Some x) s' | [] => None end
  end.
Definition re_search (r : rx) (s : list Z) : option captures := search_at r None s.

(** A letter of a pattern under [re.IGNORECASE], given in lower case. *)
Definition letter_ignoring_case (p c : Z) : bool :=
  (c =? p) || (between 0x61 0x7A p && (c =? p - 0x20))
  || ((p =? 0x69) && ((c =? 0x130) || (c =? 0x131))) || ((p =? 0x6B) && (c =? 0x212A)) || ((p =? 0x73) && (c =? 0x17F)).
Fixpoint literal_ignoring_case (l : list Z) : rx :=
  match l with [] => Empty | c :: l => Seq (Chr (letter_ignoring_case c)) (literal_ignoring_case l) end.
Fixpoint alternatives (l : list rx) : rx :=
  match l with [] => Chr (fun _ => false) | [r] => r | r :: l => Alt r (alternatives l) end.

(** ** Text *)
Definition comma : Ascii.ascii := Ascii.ascii_of_N 44.
Definition hash_sign : Ascii.ascii := Ascii.ascii_of_N 35.
Definition strip_text (s : string) : string := of_codepoints (strip (codepoints s)).

(** [str.split()]: the words between runs of white space; [cur] is the word read
    so far, last character first. *)
Fixpoint words_at (l cur : list Z) : list (list Z) :=
  match l with
  | [] => match cur with [] => [] | _ => [reverse cur] end
  | c :: l =>
      if is_space c then match cur with [] => words_at l [] | _ => reverse cur :: words_at l [] end
      else words_at l (c :: cur)
  end.
Definition words (l : list Z) : list (list Z) := words_at l [].

(** [str.lower], for comparison with names in ASCII: besides the capital letters
    only U+212A and U+0130 have ASCII in their lower case. *)
Definition lower_chars (l : list Z) : list Z :=
  l ≫= fun c => if between 0x41 0x5A c then [c + 0x20]
               else if c =? 0x212A then [0x6B]
               else if c =? 0x130 then [0x69; 0x307] else [c].

(** [\w]: [alnum] is [str.isalnum] of the characters outside ASCII. *)
Definition is_word (alnum : Z -> bool) (c : Z) : bool :=
  between 0x30 0x39 c || between 0x41 0x5A c || between 0x61 0x7A c || (c =? 0x5F)
  || (0x80 <=? c) && alnum c.

(** A run of hexadecimal digits as a capture. *)
Definition HexGroup (n : nat) : rx := Group n (Plus true Hex).
Definition capture_text (n : nat) (c : captures) : string := of_codepoints (default [] (group n c)).
Definition capture_hex (n : nat) (c : captures) : Z := hex_value (default [] (group n c)).
