(* ===== verification/Disassembly.v ===== *)
(** * Symbol listings and disassembly of a linked image

    [Instruction], [Function], [parse_symbols] and [parse_disassembly] of
    [Tools/EmbeddedApplicationMacros/first_init_stack.py]. *)
From S2P Require Import Prelude PyValue PyText PyRegex PyFiles PyInt.

Record instruction := Instruction {
  ins_address : Z;
  ins_mnemonic : string;
  ins_operands : string;
  ins_target : option Z;
  ins_text : string;
  ins_size : Z;
  ins_encoding : option string
}.
#[export] Instance instruction_eq_dec : EqDecision instruction.
Proof. solve_decision. Defined.

Record function := Function_ {
  fn_name : string;
  fn_start : Z;
  fn_size : Z;
  fn_instructions : list instruction;
  fn_symbol_sizes : list (string * Z);
  fn_symbol_kinds : list (string * string)
}.
Definition fn_end (fn : function) : Z := fn_start fn + fn_size fn.
Definition set_instructions (l : list instruction) (fn : function) : function :=
  Function_ (fn_name fn) (fn_start fn) (fn_size fn) l (fn_symbol_sizes fn) (fn_symbol_kinds fn).

(** [by_addr] is a dictionary keyed by the start address. The functions are shared
    objects, so [by_name] holds the address of the function a name refers to. *)
Abbreviation functions := (list (Z * function)).
Definition fn_at (a : Z) (by_addr : functions) : option function :=
  snd <$> List.find (fun kv => kv.1 =? a) by_addr.

Section listing.
Context (alnum : Z -> bool).

(** ** The listings' line forms *)
Definition Word : rx := Chr (is_word alnum).
Definition SYM : rx :=
  rx_seq [Star true Space; HexGroup 1; Plus true Space; HexGroup 2; Plus true Space; Group 3 Word;
          Plus true Space; Group 4 (Plus false Any); Star true Space; Eol].
Definition INS : rx :=
  rx_seq [Star true Space; HexGroup 1; Str ":"; Plus true Space;
          Opt (rx_seq [Group 2 (Seq (Times 4 Hex) (UpTo 4 Hex)); Plus true Space]);
          Group 3 (Plus true (Chr (fun c => (c =? 0x2E) || is_word alnum c)));
          Opt (rx_seq [Plus true Space; Group 4 (Star false Any)]); Star true Space; Eol].

(** ** [parse_symbols] *)
Definition symbol_row : Type := string * Z * string.
Definition symbol_line (line : list Z) : option (Z * symbol_row) :=
  match re_match SYM line with
  | Some (c, _) =>
      let size := capture_hex 2 c in
      if size =? 0 then None else Some (capture_hex 1 c, (capture_text 4 c, size, capture_text 3 c))
  | None => None
  end.

Definition row_name (r : symbol_row) : string := r.1.1.
Definition row_size (r : symbol_row) : Z := r.1.2.

(** The function of the symbols at one address: the largest extent, and every
    name of that extent. *)
Definition function_of (address : Z) (aliases : list symbol_row) : function :=
  let max_size := foldr (fun r => Z.max (row_size r)) 0 aliases in
  let max_names := sorted_strings (dedup (row_name <$>
    List.filter (fun r => row_size r =? max_size) aliases)) in
  Function_ (join_with " | " max_names) address max_size []
    (foldl (fun d r => dict_set (row_name r) (row_size r) d) [] aliases)
    (foldl (fun d r => dict_set (row_name r) r.2 d) [] aliases).

Definition parse_symbols (text : string) : functions * list (string * Z) :=
  let rows := omap symbol_line (split_lines (codepoints text)) in
  let groups := group_by fst rows in
  (((fun g => (g.1, function_of g.1 (snd <$> g.2))) <$> groups),
   foldl (fun d g => foldl (fun d r => dict_set (row_name r.2) g.1 d) d g.2) [] groups).

(** ** One line of disassembly *)
Definition TARGET : rx :=
  rx_seq [Str "#"; Star true Space; Opt (Str "0x"); HexGroup 1].
Definition COMMA_TARGET : rx :=
  rx_seq [Str ","; Star true Space; Opt (Str "0x"); HexGroup 1; Star true Space; Str "<"].
Definition PLAIN_TARGET : rx :=
  rx_seq [Star true Space; Opt (Str "0x"); HexGroup 1; Star true Space; Str "<"].
Definition direct_jumps : list string := ["j"; "c.j"; "jal"; "c.jal"].

Definition target_of (mnemonic : string) (operands : list Z) : option Z :=
  let found := match re_search TARGET operands with
               | Some c => Some c
               | None =>
                   match re_search COMMA_TARGET operands with
                   | Some c => Some c
                   | None => if bool_decide (mnemonic ∈ direct_jumps)
                             then fst <$> re_match PLAIN_TARGET operands else None
                   end
               end in
  capture_hex 1 <$> found.

Definition decode_line (line : list Z) : option instruction :=
  match re_match INS line with
  | Some (c, _) =>
      let operands := default [] (group 4 c) in
      let mnemonic := of_codepoints (lower_chars (default [] (group 3 c))) in
      let encoding := group 2 c in
      Some (Instruction (capture_hex 1 c) mnemonic (of_codepoints operands) (target_of mnemonic operands)
              (of_codepoints (strip line))
              (match encoding with Some e => Z.of_nat (length e) / 2 | None => 4 end)
              (of_codepoints <$> encoding))
  | None => None
  end.
End listing.

(** ** The sweep over sorted instructions and symbol extents *)
Definition function_le (f g : function) : Prop :=
  fn_start f < fn_start g \/ (fn_start f = fn_start g /\ fn_end f <= fn_end g).
#[export] Instance function_le_dec f g : Decision (function_le f g).
Proof. unfold function_le. apply _. Defined.
Definition address_order (a b : instruction) : Prop := ins_address a <= ins_address b.
#[export] Instance address_order_dec a b : Decision (address_order a b).
Proof. unfold address_order. apply _. Defined.

(** The heap of [(end, start)] pairs: a heap pops its least element, so it is kept
    as a sorted list. *)
Definition ending_le (a b : Z * Z) : Prop := a.1 < b.1 \/ (a.1 = b.1 /\ a.2 <= b.2).
#[export] Instance ending_le_dec a b : Decision (ending_le a b).
Proof. unfold ending_le. apply _. Defined.

Record sweep := Sweep {
  sw_pending : list function;
  sw_active : list (Z * function);
  sw_endings : list (Z * Z);
  sw_functions : functions
}.

(** [active[start] = function] *)
Fixpoint active_set (k : Z) (fn : function) (active : list (Z * function)) : list (Z * function) :=
  match active with
  | [] => [(k, fn)]
  | (k', fn') :: active => if k' =? k then (k', fn) :: active else (k', fn') :: active_set k fn active
  end.

(** [while next_function.start <= instruction.address] *)
Fixpoint open_functions (a : Z) (pending : list function) (active : list (Z * function))
    (endings : list (Z * Z)) : list function * list (Z * function) * list (Z * Z) :=
  match pending with
  | fn :: pending' =>
      if fn_start fn <=? a
      then open_functions a pending'
             (active_set (fn_start fn) fn active)
             (sort_insert ending_le (fn_end fn, fn_start fn) endings)
      else (pending, active, endings)
  | [] => ([], active, endings)
  end.

(** [while endings[0][0] <= instruction.address] *)
Fixpoint close_functions (a : Z) (active : list (Z * function)) (endings : list (Z * Z)) :
    list (Z * function) * list (Z * Z) :=
  match endings with
  | (stop, start) :: endings' =>
      if stop <=? a
      then close_functions a (List.filter (fun kv => negb (kv.1 =? start)) active) endings'
      else (active, endings)
  | [] => (active, [])
  end.

(** [fn.instructions.append(instruction)] on the shared object. *)
Definition append_instruction (ins : instruction) (by_addr : functions) (start : Z) : functions :=
  (fun kv => if kv.1 =? start then (kv.1, set_instructions (fn_instructions kv.2 ++ [ins]) kv.2) else kv)
    <$> by_addr.

Definition sweep_step (st : sweep) (ins : instruction) : sweep :=
  let a := ins_address ins in
  let '(pending, active, endings) := open_functions a (sw_pending st) (sw_active st) (sw_endings st) in
  let '(active, endings) := close_functions a active endings in
  Sweep pending active endings
    (foldl (append_instruction ins) (sw_functions st)
       (fst <$> List.filter (fun kv => a <? fn_end kv.2) active)).

Definition sort_bodies (by_addr : functions) : functions :=
  (fun kv => (kv.1, set_instructions (sort_by address_order (fn_instructions kv.2)) kv.2)) <$> by_addr.

Definition attach (decoded : list instruction) (by_addr : functions) : functions :=
  let start := Sweep (sort_by function_le (snd <$> by_addr)) [] [] by_addr in
  sort_bodies (sw_functions (foldl sweep_step start (sort_by address_order decoded))).

Definition parse_disassembly (alnum : Z -> bool) (text : string) (by_addr : functions) : functions :=
  attach (omap (decode_line alnum) (split_lines (codepoints text))) by_addr.
