(* ===== verification/DisassemblyTheorems.v ===== *)
(** * The sweep attaches to every function the instructions of its extent *)
From S2P Require Import Prelude PyValue PyText PyRegex PyInt Disassembly.

Definition in_extent (fn : function) (ins : instruction) : bool :=
  (fn_start fn <=? ins_address ins) && (ins_address ins <? fn_end fn).

(** The reference: no sweep, every function filters the sorted instructions. *)
Definition attach_reference (decoded : list instruction) (by_addr : functions) : functions :=
  (fun kv => (kv.1, set_instructions (sort_by address_order
     (fn_instructions kv.2 ++ List.filter (in_extent kv.2) (sort_by address_order decoded))) kv.2)) <$> by_addr.

(** A dictionary of functions keyed by their start addresses. *)
Record keyed (by_addr : functions) : Prop := {
  keyed_nodup : NoDup by_addr.*1;
  keyed_start : forall k fn, (k, fn) ∈ by_addr -> k = fn_start fn
}.

#[export] Instance function_le_total : Total function_le.
Proof. intros f g. unfold function_le. lia. Qed.
#[export] Instance function_le_trans : Transitive function_le.
Proof. intros f g h. unfold function_le. lia. Qed.
#[export] Instance ending_le_total : Total ending_le.
Proof. intros [] []. unfold ending_le. simpl. lia. Qed.
#[export] Instance ending_le_trans : Transitive ending_le.
Proof. intros [] [] []. unfold ending_le. simpl. lia. Qed.
#[export] Instance address_order_total : Total address_order.
Proof. intros f g. unfold address_order. lia. Qed.
#[export] Instance address_order_trans : Transitive address_order.
Proof. intros f g h. unfold address_order. lia. Qed.

(** ** The active set and its heap *)
Lemma elem_of_active_set k fn active p :
  p ∈ active_set k fn active -> p = (k, fn) \/ p ∈ active.
Proof.
  induction active as [|[k' fn'] l IH]; simpl; [set_solver|].
  destruct (k' =? k) eqn:E; [apply Z.eqb_eq in E as ->|]; set_solver.
Qed.

Lemma active_set_fresh k fn active :
  k ∉ active.*1 -> active_set k fn active = active ++ [(k, fn)].
Proof.
  induction active as [|[k' fn'] l IH]; simpl; [done|]. intros H.
  destruct (k' =? k) eqn:E; [apply Z.eqb_eq in E; set_solver|]. by rewrite IH by set_solver.
Qed.

Lemma nodup_keys_filter {A} (p : Z * A -> bool) (l : list (Z * A)) : NoDup l.*1 -> NoDup (List.filter p l).*1.
Proof.
  induction l as [|[k x] l IH]; simpl; [done|]. intros [Hk Hn]%NoDup_cons.
  destruct (p (k, x)); simpl; [|by apply IH]. apply NoDup_cons. split; [|by apply IH].
  intros ([k' y] & -> & [Hin _]%elem_of_filterb)%list_elem_of_fmap. apply Hk, list_elem_of_fmap. by exists (k', y).
Qed.

Lemma nodup_keys_functional {A} (l : list (Z * A)) k x y : NoDup l.*1 -> (k, x) ∈ l -> (k, y) ∈ l -> x = y.
Proof.
  intros Hn [i Hi]%list_elem_of_lookup [j Hj]%list_elem_of_lookup.
  assert (i = j); [|congruence]. eapply (NoDup_lookup _ _ _ k Hn); rewrite list_lookup_fmap.
  - by rewrite Hi.
  - by rewrite Hj.
Qed.

(** The heap holds the end of every active function, once. *)
Record tracks (active : list (Z * function)) (endings : list (Z * Z)) : Prop := {
  tr_active : NoDup active.*1;
  tr_sorted : StronglySorted ending_le endings;
  tr_nodup : NoDup endings.*2;
  tr_endings : forall e k, (e, k) ∈ endings <-> exists fn, (k, fn) ∈ active /\ e = fn_end fn
}.

Lemma tracks_close a active endings active' endings' :
  tracks active endings -> close_functions a active endings = (active', endings') ->
  tracks active' endings' /\ forall k fn, (k, fn) ∈ active' <-> (k, fn) ∈ active /\ a < fn_end fn.
Proof.
  revert active. induction endings as [|[stop start] endings IH]; intros active [Hf Hs Hn He]; simpl.
  { intros [= <- <-]. split; [by constructor|]. intros k fn. split; [|by intros []].
    intros Hk. exfalso. by apply (not_elem_of_nil (fn_end fn, k)), He; eauto. }
  apply StronglySorted_inv in Hs as [Hs Hle]. rewrite Forall_forall in Hle.
  simpl in Hn. apply NoDup_cons in Hn as [Hstart Hn].
  destruct (stop <=? a) eqn:E; bool_prop.
  - set (rest := List.filter _ active).
    assert (Hrest : forall k fn, (k, fn) ∈ rest <-> (k, fn) ∈ active /\ k <> start).
    { intros k fn. unfold rest. rewrite elem_of_filterb. simpl. by rewrite negb_true_iff, Z.eqb_neq. }
    intros [Ht Ha]%IH.
    + split; [done|]. intros k fn. rewrite Ha, Hrest. split; [by intros [[]]|]. intros [Hk ?].
      split; [split; [done|]|done]. intros ->.
      destruct (proj1 (He stop start)) as (fn' & Hk' & ->); [by apply elem_of_cons; left|].
      rewrite (nodup_keys_functional _ _ _ _ Hf Hk Hk') in *. lia.
    + split; [|done|done|].
      * by apply nodup_keys_filter.
      * intros e k. split.
        -- intros Hin. assert (k <> start) by (intros ->; apply Hstart, list_elem_of_fmap; by exists (e, start)).
           destruct (proj1 (He e k)) as (fn & ? & ->); [by apply elem_of_cons; right|]. exists fn. by rewrite Hrest.
        -- intros (fn & [Hk ?]%Hrest & ->). assert (Hin : (fn_end fn, k) ∈ (stop, start) :: endings) by (apply He; eauto).
           apply elem_of_cons in Hin as [[= ? ?]|]; congruence.
  - intros [= <- <-]. split; [split; [done|constructor; [done|by apply Forall_forall]|by apply NoDup_cons|done]|].
    intros k fn. split; [|by intros []]. intros Hk. split; [done|].
    assert (Hin : (fn_end fn, k) ∈ (stop, start) :: endings) by (apply He; eauto).
    apply elem_of_cons in Hin as [[= -> ->]|Hin]; [done|]. apply Hle in Hin. unfold ending_le in Hin. simpl in Hin. lia.
Qed.

Lemma tracks_open_one active endings fn :
  tracks active endings -> fn_start fn ∉ active.*1 ->
  tracks (active_set (fn_start fn) fn active) (sort_insert ending_le (fn_end fn, fn_start fn) endings).
Proof.
  intros [Hf Hs Hn He] Hfresh. rewrite active_set_fresh by done.
  assert (Hk : forall fn', (fn_start fn, fn') ∉ active)
    by (intros fn' ?; apply Hfresh, list_elem_of_fmap; by exists (fn_start fn, fn')).
  assert (Hks : forall e, (e, fn_start fn) ∉ endings) by (intros e (? & Hin & _)%He; by eapply Hk).
  split.
  - rewrite fmap_app. apply NoDup_app. split; [done|]. split; [|apply NoDup_singleton].
    intros k Hin ->%list_elem_of_singleton. done.
  - by apply sort_insert_sorted; try apply _.
  - rewrite sort_insert_perm. simpl. constructor; [|done]. intros ((e & k) & E & Hin)%list_elem_of_fmap.
    simpl in E. subst k. by apply Hks in Hin.
  - intros e k. rewrite sort_insert_perm, elem_of_cons, He. split.
    + intros [[= -> ->]|(g & ? & ->)]; [exists fn|exists g]; split; try done; rewrite elem_of_app; [right|by left].
      by apply list_elem_of_singleton.
    + intros (g & [?|[= -> ->]%list_elem_of_singleton]%elem_of_app & ->); [right; eauto|by left].
Qed.

Lemma tracks_open a pending active endings pending' active' endings' :
  StronglySorted function_le pending -> NoDup (fn_start <$> pending) ->
  (forall fn, fn ∈ pending -> fn_start fn ∉ active.*1) -> tracks active endings ->
  open_functions a pending active endings = (pending', active', endings') ->
  tracks active' endings' /\
  exists opened, pending = opened ++ pending' /\ Forall (fun fn => fn_start fn <= a) opened /\
    Forall (fun fn => a < fn_start fn) pending' /\
    forall k fn, (k, fn) ∈ active' <-> (k, fn) ∈ active \/ (fn ∈ opened /\ k = fn_start fn).
Proof.
  revert active endings. induction pending as [|fn pending IH]; intros active endings Hs Hn Hfresh Ht; simpl.
  { intros [= <- <- <-]. split; [done|]. exists []. split; [done|]. split; [constructor|]. split; [constructor|]. set_solver. }
  apply StronglySorted_inv in Hs as [Hs Hle]. simpl in Hn. apply NoDup_cons in Hn as [Hfn Hn].
  destruct (fn_start fn <=? a) eqn:E; bool_prop.
  - intros Ho. assert (Hnew : fn_start fn ∉ active.*1) by (apply Hfresh; set_solver).
    apply IH in Ho as (Ht' & opened & -> & Hop & Hp & Ha); [| done | done | | by apply tracks_open_one].
    + split; [done|]. exists (fn :: opened). split; [done|]. split; [by constructor|]. split; [done|].
      intros k g. rewrite Ha, active_set_fresh by done. rewrite elem_of_app, list_elem_of_singleton, elem_of_cons.
      naive_solver.
    + intros g Hg. rewrite active_set_fresh by done. rewrite fmap_app, elem_of_app. simpl.
      intros [Hin|Heq%list_elem_of_singleton].
      * by apply (Hfresh g); [apply elem_of_cons; right|].
      * apply Hfn, list_elem_of_fmap. by exists g.
  - intros [= <- <- <-]. split; [done|]. exists []. split; [done|]. split; [constructor|]. split; [|set_solver].
    constructor; [done|]. eapply Forall_impl; [exact Hle|]. intros g. unfold function_le. lia.
Qed.

(** ** The bodies *)
Lemma append_instructions ins by_addr starts :
  NoDup starts ->
  foldl (append_instruction ins) by_addr starts =
  (fun kv => if bool_decide (kv.1 ∈ starts) then (kv.1, set_instructions (fn_instructions kv.2 ++ [ins]) kv.2) else kv)
    <$> by_addr.
Proof.
  revert by_addr. induction starts as [|k starts IH]; intros by_addr Hn; simpl.
  { induction by_addr as [|kv l IHl]; [done|]. rewrite fmap_cons. by rewrite <- IHl. }
  apply NoDup_cons in Hn as [Hk Hn]. rewrite IH by done. unfold append_instruction.
  rewrite <- list_fmap_compose. apply list_fmap_ext. intros _ [k' fn] _. simpl.
  destruct (k' =? k) eqn:E; bool_prop; simpl.
  - subst k'. rewrite (bool_decide_eq_false_2 (k ∈ starts)), bool_decide_eq_true_2 by set_solver. done.
  - assert (Hiff : k' ∈ k :: starts <-> k' ∈ starts) by set_solver.
    by rewrite (bool_decide_ext _ _ Hiff).
Qed.

(** The loop invariant: the functions opened so far are active until they end. *)
Record swept (by_addr : functions) (last : Z) (seen : list instruction) (st : sweep) : Prop := {
  sp_functions : sw_functions st = (fun kv => (kv.1, set_instructions
      (fn_instructions kv.2 ++ List.filter (in_extent kv.2) seen) kv.2)) <$> by_addr;
  sp_tracks : tracks (sw_active st) (sw_endings st);
  sp_opened : exists opened, sort_by function_le (snd <$> by_addr) = opened ++ sw_pending st /\
    (forall k fn, (k, fn) ∈ sw_active st -> fn ∈ opened /\ k = fn_start fn) /\
    (forall fn, fn ∈ opened -> fn_start fn <= last /\ ((fn_start fn, fn) ∈ sw_active st \/ fn_end fn <= last))
}.

Lemma keyed_sorted by_addr :
  keyed by_addr -> NoDup (fn_start <$> sort_by function_le (snd <$> by_addr)).
Proof.
  intros [Hn Hk]. rewrite sort_by_perm, <- list_fmap_compose.
  assert (E : (fn_start ∘ snd) <$> by_addr = by_addr.*1); [|by rewrite E].
  apply list_fmap_ext. intros i [k fn] Hi. simpl. symmetry. apply Hk. by eapply list_elem_of_lookup_2.
Qed.

Lemma keyed_unique by_addr fn g :
  keyed by_addr -> (fn_start fn, fn) ∈ by_addr -> g ∈ sort_by function_le (snd <$> by_addr) ->
  fn_start fn = fn_start g -> fn = g.
Proof.
  intros [Hn Hk] Hfn Hg E. apply elem_of_sort_by, list_elem_of_fmap in Hg as ([k h] & -> & Hin).
  pose proof (Hk _ _ Hin) as ->. simpl in *. rewrite <- E in Hin. by eapply nodup_keys_functional.
Qed.

Lemma sweep_step_swept by_addr last seen st ins :
  keyed by_addr -> last <= ins_address ins -> swept by_addr last seen st ->
  swept by_addr (ins_address ins) (seen ++ [ins]) (sweep_step st ins).
Proof.
  intros Hkeyed Hle [Hfns Htr (opened & Hsort & Hact & Hop)].
  pose proof (keyed_sorted _ Hkeyed) as Hn. rewrite Hsort, fmap_app, NoDup_app in Hn.
  destruct Hn as (Hn1 & Hn12 & Hn2).
  pose proof (sort_by_sorted function_le (snd <$> by_addr)) as Hss. rewrite Hsort in Hss.
  apply StronglySorted_app in Hss as (_ & _ & Hss).
  unfold sweep_step. set (a := ins_address ins) in *.
  destruct (open_functions _ _ _ _) as [[pending active] endings] eqn:Eo.
  apply tracks_open in Eo as (Htr2 & newly & Hpend & Hnew & Hlater & Hact2); [|done|done| |done].
  2:{ intros fn Hfn ([k g] & E & [? ->]%Hact)%list_elem_of_fmap. simpl in E.
      apply (Hn12 (fn_start fn)); [rewrite E|]; by apply list_elem_of_fmap_2. }
  destruct (close_functions _ _ _) as [active' endings'] eqn:Ec.
  apply tracks_close in Ec as [Htr3 Hact3]; [|done]. cbn [sw_functions].
  rewrite Forall_forall in Hnew, Hlater.
  split; cbn [sw_functions sw_active sw_endings sw_pending]; [|done|].
  - rewrite append_instructions by (apply nodup_keys_filter; apply Htr3). rewrite Hfns, <- list_fmap_compose.
    apply list_fmap_ext. intros i [k fn] Hi%list_elem_of_lookup_2. simpl.
    rewrite List.filter_app. simpl. pose proof (keyed_start _ Hkeyed _ _ Hi) as ->.
    assert (Hin : fn_start fn ∈ (List.filter (fun kv => a <? fn_end kv.2) active').*1 <-> in_extent fn ins = true).
    { unfold in_extent. fold a. rewrite andb_true_iff, Z.leb_le, Z.ltb_lt. split.
      - intros ([k g] & E & [[Hg ?]%Hact3 _]%elem_of_filterb)%list_elem_of_fmap; simpl in *; subst k.
        assert (Hg' : g ∈ opened ++ newly /\ fn_start fn = fn_start g /\ fn_start g <= a).
        { apply Hact2 in Hg as [Hg|[Hg ->]]; rewrite elem_of_app; [|by auto].
          apply Hact in Hg as [Hg ->]. pose proof (Hop _ Hg) as []. split; [by left|]. split; [done|lia]. }
        destruct Hg' as (Hg' & E & ?). rewrite (keyed_unique _ fn g Hkeyed); [done|done| |done].
        rewrite Hsort, Hpend, (assoc_L (++)). by apply elem_of_app; left.
      - intros [Hs Hend]. apply list_elem_of_fmap. exists (fn_start fn, fn). split; [done|].
        apply elem_of_filterb. simpl. rewrite Z.ltb_lt. split; [|done]. apply Hact3. split; [|done]. apply Hact2.
        assert (Hfn : fn ∈ sort_by function_le (snd <$> by_addr)).
        { apply elem_of_sort_by, list_elem_of_fmap. by exists (fn_start fn, fn). }
        rewrite Hsort, Hpend, !elem_of_app in Hfn. destruct Hfn as [Hfn|[Hfn|Hfn]]; [| by right |].
        + left. destruct (Hop _ Hfn) as [_ [?|?]]; [done|lia].
        + apply Hlater in Hfn. lia. }
    destruct (in_extent fn ins) eqn:E; [rewrite bool_decide_eq_true_2 by tauto|rewrite bool_decide_eq_false_2 by naive_solver].
    + by rewrite (assoc_L (++)).
    + by rewrite app_nil_r.
  - exists (opened ++ newly). split; [by rewrite <- (assoc_L (++)), <- Hpend|]. split.
    + intros k fn [[Hin|[Hin ->]]%Hact2 _]%Hact3; rewrite elem_of_app; [|by split; [right|]].
      apply Hact in Hin as []. by split; [left|].
    + intros fn [Hin|Hin]%elem_of_app.
      * apply Hop in Hin as Hin'. destruct Hin' as [? Hin']. split; [lia|]. destruct (decide (fn_end fn <= a)); [by right|left].
        destruct Hin' as [Hin'|]; [|lia]. apply Hact3. split; [|lia]. apply Hact2. by left.
      * split; [by apply Hnew|]. destruct (decide (fn_end fn <= a)); [by right|left].
        apply Hact3. split; [|lia]. apply Hact2. by right.
Qed.

Lemma sweep_swept by_addr last seen st l :
  keyed by_addr -> StronglySorted address_order l -> (forall ins, ins ∈ l -> last <= ins_address ins) ->
  swept by_addr last seen st ->
  exists last', swept by_addr last' (seen ++ l) (foldl sweep_step st l).
Proof.
  intros Hk. revert last seen st. induction l as [|ins l IH]; intros last seen st Hs Hle Hsw; simpl.
  { exists last. by rewrite app_nil_r. }
  apply StronglySorted_inv in Hs as [Hs Hmin]. rewrite Forall_forall in Hmin.
  rewrite (cons_middle ins seen l), (assoc_L (++)). eapply IH; [done| |].
  - intros ins' Hin. by apply Hmin.
  - eapply sweep_step_swept; [done| |done]. apply Hle, elem_of_cons. by left.
Qed.

Lemma sweep_start by_addr last :
  swept by_addr last [] (Sweep (sort_by function_le (snd <$> by_addr)) [] [] by_addr).
Proof.
  split; simpl.
  - induction by_addr as [|[k fn] l IH]; [done|]. rewrite fmap_cons, <- IH. by destruct fn; simpl; rewrite app_nil_r.
  - split; [constructor..|]. intros e k. split; [by intros ?%elem_of_nil|by intros (? & ?%elem_of_nil & _)].
  - exists []. split; [done|]. split; [by intros ?? ?%elem_of_nil|by intros ? ?%elem_of_nil].
Qed.

Lemma attach_swept decoded by_addr :
  keyed by_addr -> attach decoded by_addr = attach_reference decoded by_addr.
Proof.
  intros Hk. unfold attach, attach_reference, sort_bodies.
  pose proof (sort_by_sorted address_order decoded) as Hs. set (l := sort_by address_order decoded) in *.
  assert (exists last, forall ins, ins ∈ l -> last <= ins_address ins) as [last Hlast].
  { destruct l as [|ins l']; [exists 0; by intros ? ?%elem_of_nil|]. exists (ins_address ins).
    apply StronglySorted_inv in Hs as [_ Hmin]. rewrite Forall_forall in Hmin.
    intros ins' [->|?]%elem_of_cons; [done|]. by apply Hmin. }
  destruct (sweep_swept by_addr last [] _ l Hk Hs Hlast (sweep_start by_addr last)) as [last' [-> _ _]].
  rewrite <- list_fmap_compose. apply list_fmap_ext. intros _ [k fn] _. done.
Qed.

(** ** Symbols *)
Lemma parse_symbols_keyed alnum text : keyed (parse_symbols alnum text).1.
Proof.
  unfold parse_symbols. simpl. set (rows := omap _ _).
  destruct (group_by_grouped fst rows) as (Hn & _). split.
  - rewrite <- list_fmap_compose. by erewrite list_fmap_ext; [exact Hn|].
  - intros k fn ([k' g] & [= -> ->] & _)%list_elem_of_fmap. done.
Qed.

Lemma parse_symbols_fresh alnum text k fn :
  (k, fn) ∈ (parse_symbols alnum text).1 -> fn_instructions fn = [].
Proof. unfold parse_symbols. simpl. by intros ([k' g] & [= -> ->] & _)%list_elem_of_fmap. Qed.

Lemma sort_by_id {A} (R : relation A) `{!forall x y, Decision (R x y)} l :
  StronglySorted R l -> sort_by R l = l.
Proof.
  induction l as [|x l IH]; simpl; [done|]. intros [Hs Hx]%StronglySorted_inv.
  unfold sort_by in *. rewrite IH by done. destruct l as [|y l]; simpl; [done|].
  rewrite decide_True; [done|]. by apply Forall_cons in Hx as [].
Qed.

Lemma filter_sorted {A} (R : relation A) (p : A -> bool) l :
  StronglySorted R l -> StronglySorted R (List.filter p l).
Proof.
  induction 1 as [|x l Hs IH Hx]; simpl; [constructor|]. destruct (p x); [|done]. constructor; [done|].
  rewrite Forall_forall in *. intros y [Hy _]%elem_of_filterb. by apply Hx.
Qed.

(** C30: the single sweep over sorted instructions and symbol extents, with its
    active set and its heap of ends, gives every function of a symbol listing
    exactly the decoded instructions whose addresses lie in its extent, in address
    order: the same as filtering all of them for each function, aliases and
    overlapping extents included. *)
Theorem parse_disassembly_exact alnum symbols text :
  let decoded := omap (decode_line alnum) (split_lines (codepoints text)) in
  parse_disassembly alnum text (parse_symbols alnum symbols).1 =
  (fun kv => (kv.1, set_instructions
     (List.filter (in_extent kv.2) (sort_by address_order decoded)) kv.2)) <$> (parse_symbols alnum symbols).1.
Proof.
  intros decoded. unfold parse_disassembly. rewrite attach_swept by apply parse_symbols_keyed.
  apply list_fmap_ext. intros i [k fn] Hi%list_elem_of_lookup_2. simpl.
  rewrite (parse_symbols_fresh _ _ _ _ Hi). simpl. fold decoded.
  rewrite sort_by_id; [done|]. apply filter_sorted, sort_by_sorted; apply _.
Qed.
