(* ===== verification/Iterate.v ===== *)
(** * [while] loops

    [step] is one iteration: [inl] goes on, [inr] leaves the loop. [iterate d]
    runs up to [2 ^ d] iterations, so a bound on the iterations that is far too
    large for a unary number still evaluates. *)
From S2P Require Import Prelude.

Section iterate.
Context {S R : Type} (step : S -> S + R).

Fixpoint iterate (d : nat) (s : S) : S + R :=
  match d with
  | O => step s
  | Datatypes.S d =>
      match iterate d s with
      | inl s' => iterate d s'
      | inr r => inr r
      end
  end.

(** The result of a loop that ends within the bound. *)
Definition run_loop (d : nat) (s : S) : option R :=
  match iterate d s with inl _ => None | inr r => Some r end.

(** The loop rule. *)
Lemma iterate_inv (I : S -> Prop) (P : R -> Prop) d s :
  (forall s s', I s -> step s = inl s' -> I s') ->
  (forall s r, I s -> step s = inr r -> P r) ->
  I s -> match iterate d s with inl s' => I s' | inr r => P r end.
Proof.
  intros Hstep Hend. revert s. induction d as [|d IH]; intros s Hs; simpl.
  - destruct (step s) eqn:E; eauto.
  - specialize (IH s Hs) as Hd. destruct (iterate d s); [by apply IH|done].
Qed.

Lemma run_loop_inv (I : S -> Prop) (P : R -> Prop) d s r :
  (forall s s', I s -> step s = inl s' -> I s') ->
  (forall s r, I s -> step s = inr r -> P r) ->
  I s -> run_loop d s = Some r -> P r.
Proof.
  intros H1 H2 Hs. pose proof (iterate_inv I P d s H1 H2 Hs) as H. unfold run_loop.
  destruct (iterate d s); [done|]. by intros [= <-].
Qed.

(** A measure that every iteration decreases bounds the iterations. *)
Lemma iterate_measure (I : S -> Prop) (m : S -> Z) d s :
  (forall s s', I s -> step s = inl s' -> I s' /\ 0 <= m s' < m s) -> I s ->
  match iterate d s with inl s' => I s' /\ 0 <= m s' /\ m s' + 2 ^ Z.of_nat d <= m s | inr _ => True end.
Proof.
  intros Hstep. revert s. induction d as [|d IH]; intros s Hs; cbn [iterate].
  - destruct (step s) as [s'|] eqn:E; [|done]. destruct (Hstep _ _ Hs E). rewrite Z.pow_0_r. split; [done|lia].
  - specialize (IH s Hs) as Hd. destruct (iterate d s) as [s'|]; [|done]. destruct Hd as (Hs' & ? & ?).
    specialize (IH s' Hs'). destruct (iterate d s'); [|done]. destruct IH as (? & ? & ?).
    rewrite Nat2Z.inj_succ, Z.pow_succ_r by lia. split; [done|lia].
Qed.

Lemma run_loop_total (I : S -> Prop) (m : S -> Z) d s :
  (forall s s', I s -> step s = inl s' -> I s' /\ 0 <= m s' < m s) -> I s ->
  m s < 2 ^ Z.of_nat d -> is_Some (run_loop d s).
Proof.
  intros Hstep Hs Hd. pose proof (iterate_measure I m d s Hstep Hs) as H. unfold run_loop.
  destruct (iterate d s); [|done]. destruct H as (_ & ? & ?). lia.
Qed.
End iterate.

(** A depth that is enough for [n] iterations. *)
Definition depth_for (n : Z) : nat := Z.to_nat (Z.log2_up (n + 1)).
Lemma depth_for_enough n : 0 <= n -> n < 2 ^ Z.of_nat (depth_for n).
Proof.
  intros Hn. unfold depth_for. rewrite Z2Nat.id by apply Z.log2_up_nonneg.
  destruct (decide (n = 0)) as [->|]; [done|]. pose proof (Z.log2_up_spec (n + 1)). lia.
Qed.
