(* ===== verification/StackFrame.v ===== *)
(** * The stack frame of one function

    [stack_step], [successors], [analyze_frame] and [call_sites] of
    [Tools/EmbeddedApplicationMacros/first_init_stack.py]. Every message of an
    unresolved observation is a constructor of [frame_issue]. *)
From S2P Require Import Prelude PyValue PyText PyRegex PyFiles PyInt Disassembly Iterate.

(** ** Registers and operands *)
Definition ABI_REGS : list string :=
  ["zero"; "ra"; "sp"; "gp"; "tp"; "t0"; "t1"; "t2"; "s0"; "s1"; "a0"; "a1"; "a2"; "a3"; "a4"; "a5";
   "a6"; "a7"; "s2"; "s3"; "s4"; "s5"; "s6"; "s7"; "s8"; "s9"; "s10"; "s11"; "t3"; "t4"; "t5"; "t6"].
(** [f"x{index}"] *)
Definition numbered_regs : list string :=
  ["x0"; "x1"; "x2"; "x3"; "x4"; "x5"; "x6"; "x7"; "x8"; "x9"; "x10"; "x11"; "x12"; "x13"; "x14"; "x15";
   "x16"; "x17"; "x18"; "x19"; "x20"; "x21"; "x22"; "x23"; "x24"; "x25"; "x26"; "x27"; "x28"; "x29"; "x30"; "x31"].
Definition REG_ALIASES : list (string * string) := zip numbered_regs ABI_REGS.

Definition reg (value : string) : string :=
  let value := strip_text value in default value (dict_get value REG_ALIASES).

(** [[part.strip() for part in ins.operands.split(",")]], which is never empty. *)
Definition operand_parts (ins : instruction) : list string := strip_text <$> split_on comma (ins_operands ins).
Definition part (i : nat) (parts : list string) : string := nth i parts "".
Definition is_mnemonic (ins : instruction) (names : list string) : bool := bool_decide (ins_mnemonic ins ∈ names).
Definition is_reg (name value : string) : bool := String.eqb (reg value) name.

(** The stack pointer delta: [None] for an unsupported write. *)
Definition stack_step (ins : instruction) : option Z :=
  let parts := operand_parts ins in
  if negb (is_reg "sp" (part 0 parts)) then Some 0
  else if is_mnemonic ins ["c.addi"; "c.addi16sp"] && Nat.eqb (length parts) 2
  then int_literal (codepoints (part 1 parts))
  else if is_mnemonic ins ["addi"; "c.addi"; "c.addi16sp"] && Nat.eqb (length parts) 3 && is_reg "sp" (part 1 parts)
  then int_literal (codepoints (part 2 parts))
  else None.

Definition BRANCHES : list string :=
  ["beq"; "bne"; "blt"; "bge"; "bltu"; "bgeu"; "beqz"; "bnez"; "blez"; "bgez"; "bltz"; "bgtz"; "c.beqz"; "c.bnez"].
Definition RETURNS : list string := ["ret"; "c.ret"].
Definition UNCOND_JUMPS : list string := ["j"; "c.j"].
Definition SYSTEM_TRAPS : list string := ["ecall"; "ebreak"; "c.ebreak"; "wfi"; "unimp"; "mret"; "sret"].
Definition SUPPORTED_LINEAR : list string := split_on (Ascii.ascii_of_N 32)
  "add addi and andi auipc div divu fence li lui mul mulh mulhsu mulhu mv neg nop not or ori rem remu seqz sgtz sll slli slt slti sltiu sltu snez sra srai srl srli sub xor xori zext.b lb lbu lh lhu lw sb sh sw csrr csrrc csrrci csrrs csrrsi csrw csrci csrsi amoadd.w amoadd.w.aqrl amoand.w.aqrl amoor.w.aqrl lr.w lr.w.aq sc.w sc.w.rl c.addi c.addi16sp c.li c.lui c.mv c.add c.nop c.lw c.sw c.lwsp c.swsp c.li c.slli c.srli c.srai c.andi c.sub c.xor c.or c.and c.addi4spn c.zext.b c.sext.b c.zext.h c.sext.h c.zext.w c.not c.neg".

(** ** Control flow inside a function *)
Inductive flow_problem :=
  | SystemTrap
  | UnresolvedJump
  | BranchTargetAbsent (target : option Z)
  | BranchFallthrough
  | UnprovenContinuation
  | IndirectTransfer
  | IndirectTail
  | UnsupportedLink (rd : string)
  | CallTargetMissing
  | CallFallthrough
  | IndirectCall
  | UnsupportedSemantics (mnemonic : string)
  | MissingFallthrough.
#[export] Instance flow_problem_eq_dec : EqDecision flow_problem.
Proof. solve_decision. Defined.

(** Successor addresses, whether the function is left, and a problem. *)
Abbreviation flow := (list Z * bool * option flow_problem)%type.

Definition link_register (ins : instruction) : string :=
  let args := operand_parts ins in
  if Nat.ltb 1 (length args) then reg (part 0 args) else "ra".

Section frame.
Context (body : list instruction).

Definition starts : list Z := ins_address <$> body.
Definition in_starts (a : option Z) : bool :=
  match a with Some a => bool_decide (a ∈ starts) | None => false end.

(** The address of the next instruction, when it follows without a gap. *)
Definition next_address (index : nat) (ins : instruction) : option Z :=
  match body !! S index with
  | Some next => if ins_address next =? ins_address ins + ins_size ins then Some (ins_address next) else None
  | None => None
  end.

Definition fall_through (next : option Z) (problem : flow_problem) : flow :=
  match next with
  | Some a => if in_starts next then ([a], false, None) else ([], false, Some problem)
  | None => ([], false, Some problem)
  end.

Definition unresolved_jump (target : option Z) : option flow_problem :=
  match target with Some _ => None | None => Some UnresolvedJump end.
(** [[target] if target in starts else []] *)
Definition inside (target : option Z) : list Z :=
  match target with Some t => if in_starts target then [t] else [] | None => [] end.

Definition successors (index : nat) (ins : instruction) : flow :=
  let next := next_address index ins in
  let target := ins_target ins in
  let is_jr := is_mnemonic ins ["jr"; "c.jr"] in
  let rd := link_register ins in
  if is_mnemonic ins RETURNS || is_jr && is_reg "ra" (ins_operands ins) then ([], true, None)
  else if is_mnemonic ins SYSTEM_TRAPS then ([], false, Some SystemTrap)
  else if is_mnemonic ins UNCOND_JUMPS then
    if in_starts target then (inside target, false, None) else ([], true, unresolved_jump target)
  else if is_mnemonic ins BRANCHES then
    match target, next with
    | Some t, Some n =>
        if negb (in_starts target) then ([], false, Some (BranchTargetAbsent target))
        else if negb (in_starts next) then ([], false, Some BranchFallthrough)
        else ([t; n], false, None)
    | Some _, None =>
        if negb (in_starts target) then ([], false, Some (BranchTargetAbsent target))
        else ([], false, Some BranchFallthrough)
    | None, _ => ([], false, Some (BranchTargetAbsent None))
    end
  else if is_jr && is_reg "t0" (ins_operands ins) then ([], true, None)
  else if is_jr then ([], false, Some IndirectTransfer)
  else if is_mnemonic ins ["jal"; "c.jal"] then
    if String.eqb rd "zero" then (inside target, false, unresolved_jump target)
    else if negb (bool_decide (rd ∈ ABI_REGS)) then ([], false, Some (UnsupportedLink rd))
    else match target with
         | None => ([], false, Some CallTargetMissing)
         | Some _ => fall_through next CallFallthrough
         end
  else if is_mnemonic ins ["jalr"] then
    if String.eqb rd "zero" then ([], false, Some IndirectTail)
    else match target with
         | None => ([], false, Some IndirectCall)
         | Some _ => fall_through next CallFallthrough
         end
  else if negb (is_mnemonic ins SUPPORTED_LINEAR) then ([], false, Some (UnsupportedSemantics (ins_mnemonic ins)))
  else fall_through next MissingFallthrough.

(** ** [analyze_frame] *)
Inductive frame_issue :=
  | MissingBody (start : Z)
  | DuplicateAddress (start : Z)
  | FirstNotAtSymbol (start : Z)
  | Gap (left right : Z)
  | LinkRegisterWrite (pc : Z) (text : string)
  | UnsupportedStackWrite (pc : Z) (text : string)
  | StackPointerWrite (pc : Z) (text : string)
  | Flow (pc : Z) (problem : flow_problem) (text : string)
  | UnbalancedReturn (pc delta : Z)
  | StackCycle (pc target after earlier : Z)
  | NoReturnPath (start : Z).
#[export] Instance frame_issue_eq_dec : EqDecision frame_issue.
Proof. solve_decision. Defined.

(** [index_by_pc]: of several instructions at one address, the last one. *)
Fixpoint index_in (pc : Z) (l : list instruction) : option nat :=
  match l with
  | [] => None
  | ins :: l => match index_in pc l with
                | Some n => Some (S n)
                | None => if ins_address ins =? pc then Some O else None
                end
  end.
Definition index_by_pc (pc : Z) : option nat := index_in pc body.

Definition writes_ra (ins : instruction) : bool :=
  let ra := is_reg "ra" (part 0 (operand_parts ins)) in
  is_mnemonic ins ["jal"; "jalr"; "c.jal"] && (ra || is_mnemonic ins ["c.jal"])
  || ra && negb (is_mnemonic ins (BRANCHES ++ UNCOND_JUMPS ++ RETURNS
                                  ++ ["jr"; "c.jr"; "sw"; "sh"; "sb"; "c.sw"; "c.swsp"])).

(** A work item: address, delta, and the path that led to it, the latest first. *)
Abbreviation config := (Z * Z)%type.
Record frame_state := FrameState {
  fs_work : list (config * list config);
  fs_seen : list config;
  fs_exits : Z;
  fs_min_delta : Z;
  fs_issues : list frame_issue
}.

(** The loop over the successors: the new work, and the stack-changing cycles. *)
Definition push_successor (pc after : Z) (path : list config)
    (acc : list (config * list config) * list frame_issue) (next_pc : Z) :
    list (config * list config) * list frame_issue :=
  let '(work, issues) := acc in
  match List.find (fun c => c.1 =? next_pc) path with
  | Some (_, earlier) =>
      (work, if earlier =? after then issues else issues ++ [StackCycle pc next_pc after earlier])
  | None => (((next_pc, after), (next_pc, after) :: path) :: work, issues)
  end.

Definition flow_of (linkreg_return : bool) (index : nat) (ins : instruction) : flow :=
  if is_mnemonic ins ["jr"; "c.jr"] && is_reg "t0" (ins_operands ins) && negb linkreg_return
  then ([], false, Some UnprovenContinuation)
  else successors index ins.

(** The part of an iteration after the [seen] test. *)
Definition visit (linkreg_return : bool) (index : nat) (ins : instruction) (pc delta : Z) (path : list config)
    (st : frame_state) : frame_state :=
  let issues := fs_issues st ++ (if writes_ra ins then [LinkRegisterWrite pc (ins_text ins)] else []) in
  match stack_step ins with
  | None => FrameState (fs_work st) (fs_seen st) (fs_exits st) (fs_min_delta st)
              (issues ++ [UnsupportedStackWrite pc (ins_text ins)])
  | Some change =>
      let after := delta + change in
      let min_delta := Z.min (fs_min_delta st) after in
      if is_reg "sp" (part 0 (operand_parts ins)) && negb (is_mnemonic ins ["addi"; "c.addi"; "c.addi16sp"])
      then FrameState (fs_work st) (fs_seen st) (fs_exits st) min_delta (issues ++ [StackPointerWrite pc (ins_text ins)])
      else
        let '(succ, is_exit, problem) := flow_of linkreg_return index ins in
        let issues := issues ++ (match problem with Some p => [Flow pc p (ins_text ins)] | None => [] end)
                             ++ (if is_exit && negb (after =? 0) then [UnbalancedReturn pc after] else []) in
        let '(work, issues) := foldl (push_successor pc after path) (fs_work st, issues) succ in
        FrameState work (fs_seen st) (fs_exits st + (if is_exit then 1 else 0)) min_delta issues
  end.

(** One iteration of [while work]; [inr None] is a [KeyError]. *)
Definition frame_step (linkreg_return : bool) (st : frame_state) : frame_state + option frame_state :=
  match fs_work st with
  | [] => inr (Some st)
  | ((pc, delta), path) :: work =>
      if bool_decide ((pc, delta) ∈ fs_seen st)
      then inl (FrameState work (fs_seen st) (fs_exits st) (fs_min_delta st) (fs_issues st))
      else
        match index_by_pc pc with
        | None => inr None
        | Some index =>
            match body !! index with
            | None => inr None
            | Some ins =>
                inl (visit linkreg_return index ins pc delta path
                       (FrameState work ((pc, delta) :: fs_seen st) (fs_exits st) (fs_min_delta st) (fs_issues st)))
            end
        end
  end.

Record frame_report := FrameReport {
  fr_frame_bytes : option Z;
  fr_min_delta : option Z;
  fr_unresolved : list frame_issue;
  fr_exits : Z
}.

Definition layout_issues (start : Z) : list frame_issue :=
  (if bool_decide (NoDup starts) then [] else [DuplicateAddress start])
  ++ match body with
     | first :: _ => if ins_address first =? start then [] else [FirstNotAtSymbol start]
     | [] => []
     end
  ++ omap (fun pair => if ins_address pair.1 + ins_size pair.1 =? ins_address pair.2 then None
                       else Some (Gap (ins_address pair.1) (ins_address pair.2))) (zip body (tail body)).

(** A bound on the iterations: there are as many addresses as instructions, and
    the delta of a path without repeated addresses moves by at most the largest
    step at each of them; every new configuration pushes two more. *)
Definition largest_step : Z :=
  foldr (fun ins => Z.max (match stack_step ins with Some c => Z.abs c | None => 0 end)) 0 body.
Definition config_bound : Z :=
  let n := Z.of_nat (length body) in n * (2 * (n * largest_step) + 1).

Definition analyze_frame (start : Z) (linkreg_return : bool) : option frame_report :=
  match body with
  | [] => Some (FrameReport None None [MissingBody start] 0)
  | first :: _ =>
      let entry := (ins_address first, 0) in
      st ← run_loop (frame_step linkreg_return) (depth_for (3 * config_bound + 1))
             (FrameState [(entry, [entry])] [] 0 0 (layout_issues start));
      st ← st;
      Some (FrameReport (if fs_min_delta st <=? 0 then Some (- fs_min_delta st) else None)
              (Some (fs_min_delta st))
              (fs_issues st ++ (if fs_exits st =? 0 then [NoReturnPath start] else []))
              (fs_exits st))
  end.
End frame.

(** ** [call_sites] *)
Inductive call_kind := Call | OutlinedLink | TailCall | TailTransfer.
#[export] Instance call_kind_eq_dec : EqDecision call_kind.
Proof. solve_decision. Defined.

Definition linked_call (ins : instruction) : option (instruction * option Z * call_kind) :=
  if is_mnemonic ins ["jal"; "c.jal"; "jalr"] then
    let rd := link_register ins in
    Some (ins, ins_target ins,
      if String.eqb rd "zero" then match ins_target ins with Some _ => TailCall | None => TailTransfer end
      else if String.eqb rd "ra" then Call else OutlinedLink)
  else None.

Definition outside_jump (fn : function) (ins : instruction) : option (instruction * option Z * call_kind) :=
  match ins_target ins with
  | Some t => if is_mnemonic ins UNCOND_JUMPS && negb ((fn_start fn <=? t) && (t <? fn_end fn))
              then Some (ins, Some t, TailCall) else None
  | None => None
  end.

Definition call_sites (fn : function) : list (instruction * option Z * call_kind) :=
  omap linked_call (fn_instructions fn) ++ omap (outside_jump fn) (fn_instructions fn).
