(* ===== verification/FrameTheorems.v ===== *)
(** * The frame analysis terminates, and a clean report is the exact frame *)
From S2P Require Import Prelude PyValue PyText PyInt Disassembly Iterate StackFrame.

Abbreviation config := (Z * Z)%type.

Section frame.
Context (body : list instruction) (linkreg : bool).

(** ** The paths of a function *)
Definition at_pc (pc : Z) (i : nat) (ins : instruction) : Prop :=
  index_by_pc body pc = Some i /\ body !! i = Some ins.

(** Leaving the function, the successors, and what prevents following them. *)
Definition leaves (i : nat) (ins : instruction) : bool := (flow_of body linkreg i ins).1.2.
Definition targets (i : nat) (ins : instruction) : list Z := (flow_of body linkreg i ins).1.1.
Definition trouble (i : nat) (ins : instruction) : option flow_problem := (flow_of body linkreg i ins).2.

(** One instruction: the delta moves by its step, control goes to a successor. *)
Definition flows (a b : config) : Prop :=
  exists i ins change, at_pc a.1 i ins /\ stack_step ins = Some change /\ b.2 = a.2 + change /\
    b.1 ∈ targets i ins.
Definition reachable (entry : Z) (c : config) : Prop := rtc flows (entry, 0) c.

(** [c] executes [ins], which leaves the stack pointer at delta [after]. *)
Definition executes (c : config) (i : nat) (ins : instruction) (after : Z) : Prop :=
  at_pc c.1 i ins /\ exists change, stack_step ins = Some change /\ after = c.2 + change.

(** ** Successors *)
Lemma index_in_lookup pc (l : list instruction) i :
  index_in pc l = Some i -> exists ins, l !! i = Some ins /\ ins_address ins = pc.
Proof.
  revert i. induction l as [|ins l IH]; intros i; simpl; [done|].
  destruct (index_in pc l) as [n|]; [intros [= <-]; by apply IH|].
  destruct (ins_address ins =? pc) eqn:E; [|done]. intros [= <-]. bool_prop. by exists ins.
Qed.

Lemma index_in_total pc (l : list instruction) : pc ∈ ins_address <$> l -> is_Some (index_in pc l).
Proof.
  induction l as [|ins l IH]; simpl; [by intros ?%elem_of_nil|].
  intros [->|Hin]%elem_of_cons; destruct (index_in _ l); eauto.
  - rewrite Z.eqb_refl. eauto.
  - by destruct (IH Hin).
Qed.

Lemma at_pc_total pc : pc ∈ starts body -> exists i ins, at_pc pc i ins.
Proof.
  intros [i Hi]%index_in_total. destruct (index_in_lookup _ _ _ Hi) as (ins & ? & _). by exists i, ins.
Qed.

Lemma in_starts_elem a : in_starts body (Some a) = true -> a ∈ starts body.
Proof. apply bool_decide_eq_true. Qed.

Lemma fall_through_bounds next p :
  Forall (fun a => a ∈ starts body) (fall_through body next p).1.1 /\
  (length (fall_through body next p).1.1 <= 2)%nat.
Proof.
  destruct next as [a|]; simpl; [|by split; [constructor|lia]]. destruct (bool_decide _) eqn:E; simpl.
  - split; [|lia]. bool_prop. by repeat constructor.
  - by split; [constructor|lia].
Qed.

Lemma inside_bounds target :
  Forall (fun a => a ∈ starts body) (inside body target) /\ (length (inside body target) <= 2)%nat.
Proof.
  destruct target as [a|]; simpl; [|by split; [constructor|lia]].
  destruct (bool_decide _) eqn:E; simpl; [|by split; [constructor|lia]]. bool_prop.
  by split; [repeat constructor|lia].
Qed.

Lemma successors_bounds i ins :
  Forall (fun a => a ∈ starts body) (flow_of body linkreg i ins).1.1 /\
  (length (flow_of body linkreg i ins).1.1 <= 2)%nat.
Proof.
  assert (H0 : Forall (fun a => a ∈ starts body) [] /\ (0 <= 2)%nat) by (split; [constructor|lia]).
  unfold flow_of, successors. repeat case_match; simpl;
    try exact H0; try apply inside_bounds; try apply fall_through_bounds.
  bool_prop. split; [|lia]. repeat constructor; by apply in_starts_elem.
Qed.

(** ** One iteration *)
Lemma push_successors pc after path succ work issues :
  exists new more,
    foldl (push_successor pc after path) (work, issues) succ = (new ++ work, issues ++ more) /\
    (length new <= length succ)%nat /\
    (forall c p, (c, p) ∈ new -> exists n, n ∈ succ /\ n ∉ path.*1 /\ c = (n, after) /\ p = c :: path) /\
    (more = [] -> forall n, n ∈ succ -> ((n, after) ∈ path \/ (n, after) ∈ new.*1)) /\
    (forall issue, issue ∈ more -> exists t e, issue = StackCycle pc t after e).
Proof.
  revert work issues. induction succ as [|n succ IH]; intros work issues; simpl.
  { exists [], []. rewrite app_nil_r. repeat split; set_solver. }
  destruct (List.find (fun c => c.1 =? n) path) as [[n' earlier]|] eqn:E.
  - apply List.find_some in E as [Hin%list_elem_of_In E]. simpl in E. bool_prop. subst n'.
    destruct (earlier =? after) eqn:Ea; bool_prop.
    + subst earlier. destruct (IH work issues) as (new & more & -> & ? & Hnew & Hsucc & ?).
      exists new, more. split; [done|]. split; [simpl; lia|]. split; [|split; [|done]].
      * intros c p Hcp. destruct (Hnew _ _ Hcp) as (m & ? & ?). exists m. split; [by right|done].
      * intros Hm m [->|Hm']%elem_of_cons; [by left|by apply Hsucc].
    + destruct (IH work (issues ++ [StackCycle pc n after earlier])) as (new & more & -> & ? & Hnew & _ & Hmore).
      exists new, (StackCycle pc n after earlier :: more). rewrite <- (assoc_L (++)).
      split; [done|]. split; [simpl; lia|]. split; [|split; [done|]].
      * intros c p Hcp. destruct (Hnew _ _ Hcp) as (m & ? & ?). exists m. split; [by right|done].
      * intros issue [->|?]%elem_of_cons; [eauto|by apply Hmore].
  - destruct (IH (((n, after), (n, after) :: path) :: work) issues) as (new & more & -> & ? & Hnew & Hsucc & ?).
    exists (new ++ [((n, after), (n, after) :: path)]), more. rewrite <- (assoc_L (++)).
    split; [done|]. split; [rewrite length_app; simpl; lia|]. split; [|split; [|done]].
    + intros c p [Hcp|[= -> ->]%list_elem_of_singleton]%elem_of_app.
      * destruct (Hnew _ _ Hcp) as (m & ? & ?). exists m. split; [by right|done].
      * exists n. split; [by left|]. split; [|done]. intros ([n' d] & -> & Hin)%list_elem_of_fmap.
        apply list_elem_of_In in Hin. pose proof (List.find_none _ _ E _ Hin) as Hne. simpl in Hne. bool_prop. done.
    + intros Hm m. rewrite fmap_app, elem_of_app, elem_of_cons. intros [->|Hm'].
      * right; right. by apply list_elem_of_singleton.
      * destruct (Hsucc Hm _ Hm') as [?|?]; [by left|by right; left].
Qed.

(** An iteration of the loop as an equation. *)
Inductive stepped (pc delta : Z) (path : list config) (work : list (config * list config))
    (st : frame_state) (i : nat) (ins : instruction) : frame_state -> Prop :=
  | stepped_unsupported issues :
      stack_step ins = None ->
      stepped pc delta path work st i ins
        (FrameState work ((pc, delta) :: fs_seen st) (fs_exits st) (fs_min_delta st)
           (fs_issues st ++ issues ++ [UnsupportedStackWrite pc (ins_text ins)]))
  | stepped_dropped issues change :
      stack_step ins = Some change ->
      stepped pc delta path work st i ins
        (FrameState work ((pc, delta) :: fs_seen st) (fs_exits st) (Z.min (fs_min_delta st) (delta + change))
           (fs_issues st ++ issues ++ [StackPointerWrite pc (ins_text ins)]))
  | stepped_on change links flows more new :
      stack_step ins = Some change ->
      (forall issue, issue ∈ links -> issue = LinkRegisterWrite pc (ins_text ins)) ->
      flows = (match trouble i ins with Some p => [Flow pc p (ins_text ins)] | None => [] end)
              ++ (if leaves i ins && negb (delta + change =? 0) then [UnbalancedReturn pc (delta + change)] else []) ->
      (length new <= 2)%nat ->
      (forall c p, (c, p) ∈ new -> exists n, n ∈ targets i ins /\ n ∉ path.*1 /\
         c = (n, delta + change) /\ p = c :: path) ->
      (more = [] -> forall n, n ∈ targets i ins ->
         ((n, delta + change) ∈ path \/ (n, delta + change) ∈ new.*1)) ->
      (forall issue, issue ∈ more -> exists t e, issue = StackCycle pc t (delta + change) e) ->
      stepped pc delta path work st i ins
        (FrameState (new ++ work) ((pc, delta) :: fs_seen st)
           (fs_exits st + (if leaves i ins then 1 else 0)) (Z.min (fs_min_delta st) (delta + change))
           (fs_issues st ++ links ++ flows ++ more)).

Lemma frame_step_cases st st' :
  frame_step body linkreg st = inl st' ->
  exists pc delta path work, fs_work st = ((pc, delta), path) :: work /\
    ((pc, delta) ∈ fs_seen st /\
       st' = FrameState work (fs_seen st) (fs_exits st) (fs_min_delta st) (fs_issues st) \/
     (pc, delta) ∉ fs_seen st /\ exists i ins, at_pc pc i ins /\ stepped pc delta path work st i ins st').
Proof.
  unfold frame_step. destruct (fs_work st) as [|[[pc delta] path] work]; [done|].
  case_bool_decide as Hseen.
  { intros [= <-]. exists pc, delta, path, work. split; [done|]. by left. }
  destruct (index_by_pc body pc) as [i|] eqn:Ei; [|done]. destruct (body !! i) as [ins|] eqn:Eb; [|done].
  intros [= <-]. exists pc, delta, path, work. split; [done|]. right. split; [done|]. exists i, ins. split; [done|].
  unfold visit. cbn [fs_work fs_seen fs_exits fs_min_delta fs_issues].
  destruct (stack_step ins) as [change|] eqn:Ec; [|rewrite <- (assoc_L (++)); by constructor].
  case_match; [rewrite <- (assoc_L (++)); by econstructor|].
  pose proof (successors_bounds i ins) as [_ Hlen].
  destruct (flow_of body linkreg i ins) as [[succ is_exit] problem] eqn:Ef.
  match goal with |- context [foldl _ (_, ?issues) succ] =>
    destruct (push_successors pc (delta + change) path succ work issues) as (new & more & Hfold & Hn & Hnew & Hsucc & Hmore)
  end.
  rewrite Hfold. clear Hfold. set (links := if writes_ra ins then _ else _). set (flows := _ ++ (if is_exit && _ then _ else _)).
  assert (E : ((fs_issues st ++ links) ++ flows) ++ more = fs_issues st ++ links ++ flows ++ more)
    by by rewrite <- !(assoc_L (++)).
  rewrite E. clear E. assert (El : is_exit = leaves i ins) by (unfold leaves; by rewrite Ef). rewrite El in *.
  eapply (stepped_on _ _ _ _ _ _ _ change links); unfold trouble, targets; try rewrite Ef; try done.
  - intros issue. unfold links. destruct (writes_ra ins); [|by intros ?%elem_of_nil]. by intros ->%list_elem_of_singleton.
  - unfold flows. by rewrite El.
  - cbn [fst snd] in *. lia.
Qed.

(** ** Termination *)
Abbreviation largest := (largest_step body).

Lemma largest_step_spec i ins change :
  body !! i = Some ins -> stack_step ins = Some change -> Z.abs change <= largest.
Proof.
  unfold largest_step. intros Hi%list_elem_of_lookup_2 Hc. induction body as [|x l IH]; [by apply elem_of_nil in Hi|].
  simpl. apply elem_of_cons in Hi as [->|Hi]; [rewrite Hc; lia|]. specialize (IH Hi). destruct (stack_step x); lia.
Qed.
Lemma largest_step_nonneg : 0 <= largest.
Proof. unfold largest_step. induction body as [|x l IH]; simpl; [done|]. destruct (stack_step x); lia. Qed.

Definition item_ok (item : config * list config) : Prop :=
  exists prefix, item.2 = item.1 :: prefix /\ NoDup item.2.*1 /\ (forall pc, pc ∈ item.2.*1 -> pc ∈ starts body) /\
    Z.abs item.1.2 <= (Z.of_nat (length item.2) - 1) * largest.
Definition box : list config :=
  starts body ≫= fun pc => pair pc <$> seqZ (- (Z.of_nat (length body) * largest))
                                           (2 * (Z.of_nat (length body) * largest) + 1).
Record bounded (st : frame_state) : Prop := {
  bd_items : forall item, item ∈ fs_work st -> item_ok item;
  bd_nodup : NoDup (fs_seen st);
  bd_box : forall c, c ∈ fs_seen st -> c ∈ box
}.
Definition frame_measure (st : frame_state) : Z :=
  3 * (config_bound body - Z.of_nat (length (fs_seen st))) + Z.of_nat (length (fs_work st)).

Lemma length_box : Z.of_nat (length box) = config_bound body.
Proof.
  unfold box, config_bound, starts. set (M := Z.of_nat (length body) * largest).
  assert (0 <= M) by (unfold M; pose proof largest_step_nonneg; nia). clearbody M.
  induction body as [|x l IH]; [done|].
  rewrite fmap_cons, bind_cons, length_app, length_fmap, length_seqZ, Nat2Z.inj_add, IH, Z2Nat.id by lia.
  cbn [length]. lia.
Qed.

Lemma item_in_box c path : item_ok (c, path) -> c ∈ box.
Proof.
  intros (prefix & E & Hn & Hp & Hd). simpl in *. subst path. destruct c as [pc d]. simpl in *.
  apply list_elem_of_bind. exists pc. split; [|apply Hp; by left]. apply list_elem_of_fmap. exists d. split; [done|].
  apply elem_of_seqZ.
  assert (Hlen : (length (pc :: prefix.*1) <= length (starts body))%nat).
  { apply submseteq_length, NoDup_submseteq; [done|]. intros x Hx. by apply Hp. }
  unfold starts in Hlen. simpl in Hlen. rewrite !length_fmap in Hlen. pose proof largest_step_nonneg. nia.
Qed.

Lemma bounded_step st st' :
  bounded st -> frame_step body linkreg st = inl st' -> bounded st' /\ 0 <= frame_measure st' < frame_measure st.
Proof.
  intros [Hitems Hn Hbox] (pc & delta & path & work & Hw & Hcase)%frame_step_cases.
  rewrite Hw in Hitems. assert (Hok : item_ok ((pc, delta), path)) by (apply Hitems; by left).
  assert (Hrest : forall item, item ∈ work -> item_ok item) by (intros; apply Hitems; by right).
  assert (Hsize : forall l, NoDup l -> (forall c, c ∈ l -> c ∈ box) -> Z.of_nat (length l) <= config_bound body).
  { intros l Hl Hin. rewrite <- length_box. apply inj_le, submseteq_length, NoDup_submseteq; done. }
  unfold frame_measure. rewrite Hw. pose proof (Hsize _ Hn Hbox).
  destruct Hcase as [[Hseen ->]|(Hseen & i & ins & Hat & Hst)]; simpl; [split; [done|lia]|].
  assert (Hn' : NoDup ((pc, delta) :: fs_seen st)) by by constructor.
  assert (Hbox' : forall c, c ∈ (pc, delta) :: fs_seen st -> c ∈ box).
  { intros c [->|?]%elem_of_cons; [by eapply item_in_box|by apply Hbox]. }
  pose proof (Hsize _ Hn' Hbox') as Hlen. simpl in Hlen.
  destruct Hst as [| |change links flows more new Hc _ _ Hl Hnew _ _]; simpl; [split; [done|lia]..|].
  split; [|rewrite length_app; lia]. split; [|done|done]. cbn [fs_work].
  intros [c p] [Hcp|?]%elem_of_app; [|by apply Hrest].
  destruct (Hnew _ _ Hcp) as (n & Hin & Hfresh & -> & ->).
  destruct Hok as (prefix & E & Hnp & Hp & Hd). cbn [fst snd] in *.
  exists path. split; [done|]. split; [by constructor|]. split.
  - intros x [->|?]%elem_of_cons; [|by apply Hp]. pose proof (successors_bounds i ins) as [Hf _].
    rewrite Forall_forall in Hf. by apply Hf.
  - cbn [fst snd length]. pose proof (largest_step_spec i ins change (proj2 Hat) Hc). rewrite E in *. simpl in *. lia.
Qed.

Lemma bounded_no_key_error st r :
  bounded st -> frame_step body linkreg st = inr r -> is_Some r.
Proof.
  intros [Hitems _ _]. unfold frame_step. destruct (fs_work st) as [|[[pc delta] path] work]; [by intros [= <-]|].
  destruct (bool_decide _); [done|].
  destruct (Hitems ((pc, delta), path)) as (prefix & E & _ & Hp & _); [by left|]. simpl in E. subst path.
  destruct (at_pc_total pc) as (i & ins & Hi & Hb); [apply Hp; by left|]. by rewrite Hi, Hb.
Qed.

Lemma bounded_start entry issues :
  entry ∈ starts body -> bounded (FrameState [((entry, 0), [(entry, 0)])] [] 0 0 issues).
Proof.
  intros He. split; cbn [fs_work fs_seen]; [|constructor|by intros ? ?%elem_of_nil].
  intros item ->%list_elem_of_singleton. exists []. cbn [fst snd]. split; [done|].
  split; [apply NoDup_singleton|]. split; [|simpl; lia]. by intros ? ->%list_elem_of_singleton.
Qed.

Definition start_state (entry : Z) (issues : list frame_issue) : frame_state :=
  FrameState [((entry, 0), [(entry, 0)])] [] 0 0 issues.

Lemma frame_loop_total entry issues :
  entry ∈ starts body ->
  exists st, run_loop (frame_step body linkreg) (depth_for (3 * config_bound body + 1)) (start_state entry issues)
    = Some (Some st).
Proof.
  intros He. pose proof (bounded_start _ issues He) as Hb.
  assert (0 <= config_bound body) by (rewrite <- length_box; lia).
  destruct (run_loop_total (frame_step body linkreg) bounded frame_measure
              (depth_for (3 * config_bound body + 1)) (start_state entry issues)) as [r Hr].
  - intros. by eapply bounded_step.
  - done.
  - unfold frame_measure, start_state. simpl. pose proof (depth_for_enough (3 * config_bound body + 1)). lia.
  - rewrite Hr. eapply (run_loop_inv (frame_step body linkreg) bounded is_Some) in Hr as [st ->]; [by exists st| | |done].
    + intros. by eapply bounded_step.
    + apply bounded_no_key_error.
Qed.

(** ** What a clean analysis means *)
Definition link_issue (issue : frame_issue) : bool :=
  match issue with LinkRegisterWrite _ _ => true | _ => false end.
(** Nothing unresolved but writes of the link register. *)
Definition clean (issues : list frame_issue) : Prop := forall issue, issue ∈ issues -> link_issue issue = true.

Lemma clean_app l1 l2 : clean (l1 ++ l2) <-> clean l1 /\ clean l2.
Proof. unfold clean. setoid_rewrite elem_of_app. naive_solver. Qed.

(** A configuration whose instruction was followed without an issue. *)
Definition followed (min_delta : Z) (covered : list config) (c : config) : Prop :=
  exists i ins after, executes c i ins after /\ min_delta <= after /\ trouble i ins = None /\
    (leaves i ins = true -> after = 0) /\ forall n, n ∈ targets i ins -> (n, after) ∈ covered.

Record explored (entry : Z) (layout : list frame_issue) (st : frame_state) : Prop := {
  ex_layout : clean (fs_issues st) -> clean layout;
  ex_reach : forall c, c ∈ fs_seen st ++ (fs_work st).*1 -> reachable entry c;
  ex_path : forall c p, (c, p) ∈ fs_work st -> forall c', c' ∈ p -> c' = c \/ c' ∈ fs_seen st;
  ex_entry : (entry, 0) ∈ fs_seen st ++ (fs_work st).*1;
  ex_followed : clean (fs_issues st) -> forall c, c ∈ fs_seen st ->
    followed (fs_min_delta st) (fs_seen st ++ (fs_work st).*1) c;
  ex_min : fs_min_delta st <= 0 /\ (fs_min_delta st = 0 \/
    exists c i ins, reachable entry c /\ executes c i ins (fs_min_delta st));
  ex_exits : 0 <= fs_exits st /\ (clean (fs_issues st) -> 0 < fs_exits st ->
    exists c i ins after, reachable entry c /\ executes c i ins after /\ leaves i ins = true)
}.

Lemma followed_mono m m' l l' c :
  followed m l c -> m' <= m -> (forall x, x ∈ l -> x ∈ l') -> followed m' l' c.
Proof. intros (i & ins & after & ? & ? & ? & ? & Hn) ? Hl. exists i, ins, after. split_and!; [done|lia|done|done|auto]. Qed.

Lemma explored_start entry issues : explored entry issues (start_state entry issues).
Proof.
  unfold start_state. split; cbn [fs_work fs_seen fs_issues fs_min_delta fs_exits].
  - done.
  - intros c Hc. apply list_elem_of_singleton in Hc as ->. apply rtc_refl.
  - intros c p [= -> ->]%list_elem_of_singleton c' ->%list_elem_of_singleton. by left.
  - by left.
  - by intros _ ? ?%elem_of_nil.
  - split; [done|by left].
  - split; [done|]. lia.
Qed.

Lemma unclean l1 l2 issue : link_issue issue = false -> ~ clean (l1 ++ l2 ++ [issue]).
Proof.
  intros Hl [_ [_ H]%clean_app]%clean_app. specialize (H issue (list_elem_of_here _ _)). congruence.
Qed.

Lemma explored_step entry layout st st' :
  explored entry layout st -> frame_step body linkreg st = inl st' -> explored entry layout st'.
Proof.
  intros [Hlay Hreach Hpath Hentry Hfol Hmin Hex] (pc & delta & path & work & Hw & Hcase)%frame_step_cases.
  rewrite Hw in *. cbn [fmap list_fmap fst] in *.
  assert (Hrc : reachable entry (pc, delta)) by (apply Hreach; set_solver).
  destruct Hcase as [[Hseen ->]|(Hseen & i & ins & Hat & Hst)].
  - split; cbn [fs_work fs_seen fs_issues fs_min_delta fs_exits]; try done.
    + intros c Hc. apply Hreach. set_solver.
    + intros c p Hcp. apply Hpath. set_solver.
    + set_solver.
    + intros Hc c Hin. eapply followed_mono; [by apply Hfol|done|]. set_solver.
  - assert (Hexec : forall change, stack_step ins = Some change -> executes (pc, delta) i ins (delta + change)).
    { intros change ?. split; [done|]. by exists change. }
    assert (Hmin' : forall change, stack_step ins = Some change ->
      let m := Z.min (fs_min_delta st) (delta + change) in
      m <= 0 /\ (m = 0 \/ exists c i ins, reachable entry c /\ executes c i ins m)).
    { intros change Hc. destruct Hmin as [? Hmin]. simpl. split; [lia|].
      destruct (Z.min_spec (fs_min_delta st) (delta + change)) as [[_ ->]|[? ->]]; [done|].
      right. exists (pc, delta), i, ins. split; [done|by apply Hexec]. }
    assert (Hpath' : forall c p, (c, p) ∈ work -> forall c', c' ∈ p -> c' = c \/ c' ∈ (pc, delta) :: fs_seen st).
    { intros c p Hcp c' Hc'. destruct (Hpath c p ltac:(set_solver) c' Hc'); set_solver. }
    assert (Hreach' : forall c, c ∈ ((pc, delta) :: fs_seen st) ++ work.*1 -> reachable entry c).
    { intros c Hc. apply Hreach. set_solver. }
    assert (Hentry' : (entry, 0) ∈ ((pc, delta) :: fs_seen st) ++ work.*1) by set_solver.
    destruct Hst as [issues Hc|issues change Hc|change links flws more new Hc Hlinks Hflows _ Hnew Hsucc Hmore];
      split; cbn [fs_work fs_seen fs_issues fs_min_delta fs_exits]; try done; try (by apply Hmin').
    all: try (by intros [? _]%clean_app; apply Hlay).
    1, 3: by intros H%unclean.
    1, 2: by split; [apply Hex|intros H%unclean].
    + intros c. rewrite fmap_app. intros Hc'.
      assert (Hcase : c ∈ (pc, delta) :: fs_seen st ++ work.*1 \/ c ∈ new.*1) by set_solver.
      destruct Hcase as [?|([c' p] & -> & Hcp)%list_elem_of_fmap]; [apply Hreach; set_solver|].
      destruct (Hnew _ _ Hcp) as (n & Hn & _ & -> & _). simpl. eapply rtc_r; [exact Hrc|].
      exists i, ins, change. by split_and!.
    + intros c p [Hcp|Hcp]%elem_of_app c' Hc'; [|by eapply Hpath'].
      destruct (Hnew _ _ Hcp) as (n & _ & _ & -> & ->). apply elem_of_cons in Hc' as [->|Hc']; [by left|right].
      destruct (Hpath (pc, delta) path ltac:(set_solver) c' Hc'); set_solver.
    + rewrite fmap_app. set_solver.
    + intros [Hcl [_ [Hclf Hclm]%clean_app]%clean_app]%clean_app c Hc'.
      assert (more = []) as Hm.
      { destruct more as [|issue more]; [done|]. destruct (Hmore issue) as (? & ? & ->); [by left|].
        by specialize (Hclm _ (list_elem_of_here _ _)). }
      apply elem_of_cons in Hc' as [->|Hc'].
      * exists i, ins, (delta + change). split; [by apply Hexec|]. split; [lia|]. subst flws.
        destruct (trouble i ins); [by specialize (Hclf _ (list_elem_of_here _ _))|]. split; [done|]. split.
        { intros Hl. rewrite Hl in Hclf. simpl in Hclf. destruct (delta + change =? 0) eqn:E; [by bool_prop|].
          by specialize (Hclf _ (list_elem_of_here _ _)). }
        intros n Hn. rewrite fmap_app. destruct (Hsucc Hm n Hn) as [Hp|Hp]; [|set_solver].
        destruct (Hpath (pc, delta) path ltac:(set_solver) _ Hp) as [->|?]; set_solver.
      * eapply followed_mono; [by apply Hfol|lia|]. rewrite fmap_app. set_solver.
    + destruct Hex as [? Hex]. split; [by destruct (leaves i ins); lia|].
      intros [Hcl _]%clean_app. destruct (leaves i ins) eqn:El; [|rewrite Z.add_0_r; by apply Hex].
      intros _. exists (pc, delta), i, ins, (delta + change). by split_and!; [|apply Hexec|].
Qed.

(** The configurations seen at the end are all the reachable ones. *)
Lemma explored_reachable entry layout st c :
  explored entry layout st -> fs_work st = [] -> clean (fs_issues st) -> reachable entry c ->
  c ∈ fs_seen st /\ fs_min_delta st <= c.2.
Proof.
  intros Hex Hw Hc. pose proof (ex_followed _ _ _ Hex Hc) as Hfol. pose proof (ex_entry _ _ _ Hex) as He.
  rewrite Hw in *. simpl in *. rewrite app_nil_r in *.
  revert c. apply rtc_ind_r; [split; [done|]; apply Hex|].
  - intros a b _ (i & ins & change & Hat & Hs & Hd & Ht) [Hin _].
    destruct (Hfol _ Hin) as (i' & ins' & after & (Hat' & change' & Hs' & ->) & Hle & _ & _ & Hcov).
    assert (i' = i /\ ins' = ins) as [-> ->] by (unfold at_pc in *; naive_solver congruence).
    assert (change' = change) as -> by congruence. rewrite <- Hd in *. split; [|done].
    destruct b as [pc d]. by apply Hcov.
Qed.

Lemma frame_loop_explored entry issues d st :
  run_loop (frame_step body linkreg) d (start_state entry issues) = Some (Some st) ->
  explored entry issues st /\ fs_work st = [].
Proof.
  intros Hr. pose proof (run_loop_inv (frame_step body linkreg) (explored entry issues)
    (fun r => forall st, r = Some st -> explored entry issues st /\ fs_work st = []) d (start_state entry issues) (Some st)) as H.
  eapply H; [| |apply explored_start|exact Hr|done]; clear H.
  - intros. by eapply explored_step.
  - intros s r Hs. unfold frame_step. destruct (fs_work s) as [|[[pc delta] path] work] eqn:E.
    + intros [= <-] ? [= <-]. done.
    + destruct (bool_decide _); [done|]. destruct (index_by_pc body pc); [|by intros [= <-]].
      by destruct (body !! _); [|intros [= <-]].
Qed.
End frame.

(** C40: the path-sensitive analysis terminates for every decoded body, whatever
    its loops and its stack steps: the bound of its model is never reached, and no
    address it follows is missing. *)
Theorem analyze_frame_terminates body start linkreg : is_Some (analyze_frame body start linkreg).
Proof.
  unfold analyze_frame. destruct body as [|first rest]; [eauto|].
  destruct (frame_loop_total (first :: rest) linkreg (ins_address first) (layout_issues (first :: rest) start))
    as [st Hst]; [by left|].
  unfold start_state in Hst. rewrite Hst. simpl. eauto.
Qed.


(** ** Concrete functions *)
Definition plain (address : Z) (mnemonic operands : string) (target : option Z) : instruction :=
  Instruction address mnemonic operands target (mnemonic +:+ " " +:+ operands) 4 None.
Definition branch_valid : list instruction :=
  [plain 0x1000 "addi" "sp,sp,-16" None; plain 0x1004 "beqz" "a0, 1014 # 1014" (Some 0x1014);
   plain 0x1008 "addi" "sp,sp,-16" None; plain 0x100C "addi" "sp,sp,32" None;
   plain 0x1010 "j" "1018 <branch+0x18>" (Some 0x1018); plain 0x1014 "addi" "sp,sp,16" None;
   plain 0x1018 "ret" "" None].
Example frame_of_branch_valid :
  analyze_frame branch_valid 0x1000 false = Some (FrameReport (Some 32) (Some (-32)) [] 1).
Proof. vm_compute. reflexivity. Qed.
Example frame_of_compressed :
  analyze_frame [plain 0x1000 "c.addi" "sp,-16" None; plain 0x1004 "c.addi" "sp,16" None; plain 0x1008 "c.ret" "" None]
    0x1000 false = Some (FrameReport (Some 16) (Some (-16)) [] 1).
Proof. vm_compute. reflexivity. Qed.
Example frame_of_dynamic :
  fr_unresolved <$> analyze_frame [plain 0x1000 "mv" "sp,a0" None; plain 0x1004 "ret" "" None] 0x1000 false
  = Some [UnsupportedStackWrite 0x1000 "mv sp,a0"; NoReturnPath 0x1000].
Proof. vm_compute. reflexivity. Qed.
Example frame_of_growing_loop :
  fr_unresolved <$> analyze_frame [plain 0x1000 "addi" "sp,sp,-16" None; plain 0x1004 "bnez" "a0, 1000 # 1000" (Some 0x1000);
                                   plain 0x1008 "ret" "" None] 0x1000 false
  = Some [StackCycle 0x1004 0x1000 (-16) 0; UnbalancedReturn 0x1008 (-16)].
Proof. vm_compute. reflexivity. Qed.

(** A tail jump spelled [jal zero] leaves the function without the check that the
    same jump spelled [j] gets: the first body is accepted with the stack pointer
    16 below its entry value at the tail call, the second is not. *)
Definition tail_call (jump : instruction) : list instruction :=
  [plain 0x1000 "addi" "sp,sp,-16" None; plain 0x1004 "bnez" "a0, 1010 # 1010" (Some 0x1010);
   plain 0x1008 "addi" "sp,sp,16" None; plain 0x100C "ret" "" None; jump].
Example unbalanced_jal_zero_accepted :
  fr_unresolved <$> analyze_frame (tail_call (plain 0x1010 "jal" "zero, 9000 # 9000" (Some 0x9000))) 0x1000 false
  = Some [].
Proof. vm_compute. reflexivity. Qed.
Example unbalanced_j_rejected :
  fr_unresolved <$> analyze_frame (tail_call (plain 0x1010 "j" "9000 <f>" (Some 0x9000))) 0x1000 false
  = Some [UnbalancedReturn 0x1010 (-16)].
Proof. vm_compute. reflexivity. Qed.

