(* ===== verification/CallbackTrace.v ===== *)
(** * The constant that reaches a callback argument

    [callback_argument_value] and [trace_interval_evidence] of
    [Tools/EmbeddedApplicationMacros/first_init_stack.py], and the execution of
    straight-line code they are checked against. *)
From S2P Require Import Prelude PyValue PyText PyInt Disassembly StackFrame.

Abbreviation values := (list (string * Z)).
Abbreviation trun := (outcome Empty_set).

(** [values.pop(name, None)] *)
Definition dict_pop (k : string) (d : values) : values := List.filter (fun kv => negb (String.eqb kv.1 k)) d.

Definition CALLER_SAVED : list string :=
  ["ra"; "t0"; "t1"; "t2"; "a0"; "a1"; "a2"; "a3"; "a4"; "a5"; "a6"; "a7"; "t3"; "t4"; "t5"; "t6"].

(** A control-flow split: nothing after it is tracked. *)
Definition splits (ins : instruction) : bool :=
  is_mnemonic ins (BRANCHES ++ UNCOND_JUMPS) || is_mnemonic ins ["jr"; "c.jr"; "ret"; "c.ret"; "c.j"].
Definition is_call (ins : instruction) : bool := is_mnemonic ins ["jal"; "c.jal"; "jalr"].

Definition wrap (z : Z) : Z := Z.land z 0xFFFFFFFF.
(** [immediate &= 0xFFFFF], then the sign of bit 19. *)
Definition sign20 (z : Z) : Z :=
  let z := Z.land z 0xFFFFF in if Z.land z 0x80000 =? 0 then z else z - 0x100000.
(** [int(text, 0)] under [except ValueError]. *)
Definition parsed (text : string) : option Z := int_literal (codepoints text).

(** The value an instruction gives its destination, when the tracker knows it. *)
Definition assigned (ins : instruction) (source : option Z) : trun (option Z) :=
  let parts := operand_parts ins in
  let n := length parts in
  if is_mnemonic ins ["auipc"] && Nat.eqb n 2
  then Ok ((fun i => wrap (ins_address ins + Z.shiftl (sign20 i) 12)) <$> parsed (part 1 parts))
  else if is_mnemonic ins ["lui"] && Nat.eqb n 2
  then Ok ((fun i => wrap (Z.shiftl i 12)) <$> parsed (part 1 parts))
  else if is_mnemonic ins ["li"] && Nat.eqb n 2 then Ok (parsed (part 1 parts))
  else if is_mnemonic ins ["mv"] && Nat.eqb n 2 then Ok source
  else if is_mnemonic ins ["addi"] && Nat.eqb n 3 then
    match source with
    | Some s =>
        match words (codepoints (part 2 parts)) with
        | word :: _ => Ok ((fun i => wrap (s + i)) <$> int_literal word)
        | [] => Crash IndexError
        end
    | None => Ok None
    end
  else Ok None.

(** One iteration: the new values, or [None] when the function returns [None]. *)
Definition track_step (vs : values) (ins : instruction) : trun (option values) :=
  let parts := operand_parts ins in
  if splits ins then Ok None
  else if is_call ins then
    if negb (is_mnemonic ins ["c.jal"]) && String.eqb (link_register ins) "zero" then Ok None
    else Ok (Some (foldl (fun vs name => dict_pop name vs) vs CALLER_SAVED))
  else
    let dest := reg (part 0 parts) in
    if negb (bool_decide (dest ∈ ABI_REGS)) || String.eqb dest "zero" then Ok (Some vs)
    else
      let source := match parts with _ :: p :: _ => dict_get (reg p) vs | _ => None end in
      let vs := dict_pop dest vs in
      value ← assigned ins source;
      Ok (Some (match value with Some v => dict_set dest v vs | None => vs end)).

Fixpoint track (call_pc : Z) (register : string) (vs : values) (body : list instruction) : trun (option Z) :=
  match body with
  | [] => Ok (dict_get register vs)
  | ins :: body =>
      if call_pc <=? ins_address ins then Ok (dict_get register vs)
      else
        next ← track_step vs ins;
        match next with
        | Some vs => track call_pc register vs body
        | None => Ok None
        end
  end.
Definition callback_argument_value (body : list instruction) (call_pc : Z) (register : string) : trun (option Z) :=
  track call_pc register [] body.

(** ** [trace_interval_evidence] *)
Record interval_evidence := IntervalEvidence {
  ie_begin : option Z;
  ie_hook : option Z;
  ie_end : option Z;
  ie_address_order : bool
}.

(** [calls.get(target)]: of several sites of one target, the last one. *)
Definition call_pc_of (sites : list (instruction * option Z * call_kind)) (target : Z) : option Z :=
  foldl (fun found site => if bool_decide (site.1.2 = Some target) then Some (ins_address site.1.1) else found)
    None sites.

Definition trace_interval_evidence (root : function) (begin hook finish : Z) : interval_evidence :=
  let sites := call_sites root in
  let b := call_pc_of sites begin in
  let h := call_pc_of sites hook in
  let e := call_pc_of sites finish in
  IntervalEvidence b h e
    (match b, h, e with Some b, Some h, Some e => (b <? h) && (h <? e) | _, _, _ => false end).

(** ** Execution of straight-line code

    A register file gives every register a 32-bit value. A call may change the
    caller-saved registers, any other instruction its first operand; the five
    instructions the tracker follows have their meaning. *)
Definition registers : Type := string -> Z.
Definition same_except (changed : string -> Prop) (rho rho' : registers) : Prop :=
  forall r, ~ changed r -> rho' r = rho r.

Definition word32 (z : Z) : Z := z mod 2 ^ 32.

(** The value a followed instruction computes. *)
Definition computes (ins : instruction) (rho : registers) : option Z :=
  let named m := String.eqb (ins_mnemonic ins) m in
  match operand_parts ins with
  | [_; i] =>
      if named "auipc" then (fun i => word32 (ins_address ins + i * 2 ^ 12)) <$> parsed i
      else if named "lui" then (fun i => word32 (i * 2 ^ 12)) <$> parsed i
      else if named "li" then word32 <$> parsed i
      else if named "mv" then Some (rho (reg i)) else None
  | [_; s; i] =>
      if named "addi" then
        match words (codepoints i) with
        | word :: _ => (fun i => word32 (rho (reg s) + i)) <$> int_literal word
        | [] => None
        end
      else None
  | _ => None
  end.

Definition executes_call (ins : instruction) : bool := is_mnemonic ins ["jal"; "c.jal"; "jalr"; "c.jalr"].

Inductive executes_one (ins : instruction) (rho rho' : registers) : Prop :=
  | executes_returning_call :
      executes_call ins = true -> same_except (fun r => r ∈ CALLER_SAVED) rho rho' -> executes_one ins rho rho'
  | executes_plain :
      executes_call ins = false ->
      same_except (fun r => r = reg (part 0 (operand_parts ins)) /\ r <> "zero") rho rho' ->
      (forall v, computes ins rho = Some v -> reg (part 0 (operand_parts ins)) <> "zero" ->
         rho' (reg (part 0 (operand_parts ins))) = v) ->
      executes_one ins rho rho'.

(** The instructions before [call_pc], in order. *)
Inductive runs_to (call_pc : Z) : list instruction -> registers -> registers -> Prop :=
  | runs_end rho : runs_to call_pc [] rho rho
  | runs_reached ins body rho : call_pc <= ins_address ins -> runs_to call_pc (ins :: body) rho rho
  | runs_more ins body rho1 rho2 rho3 :
      ins_address ins < call_pc -> executes_one ins rho1 rho2 -> runs_to call_pc body rho2 rho3 ->
      runs_to call_pc (ins :: body) rho1 rho3.

(** ** Soundness *)
Definition agrees (vs : values) (rho : registers) : Prop :=
  forall r v, dict_get r vs = Some v -> r ∈ ABI_REGS /\ rho r = word32 v.

Lemma wrap_mod z : wrap z = z mod 2 ^ 32.
Proof. unfold wrap. change 0xFFFFFFFF with (Z.ones 32). by rewrite Z.land_ones by lia. Qed.

Lemma word32_wrap z : word32 (wrap z) = word32 z.
Proof. unfold word32. rewrite wrap_mod. apply Z.mod_mod. lia. Qed.

Lemma word32_add z k : word32 (z + k * 2 ^ 32) = word32 z.
Proof. unfold word32. by rewrite Z.mod_add by lia. Qed.

Lemma sign20_mod z : exists k, sign20 z = z + k * 2 ^ 20.
Proof.
  unfold sign20. change 0xFFFFF with (Z.ones 20). rewrite Z.land_ones by lia.
  pose proof (Z.div_mod z (2 ^ 20)). destruct (_ =? 0); [exists (- (z / 2 ^ 20))|exists (- (z / 2 ^ 20) - 1)]; lia.
Qed.

Lemma dict_get_pop k r vs : dict_get r (dict_pop k vs) = if String.eqb r k then None else dict_get r vs.
Proof.
  induction vs as [|[k' v] vs IH]; simpl; [by destruct (String.eqb r k)|].
  destruct (String.eqb_spec k' k) as [->|Hne]; simpl.
  - rewrite IH. by destruct (String.eqb_spec r k).
  - destruct (String.eqb_spec r k') as [->|]; [by rewrite (proj2 (String.eqb_neq k' k))|done].
Qed.

Lemma dict_get_pops names r vs :
  dict_get r (foldl (fun vs name => dict_pop name vs) vs names) = if bool_decide (r ∈ names) then None else dict_get r vs.
Proof.
  revert vs. induction names as [|k names IH]; intros vs; simpl; [done|]. rewrite IH, dict_get_pop.
  destruct (String.eqb_spec r k) as [->|Hne].
  - rewrite (bool_decide_eq_true_2 (k ∈ k :: names)) by by left. by destruct (bool_decide _).
  - rewrite (bool_decide_ext (r ∈ k :: names) (r ∈ names)); [done|]. rewrite elem_of_cons. tauto.
Qed.

Lemma mnemonic_one ins m : is_mnemonic ins [m] = String.eqb (ins_mnemonic ins) m.
Proof.
  unfold is_mnemonic. destruct (String.eqb_spec (ins_mnemonic ins) m) as [->|Hne].
  - by apply bool_decide_eq_true_2; left.
  - apply bool_decide_eq_false_2. by intros E%list_elem_of_singleton.
Qed.

(** What the tracker assigns is what the instruction computes. *)
Lemma assigned_computes ins vs rho v :
  agrees vs rho ->
  assigned ins (match operand_parts ins with _ :: p :: _ => dict_get (reg p) vs | _ => None end) = Ok (Some v) ->
  computes ins rho = Some (word32 v).
Proof.
  intros Hvs. unfold assigned, computes. rewrite !mnemonic_one.
  destruct (operand_parts ins) as [|d [|p [|q [|? ?]]]]; cbn [length Nat.eqb part nth];
    rewrite ?andb_false_r, ?andb_true_r; try done.
  - destruct (String.eqb _ "auipc").
    { intros [= (i & -> & ->)%fmap_Some]. simpl. rewrite word32_wrap, Z.shiftl_mul_pow2 by lia.
      destruct (sign20_mod i) as [k ->]. f_equal. rewrite <- (word32_add _ k). f_equal. lia. }
    destruct (String.eqb _ "lui").
    { intros [= (i & -> & ->)%fmap_Some]. simpl. by rewrite word32_wrap, Z.shiftl_mul_pow2 by lia. }
    destruct (String.eqb _ "li"); [by intros [= ->]|].
    destruct (String.eqb _ "mv"); [|done]. intros [= Hp]. by destruct (Hvs _ _ Hp) as [_ ->].
  - destruct (String.eqb _ "addi"); [|done]. destruct (dict_get (reg p) vs) as [s|] eqn:Hs; [|done].
    destruct (words _) as [|word ?]; [done|]. intros [= (i & -> & ->)%fmap_Some]. simpl.
    destruct (Hvs _ _ Hs) as [_ ->]. rewrite word32_wrap. f_equal. unfold word32. by rewrite Zplus_mod_idemp_l.
Qed.

Lemma track_step_agrees vs ins vs' rho rho' :
  agrees vs rho -> executes_one ins rho rho' -> ins_mnemonic ins <> "c.jalr" ->
  track_step vs ins = Ok (Some vs') -> agrees vs' rho'.
Proof.
  intros Hvs Hex Hjalr. unfold track_step. destruct (splits ins); [done|].
  assert (Hcall : executes_call ins = is_call ins).
  { unfold executes_call, is_call, is_mnemonic. apply bool_decide_ext. rewrite !elem_of_cons, elem_of_nil. tauto. }
  destruct (is_call ins).
  - destruct (_ && _); [done|]. intros E.
    assert (vs' = foldl (fun vs name => dict_pop name vs) vs CALLER_SAVED) as -> by congruence.
    intros r v. rewrite dict_get_pops. case_bool_decide as Hr; [done|]. intros Hv.
    destruct Hex as [_ Hsame|E' _ _]; [|congruence]. destruct (Hvs _ _ Hv) as [? <-]. by split; [|apply Hsame].
  - destruct Hex as [E _|_ Hsame Hdest]; [congruence|]. set (dest := reg _) in *.
    destruct (negb _ || _) eqn:Ed.
    { intros [= <-] r v Hv. destruct (Hvs _ _ Hv) as [Habi <-]. split; [done|]. apply Hsame. intros [-> Hz].
      apply orb_true_iff in Ed as [Ed|Ed]; [by bool_prop|by apply String.eqb_eq in Ed]. }
    bool_prop. intros (value & Ha & Hvs')%bind_Ok. injection Hvs' as <-.
    assert (Hkept : forall r v, String.eqb r dest = false -> dict_get r vs = Some v -> r ∈ ABI_REGS /\ rho' r = word32 v).
    { intros r v Hr Hv. destruct (Hvs _ _ Hv) as [? <-]. split; [done|]. apply Hsame. intros [-> _].
      by rewrite String.eqb_refl in Hr. }
    intros r v. destruct value as [v0|]; [rewrite dict_get_set|]; rewrite dict_get_pop;
      destruct (String.eqb r dest) eqn:Er; try done; try by apply Hkept.
    apply String.eqb_eq in Er as ->. intros [= <-]. split; [done|].
    eapply Hdest; [by eapply assigned_computes|by apply String.eqb_neq].
Qed.

Lemma track_agrees call_pc register vs body v rho rho' :
  agrees vs rho -> track call_pc register vs body = Ok (Some v) ->
  (forall ins, ins ∈ body -> ins_address ins < call_pc -> ins_mnemonic ins <> "c.jalr") ->
  runs_to call_pc body rho rho' -> rho' register = word32 v.
Proof.
  intros Hvs Ht Hjalr Hrun. revert vs Hvs Ht.
  induction Hrun as [rho|ins body rho Hpc|ins body rho1 rho2 rho3 Hpc Hone _ IH]; intros vs Hvs; simpl.
  - intros [= Hv]. by apply Hvs.
  - rewrite (proj2 (Z.leb_le _ _)) by done. intros [= Hv]. by apply Hvs.
  - rewrite (proj2 (Z.leb_gt _ _)) by done. intros ([vs'|] & Hstep & Hrest)%bind_Ok; [|done].
    eapply IH; [|by eapply track_step_agrees; [..|apply Hjalr; [by left|]|]|done].
    intros ins' Hin. apply Hjalr. by right.
Qed.


(** ** Concrete bodies *)
Definition traced (address : Z) (mnemonic operands : string) : instruction :=
  Instruction address mnemonic operands None (mnemonic +:+ " " +:+ operands) 4 None.

Definition auipc_body : list instruction :=
  [traced 0x1000 "auipc" "a1,0xfffff"; traced 0x1004 "addi" "a1,a1,42 # 102a"; traced 0x1008 "jal" "ra,2000"].
Example auipc_value : callback_argument_value auipc_body 0x1008 "a1" = Ok (Some 42).
Proof. vm_compute. reflexivity. Qed.
Example value_after_call :
  callback_argument_value [traced 0x1000 "li" "a1,42"; traced 0x1004 "c.jal" "2000"; traced 0x1006 "jal" "ra,3000"]
    0x1006 "a1" = Ok None.
Proof. vm_compute. reflexivity. Qed.

(** [c.jalr] calls through a register, but only its operand is forgotten. *)
Example value_survives_c_jalr :
  callback_argument_value [traced 0x1000 "li" "a1,42"; traced 0x1004 "c.jalr" "a5"; traced 0x1006 "jal" "ra,3000"]
    0x1006 "a1" = Ok (Some 42).
Proof. vm_compute. reflexivity. Qed.

(** A later branch back to the call is not looked for. *)
Example value_before_loop :
  callback_argument_value [traced 0x1000 "li" "a1,42"; traced 0x1004 "jal" "ra,3000"; traced 0x1008 "bnez" "a0,1004"]
    0x1004 "a1" = Ok (Some 42).
Proof. vm_compute. reflexivity. Qed.

(** An [addi] whose immediate is missing ends in an [IndexError]. *)
Example missing_immediate_crashes :
  callback_argument_value [traced 0x1000 "li" "a1,42"; traced 0x1004 "addi" "a1,a1,"] 0x2000 "a1" = Crash IndexError.
Proof. vm_compute. reflexivity. Qed.

Definition regs_with (name : string) (v : Z) : registers := fun r => if String.eqb r name then v else 0.
