(* ===== verification/StackInputs.v ===== *)
(** * The JSON and map inputs of the stack diagnostics

    [map_contains_bss], [bind_rom_contracts], [parse_address] and the contract
    validators of [Tools/EmbeddedApplicationMacros/first_init_stack.py]. *)
From stdpp Require Import pretty.
From S2P Require Import Prelude PyValue PyText PyRegex PyFiles PyInt.

(** ** [map_contains_bss] *)
Definition BSS_LINE : rx :=
  rx_seq [Star true Space; Str ".";
          Alt (rx_seq [Str "dram"; Star true (Chr is_decimal); Str ".bss"]) (Str "bss");
          Plus true Space; Str "0x"; HexGroup 1; Plus true Space; Str "0x"; HexGroup 2].
Definition bss_extent (line : list Z) : option (Z * Z) :=
  match re_match BSS_LINE line with
  | Some (c, _) => Some (capture_hex 1 c, capture_hex 1 c + capture_hex 2 c)
  | None => None
  end.
Definition map_contains_bss (map_text : string) (address size : Z) : bool :=
  existsb (fun e => (e.1 <=? address) && (address + size <=? e.2))
    (omap bss_extent (split_lines (codepoints map_text))).

(** ** Errors *)
Inductive input_error :=
  | NotAnObject (label : string)
  | NotAddressText (label : string)
  | NotAnAddress (label : string)
  | AddressOutside (label : string)
  | IdfVersionMissing
  | IdfVersionUnexpected (version : string)
  | ElfDigestMissing
  | SitesMissing
  | CallerMissing (index : nat)
  | CallbackSymbolMissing (index : nat)
  | RomFieldMissing (field : string)
  | RomSchema
  | RomIdentity
  | RomRecordsMissing
  | RomComplete (index : nat)
  | RomStackBytes (index : nat)
  | RomInputs (index : nat).
#[export] Instance input_error_eq_dec : EqDecision input_error.
Proof. solve_decision. Defined.
Abbreviation irun := (outcome input_error).

Definition json_object (value : pyval) (label : string) : irun dict :=
  match value with PDict d => Ok d | _ => Raise (NotAnObject label) end.

(** A record's label, with its index: [f"{list}[{index}]{field}"]. *)
Definition label_at (list field : string) (index : nat) : string :=
  list +:+ "[" +:+ pretty (N.of_nat index) +:+ "]" +:+ field.

Definition parse_address (value : pyval) (label : string) : irun Z :=
  match value with
  | PStr text =>
      check (negb (String.eqb text "")) (NotAddressText label) ;;
      match int_literal (codepoints text) with
      | None => Raise (NotAnAddress label)
      | Some address =>
          check ((0 <=? address) && (address <=? 0xFFFFFFFF)) (AddressOutside label) ;;
          Ok address
      end
  | _ => Raise (NotAddressText label)
  end.

(** ** [validate_build_config] *)
Definition validate_build_config (value : pyval) : irun dict :=
  document ← json_object value "build config";
  match get "IDF_VERSION" document with
  | PStr version => check (String.eqb version "5.4.0") (IdfVersionUnexpected version) ;; Ok document
  | _ => Raise IdfVersionMissing
  end.

Definition nonempty_text (v : pyval) : bool :=
  match v with PStr s => negb (String.eqb s "") | _ => false end.

Definition enumerate {A} (l : list A) : list (nat * A) := zip (seq 0 (length l)) l.

(** ** [validate_callback_contract] *)
Definition check_site (indexed : nat * pyval) : irun unit :=
  let '(index, raw_record) := indexed in
  let label := label_at "callback sites" in
  record ← json_object raw_record (label "" index);
  check (nonempty_text (get "caller" record)) (CallerMissing index) ;;
  _ ← parse_address (get "callPc" record) (label ".callPc" index);
  _ ← (if has_key "evidencePc" record
       then Some <$> parse_address (get "evidencePc" record) (label ".evidencePc" index) else Ok None);
  callback ← json_object (get "callback" record) (label ".callback" index);
  check (nonempty_text (get "symbol" callback)) (CallbackSymbolMissing index) ;;
  _ ← parse_address (get "address" callback) (label ".callback.address" index);
  Ok tt.

Definition validate_callback_contract (value : pyval) : irun dict :=
  document ← json_object value "callback contract";
  check (is_str (get "elfSha256" document)) ElfDigestMissing ;;
  match get "sites" document with
  | PList sites => for_each check_site (enumerate sites) ;; Ok document
  | _ => Raise SitesMissing
  end.

(** ** [validate_rom_contract] *)
Definition rom_fields : list string := ["schemaVersion"; "idfVersion"; "target"; "records"].

Definition check_rom_record (indexed : nat * pyval) : irun unit :=
  let '(index, raw_record) := indexed in
  let label := label_at "ROM contract records" in
  record ← json_object raw_record (label "" index);
  _ ← parse_address (get "address" record) (label ".address" index);
  check (negb (has_key "complete" record && negb (is_bool (get "complete" record)))) (RomComplete index) ;;
  check (negb (has_key "stackBytes" record
               && negb (match get "stackBytes" record with PInt z => 0 <=? z | _ => false end)))
        (RomStackBytes index) ;;
  check (negb (has_key "inputs" record && negb (is_dict (get "inputs" record)))) (RomInputs index).

Definition validate_rom_contract (value : pyval) : irun dict :=
  document ← json_object value "ROM contract";
  for_each (fun field => check (has_key field document) (RomFieldMissing field)) rom_fields ;;
  check (match get "schemaVersion" document with PInt z => z =? 1 | _ => false end) RomSchema ;;
  check (is_str (get "idfVersion" document) && is_str (get "target" document)) RomIdentity ;;
  match get "records" document with
  | PList records => for_each check_rom_record (enumerate records) ;; Ok document
  | _ => Raise RomRecordsMissing
  end.

(** ** [bind_rom_contracts]: no caller-supplied stack claim is ever trusted; the
    flag tells whether there were any. *)
Definition bind_rom_contracts (document : dict) : list (Z * dict) * bool := ([], truthy (get "records" document)).

Example address_bounds :
  (fun s => parse_address (PStr s) "pc") <$> ["0x42000000"; "4294967295"; "4294967296"; "-1"; "x"; ""] =
  [Ok 0x42000000; Ok 4294967295; Raise (AddressOutside "pc"); Raise (AddressOutside "pc");
   Raise (NotAnAddress "pc"); Raise (NotAddressText "pc")].
Proof. vm_compute. reflexivity. Qed.
Example bss_line_contains :
  map_contains_bss (" .dram0.bss 0x40800000 0x100 a.o" +:+ newline_text) 0x40800010 16 = true.
Proof. vm_compute. reflexivity. Qed.
Example site_label : label_at "callback sites" ".callPc" 12 = "callback sites[12].callPc".
Proof. reflexivity. Qed.
