(* ===== verification/LinkedInputs.v ===== *)
(** * Binding the text listings to the linked image

    [elf32_riscv_image] and [validate_linked_inputs] of
    [Tools/EmbeddedApplicationMacros/first_init_stack.py]. *)
From S2P Require Import Prelude PyValue PyText PyRegex PyInt Bytes Disassembly DisassemblyTheorems.

Inductive binding_error :=
  | NotElf32
  | MalformedTable
  | TableTruncated
  | StringOffsetInvalid
  | StringUnterminated
  | SectionTruncated (name : string)
  | StringSectionInvalid
  | SymbolTableMalformed
  | ListingMismatch (name kind : string)
  | NoFunctionMetadata (start : Z)
  | ExtentMismatch (start : Z)
  | DuplicatePc (pc : Z) (name : string)
  | EncodingMissing (pc : Z)
  | NotUniquelyInside (pc : Z)
  | EncodingMismatch (pc : Z)
  | BytesUncovered (cursor : Z) (name : string)
  | TrailingUncovered (cursor : Z) (name : string).
#[export] Instance binding_error_eq_dec : EqDecision binding_error.
Proof. solve_decision. Defined.
Abbreviation brun := (outcome binding_error).

(** ** [elf32_riscv_image] *)
Record image_section := ImageSection {
  is_name : string;
  is_type : Z;
  is_flags : Z;
  is_address : Z;
  is_offset : Z;
  is_size : Z;
  is_link : Z;
  is_entry_size : Z
}.
Record image_symbol := ImageSymbol {
  im_name : string;
  im_address : Z;
  im_size : Z;
  im_type : Z;
  im_section : string;
  im_section_type : Z
}.
Record executable := Executable {
  ex_start : Z;
  ex_end : Z;
  ex_offset : Z;
  ex_contents : list Z
}.

Definition elf32_header : format := [2; 2; 4; 4; 4; 4; 4; 2; 2; 2; 2; 2; 2].
Definition elf32_section : format := [4; 4; 4; 4; 4; 4; 4; 4; 4; 4].
Definition elf32_symbol : format := [4; 4; 4; 1; 1; 2].
Definition elf32_magic : list Z := [0x7F; 0x45; 0x4C; 0x46; 1; 1].
Definition SHN_ABS : Z := 0xFFF1.

Definition image_cstring (table : list Z) (offset : Z) : brun string :=
  check (offset <? len table) StringOffsetInvalid ;;
  match until_nul (drop (Z.to_nat offset) table) with
  | Some text => Ok (decode_replace text)
  | None => Raise StringUnterminated
  end.

Definition image_section_of (data shstr : list Z) (row : list Z) : brun image_section :=
  name ← image_cstring shstr (field 0 row);
  let s := ImageSection name (field 1 row) (field 2 row) (field 3 row) (field 4 row) (field 5 row)
             (field 6 row) (field 9 row) in
  check (negb (negb (is_type s =? 8) && (len data <? is_offset s + is_size s))) (SectionTruncated name) ;;
  Ok s.

Definition contents_of (data : list Z) (s : image_section) : list Z := slice (is_offset s) (is_offset s + is_size s) data.

(** One symbol row; [None] when it is not kept. *)
Definition image_symbol_of (sections : list image_section) (strings : list Z) (row : list Z) :
    brun (option image_symbol) :=
  let name_off := field 0 row in
  let size := field 2 row in
  let shndx := field 5 row in
  if negb (name_off =? 0) && negb (size =? 0)
     && ((shndx <? Z.of_nat (length sections)) || (shndx =? SHN_ABS))
  then
    place ← (if shndx =? SHN_ABS then Ok ("ABS", 0)
             else match sections !! Z.to_nat shndx with
                  | Some s => Ok (is_name s, is_type s)
                  | None => Crash IndexError
                  end);
    name ← image_cstring strings name_off;
    Ok (Some (ImageSymbol name (field 1 row) size (Z.land (field 3 row) 0xF) place.1 place.2))
  else Ok None.

Definition image_symbols (data : list Z) (sections : list image_section) (symbols : list image_symbol)
    (s : image_section) : brun (list image_symbol) :=
  if negb ((is_type s =? 2) || (is_type s =? 11)) then Ok symbols
  else
    check (is_link s <? Z.of_nat (length sections)) StringSectionInvalid ;;
    match sections !! Z.to_nat (is_link s) with
    | None => Crash IndexError
    | Some strings_section =>
        let entry_size := if is_entry_size s =? 0 then calcsize elf32_symbol else is_entry_size s in
        check (negb ((entry_size <? calcsize elf32_symbol) || negb (is_size s mod entry_size =? 0)))
              SymbolTableMalformed ;;
        fold_outcome (fun symbols position =>
            row ← unpack_from false elf32_symbol data position;
            found ← image_symbol_of sections (contents_of data strings_section) row;
            Ok (match found with Some symbol => symbols ++ [symbol] | None => symbols end))
          symbols (py_range (is_offset s) (is_offset s + is_size s) entry_size)
    end.

Definition executable_of (data : list Z) (s : image_section) : option executable :=
  if negb (Z.land (is_flags s) 4 =? 0) && negb (is_type s =? 8)
  then Some (Executable (is_address s) (is_address s + is_size s) (is_offset s) (contents_of data s))
  else None.

Definition elf32_riscv_image (data : list Z) : brun (list image_symbol * list executable) :=
  check (negb ((len data <? 52) || negb (bool_decide (slice 0 6 data = elf32_magic)))) NotElf32 ;;
  header ← unpack_from false elf32_header data 16;
  let machine := field 1 header in
  let section_offset := field 5 header in
  let section_entry_size := field 10 header in
  let section_count := field 11 header in
  let string_index := field 12 header in
  check (negb (negb (machine =? 243) || (section_count =? 0) || (section_count <=? string_index)
               || (section_entry_size <? calcsize elf32_section))) MalformedTable ;;
  check (section_offset + section_entry_size * section_count <=? len data) TableTruncated ;;
  rows ← map_outcome (fun i => unpack_from false elf32_section data (section_offset + i * section_entry_size))
           (seqZ 0 section_count);
  match rows !! Z.to_nat string_index with
  | None => Crash IndexError
  | Some shstr_row =>
      let shstr := slice (field 4 shstr_row) (field 4 shstr_row + field 5 shstr_row) data in
      sections ← map_outcome (image_section_of data shstr) rows;
      symbols ← fold_outcome (image_symbols data sections) [] sections;
      Ok (symbols, omap (executable_of data) sections)
  end.

(** ** [validate_linked_inputs] *)
(** [int(encoding, 16).to_bytes(size, "little")] *)
Definition encoding_size (encoding : string) : Z := Z.of_nat (length (codepoints encoding)) / 2.
Definition encoding_bytes (encoding : string) : brun (list Z) :=
  let value := hex_value (codepoints encoding) in
  let size := encoding_size encoding in
  if value <? 256 ^ size then Ok (le_split (Z.to_nat size) value) else Crash OverflowError.

Definition listed_in (symbols : list image_symbol) (name : string) (address size : Z) : bool :=
  existsb (fun s => String.eqb (im_name s) name && (im_address s =? address) && (im_size s =? size)) symbols.

Definition check_listing_line (alnum : Z -> bool) (symbols : list image_symbol) (line : list Z) : brun unit :=
  match re_match (SYM alnum) line with
  | Some (c, _) =>
      let name := capture_text 4 c in
      check (listed_in symbols name (capture_hex 1 c) (capture_hex 2 c)) (ListingMismatch name (capture_text 3 c))
  | None => Ok tt
  end.

Definition holds (start size : Z) (e : executable) : bool := (ex_start e <=? start) && (start + size <=? ex_end e).

(** An in-image [STT_FUNC] symbol. *)
Definition is_function (executables : list executable) (s : image_symbol) : bool :=
  (im_type s =? 2) && negb (String.eqb (im_section s) "ABS") && existsb (holds (im_address s) (im_size s)) executables.
(** [elf_extents.get(start)]: the largest of them at an address. *)
Definition extent_at (symbols : list image_symbol) (executables : list executable) (start : Z) : option Z :=
  match List.filter (fun s => (im_address s =? start) && is_function executables s) symbols with
  | [] => None
  | found => Some (foldr (fun s => Z.max (im_size s)) 0 found)
  end.

Definition claims_function (fn : function) : bool :=
  existsb (fun kind => bool_decide (kind.2 ∈ ["T"; "t"; "W"; "w"])) (fn_symbol_kinds fn).

Definition check_instruction (executables : list executable) (name : string) (pcs : list Z) (ins : instruction) :
    brun (list Z) :=
  let pc := ins_address ins in
  check (negb (bool_decide (pc ∈ pcs))) (DuplicatePc pc name) ;;
  match ins_encoding ins with
  | None => Raise (EncodingMissing pc)
  | Some encoding =>
      let size := encoding_size encoding in
      match List.filter (holds pc size) executables with
      | [e] =>
          let raw := slice (pc - ex_start e) (pc - ex_start e + size) (ex_contents e) in
          expected ← encoding_bytes encoding;
          check (bool_decide (raw = expected)) (EncodingMismatch pc) ;;
          Ok (pc :: pcs)
      | _ => Raise (NotUniquelyInside pc)
      end
  end.

Definition cursor_step (name : string) (cursor : Z) (ins : instruction) : brun Z :=
  check (ins_address ins =? cursor) (BytesUncovered cursor name) ;;
  Ok (cursor + ins_size ins).

Definition check_function (symbols : list image_symbol) (executables : list executable) (fn : function) : brun unit :=
  match extent_at symbols executables (fn_start fn) with
  | None => check (negb (claims_function fn)) (NoFunctionMetadata (fn_start fn))
  | Some extent =>
      check (extent =? fn_size fn) (ExtentMismatch (fn_start fn)) ;;
      _ ← fold_outcome (check_instruction executables (fn_name fn)) [] (fn_instructions fn);
      cursor ← fold_outcome (cursor_step (fn_name fn)) (fn_start fn) (sort_by address_order (fn_instructions fn));
      check (cursor =? fn_end fn) (TrailingUncovered cursor (fn_name fn))
  end.

Definition validate_linked_inputs (alnum : Z -> bool) (elf_data : list Z) (symbol_text : string)
    (by_addr : functions) : brun unit :=
  image ← elf32_riscv_image elf_data;
  let '(symbols, executables) := image in
  for_each (check_listing_line alnum symbols) (split_lines (codepoints symbol_text)) ;;
  for_each (check_function symbols executables) (snd <$> by_addr).
