(* ===== verification/LinkedTheorems.v ===== *)
(** * Linked inputs that are accepted cover the functions' bytes *)
From S2P Require Import Prelude PyValue PyText PyRegex PyInt Bytes Disassembly DisassemblyTheorems LinkedInputs.

(** The bytes an instruction's encoding stands for, in memory order. *)
Definition bytes_of (ins : instruction) : list Z :=
  match ins_encoding ins with
  | Some e => le_split (Z.to_nat (encoding_size e)) (hex_value (codepoints e))
  | None => []
  end.
(** As [decode_line] builds it: the size is that of the encoding. *)
Definition sized (ins : instruction) : Prop :=
  forall e, ins_encoding ins = Some e -> ins_size ins = encoding_size e.

Lemma encoding_size_nonneg e : 0 <= encoding_size e.
Proof. unfold encoding_size. apply Z.div_pos; lia. Qed.

Lemma slice_split {a b c : Z} (data : list Z) :
  0 <= a <= b -> b <= c -> slice a b data ++ slice b c data = slice a c data.
Proof.
  intros Hab Hbc. unfold slice.
  replace (Z.to_nat (c - a)) with (Z.to_nat (b - a) + Z.to_nat (c - b))%nat by lia.
  replace (Z.to_nat b) with (Z.to_nat a + Z.to_nat (b - a))%nat by lia.
  rewrite <- drop_drop. apply take_take_drop.
Qed.
Lemma slice_empty a (data : list Z) : slice a a data = [].
Proof. unfold slice. by rewrite Z.sub_diag. Qed.

Section function.
Context (executables : list executable) (e : executable).

(** Every checked instruction has its bytes in the section, when the section
    holds it. *)
Definition encoded (ins : instruction) : Prop :=
  exists enc, ins_encoding ins = Some enc /\
    (holds (ins_address ins) (encoding_size enc) e = true ->
     slice (ins_address ins - ex_start e) (ins_address ins - ex_start e + encoding_size enc) (ex_contents e) = bytes_of ins).

Lemma check_instruction_Ok name pcs ins pcs' :
  e ∈ executables -> check_instruction executables name pcs ins = Ok pcs' ->
  pcs' = ins_address ins :: pcs /\ ins_address ins ∉ pcs /\ encoded ins.
Proof.
  intros He. unfold check_instruction, encoded, bytes_of. intros (u & Hd%check_Ok & H)%bind_Ok. bool_prop.
  destruct (ins_encoding ins) as [enc|]; [|done].
  destruct (List.filter _ executables) as [|e' [|? ?]] eqn:Ef; [done| |done].
  apply bind_Ok in H as (expected & Hb & H). apply bind_Ok in H as (u' & Hr%check_Ok & [= <-]). bool_prop.
  split; [done|]. split; [done|]. exists enc. split; [done|]. intros Hh.
  assert (Hin : e ∈ List.filter (holds (ins_address ins) (encoding_size enc)) executables) by by apply elem_of_filterb.
  rewrite Ef in Hin. apply list_elem_of_singleton in Hin as <-. rewrite Hr.
  unfold encoding_bytes in Hb. destruct (_ <? _); [|done]. by injection Hb as <-.
Qed.

Lemma check_instructions_Ok name l pcs pcs' :
  e ∈ executables -> fold_outcome (check_instruction executables name) pcs l = Ok pcs' ->
  NoDup pcs -> pcs' = reverse (ins_address <$> l) ++ pcs /\ NoDup pcs' /\ Forall encoded l.
Proof.
  intros He. revert pcs. induction l as [|ins l IH]; intros pcs; simpl; [intros [= <-] ?; by split_and!; [..|constructor]|].
  intros (pcs1 & H1 & H)%bind_Ok Hn. destruct (check_instruction_Ok _ _ _ _ He H1) as (-> & Hfresh & Henc).
  destruct (IH _ H) as (-> & ? & ?); [by constructor|]. split; [|split; [done|by constructor]].
  rewrite reverse_cons. by rewrite <- (assoc_L (++)).
Qed.

Lemma cursor_cover name l cursor stop :
  Forall encoded l -> Forall sized l ->
  ex_start e <= cursor -> stop <= ex_end e ->
  fold_outcome (cursor_step name) cursor l = Ok stop ->
  cursor <= stop /\
  mjoin (bytes_of <$> l) = slice (cursor - ex_start e) (stop - ex_start e) (ex_contents e).
Proof.
  intros Henc Hsz. revert cursor. induction l as [|ins l IH]; intros cursor Hs Hstop; cbn [fold_outcome].
  { intros [= <-]. split; [lia|]. by rewrite slice_empty. }
  intros (cursor' & Hc & H)%bind_Ok. unfold cursor_step in Hc. apply bind_Ok in Hc as (u & Ha%check_Ok & [= <-]). bool_prop.
  apply Forall_cons in Henc as [(enc & He & Hb) Henc]. apply Forall_cons in Hsz as [Hsz Hszl].
  specialize (Hsz _ He). pose proof (encoding_size_nonneg enc).
  destruct (IH Henc Hszl (cursor + ins_size ins)) as [Hle Hrest]; [lia|done|done|]. split; [lia|].
  rewrite fmap_cons. change (mjoin (bytes_of ins :: (bytes_of <$> l))) with (bytes_of ins ++ mjoin (bytes_of <$> l)).
  rewrite Hrest, <- Hb, Ha, Hsz.
  - rewrite <- (slice_split (a := cursor - ex_start e) (b := cursor - ex_start e + encoding_size enc)
                           (c := stop - ex_start e)) by lia.
    f_equal. f_equal. lia.
  - unfold holds. rewrite Ha. apply andb_true_iff. rewrite !Z.leb_le. lia.
Qed.
End function.

Lemma image_symbol_size sections strings row s :
  Forall (fun x => 0 <= x) row -> image_symbol_of sections strings row = Ok (Some s) -> 0 <= im_size s.
Proof.
  intros Hrow. unfold image_symbol_of. destruct (_ && _); [|done].
  intros (place & _ & (name & _ & [= <-])%bind_Ok)%bind_Ok. simpl. by apply field_nonneg.
Qed.

Lemma elf32_symbol_sizes data symbols executables :
  Forall is_byte data -> elf32_riscv_image data = Ok (symbols, executables) ->
  Forall (fun s => 0 <= im_size s) symbols.
Proof.
  intros Hdata. unfold elf32_riscv_image. intros (_ & _ & (header & _ & (_ & _ & (_ & _ & H)%bind_Ok)%bind_Ok)%bind_Ok)%bind_Ok.
  apply bind_Ok in H as (rows & _ & H). destruct (rows !! _); [|done].
  apply bind_Ok in H as (sections & _ & (symbols' & Hf & [= <- _])%bind_Ok).
  eapply (fold_outcome_inv (Forall (fun s => 0 <= im_size s))); [exact Hf|constructor|].
  intros acc s acc' _ Hacc. unfold image_symbols. destruct (negb _); [by intros [= <-]|].
  intros (_ & _ & Hstep)%bind_Ok. destruct (sections !! _); [|done]. apply bind_Ok in Hstep as (_ & _ & Hstep).
  eapply (fold_outcome_inv (Forall (fun s => 0 <= im_size s))); [exact Hstep|done|].
  intros acc1 pos acc1' _ Hacc1 (row & Hrow & (found & Hread & [= <-])%bind_Ok)%bind_Ok.
  destruct found as [sym|]; [|done]. apply Forall_app. split; [done|]. apply Forall_singleton.
  eapply image_symbol_size; [|exact Hread]. by eapply unpack_from_nonneg.
Qed.

Lemma largest_extent (l : list image_symbol) :
  l <> [] -> (forall s, s ∈ l -> 0 <= im_size s) ->
  exists s, s ∈ l /\ im_size s = foldr (fun s => Z.max (im_size s)) 0 l /\
    forall s', s' ∈ l -> im_size s' <= foldr (fun s => Z.max (im_size s)) 0 l.
Proof.
  induction l as [|s l IH]; intros Hne Hpos; [done|]. simpl.
  assert (0 <= im_size s) by (apply Hpos; by left). destruct l as [|s1 l].
  { exists s. simpl. split; [by left|]. split; [lia|]. intros s' ->%list_elem_of_singleton. lia. }
  destruct IH as (m & Hm & Hmax & Hall); [done|intros; apply Hpos; by right|].
  set (top := foldr _ 0 (s1 :: l)) in *. destruct (Z.max_spec (im_size s) top) as [[? ->]|[? ->]].
  - exists m. split; [by right|]. split; [done|]. intros s' [->|Hs']%elem_of_cons; [lia|by apply Hall].
  - exists s. split; [by left|]. split; [done|]. intros s' [->|Hs']%elem_of_cons; [lia|]. specialize (Hall _ Hs'). lia.
Qed.


(** ** A linked image with one function *)
Definition text_names : list Z := string_bytes ".names" ++ [0] ++ string_bytes ".symtab" ++ [0] ++ string_bytes ".text" ++ [0] ++ string_bytes "f" ++ [0].
Definition one_function_elf : list Z :=
  let names_off := 52 in
  let sym_off := names_off + len text_names in
  let text_off := sym_off + 32 in
  let sections_off := text_off + 4 in
  elf32_magic ++ [1; 0; 0; 0; 0; 0; 0; 0; 0; 0]
  ++ pack_fields elf32_header [2; 243; 1; 0; 0; sections_off; 0; 52; 0; 0; 40; 4; 1]
  ++ text_names
  ++ pack_fields elf32_symbol [0; 0; 0; 0; 0; 0] ++ pack_fields elf32_symbol [21; 0x1000; 4; 0x12; 0; 3]
  ++ [0x41; 0x11; 0x82; 0x80]
  ++ pack_fields elf32_section [6; 0; 0; 0; 0; 0; 0; 0; 0; 0]
  ++ pack_fields elf32_section [0; 3; 0; 0; names_off; len text_names; 0; 0; 1; 0]
  ++ pack_fields elf32_section [7; 2; 0; 0; sym_off; 32; 1; 0; 4; 16]
  ++ pack_fields elf32_section [15; 1; 6; 0x1000; text_off; 4; 0; 0; 2; 0].
Definition one_function_listing : string := "00001000 00000004 T f" +:+ newline_text.
Definition one_function_text : string :=
  "    1000: 1141 c.addi sp,-16" +:+ newline_text +:+ "    1002: 8082 c.jr ra" +:+ newline_text.
Definition ascii_only : Z -> bool := fun _ => false.
Definition one_function : functions :=
  parse_disassembly ascii_only one_function_text (parse_symbols ascii_only one_function_listing).1.
Example one_function_decoded :
  (fun kv => (kv.1, fn_name kv.2, (fun i => (ins_address i, ins_mnemonic i, ins_operands i, ins_size i)) <$> fn_instructions kv.2))
    <$> one_function = [(0x1000, "f", [(0x1000, "c.addi", "sp,-16", 2); (0x1002, "c.jr", "ra", 2)])].
Proof. vm_compute. reflexivity. Qed.
Example one_function_image :
  elf32_riscv_image one_function_elf =
  Ok ([ImageSymbol "f" 0x1000 4 2 ".text" 1], [Executable 0x1000 0x1004 (52 + len text_names + 32) [0x41; 0x11; 0x82; 0x80]]).
Proof. vm_compute. reflexivity. Qed.
Example one_function_bound : validate_linked_inputs ascii_only one_function_elf one_function_listing one_function = Ok tt.
Proof. vm_compute. reflexivity. Qed.
Example forged_encoding_rejected :
  validate_linked_inputs ascii_only one_function_elf one_function_listing
    (parse_disassembly ascii_only ("1000: 1101 c.addi sp,-32" +:+ newline_text) (parse_symbols ascii_only one_function_listing).1)
  = Raise (EncodingMismatch 0x1000).
Proof. vm_compute. reflexivity. Qed.
Example trailing_bytes_rejected :
  validate_linked_inputs ascii_only one_function_elf one_function_listing
    (parse_disassembly ascii_only ("1000: 1141 c.addi sp,-16" +:+ newline_text) (parse_symbols ascii_only one_function_listing).1)
  = Raise (TrailingUncovered 0x1002 "f").
Proof. vm_compute. reflexivity. Qed.

(** An encoding with an odd number of digits that does not fit its bytes ends in
    an [OverflowError], which no handler of the tool catches. *)
Example odd_encoding_crashes :
  validate_linked_inputs ascii_only one_function_elf one_function_listing
    (parse_disassembly ascii_only ("1000: 11411 c.addi sp,-16" +:+ newline_text) (parse_symbols ascii_only one_function_listing).1)
  = Crash OverflowError.
Proof. vm_compute. reflexivity. Qed.

Lemma one_function_bytes : Forall is_byte one_function_elf.
Proof.
  apply (List.Forall_forall is_byte). intros x Hx.
  assert (H : forallb (fun b => (0 <=? b) && (b <? 256)) one_function_elf = true) by (vm_compute; reflexivity).
  rewrite forallb_forall in H. apply H in Hx. unfold is_byte. bool_prop. lia.
Qed.

