(* ===== verification/Interval.v ===== *)
(** * The abstract machine of the initialization interval

    The value domain, the state and the effect of one instruction of
    [Tools/EmbeddedApplicationMacros/initialization_interval.py]: [const] to
    [State.merge], [Program.read], and of [Engine.analyze] the instructions that
    are not calls or jumps (lines 413 to 502) and the refinement of a branch's two
    edges (lines 505 to 527). *)
From S2P Require Import Prelude PyValue PyText PyRegex PyFiles PyInt Bytes Disassembly StackFrame LinkedInputs.

(** ** Values

    A value is a set of at most 32 integers, [None] when it is unknown. An integer
    of absolute value below 2^32 is a constant, one near [STACK] an address
    relative to the entry stack pointer, and [RETURN - r] stands for what register
    [r] held at entry. *)
Abbreviation absval := (option (gset Z)).
Definition STACK : Z := 2 ^ 48.
Definition RETURN : Z := - 2 ^ 48.
Definition WORD : Z := 2 ^ 32.
Definition SAVED : list nat := [8; 9; 18; 19; 20; 21; 22; 23; 24; 25; 26; 27]%nat.
Definition CALLER : list nat := [1; 5; 6; 7; 10; 11; 12; 13; 14; 15; 16; 17; 28; 29; 30; 31]%nat.

Inductive unclosed :=
  | UnsupportedRegister (text : string)
  | InconsistentStack
  | DynamicStackWrite (pc : Z)
  | DynamicStackAlignment (pc : Z)
  | UnsupportedStackArithmetic (pc : Z)
  | UnsupportedMemoryOperand (pc : Z)
  | AccessBelowStack (pc : Z)
  | UnsupportedInstruction (pc : Z) (text : string)
  (* Program *)
  | Diagnostic (error : binding_error)
  | UnsupportedRom
  | OverlappingMappings
  | ConflictingDecoding (pc : Z)
  | NotUniqueSymbol (count : nat)
  | TruncatedGap
  | HelperByteMismatch
  | IncompleteGap
  | NoFunctionBody (pc : Z)
  (* Engine.analyze *)
  | Recursion (pc : Z)
  | NotConverged (name : string)
  | EndBeforeSequence
  | MissingInstruction (pc : Z)
  | DynamicStack (pc : Z)
  | UnboundedStack (pc : Z)
  | UnresolvedBranch (pc : Z)
  | UnsupportedJalr (pc : Z)
  | UnknownTransfer (pc : Z)
  | UnbalancedStack (pc : Z)
  | NotRestored (register : nat) (pc : Z)
  | ReturnWithoutEnd
  | RecursiveEntry (pc : Z)
  | UnresolvedOnce (pc : Z)
  | StageOrder (pc : Z)
  | UnknownStackAfter (pc : Z)
  | RecursiveGraph
  | NoProvenReturn (name : string)
  (* prove and classify_application_guards *)
  | TaskTargetOpen
  | TaskRequestNotConstant
  | CapacityDiffers
  | ReservesLess
  | InitializationUnreached
  | AmbiguousEntry
  | TraceEndNotUnique
  | EscapesIntoRun
  | StagesMissing
  | AllocatorReached (reached : list (string * Z))
  | BoundExceeds (total configured : Z)
  | GuardStorage (name : string)
  | GuardOutside (name : string)
  | GuardMissing
  | NoGuards.
#[export] Instance unclosed_eq_dec : EqDecision unclosed.
Proof. solve_decision. Defined.
Abbreviation urun := (outcome unclosed).

Definition const (n : Z) : absval := Some {[ n ]}.
Definition limited (s : gset Z) : absval := if Nat.leb (size s) 32 then Some s else None.

Definition union_value (a b : absval) : absval :=
  match a, b with Some a, Some b => limited (a ∪ b) | _, _ => None end.

Definition mask32 (z : Z) : Z := Z.land z 0xFFFFFFFF.
Definition is_big (x : Z) : bool := WORD <=? Z.abs x.

(** An operation can raise: a negative shift is a [ValueError]. *)
Definition operation : Type := Z -> Z -> urun Z.
Definition total_op (f : Z -> Z -> Z) : operation := fun x y => Ok (f x y).

Definition combine (op : operation) (x y : Z) : urun Z :=
  r ← op x y; Ok (if is_big x || is_big y then r else mask32 r).

Definition pairs (a b : gset Z) : list (Z * Z) := x ← elements a; pair x <$> elements b.

Definition arithmetic (a b : absval) (op : operation) : urun absval :=
  match a, b with
  | Some a, Some b =>
      if existsb (fun x => x <? - WORD) (elements (a ∪ b)) then Ok None
      else values ← map_outcome (fun xy => combine op xy.1 xy.2) (pairs a b); Ok (limited (list_to_set values))
  | _, _ => Ok None
  end.

(** ** Registers and operands *)
Definition DigitIn (lo hi : Z) : rx := Chr (between lo hi).
Definition REGISTER : rx :=
  Seq (Str "x") (Alt (DigitIn 0x30 0x39)
                 (Alt (Seq (DigitIn 0x31 0x32) (DigitIn 0x30 0x39)) (Seq (Str "3") (DigitIn 0x30 0x31)))).
Definition decimal (l : list Z) : Z := foldl (fun acc c => acc * 10 + (c - 0x30)) 0 l.
Definition register (s : string) : urun nat :=
  let text := codepoints s in
  match re_fullmatch REGISTER text with
  | Some _ => Ok (Z.to_nat (decimal (tail text)))
  | None => Raise (UnsupportedRegister s)
  end.

Definition operands (ins : instruction) : list string :=
  strip_text <$> split_on comma (hd "" (split_on hash_sign (ins_operands ins))).
Definition operand (i : nat) (op : list string) : urun string :=
  match op !! i with Some s => Ok s | None => Crash IndexError end.
(** [op[-1]] *)
Definition last_operand (op : list string) : string := List.last op "".

Definition integer (s : string) : urun Z :=
  match int_literal (codepoints s) with Some z => Ok z | None => Crash ValueError end.

Definition signed (n : Z) : Z := let n := mask32 n in if n <? 0x80000000 then n else n - 0x100000000.

(** ** States *)
Abbreviation regfile := (list absval).
Abbreviation facts := (gmap (Z * Z) absval).
Record astate := AState { as_regs : regfile; as_memory : facts; as_phase : Z }.
#[export] Instance astate_eq_dec : EqDecision astate.
Proof. solve_decision. Defined.

Definition reg_at (r : nat) (regs : regfile) : absval := nth r regs None.

(** [setreg]: register 0 is never written. *)
Definition setreg (r : nat) (v : absval) (regs : regfile) : regfile :=
  match r with O => regs | _ => <[r := v]> regs end.

(** [State.merge]: the stack depth is not widened, and only facts of both states
    survive. *)
Definition State_merge (s t : astate) : urun astate :=
  check (bool_decide (reg_at 2 (as_regs s) = reg_at 2 (as_regs t))) InconsistentStack ;;
  Ok (AState (zip_with union_value (as_regs s) (as_regs t))
        (map_zip_with union_value (as_memory s) (as_memory t)) (as_phase s)).

(** ** The effect of one instruction that is neither a call nor a jump *)
Record effect := Effect {
  ef_regs : regfile;
  ef_memory : facts;
  ef_accesses : list (Z * Z)
}.

Definition LOADS : list (string * Z) :=
  [("lb", 1); ("lbu", 1); ("lh", 2); ("lhu", 2); ("lw", 4); ("c.lw", 4); ("c.lwsp", 4)].
Definition STORES : list (string * Z) := [("sb", 1); ("sh", 2); ("sw", 4); ("c.sw", 4); ("c.swsp", 4)].
Definition UNKNOWN_RESULTS : list string :=
  ["csrrs"; "csrrc"; "csrrw"; "csrrsi"; "csrrci"; "csrrwi"; "lr.w"; "lr.w.aq"; "sc.w"; "sc.w.rl"].
Definition UNKNOWN_ARITHMETIC : list string :=
  ["srai"; "mul"; "mulhu"; "divu"; "remu"; "xori"; "ori"; "neg"; "not"; "seqz"; "snez"].

(** [-?\d+] and [x\d+] of a memory operand: [(offset, register text)]. *)
Definition MEMORY_OPERAND : rx :=
  rx_seq [Group 1 (Seq (Opt (Str "-")) (Plus true (Chr is_decimal))); Str "(";
          Group 2 (Seq (Str "x") (Plus true (Chr is_decimal))); Str ")"].
(** [int(text)] of an optional sign and decimal digits. *)
Definition int10 (l : list Z) : Z :=
  let digits := foldl (fun acc c => acc * 10 + default 0 (decimal_value c)) 0 in
  match l with 0x2D :: l => - digits l | _ => digits l end.
Definition memory_operand (pc : Z) (s : string) : urun (Z * string) :=
  match re_fullmatch MEMORY_OPERAND (codepoints s) with
  | Some c => Ok (int10 (default [] (group 1 c)), capture_text 2 c)
  | None => Raise (UnsupportedMemoryOperand pc)
  end.

Section transfer.
(** [Program.read]: the constants of immutable sections. *)
Context (read : Z -> Z -> absval).

(** The operands [binary] combines: destination, left and right. *)
Definition sources (op : list string) (regs : regfile) (immediate compressed : bool) : urun (nat * absval * absval) :=
  first ← operand 0 op;
  dest ← register first;
  left ← (if compressed then Ok dest else second ← operand 1 op; register second);
  right ← (if immediate then n ← integer (last_operand op); Ok (const n)
           else r ← register (last_operand op); Ok (reg_at r regs));
  Ok (dest, reg_at left regs, right).

(** [binary(operation, immediate, compressed)] *)
Definition singleton_value (v : absval) : bool := match v with Some s => Nat.eqb (size s) 1 | None => false end.
Definition binary (pc : Z) (op : list string) (regs : regfile) (f : operation) (immediate compressed : bool) :
    urun regfile :=
  found ← sources op regs immediate compressed;
  let '(dest, lhs, rhs) := found in
  value ← arithmetic lhs rhs f;
  check (negb (Nat.eqb dest 2 && negb (singleton_value value))) (DynamicStackWrite pc) ;;
  Ok (setreg dest value regs).

Definition shift_left : operation := fun a b => if b <? 0 then Crash ValueError else Ok (Z.shiftl a b).
Definition shift_right : operation := fun a b => if b <? 0 then Crash ValueError else Ok (Z.shiftr (mask32 a) b).
Definition less_than (unsigned : bool) : operation :=
  total_op (fun a b => Z.b2z (if unsigned then mask32 a <? mask32 b else signed a <? signed b)).

(** [andi]: the mask of an unknown value still leaves few values. *)
Definition and_immediate (pc : Z) (op : list string) (regs : regfile) (compressed : bool) : urun regfile :=
  first ← operand 0 op;
  dest ← register first;
  check (negb (Nat.eqb dest 2)) (DynamicStackAlignment pc) ;;
  mask ← integer (last_operand op);
  source ← (if compressed then Ok dest else second ← operand 1 op; register second);
  let left := reg_at source regs in
  value ← arithmetic left (const mask) (total_op Z.land);
  let value := match left with
               | None => if (0 <=? mask) && (mask <=? 31)
                         then Some (list_to_set (List.filter (fun n => Z.land n mask =? n) (seqZ 0 (mask + 1))))
                         else value
               | Some _ => value
               end in
  Ok (setreg dest value regs).

(** The instructions that are one call of [binary]: the operation, [immediate] and
    [compressed]. *)
Definition binary_form (ins : instruction) : option (operation * bool * bool) :=
  let named names := is_mnemonic ins names in
  let c := String.prefix "c." (ins_mnemonic ins) in
  if named ["addi"; "c.addi"; "c.addi16sp"; "c.addi4spn"] then Some (total_op Z.add, true, named ["c.addi"; "c.addi16sp"])
  else if named ["add"; "c.add"] then Some (total_op Z.add, false, c)
  else if named ["sub"; "c.sub"] then Some (total_op Z.sub, false, c)
  else if named ["slli"; "c.slli"] then Some (shift_left, true, c)
  else if named ["srli"; "c.srli"] then Some (shift_right, true, c)
  else if named ["xori"] then Some (total_op Z.lxor, true, false)
  else if named ["ori"] then Some (total_op Z.lor, true, false)
  else if named ["or"; "c.or"] then Some (total_op Z.lor, false, c)
  else if named ["and"; "c.and"] then Some (total_op Z.land, false, c)
  else if named ["xor"; "c.xor"] then Some (total_op Z.lxor, false, c)
  else if named ["sltiu"; "slti"; "sltu"; "slt"]
  then Some (less_than (named ["sltiu"; "sltu"]), named ["sltiu"; "slti"], false)
  else None.

(** The register instructions; [None] when the mnemonic is not one of them. The
    mnemonics of the branches are disjoint, apart from [xori] and [ori], which
    [binary] takes before the last branch. *)
Definition register_instruction (pc : Z) (ins : instruction) (op : list string) (regs : regfile) : option (urun regfile) :=
  let named names := is_mnemonic ins names in
  let c := String.prefix "c." (ins_mnemonic ins) in
  let write (value : urun absval) :=
    first ← operand 0 op; dest ← register first; value ← value; Ok (setreg dest value regs) in
  let immediate f := write (second ← operand 1 op; n ← integer second; Ok (const (f n))) in
  match binary_form ins with
  | Some (f, imm, compressed) => Some (binary pc op regs f imm compressed)
  | None =>
      if named ["lui"; "c.lui"] then Some (immediate (fun n => Z.shiftl n 12))
      else if named ["auipc"] then Some (immediate (fun n => mask32 (pc + Z.shiftl n 12)))
      else if named ["c.li"] then Some (immediate mask32)
      else if named ["c.mv"] then
        Some (write (second ← operand 1 op; source ← register second; Ok (reg_at source regs)))
      else if named ["andi"; "c.andi"] then Some (and_immediate pc op regs c)
      else if named ["fence"; "fence.i"; "c.nop"] then Some (Ok regs)
      else if named UNKNOWN_RESULTS then Some (write (Ok None))
      else if named UNKNOWN_ARITHMETIC then
        Some (first ← operand 0 op; dest ← register first;
              check (negb (Nat.eqb dest 2)) (UnsupportedStackArithmetic pc) ;; Ok (setreg dest None regs))
      else None
  end.

(** *** Loads and stores *)
Definition stack_limit : Z := 2 ^ 20.

(** The union of the facts at every possible address. *)
Definition load_value (mem : facts) (size : Z) (addresses : gset Z) : absval :=
  match (fun ptr => default (read ptr size) (mem !! (ptr, size))) <$> elements addresses with
  | [] => None
  | v :: vs => foldl union_value v vs
  end.

Definition sign_extend (size : Z) (value : gset Z) : gset Z :=
  let bits := size * 8 in
  set_map (fun v => mask32 (if v <? 2 ^ (bits - 1) then v else v - 2 ^ bits)) value.

(** A store forgets the overlapping facts. *)
Definition store_fact (ptr size : Z) (value : absval) (mem : facts) : facts :=
  <[(ptr, size) := value]> (filter (fun kv => ~ (kv.1.1 < ptr + size /\ ptr < kv.1.1 + kv.1.2)) mem).

Definition memory_instruction (pc sp : Z) (ins : instruction) (op : list string) (regs : regfile) (mem : facts) :
    option (urun effect) :=
  let m := ins_mnemonic ins in
  let size := match dict_get m LOADS with Some n => Some n | None => dict_get m STORES end in
  match size with
  | None => None
  | Some size => Some (
      second ← operand 1 op;
      located ← memory_operand pc second;
      base ← register located.2;
      addresses ← arithmetic (reg_at base regs) (const located.1) (total_op Z.add);
      check (negb (match addresses with
                   | Some s => existsb (fun ptr => (STACK - stack_limit <=? ptr) && (ptr <? sp)) (elements s)
                   | None => false
                   end)) (AccessBelowStack pc) ;;
      let accesses := match addresses with
                      | Some s => (fun ptr => (ptr, size)) <$> List.filter (fun ptr => (0 <=? ptr) && (ptr <? WORD)) (elements s)
                      | None => []
                      end in
      first ← operand 0 op;
      match dict_get m LOADS with
      | Some _ =>
          dest ← register first;
          let value := addresses ≫= load_value mem size in
          let value := if bool_decide (m ∈ ["lb"; "lh"]) then sign_extend size <$> value else value in
          Ok (Effect (setreg dest value regs) mem accesses)
      | None =>
          match elements <$> addresses with
          | Some [ptr] =>
              if (STACK - stack_limit <=? ptr) && (ptr <=? STACK)
              then source ← register first; Ok (Effect regs (store_fact ptr size (reg_at source regs) mem) accesses)
              else Ok (Effect regs mem accesses)
          | _ => Ok (Effect regs mem accesses)
          end
      end)
  end.

Definition transfer (pc sp : Z) (ins : instruction) (regs : regfile) (mem : facts) : urun effect :=
  let op := operands ins in
  match memory_instruction pc sp ins op regs mem with
  | Some r => r
  | None =>
      match register_instruction pc ins op regs with
      | Some r => regs ← r; Ok (Effect regs mem [])
      | None => Raise (UnsupportedInstruction pc (ins_text ins))
      end
  end.
End transfer.

(** ** The two edges of a branch *)
Definition values_between (lo hi : Z) (s : gset Z) : bool := forallb (fun x => (lo <=? x) && (x <? hi)) (elements s).

(** [c.beqz] and [c.bnez]: the register is, or is not, zero on the edge. *)
Definition refine_zero (r : nat) (equal : bool) (regs : regfile) : option regfile :=
  match reg_at r regs with
  | Some value =>
      if forallb (fun x => - WORD <=? x) (elements value) then
        let kept := List.filter (fun x => Bool.eqb (x =? 0) equal) (elements value) in
        match kept with [] => None | _ => Some (<[r := Some (list_to_set kept)]> regs) end
      else Some regs
  | None => Some regs
  end.

(** The comparison a two-register branch makes, on words. *)
Definition compares (m : string) (x y : Z) : bool :=
  if bool_decide (m ∈ ["beq"; "bne"]) then mask32 x =? mask32 y
  else if bool_decide (m ∈ ["bltu"; "bgeu"]) then mask32 x <? mask32 y
  else signed x <? signed y.

Definition refine_pair (m : string) (a b : nat) (outcome : bool) (regs : regfile) : option regfile :=
  let small := match reg_at a regs with Some av => match elements av with [limit] => Some limit | _ => None end | None => None end in
  match reg_at a regs, reg_at b regs with
  | Some av, Some bv =>
      if values_between (- WORD) WORD (av ∪ bv) then
        match List.filter (fun xy => Bool.eqb (compares m xy.1 xy.2) outcome) (pairs av bv) with
        | [] => None
        | kept => Some (<[b := Some (list_to_set kept.*2)]> (<[a := Some (list_to_set kept.*1)]> regs))
        end
      else Some regs
  | Some av, None =>
      match small with
      | Some limit =>
          if bool_decide (m ∈ ["bltu"; "bgeu"]) && negb outcome && (0 <=? limit) && (limit <=? 31)
          then Some (<[b := Some (list_to_set (seqZ 0 (limit + 1)))]> regs) else Some regs
      | None => Some regs
      end
  | None, _ => Some regs
  end.

(** The registers on the edge to [target]; [None] when the edge is not taken. *)
Definition refine (ins : instruction) (target : Z) (regs : regfile) : urun (option regfile) :=
  let op := operands ins in
  let m := ins_mnemonic ins in
  let to_target := bool_decide (ins_target ins = Some target) in
  if is_mnemonic ins ["c.beqz"; "c.bnez"] then
    first ← operand 0 op;
    r ← register first;
    Ok (refine_zero r (Bool.eqb to_target (String.eqb m "c.beqz")) regs)
  else if is_mnemonic ins ["beq"; "bne"; "blt"; "bge"; "bltu"; "bgeu"] then
    first ← operand 0 op; a ← register first;
    second ← operand 1 op; b ← register second;
    Ok (refine_pair m a b (Bool.eqb to_target (is_mnemonic ins ["beq"; "blt"; "bltu"])) regs)
  else Ok (Some regs).
