(* ===== verification/Program.v ===== *)
(** * The linked program the interval engine runs on

    [Program] of [Tools/EmbeddedApplicationMacros/initialization_interval.py]: the
    firmware and ROM images with their decoded instructions, and the ownership of
    an address by a function. SHA-256 and the Unicode table are parameters. *)
From S2P Require Import Prelude PyValue PyText PyRegex PyFiles PyInt Bytes Disassembly StackFrame LinkedInputs Interval.

Record mapped_section := MappedSection { md_start : Z; md_data : list Z; md_readonly : bool }.
Record origin := Origin { og_data : list Z; og_symbols : string; og_name : string }.

(** The function table is a dictionary; [names] maps a name to the start of its
    function. [validated] and [owners] change while the program is analyzed. *)
Record program := Program {
  pr_functions : functions;
  pr_names : list (string * Z);
  pr_instructions : gmap Z instruction;
  pr_sections : list mapped_section;
  pr_rows : list image_symbol;
  pr_origins : gmap Z origin;
  pr_executable : list executable;
  pr_validated : gset Z;
  pr_owners : gmap Z function
}.
Definition empty_program : program := Program [] [] ∅ [] [] ∅ [] ∅ ∅.

Definition fn_set (a : Z) (fn : function) (fs : functions) : functions := active_set a fn fs.

Definition set_functions (fs : functions) (p : program) : program :=
  Program fs (pr_names p) (pr_instructions p) (pr_sections p) (pr_rows p) (pr_origins p) (pr_executable p)
    (pr_validated p) (pr_owners p).
Definition set_validated (v : gset Z) (p : program) : program :=
  Program (pr_functions p) (pr_names p) (pr_instructions p) (pr_sections p) (pr_rows p) (pr_origins p) (pr_executable p)
    v (pr_owners p).
Definition set_owner (a : Z) (fn : function) (p : program) : program :=
  Program (pr_functions p) (pr_names p) (pr_instructions p) (pr_sections p) (pr_rows p) (pr_origins p) (pr_executable p)
    (pr_validated p) (<[a := fn]> (pr_owners p)).

(** ** [Program.__init__] *)

(** [f"{z:08x}"] of a four-byte field. *)
Definition hex_char (d : Z) : Z := if d <? 10 then 0x30 + d else 0x57 + d.
Definition hex08 (z : Z) : string :=
  of_codepoints ((fun i => hex_char (Z.land (Z.shiftr z (4 * i)) 15)) <$> [7; 6; 5; 4; 3; 2; 1; 0]).
(** [f"{z:#x}"] *)
Fixpoint drop_zeros (l : list Z) : list Z :=
  match l with
  | c :: l' => if (c =? 0x30) && Nat.ltb 0 (length l') then drop_zeros l' else l
  | [] => []
  end.
Definition hex_alternate (z : Z) : string := "0x" +:+ of_codepoints (drop_zeros (codepoints (hex08 z))).
Definition symbol_text_line (s : image_symbol) : string :=
  hex08 (im_address s) +:+ " " +:+ hex08 (im_size s) +:+ " T " +:+ im_name s.

Definition ROM_SHA256 : string := "788e1d38724aeb8fd974fa10c4a7b089c02627d35342ce84b9e0b12b239f3551".
Definition FLASH_START : Z := 0x42000000.
Definition FLASH_END : Z := 0x42800000.

Definition overlaps (a b : executable) : bool := (ex_start a <? ex_end b) && (ex_start b <? ex_end a).

Definition mapped_section_of (data : list Z) (row : list Z) : option mapped_section :=
  if (field 1 row =? 1) && negb (Z.land (field 2 row) 2 =? 0)
  then Some (MappedSection (field 3 row) (slice (field 4 row) (field 4 row + field 5 row) data)
               ((Z.land (field 2 row) 1 =? 0)
                || ((FLASH_START <=? field 3 row) && (field 3 row <? field 3 row + field 5 row)
                    && (field 3 row + field 5 row <=? FLASH_END))))
  else None.

Definition mapped_sections (data : list Z) : urun (list mapped_section) :=
  first ← unpack_from false [4] data 32;
  counts ← unpack_from false [2; 2] data 46;
  rows ← map_outcome (fun i => unpack_from false elf32_section data (field 0 first + field 0 counts * i))
           (seqZ 0 (field 1 counts));
  Ok (omap (M := list) (mapped_section_of data) rows).

Section load.
Context (alnum : Z -> bool) (sha256 : list Z -> string).

(** The instructions of the executable sections. *)
Definition section_instructions (text : string) (name : string) (e : executable) : list instruction :=
  default [] (fn_instructions <$>
    fn_at (ex_start e) (parse_disassembly alnum text [(ex_start e, Function_ name (ex_start e) (ex_end e - ex_start e) [] [] [])])).

Definition add_instruction (instructions : gmap Z instruction) (ins : instruction) : gmap Z instruction :=
  <[ins_address ins := ins]> instructions.

(** [setdefault], rejecting a different decoding. *)
Definition default_instruction (instructions : gmap Z instruction) (ins : instruction) : urun (gmap Z instruction) :=
  match instructions !! ins_address ins with
  | Some previous => check (bool_decide (previous = ins)) (ConflictingDecoding (ins_address ins)) ;; Ok instructions
  | None => Ok (<[ins_address ins := ins]> instructions)
  end.

Definition add_function (o : origin) (p : program) (entry : Z * function) : urun program :=
  instructions ← fold_outcome default_instruction (pr_instructions p) (fn_instructions entry.2);
  Ok (Program (fn_set entry.1 entry.2 (pr_functions p)) (pr_names p) instructions (pr_sections p) (pr_rows p)
        (<[entry.1 := o]> (pr_origins p)) (pr_executable p) (pr_validated p) (pr_owners p)).

Definition load_origin (p : program) (input : string * list Z * string) : urun program :=
  let '(name, data, text) := input in
  image ← map_error Diagnostic (elf32_riscv_image data);
  let '(rows, executables) := image in
  check (negb (existsb (fun e => existsb (overlaps e) (pr_executable p)) executables)) OverlappingMappings ;;
  let instructions := foldl add_instruction (pr_instructions p) (executables ≫= section_instructions text name) in
  sections ← mapped_sections data;
  let selected := List.filter (is_function executables) rows in
  let syms := join_with newline_text (symbol_text_line <$> selected) in
  let '(by_addr, by_name) := parse_symbols alnum syms in
  let by_addr := parse_disassembly alnum text by_addr in
  p ← fold_outcome (add_function (Origin data syms name))
        (Program (pr_functions p) (pr_names p) instructions (pr_sections p ++ sections) (pr_rows p ++ rows) (pr_origins p)
           (pr_executable p ++ executables) (pr_validated p) (pr_owners p)) by_addr;
  Ok (Program (pr_functions p) (foldl (fun d kv => dict_set kv.1 kv.2 d) (pr_names p) by_name) (pr_instructions p)
        (pr_sections p) (pr_rows p) (pr_origins p) (pr_executable p) (pr_validated p) (pr_owners p)).

Definition load_program (firmware : list Z) (firmware_text : string) (rom : list Z) (rom_text : string) : urun program :=
  check (String.eqb (sha256 rom) ROM_SHA256) UnsupportedRom ;;
  fold_outcome load_origin empty_program [("firmware", firmware, firmware_text); ("rom", rom, rom_text)].

(** ** [one] *)
Definition one (p : program) (predicate : string -> bool) : urun function :=
  let result : gset Z := list_to_set (snd <$> List.filter (fun kv => predicate kv.1) (pr_names p)) in
  match elements result with
  | [start] => match fn_at start (pr_functions p) with Some fn => Ok fn | None => Crash KeyError end
  | found => Raise (NotUniqueSymbol (length found))
  end.

(** ** [function] *)
Definition raw_at (p : program) (a size : Z) : list (list Z) :=
  (fun e => slice (a - ex_start e) (a - ex_start e + size) (ex_contents e)) <$>
    List.filter (holds a size) (pr_executable p).

(** [int(encoding, 16).to_bytes(size, "little")] *)
Definition encoded (ins : instruction) : urun (list Z) :=
  match ins_encoding ins with
  | None => Crash TypeError
  | Some encoding =>
      let value := hex_value (codepoints encoding) in
      if value <? 256 ^ ins_size ins then Ok (le_split (Z.to_nat (ins_size ins)) value) else Crash OverflowError
  end.

(** A one-instruction ROM vector at [a]. *)
Definition vector_at (p : program) (a : Z) : urun (option function) :=
  match pr_instructions p !! a with
  | Some ins =>
      if String.eqb (ins_mnemonic ins) "jal" && String.eqb (hd "" (operands ins)) "x0" && (ins_size ins =? 4) then
        match raw_at p a 4 with
        | [raw] => expected ← encoded ins;
                   Ok (if bool_decide (raw = expected) then Some (Function_ ("vector@" +:+ hex_alternate a) a 4 [ins] [] []) else None)
        | _ => Ok None
        end
      else Ok None
  | None => Ok None
  end.

Definition covers_address (a : Z) (fn : function) : bool := (fn_start fn <=? a) && (a <? fn_end fn).
Definition ordered_keys (p : program) (lo hi : Z) : list Z :=
  sort_by Z.le (List.filter (fun pc => (lo <=? pc) && (pc <? hi)) ((map_to_list (pr_instructions p)).*1)).

Definition gap_step (p : program) (cursor : Z) (ins : instruction) : urun Z :=
  check (ins_address ins =? cursor) TruncatedGap ;;
  match raw_at p cursor (ins_size ins) with
  | [raw] => expected ← encoded ins; check (bool_decide (raw = expected)) HelperByteMismatch ;; Ok (cursor + ins_size ins)
  | _ => Raise HelperByteMismatch
  end.

(** The anonymous helper that fills the gap from [a]. *)
Definition gap_end (p : program) (a : Z) : Z :=
  let stops := List.filter (fun s => a <? s) ((fun kv => fn_start kv.2) <$> pr_functions p)
               ++ (ex_end <$> List.filter (fun e => (ex_start e <=? a) && (a <? ex_end e)) (pr_executable p)) in
  match stops with [] => a | s :: ss => foldl Z.min s ss end.

Definition anonymous_at (p : program) (a : Z) : urun function :=
  let stop := gap_end p a in
  let body := omap (fun pc => pr_instructions p !! pc) (ordered_keys p a stop) in
  cursor ← fold_outcome (gap_step p) a body;
  check (cursor =? stop) IncompleteGap ;;
  Ok (Function_ ("anonymous@" +:+ hex_alternate a) a (stop - a) body [] []).

(** [min(containing, key=size)]: the first of the smallest. *)
Fixpoint smallest (best : function) (l : list function) : function :=
  match l with
  | [] => best
  | fn :: l => smallest (if fn_size fn <? fn_size best then fn else best) l
  end.

Definition install (a : Z) (fn : function) (p : program) : function * program :=
  (fn, set_validated ({[ a ]} ∪ pr_validated p) (set_functions (fn_set a fn (pr_functions p)) p)).

(** The function of a known owner or of the smallest extent around [a], validated
    against the image when it is first reached. *)
Definition validate_owner (a : Z) (fn : function) (p : program) : urun (function * program) :=
  p ← (if bool_decide (fn_start fn ∈ pr_validated p) then Ok p
       else match pr_origins p !! fn_start fn with
            | None => Crash KeyError
            | Some o =>
                map_error Diagnostic (validate_linked_inputs alnum (og_data o) (og_symbols o) [(fn_start fn, fn)]) ;;
                Ok (set_validated ({[ fn_start fn ]} ∪ pr_validated p) p)
            end);
  Ok (fn, set_owner a fn p).

Definition known_owner (p : program) (a : Z) : option function :=
  match fn_at a (pr_functions p) with Some fn => Some fn | None => pr_owners p !! a end.

Definition function_at (p : program) (a : Z) : urun (function * program) :=
  match known_owner p a with
  | Some fn => validate_owner a fn p
  | None =>
      match List.filter (covers_address a) (snd <$> pr_functions p) with
      | fn :: fns => validate_owner a (smallest fn fns) p
      | [] =>
          vector ← vector_at p a;
          match vector with
          | Some fn => Ok (install a fn p)
          | None =>
              if existsb (fun kv => fn_end kv.2 =? a) (pr_functions p) && bool_decide (is_Some (pr_instructions p !! a))
              then fn ← anonymous_at p a; Ok (install a fn p)
              else Raise (NoFunctionBody a)
          end
      end
  end.
End load.

(** ** [read]: a constant of one immutable section *)
Definition read_section_bytes (a size : Z) (s : mapped_section) : option (list Z) :=
  if md_readonly s && (md_start s <=? a) && (a + size <=? md_start s + Z.of_nat (length (md_data s)))
  then Some (slice (a - md_start s) (a - md_start s + size) (md_data s)) else None.
Definition program_read (p : program) (a size : Z) : absval :=
  match omap (read_section_bytes a size) (pr_sections p) with
  | [raw] => const (from_bytes false raw)
  | _ => None
  end.
