(* ===== verification/Engine.v ===== *)
(** * The path engine of the initialization interval

    [Engine] of [Tools/EmbeddedApplicationMacros/initialization_interval.py]. The
    engine and the program it changes are passed along; a call of [analyze] inside
    [analyze] is the recursion of the source, bounded by [fuel]. *)
From S2P Require Import Prelude PyValue PyText PyRegex PyFiles PyInt Bytes Disassembly StackFrame LinkedInputs Interval Program Iterate.

Inductive engine_error :=
  | Error (e : unclosed)
  | OutOfFuel.
#[export] Instance engine_error_eq_dec : EqDecision engine_error.
Proof. solve_decision. Defined.
Abbreviation erun := (outcome engine_error).
Definition lift {A} (m : urun A) : erun A := map_error Error m.

(** ** State *)
Abbreviation callback := absval.
Abbreviation analysis_key := (Z * callback)%type.
Abbreviation stack_path := (list (string * Z)).
(** What distinguishes the states of one activation: pc, ra, t0, sp and phase. *)
Abbreviation location := (Z * absval * absval * absval * Z)%type.
Record stop := Stop { st_pc : Z; st_target : Z; st_depth : Z; st_state : astate }.

Record engine := Engine {
  en_program : program;
  en_cache : gmap analysis_key (Z * stack_path);
  en_active : list Z;
  en_edges : gset (string * Z * string * Z * nat);
  en_exceptions : gset (Z * string * string);
  en_frames : list (string * Z);
  en_dispatches : gmap Z (gset Z);
  en_return_values : gmap analysis_key (list astate);
  en_visited : gset Z;
  en_call_graph : gset (Z * Z);
  en_stage_sites : gset (Z * Z * Z * Z);
  en_accesses : gset (Z * string * Z * Z);
  en_callback_bindings : gset (Z * gset Z * gset Z);
  en_last_stops : list stop
}.
Definition new_engine (p : program) : engine := Engine p ∅ [] ∅ ∅ [] ∅ ∅ ∅ ∅ ∅ ∅ ∅ [].

Definition with_program (p : program) (e : engine) : engine :=
  Engine p (en_cache e) (en_active e) (en_edges e) (en_exceptions e) (en_frames e) (en_dispatches e) (en_return_values e)
    (en_visited e) (en_call_graph e) (en_stage_sites e) (en_accesses e) (en_callback_bindings e) (en_last_stops e).
Definition with_active (l : list Z) (e : engine) : engine :=
  Engine (en_program e) (en_cache e) l (en_edges e) (en_exceptions e) (en_frames e) (en_dispatches e) (en_return_values e)
    (en_visited e) (en_call_graph e) (en_stage_sites e) (en_accesses e) (en_callback_bindings e) (en_last_stops e).
Definition add_visited (pc : Z) (e : engine) : engine :=
  Engine (en_program e) (en_cache e) (en_active e) (en_edges e) (en_exceptions e) (en_frames e) (en_dispatches e)
    (en_return_values e) ({[ pc ]} ∪ en_visited e) (en_call_graph e) (en_stage_sites e) (en_accesses e)
    (en_callback_bindings e) (en_last_stops e).
Definition add_exception (x : Z * string * string) (e : engine) : engine :=
  Engine (en_program e) (en_cache e) (en_active e) (en_edges e) ({[ x ]} ∪ en_exceptions e) (en_frames e)
    (en_dispatches e) (en_return_values e) (en_visited e) (en_call_graph e) (en_stage_sites e) (en_accesses e)
    (en_callback_bindings e) (en_last_stops e).
Definition add_accesses (l : list (Z * string * Z * Z)) (e : engine) : engine :=
  Engine (en_program e) (en_cache e) (en_active e) (en_edges e) (en_exceptions e) (en_frames e) (en_dispatches e)
    (en_return_values e) (en_visited e) (en_call_graph e) (en_stage_sites e) (list_to_set l ∪ en_accesses e)
    (en_callback_bindings e) (en_last_stops e).
Definition add_dispatch (pc : Z) (targets : gset Z) (e : engine) : engine :=
  Engine (en_program e) (en_cache e) (en_active e) (en_edges e) (en_exceptions e) (en_frames e)
    (<[pc := targets ∪ default ∅ (en_dispatches e !! pc)]> (en_dispatches e)) (en_return_values e) (en_visited e)
    (en_call_graph e) (en_stage_sites e) (en_accesses e) (en_callback_bindings e) (en_last_stops e).
Definition add_transfer (edge : string * Z * string * Z * nat) (call : option (Z * Z)) (binding : option (Z * gset Z * gset Z))
    (site : option (Z * Z * Z * Z)) (e : engine) : engine :=
  Engine (en_program e) (en_cache e) (en_active e) ({[ edge ]} ∪ en_edges e) (en_exceptions e) (en_frames e)
    (en_dispatches e) (en_return_values e) (en_visited e)
    (match call with Some c => {[ c ]} ∪ en_call_graph e | None => en_call_graph e end)
    (match site with Some s => {[ s ]} ∪ en_stage_sites e | None => en_stage_sites e end) (en_accesses e)
    (match binding with Some b => {[ b ]} ∪ en_callback_bindings e | None => en_callback_bindings e end) (en_last_stops e).
(** The assignments at the end of an analysis. *)
Definition finish_analysis (key : analysis_key) (name : string) (local_max : Z) (returned : list astate)
    (cached : option (Z * stack_path)) (stops : list stop) (e : engine) : engine :=
  Engine (en_program e) (match cached with Some r => <[key := r]> (en_cache e) | None => en_cache e end) (en_active e)
    (en_edges e) (en_exceptions e) (dict_set name local_max (en_frames e)) (en_dispatches e)
    (<[key := returned]> (en_return_values e)) (en_visited e) (en_call_graph e) (en_stage_sites e) (en_accesses e)
    (en_callback_bindings e) stops.

(** The keyword arguments of [analyze]. *)
Record request := Request {
  rq_callback : option (gset Z);
  rq_seed : option (regfile * facts);
  rq_stop_calls : list Z;
  rq_skip_calls : bool;
  rq_inline_calls : bool;
  rq_summaries : list Z;
  rq_stop_pcs : list Z;
  rq_stages : list Z
}.
Definition plain_request (cb : option (gset Z)) : request := Request cb None [] false false [] [] [].

(** The local variables of one activation. [returns] is the length of
    [return_states]. *)
Record activation := Activation {
  ac_states : gmap location astate;
  ac_work : list location;
  ac_maximum : Z;
  ac_maximum_path : stack_path;
  ac_return_states : list astate;
  ac_stops : list stop;
  ac_count : Z;
  ac_local_max : Z
}.

(** What an iteration computes before it looks at the successors. *)
Record flowing := Flowing {
  fl_regs : regfile;
  fl_memory : facts;
  fl_phase : Z;
  fl_targets : list Z;
  fl_maximum : Z;
  fl_path : stack_path;
  fl_returned : list astate;
  fl_stops : list stop
}.

(** ** Control transfers *)
Definition TRAPS : list string := ["c.unimp"; "unimp"; "ebreak"; "c.ebreak"].
Definition INTERVAL_BRANCHES : list string := ["beq"; "bne"; "blt"; "bge"; "bltu"; "bgeu"; "c.beqz"; "c.bnez"].
Definition JUMPS : list string := ["c.j"; "jal"; "c.jal"; "jalr"; "c.jalr"; "c.jr"].
Definition EXCEPTIONAL : list string :=
  ["__stack_chk_fail"; "__assert_func"; "abort"; "panic_abort"; "esp_system_abort"; "_esp_error_check_failed"].
Definition trap_scope : string := "synchronous exception; handler/interrupt stack excluded".
Definition exceptional_scope : string := "exceptional termination; handler stack excluded".

(** The link register and the destinations of a jump. *)
Definition jalr_destinations (pc : Z) (op : list string) (regs : regfile) : urun absval :=
  second ← operand 1 op;
  located ← map_error (fun _ => UnsupportedJalr pc) (memory_operand pc second);
  r ← register located.2;
  let base := reg_at r regs in
  if (located.1 =? 0) && bool_decide (base = const RETURN) then Ok base
  else arithmetic base (const located.1) (total_op (fun x y => Z.land (x + y) (-2))).

Definition jump_destinations (pc : Z) (ins : instruction) (op : list string) (regs : regfile) : urun (nat * absval) :=
  let direct := match ins_target ins with Some t => const t | None => None end in
  if is_mnemonic ins ["c.j"] then Ok (0%nat, direct)
  else if is_mnemonic ins ["c.jal"] then Ok (1%nat, direct)
  else if is_mnemonic ins ["jal"] then first ← operand 0 op; rd ← register first; Ok (rd, direct)
  else if is_mnemonic ins ["jalr"] then
    first ← operand 0 op; rd ← register first; destinations ← jalr_destinations pc op regs; Ok (rd, destinations)
  else first ← operand 0 op; r ← register first;
       Ok ((if is_mnemonic ins ["c.jalr"] then 1%nat else 0%nat), reg_at r regs).

(** The verified byte copy: facts inside the source move, facts that touch the
    destination go; an unknown copy keeps only entry tokens. *)
Definition single (v : absval) : option Z := match elements <$> v with Some [x] => Some x | _ => None end.

Definition inside_source (src length : Z) (kv : (Z * Z) * absval) : bool :=
  (src <=? kv.1.1) && (kv.1.1 + kv.1.2 <=? src + length).
Definition copied (dst src length : Z) (mem : facts) : facts :=
  list_to_map ((fun kv => ((dst + kv.1.1 - src, kv.1.2), kv.2)) <$> List.filter (inside_source src length) (map_to_list mem)).
Definition clear_of (dst length : Z) (mem : facts) : facts :=
  filter (fun kv => ~ (dst < kv.1.1 + kv.1.2 /\ kv.1.1 < dst + length)) mem.
Definition is_token_value (v : absval) : bool :=
  match v with Some s => forallb (fun x => x <=? RETURN) (elements s) | None => false end.

Definition memcpy_effect (dst src length : absval) (mem : facts) : facts :=
  match single dst, single src, single length with
  | Some dst, Some src, Some length =>
      if (0 <=? length) && (length <=? 65536) then copied dst src length mem ∪ clear_of dst length mem else mem
  | _, _, _ => filter (fun kv => is_token_value kv.2 = true) mem
  end.

(** The registers after a call: caller-saved ones are unknown, unless the summary of
    the callee exports its results. *)
Definition forget_caller (regs : regfile) : regfile := foldl (fun regs r => setreg r None regs) regs CALLER.
Definition exported_value (r : nat) (states : list astate) : absval :=
  match states with
  | [] => None
  | s :: rest => foldl (fun v t => union_value v (reg_at r (as_regs t))) (reg_at r (as_regs s)) rest
  end.
Definition export (states : list astate) (regs : regfile) : regfile :=
  match states with
  | [] => regs
  | _ => foldl (fun regs r => setreg r (exported_value r states) regs) regs (seq 10 8)
  end.

Definition initial_regs (cb : option (gset Z)) : regfile :=
  let regs := <[2%nat := const STACK]> (<[1%nat := const RETURN]> (<[0%nat := const 0]> (repeat (None : absval) 32))) in
  let regs := foldl (fun regs r => <[r := const (RETURN - Z.of_nat r)]> regs) regs SAVED in
  match cb with Some s => <[11%nat := Some s]> regs | None => regs end.

Definition location_of (pc : Z) (regs : regfile) (phase : Z) : location := (pc, reg_at 1 regs, reg_at 5 regs, reg_at 2 regs, phase).
Definition index_of (t : Z) (stages : list Z) : option nat := fst <$> list_find (fun x => x = t) stages.

(** [set(targets)] and a frozenset are iterated in an order of the interpreter's. *)
Section engine.
Context (alnum : Z -> bool) (set_order : list Z -> list Z).

Definition first_of (v : absval) : urun Z :=
  match v with
  | None => Crash TypeError
  | Some s => match set_order (elements s) with x :: _ => Ok x | [] => Crash StopIteration end
  end.

Definition function_of_pc (a : Z) (e : engine) : erun (function * engine) :=
  found ← lift (function_at alnum (en_program e) a);
  Ok (found.1, with_program found.2 e).

Section activation.
Context (analyze : Z -> request -> engine -> erun ((Z * stack_path) * engine)).
Context (address : Z) (rq : request) (initial_sp : absval) (initial_saved : list absval).

(** What a [ret] must have restored. *)
Definition check_return (pc : Z) (fl : flowing) : urun flowing :=
  check (bool_decide (reg_at 2 (fl_regs fl) = initial_sp)) (UnbalancedStack pc) ;;
  for_each (fun rv => check (bool_decide (reg_at rv.1 (fl_regs fl) = rv.2)) (NotRestored rv.1 pc)) (zip SAVED initial_saved) ;;
  check (negb (Nat.ltb 0 (length (rq_stages rq)) && (fl_phase fl =? 2))) ReturnWithoutEnd ;;
  Ok (Flowing (fl_regs fl) (fl_memory fl) (fl_phase fl) [] (fl_maximum fl) (fl_path fl)
        (fl_returned fl ++ [AState (fl_regs fl) (fl_memory fl) (fl_phase fl)]) (fl_stops fl)).

(** A call of [target]: the callee's bound, and the registers and facts after it. *)
Definition call_step (owner : function) (pc following depth : Z) (rd : nat) (target : Z) (target_fn : function)
    (fl : flowing) (e : engine) : erun (flowing * engine) :=
  let regs := fl_regs fl in
  let cb := if String.eqb (fn_name target_fn) "swift_once" then reg_at 11 regs else None in
  let summary := bool_decide (target ∈ rq_summaries rq) in
  called ← (if rq_skip_calls rq && negb summary then Ok ((0, []), e) else analyze target (plain_request cb) e);
  let '((bound, path), e) := called in
  let exported := if rq_skip_calls rq && summary then default [] (en_return_values e !! (target, cb)) else [] in
  let '(maximum, maximum_path) :=
    if fl_maximum fl <? depth + bound then (depth + bound, (fn_name owner, pc) :: path) else (fl_maximum fl, fl_path fl) in
  let mem := if target =? 0x400004AC then memcpy_effect (reg_at 10 regs) (reg_at 11 regs) (reg_at 12 regs) (fl_memory fl)
             else fl_memory fl in
  Ok (Flowing (export exported (setreg rd (const following) (forget_caller regs))) mem (fl_phase fl)
        (fl_targets fl ++ [following]) maximum maximum_path (fl_returned fl) (fl_stops fl), e).

(** [swift_once] needs a known guard and callback. *)
Definition once_binding (pc : Z) (target_fn : function) (regs : regfile) : urun (option (Z * gset Z * gset Z)) :=
  if String.eqb (fn_name target_fn) "swift_once" then
    match reg_at 10 regs, reg_at 11 regs with
    | Some guards, Some callbacks => Ok (Some (pc, guards, callbacks))
    | _, _ => Raise (UnresolvedOnce pc)
    end
  else Ok None.

Definition next_stage (pc target phase : Z) : urun (option Z) :=
  match index_of target (rq_stages rq) with
  | None => Ok None
  | Some index => check (phase =? Z.of_nat index) (StageOrder pc) ;; Ok (Some (phase + 1))
  end.

(** One destination of a jump. *)
Definition destination_step (owner : function) (pc following depth : Z) (rd : nat)
    (acc : flowing * engine) (target : Z) : erun (flowing * engine) :=
  let '(fl, e) := acc in
  found ← function_of_pc target e;
  let '(target_fn, e) := found in
  let linking := bool_decide (rd ∈ [0; 1; 5]%nat) in
  check (negb ((target =? fn_start owner) && linking)) (Error (RecursiveEntry pc)) ;;
  let call := if (target =? fn_start target_fn) && negb (fn_start target_fn =? fn_start owner) && linking
              then Some (fn_start owner, fn_start target_fn) else None in
  binding ← lift (once_binding pc target_fn (fl_regs fl));
  stage ← lift (next_stage pc target (fl_phase fl));
  let phase := default (fl_phase fl) stage in
  let e := add_transfer (fn_name owner, pc, fn_name target_fn, target, rd) call binding
             ((fun s => (s, pc, target, depth)) <$> stage) e in
  let fl := Flowing (fl_regs fl) (fl_memory fl) phase (fl_targets fl) (fl_maximum fl) (fl_path fl) (fl_returned fl) (fl_stops fl) in
  if bool_decide (target ∈ rq_stop_calls rq) then
    Ok (Flowing (fl_regs fl) (fl_memory fl) phase (fl_targets fl) (fl_maximum fl) (fl_path fl) (fl_returned fl)
          (fl_stops fl ++ [Stop pc target depth (AState (fl_regs fl) (fl_memory fl) phase)]), e)
  else if bool_decide (fn_name target_fn ∈ EXCEPTIONAL) then
    Ok (fl, add_exception (pc, fn_name target_fn, exceptional_scope) e)
  else if (fn_start target_fn =? fn_start owner) || bool_decide (rd ∈ [0; 5]%nat)
          || (rq_inline_calls rq && negb (bool_decide (target ∈ rq_summaries rq))) then
    Ok (Flowing (setreg rd (const following) (fl_regs fl)) (fl_memory fl) phase (fl_targets fl ++ [target])
          (fl_maximum fl) (fl_path fl) (fl_returned fl) (fl_stops fl), e)
  else call_step owner pc following depth rd target target_fn fl e.

Definition jump_step (owner : function) (pc following depth : Z) (ins : instruction) (fl : flowing) (e : engine) :
    erun (flowing * engine) :=
  found ← lift (jump_destinations pc ins (operands ins) (fl_regs fl));
  let '(rd, destinations) := found in
  match destinations with
  | None => Raise (Error (UnknownTransfer pc))
  | Some destinations =>
      fl ← (if bool_decide (RETURN ∈ destinations) then lift (check_return pc fl) else Ok fl);
      let targets := destinations ∖ {[ RETURN ]} in
      if bool_decide (targets = ∅) then Ok (fl, e)
      else
        let e := if Nat.ltb 1 (size targets) then add_dispatch pc targets e else e in
        fold_outcome (destination_step owner pc following depth rd)
          (Flowing (fl_regs fl) (fl_memory fl) (fl_phase fl) [] (fl_maximum fl) (fl_path fl) (fl_returned fl) (fl_stops fl), e)
          (sort_by Z.le (elements targets))
  end.

(** ** One iteration *)
(** The instruction's effect and its successors, before the edges are refined. *)
Definition body_step (owner : function) (pc depth sp : Z) (ins : instruction) (state : astate) (ac : activation)
    (e : engine) : erun (flowing * engine) :=
  let following := pc + ins_size ins in
  let path_maximum := if ac_maximum ac <? depth then (depth, [(fn_name owner, pc)]) else (ac_maximum ac, ac_maximum_path ac) in
  let flow targets regs mem :=
    Flowing regs mem (as_phase state) targets path_maximum.1 path_maximum.2 (ac_return_states ac) (ac_stops ac) in
  if is_mnemonic ins TRAPS then
    Ok (flow [] (as_regs state) (as_memory state), add_exception (pc, ins_mnemonic ins, trap_scope) e)
  else if is_mnemonic ins INTERVAL_BRANCHES then
    match ins_target ins with
    | None => Raise (Error (UnresolvedBranch pc))
    | Some target =>
        lift (if is_mnemonic ins ["bltu"; "bgeu"]
              then first ← operand 0 (operands ins); _ ← register first;
                   second ← operand 1 (operands ins); _ ← register second; Ok tt
              else Ok tt) ;;
        Ok (flow [following; target] (as_regs state) (as_memory state), e)
    end
  else if is_mnemonic ins JUMPS then
    jump_step owner pc following depth ins (flow [following] (as_regs state) (as_memory state)) e
  else
    eff ← lift (transfer (program_read (en_program e)) pc sp ins (as_regs state) (as_memory state));
    Ok (flow [following] (ef_regs eff) (ef_memory eff),
        add_accesses ((fun a => (pc, ins_mnemonic ins, a.1, a.2)) <$> ef_accesses eff) e).

(** One successor: the refined registers reach the location of the target. *)
Definition edge_step (ins : instruction) (fl : flowing) (acc : gmap location astate * list location) (target : Z) :
    urun (gmap location astate * list location) :=
  let '(states, work) := acc in
  refined ← refine ins target (fl_regs fl);
  match refined with
  | None => Ok (states, work)
  | Some regs =>
      let successor := location_of target regs (fl_phase fl) in
      let new := AState regs (fl_memory fl) (fl_phase fl) in
      match states !! successor with
      | Some old =>
          merged ← State_merge old new;
          Ok (if bool_decide (merged = old) then (states, work) else (<[successor := merged]> states, work ++ [successor]))
      | None => Ok (<[successor := new]> states, work ++ [successor])
      end
  end.

(** The checks on the stack pointer at the start of an iteration. *)
Definition stack_depth (pc : Z) (regs : regfile) : urun (Z * Z) :=
  match elements <$> reg_at 2 regs with
  | Some [sp] =>
      let depth := STACK - sp in
      check (negb ((depth <? 0) || (2 ^ 20 <? depth))) (UnboundedStack pc) ;; Ok (sp, depth)
  | _ => Raise (DynamicStack pc)
  end.

Definition visit_location (current : location) (state : astate) (ac : activation) (e : engine) : erun (activation * engine) :=
  let pc := current.1.1.1.1 in
  let e := add_visited pc e in
  if bool_decide (pc ∈ rq_stop_pcs rq) then
    check (negb (Nat.ltb 0 (length (rq_stages rq)) && negb (as_phase state =? Z.of_nat (length (rq_stages rq)))))
          (Error EndBeforeSequence) ;;
    sp ← lift (first_of (reg_at 2 (as_regs state)));
    Ok (Activation (ac_states ac) (ac_work ac) (ac_maximum ac) (ac_maximum_path ac) (ac_return_states ac)
          (ac_stops ac ++ [Stop pc pc (STACK - sp) state]) (ac_count ac) (ac_local_max ac), e)
  else
    found ← function_of_pc pc e;
    let '(owner, e) := found in
    match pr_instructions (en_program e) !! pc with
    | None => Raise (Error (MissingInstruction pc))
    | Some ins =>
        stack ← lift (stack_depth pc (as_regs state));
        let '(sp, depth) := stack in
        flowed ← body_step owner pc depth sp ins state ac e;
        let '(fl, e) := flowed in
        check (bool_decide (reg_at 2 (fl_regs fl) <> None)) (Error (UnknownStackAfter pc)) ;;
        reached ← lift (fold_outcome (edge_step ins fl) (ac_states ac, ac_work ac)
                          (set_order (elements (list_to_set (fl_targets fl) : gset Z))));
        Ok (Activation reached.1 reached.2 (fl_maximum fl) (fl_path fl) (fl_returned fl) (fl_stops fl) (ac_count ac)
              (Z.max (ac_local_max ac) depth), e)
    end.

(** One iteration of [while work]. *)
Definition iteration_limit : Z := 100000.
Definition activation_step (name : string) (st : activation * engine) :
    activation * engine + erun (activation * engine) :=
  let '(ac, e) := st in
  match ac_work ac with
  | [] => inr (Ok (ac, e))
  | current :: work =>
      let count := ac_count ac + 1 in
      if iteration_limit <? count then inr (Raise (Error (NotConverged name)))
      else
        match ac_states ac !! current with
        | None => inr (Crash KeyError)
        | Some state =>
            match visit_location current state
                    (Activation (ac_states ac) work (ac_maximum ac) (ac_maximum_path ac) (ac_return_states ac) (ac_stops ac)
                       count (ac_local_max ac)) e with
            | Ok st => inl st
            | Raise x => inr (Raise x)
            | Crash x => inr (Crash x)
            end
        end
  end.
End activation.

(** ** The call graph has no cycle *)
Definition adjacent (graph : gset (Z * Z)) (node : Z) : list Z :=
  snd <$> List.filter (fun edge => edge.1 =? node) (elements graph).

(** [for target in targets: acyclic(target, path)], with [completed] passed along;
    [None] is not enough fuel. *)
Fixpoint each_target (visit : Z -> gset Z -> option (urun (gset Z))) (l : list Z) (completed : gset Z) :
    option (urun (gset Z)) :=
  match l with
  | [] => Some (Ok completed)
  | t :: l =>
      match visit t completed with
      | Some (Ok completed) => each_target visit l completed
      | r => r
      end
  end.

(** [acyclic(node, path)] *)
Fixpoint acyclic (fuel : nat) (graph : gset (Z * Z)) (path : gset Z) (node : Z) (completed : gset Z) : option (urun (gset Z)) :=
  match fuel with
  | O => None
  | S fuel =>
      if bool_decide (node ∈ path) then Some (Raise RecursiveGraph)
      else if bool_decide (node ∈ completed) then Some (Ok completed)
      else
        match each_target (acyclic fuel graph ({[ node ]} ∪ path)) (adjacent graph node) completed with
        | Some (Ok completed) => Some (Ok ({[ node ]} ∪ completed))
        | r => r
        end
  end.

Definition graph_nodes (graph : gset (Z * Z)) : gset Z := set_map fst graph ∪ set_map snd graph.
Definition check_acyclic (graph : gset (Z * Z)) : erun unit :=
  match each_target (acyclic (S (size (graph_nodes graph))) graph ∅) (elements (set_map (C := gset _) (D := gset Z) fst graph)) ∅ with
  | Some (Ok _) => Ok tt
  | Some (Raise e) => Raise (Error e)
  | Some (Crash x) => Crash x
  | None => Raise OutOfFuel
  end.

(** ** [analyze] *)
Definition is_special (rq : request) : bool :=
  bool_decide (is_Some (rq_seed rq)) || Nat.ltb 0 (length (rq_stop_calls rq)) || rq_skip_calls rq || rq_inline_calls rq
  || Nat.ltb 0 (length (rq_stop_pcs rq)).

Definition loop_depth : nat := 17.

Definition start_activation (address : Z) (seed : regfile * facts) : activation :=
  let key := location_of address seed.1 0 in
  Activation {[ key := AState seed.1 seed.2 0 ]} [key] 0 [] [] [] 0 0.

(** The rest of an analysis once the worklist is empty. *)
Definition conclude (address : Z) (rq : request) (fn : function) (ac : activation) (e : engine) :
    erun ((Z * stack_path) * engine) :=
  let e := with_active (removelast (en_active e)) e in
  check_acyclic (en_call_graph e) ;;
  let result := (ac_maximum ac, ac_maximum_path ac) in
  check (is_special rq || negb (Nat.eqb (length (ac_return_states ac)) 0)) (Error (NoProvenReturn (fn_name fn))) ;;
  Ok (result, finish_analysis (address, rq_callback rq) (fn_name fn) (ac_local_max ac) (ac_return_states ac)
                (if is_special rq then None else Some result) (ac_stops ac) e).

Definition enter (address : Z) (e : engine) : erun (function * engine) :=
  check (negb (bool_decide (address ∈ en_active e))) (Error (Recursion address)) ;;
  function_of_pc address (with_active (en_active e ++ [address]) e).

Definition request_seed (rq : request) : regfile * facts := default (initial_regs (rq_callback rq), ∅) (rq_seed rq).
Definition saved_values (seed : regfile * facts) : list absval := (fun r => reg_at r seed.1) <$> SAVED.

(** [while work]: the limit of the iterations is below [2 ^ loop_depth]. *)
Definition run_activation (an : Z -> request -> engine -> erun ((Z * stack_path) * engine)) (rq : request) (name : string)
    (address : Z) (e : engine) : erun (activation * engine) :=
  let seed := request_seed rq in
  default (Raise OutOfFuel)
    (run_loop (activation_step an rq (reg_at 2 seed.1) (saved_values seed) name) loop_depth (start_activation address seed, e)).

Fixpoint analyze (fuel : nat) (address : Z) (rq : request) (e : engine) : erun ((Z * stack_path) * engine) :=
  match fuel with
  | O => Raise OutOfFuel
  | S fuel =>
      match (if is_special rq then None else en_cache e !! (address, rq_callback rq)) with
      | Some result => Ok (result, e)
      | None =>
          entered ← enter address e;
          ended ← run_activation (analyze fuel) rq (fn_name entered.1) address entered.2;
          conclude address rq entered.1 ended.1 ended.2
      end
  end.
End engine.
