(* ===== verification/IntervalFixture.v ===== *)
(** * Small programs for the interval engine *)
From S2P Require Import Prelude PyValue PyText PyRegex PyFiles PyInt Bytes Disassembly StackFrame LinkedInputs Interval Program Engine.

Definition ascii_only (c : Z) : bool := false.
Definition listing_line (address encoding mnemonic operands : string) : string :=
  address +:+ ": " +:+ encoding +:+ " " +:+ mnemonic +:+ " " +:+ operands.

(** A function body over decoded lines, already validated. *)
Definition body_of (name : string) (start size : Z) (lines : list string) : function :=
  Function_ name start size (omap (fun l => decode_line ascii_only (codepoints l)) lines) [] [].
Definition program_of (fns : list function) : program :=
  Program ((fun fn => (fn_start fn, fn)) <$> fns) ((fun fn => (fn_name fn, fn_start fn)) <$> fns)
    (foldl add_instruction ∅ (fns ≫= fn_instructions)) [] [] ∅ [] (list_to_set (fn_start <$> fns)) ∅.

Definition leaf : function := body_of "leaf" 0x100 10
  ["100: 1141 c.addi x2, -16"; "102: c606 c.swsp x1, 12(x2)"; "104: 40b2 c.lwsp x1, 12(x2)"; "106: 0141 c.addi x2, 16";
   "108: 8082 c.jr x1"].
Definition caller : function := body_of "caller" 0x200 14
  ["200: 1101 c.addi x2, -32"; "202: ce06 c.swsp x1, 28(x2)"; "204: efdff0ef jal x1, 0x100 <leaf>";
   "208: 40f2 c.lwsp x1, 28(x2)"; "20a: 6105 c.addi16sp x2, 32"; "20c: 8082 c.jr x1"].

Definition small : program := program_of [leaf; caller].
