(* ===== verification/ProgramTheorems.v ===== *)
(** * The addresses of a program

    The addresses a function can be found for, which the lookups do not extend, and
    the code, which they do not change. *)
From S2P Require Import Prelude PyValue PyText PyRegex PyFiles PyInt Bytes Disassembly StackFrame LinkedInputs Interval Program.

Definition range_set (start size : Z) : gset Z := list_to_set (seqZ start size).
Lemma elem_of_range x start size : x ∈ range_set start size <-> start <= x < start + size.
Proof. unfold range_set. by rewrite elem_of_list_to_set, elem_of_seqZ. Qed.

Record within (W : gset Z) (p : program) : Prop := {
  wi_functions : forall k fn, (k, fn) ∈ pr_functions p -> k ∈ W /\ forall x, fn_start fn <= x < fn_end fn -> x ∈ W;
  wi_owners : forall a fn, pr_owners p !! a = Some fn -> a ∈ W;
  wi_instructions : forall a ins, pr_instructions p !! a = Some ins -> a ∈ W;
  wi_executable : forall e x, e ∈ pr_executable p -> ex_start e <= x < ex_end e -> x ∈ W
}.

(** A finite set of them. *)
Definition addresses (p : program) : gset Z :=
  list_to_set (pr_functions p).*1
  ∪ ⋃ ((fun kv => range_set (fn_start kv.2) (fn_size kv.2)) <$> pr_functions p)
  ∪ dom (pr_owners p) ∪ dom (pr_instructions p)
  ∪ ⋃ ((fun e => range_set (ex_start e) (ex_end e - ex_start e)) <$> pr_executable p).

Lemma within_addresses p : within (addresses p) p.
Proof.
  unfold addresses. split.
  - intros k fn Hin. split.
    + do 4 apply elem_of_union_l. apply elem_of_list_to_set, list_elem_of_fmap. by exists (k, fn).
    + intros x Hx. do 3 apply elem_of_union_l. apply elem_of_union_r, elem_of_union_list.
      exists (range_set (fn_start fn) (fn_size fn)). split; [|by apply elem_of_range].
      apply list_elem_of_fmap. by exists (k, fn).
  - intros a fn Ha. do 2 apply elem_of_union_l. apply elem_of_union_r, elem_of_dom. by exists fn.
  - intros a ins Ha. apply elem_of_union_l, elem_of_union_r, elem_of_dom. by exists ins.
  - intros e x He Hx. apply elem_of_union_r, elem_of_union_list.
    exists (range_set (ex_start e) (ex_end e - ex_start e)). split; [|apply elem_of_range; lia].
    apply list_elem_of_fmap. by exists e.
Qed.

Lemma elem_of_fn_set kv a fn fs : kv ∈ fn_set a fn fs -> kv = (a, fn) \/ kv ∈ fs.
Proof.
  unfold fn_set. induction fs as [|[k f] fs IH]; simpl.
  - intros ->%list_elem_of_singleton. by left.
  - destruct (Z.eqb_spec k a) as [->|]; intros [->|Hin]%elem_of_cons; [by left|right; by right|right; by left|].
    destruct (IH Hin); [by left|right; by right].
Qed.

Lemma fn_at_elem a fn fs : fn_at a fs = Some fn -> (a, fn) ∈ fs.
Proof.
  unfold fn_at. destruct (List.find _ fs) as [[k f]|] eqn:E; [|done]. simpl. intros [= ->].
  apply find_some in E as [Hin Ha%Z.eqb_eq]. simpl in Ha. subst k. by apply list_elem_of_In.
Qed.

Section within.
Context (alnum : Z -> bool) (W : gset Z).

Lemma raw_within p a size raws : within W p -> raw_at p a size = raws -> raws <> [] -> forall x, a <= x < a + size -> x ∈ W.
Proof.
  unfold raw_at. intros Hp <- Hne x Hx. destruct (List.filter _ _) as [|e es] eqn:E; [done|].
  assert (Hin : In e (List.filter (holds a size) (pr_executable p))) by (rewrite E; by left).
  apply filter_In in Hin as [Hin Hh]. unfold holds in Hh. eapply (wi_executable _ _ Hp e); [by apply list_elem_of_In|lia].
Qed.

Lemma gap_within p body a cursor : within W p -> fold_outcome (gap_step p) a body = Ok cursor ->
  forall x, a <= x < cursor -> x ∈ W.
Proof.
  intros Hp. revert a. induction body as [|ins body IH]; intros a; simpl; [intros [= <-]; lia|].
  intros (c & Hc & Hrest)%bind_Ok x Hx. unfold gap_step in Hc. apply bind_Ok in Hc as (_ & _ & Hc).
  destruct (raw_at p a (ins_size ins)) as [|raw [|]] eqn:Hraw; [done| |done].
  apply bind_Ok in Hc as (_ & _ & (_ & _ & [= <-])%bind_Ok).
  destruct (decide (x < a + ins_size ins)).
  - eapply raw_within; [done|exact Hraw|done|lia].
  - eapply IH; [exact Hrest|lia].
Qed.

Lemma install_within p a fn : within W p -> fn_start fn = a -> a ∈ W -> (forall x, a <= x < fn_end fn -> x ∈ W) ->
  within W (install a fn p).2.
Proof.
  intros [Hf Ho Hi He] Hstart Ha Hr. split; simpl; [|done..].
  intros k g [[= -> ->]|Hin]%elem_of_fn_set; [|by apply Hf]. split; [done|]. intros x. rewrite Hstart. apply Hr.
Qed.

Lemma validate_owner_within p a fn fn' q : within W p -> a ∈ W -> validate_owner alnum a fn p = Ok (fn', q) -> within W q.
Proof.
  intros [Hf Ho Hi He] Ha. unfold validate_owner. intros (p1 & Hp1 & [= <- <-])%bind_Ok.
  assert (Hsame : pr_functions p1 = pr_functions p /\ pr_owners p1 = pr_owners p /\ pr_instructions p1 = pr_instructions p
                  /\ pr_executable p1 = pr_executable p).
  { case_bool_decide; [by injection Hp1 as <-|]. destruct (pr_origins p !! _); [|done].
    by apply bind_Ok in Hp1 as (_ & _ & [= <-]). }
  destruct Hsame as (E1 & E2 & E3 & E4). split; simpl; rewrite ?E1, ?E2, ?E3, ?E4; [done| |done|done].
  intros b g [[<- _]|[_ Hb]]%lookup_insert_Some; [done|by eapply Ho].
Qed.

Lemma function_at_within p a fn q : within W p -> function_at alnum p a = Ok (fn, q) -> a ∈ W /\ within W q.
Proof.
  intros Hp. unfold function_at, known_owner.
  destruct (fn_at a (pr_functions p)) as [f|] eqn:Hf.
  { intros H. assert (a ∈ W) by (apply fn_at_elem in Hf; exact (proj1 (wi_functions _ _ Hp _ _ Hf))).
    split; [done|]. by eapply validate_owner_within. }
  destruct (pr_owners p !! a) as [f|] eqn:Ho.
  { intros H. assert (a ∈ W) by by eapply wi_owners. split; [done|]. by eapply validate_owner_within. }
  destruct (List.filter _ _) as [|f fs] eqn:Hfilter.
  - intros (vector & Hv & H)%bind_Ok. destruct vector as [f|].
    + unfold vector_at in Hv. destruct (pr_instructions p !! a) as [ins|] eqn:Hins; [|done].
      destruct (_ && _); [|done]. destruct (raw_at p a 4) as [|raw [|]] eqn:Hraw; [done| |done].
      apply bind_Ok in Hv as (expected & _ & Hv). case_bool_decide; [|done]. injection Hv as <-. injection H as <- <-.
      assert (a ∈ W) by by eapply wi_instructions. split; [done|]. apply install_within; [done..|].
      intros x. unfold fn_end. simpl. eapply raw_within; [done|exact Hraw|done].
    + destruct (_ && _) eqn:Hc; [|done]. apply bind_Ok in H as (f & Hanon & [= <- <-]).
      apply andb_true_iff in Hc as [_ [ins Hins]%bool_decide_eq_true].
      assert (a ∈ W) by by eapply wi_instructions. split; [done|].
      unfold anonymous_at in Hanon. apply bind_Ok in Hanon as (cursor & Hgap & (_ & Hend%check_Ok & [= <-])%bind_Ok).
      apply Z.eqb_eq in Hend. apply install_within; [done..|]. intros x. unfold fn_end. simpl. rewrite <- Hend.
      intros Hx. eapply gap_within; [done|exact Hgap|lia].
  - intros H. assert (Hin : In f (List.filter (covers_address a) (snd <$> pr_functions p))) by (rewrite Hfilter; by left).
    apply filter_In in Hin as [Hin Hcov]. apply list_elem_of_In, list_elem_of_fmap in Hin as ([k g] & -> & Hin). simpl in *.
    assert (a ∈ W) by (apply (wi_functions _ _ Hp _ _ Hin); unfold covers_address in Hcov; lia).
    split; [done|]. by eapply validate_owner_within.
Qed.
End within.

