(* ===== verification/Rv32.v ===== *)
(** * The processor the abstract machine describes

    A specification, not code of the repository: what the RV32IMC instructions of
    the initialization interval do to registers and memory, over the same operand
    texts, and when an abstract value or state of [Interval] describes a concrete
    one. A register holds a word, an integer of [0, 2^32); [None] as a result is an
    arbitrary word, for the instructions the analysis does not evaluate either. *)
From S2P Require Import Prelude PyValue PyText PyRegex PyInt Disassembly StackFrame Interval.

Definition ok_of {A} (m : urun A) : option A := match m with Ok a => Some a | _ => None end.

Abbreviation registers := (nat -> Z).
Definition set_register (r : nat) (w : Z) (R : registers) : registers :=
  fun i => if Nat.eqb i r then if Nat.eqb r 0 then R i else w else R i.
Definition words (R : registers) : Prop := R O = 0 /\ forall r, 0 <= R r < WORD.

(** ** Register instructions *)
Abbreviation word_op := (Z -> Z -> option Z).
Definition word_total (f : Z -> Z -> Z) : word_op := fun a b => Some (mask32 (f a b)).
(** A shift amount has five bits. *)
Definition word_shift (f : Z -> Z -> Z) : word_op := fun a b => if b <? 32 then Some (mask32 (f a b)) else None.
Definition word_less (unsigned : bool) : word_op :=
  fun a b => Some (Z.b2z (if unsigned then a <? b else signed a <? signed b)).

Definition word_form (ins : instruction) : word_op :=
  let named names := is_mnemonic ins names in
  if named ["addi"; "c.addi"; "c.addi16sp"; "c.addi4spn"; "add"; "c.add"] then word_total Z.add
  else if named ["sub"; "c.sub"] then word_total Z.sub
  else if named ["slli"; "c.slli"] then word_shift Z.shiftl
  else if named ["srli"; "c.srli"] then word_shift Z.shiftr
  else if named ["xori"; "xor"; "c.xor"] then word_total Z.lxor
  else if named ["ori"; "or"; "c.or"] then word_total Z.lor
  else if named ["and"; "c.and"; "andi"; "c.andi"] then word_total Z.land
  else word_less (named ["sltiu"; "sltu"]).

(** The operands of a two-operand instruction: destination, left and right source.
    An immediate is a literal of a word, signed or not. *)
Definition is_constant (x : Z) : bool := Z.abs x <? WORD.

Definition word_operands (op : list string) (R : registers) (immediate compressed : bool) : option (nat * Z * Z) :=
  dest ← ok_of (first ← operand 0 op; register first);
  left ← (if compressed then Some dest else ok_of (second ← operand 1 op; register second));
  right ← (if immediate then n ← ok_of (integer (last_operand op)); if is_constant n then Some (mask32 n) else None
           else R <$> ok_of (register (last_operand op)));
  Some (dest, R left, right).

Definition word_binary (ins : instruction) (op : list string) (R : registers) (immediate compressed : bool) :
    option (nat * option Z) :=
  '(dest, a, b) ← word_operands op R immediate compressed;
  v ← word_form ins a b;
  Some (dest, Some v).

(** The register an instruction writes and the value. *)
Definition executes (pc : Z) (ins : instruction) (op : list string) (R : registers) (w : nat * option Z) : Prop :=
  let named names := is_mnemonic ins names in
  let c := String.prefix "c." (ins_mnemonic ins) in
  let dest := ok_of (first ← operand 0 op; register first) in
  let literal := ok_of (second ← operand 1 op; integer second) in
  match binary_form ins with
  | Some (_, immediate, compressed) => word_binary ins op R immediate compressed = Some w
  | None =>
      if named ["lui"; "c.lui"] then
        exists rd n, dest = Some rd /\ literal = Some n /\ 0 <= n < 2 ^ 20 /\ w = (rd, Some (Z.shiftl n 12))
      else if named ["auipc"] then
        exists rd n, dest = Some rd /\ literal = Some n /\ w = (rd, Some (mask32 (pc + Z.shiftl n 12)))
      else if named ["c.li"] then
        exists rd n, dest = Some rd /\ literal = Some n /\ w = (rd, Some (mask32 n))
      else if named ["c.mv"] then
        exists rd rs, dest = Some rd /\ ok_of (second ← operand 1 op; register second) = Some rs /\ w = (rd, Some (R rs))
      else if named ["andi"; "c.andi"] then word_binary ins op R true c = Some w
      else if named ["fence"; "fence.i"; "c.nop"] then w = (O, Some 0)
      else exists rd, dest = Some rd /\ w = (rd, None)
  end.

(** ** Descriptions

    [base] is the stack pointer at entry and [entry r] what register [r] held. *)
Definition is_address (x : Z) : bool := 2 ^ 47 <=? x.

Section describes.
Context (base : Z) (entry : nat -> Z).

Definition stands_for (x w : Z) : Prop :=
  if is_constant x then w = mask32 x
  else if is_address x then w = mask32 (base + x)
  else x = RETURN /\ w = entry 1%nat \/ exists r, r ∈ SAVED /\ x = RETURN - Z.of_nat r /\ w = entry r.

Definition describes_value (v : absval) (w : Z) : Prop :=
  match v with Some s => exists x, x ∈ s /\ stands_for x w | None => True end.

Definition describes_regs (regs : regfile) (R : registers) : Prop := forall r, describes_value (reg_at r regs) (R r).

(** A little-endian read of the byte memory. *)
Definition read_word (M : Z -> Z) (a : Z) (size : nat) : Z :=
  foldr (fun i acc => M (mask32 (a + Z.of_nat i)) + 256 * acc) 0 (seq 0 size).

(** A fact is about the bytes at its stack address. *)
Definition describes_memory (mem : facts) (M : Z -> Z) : Prop :=
  map_Forall (fun key v =>
      STACK - stack_limit <= key.1 <= STACK /\ 0 < key.2 <= 4 /\
      describes_value v (read_word M (base + key.1) (Z.to_nat key.2))) mem.
End describes.

(** ** Steps *)
Record machine := Machine { mc_regs : registers; mc_mem : Z -> Z }.

Definition updates (w : nat * option Z) (R R' : registers) : Prop :=
  match w with
  | (r, Some v) => forall i, R' i = set_register r v R i
  | (r, None) => exists v, 0 <= v < WORD /\ forall i, R' i = set_register r v R i
  end.

Definition write_word (a size w : Z) (M : Z -> Z) : Z -> Z :=
  fun x => let i := mask32 (x - a) in if i <? size then (w / 256 ^ i) mod 256 else M x.

(** The effective address of a memory operand. *)
Definition effective (pc : Z) (op : list string) (R : registers) : option Z :=
  '(offset, text) ← ok_of (second ← operand 1 op; memory_operand pc second);
  r ← ok_of (register text);
  if is_constant offset then Some (mask32 (R r + offset)) else None.

Definition extended (m : string) (size v : Z) : Z :=
  if bool_decide (m ∈ ["lb"; "lh"]) then mask32 (if v <? 2 ^ (size * 8 - 1) then v else v - 2 ^ (size * 8)) else v.

Definition first_register (op : list string) : option nat := ok_of (first ← operand 0 op; register first).

Inductive step (pc : Z) (ins : instruction) (mc : machine) : machine -> Prop :=
  | StepRegister w R' :
      dict_get (ins_mnemonic ins) LOADS = None -> dict_get (ins_mnemonic ins) STORES = None ->
      executes pc ins (operands ins) (mc_regs mc) w -> updates w (mc_regs mc) R' ->
      step pc ins mc (Machine R' (mc_mem mc))
  | StepLoad size a rd R' :
      dict_get (ins_mnemonic ins) LOADS = Some size -> effective pc (operands ins) (mc_regs mc) = Some a ->
      first_register (operands ins) = Some rd ->
      updates (rd, Some (extended (ins_mnemonic ins) size (read_word (mc_mem mc) a (Z.to_nat size)))) (mc_regs mc) R' ->
      step pc ins mc (Machine R' (mc_mem mc))
  | StepStore size a rs :
      dict_get (ins_mnemonic ins) LOADS = None -> dict_get (ins_mnemonic ins) STORES = Some size ->
      effective pc (operands ins) (mc_regs mc) = Some a -> first_register (operands ins) = Some rs ->
      step pc ins mc (Machine (mc_regs mc) (write_word a size (mc_regs mc rs) (mc_mem mc))).

(** The bytes of a store are none of the facts'. *)
Definition spares (base : Z) (mem : facts) (a size : Z) : Prop :=
  map_Forall (fun key _ => forall i j, 0 <= i < size -> 0 <= j < key.2 -> mask32 (a + i) <> mask32 (base + key.1 + j)) mem.

(** The immutable sections are in memory. *)
Definition describes_sections (read : Z -> Z -> absval) (M : Z -> Z) : Prop :=
  forall ptr size, 0 < size <= 4 ->
  match read ptr size with
  | Some s => is_constant ptr = true /\ s = {[ read_word M ptr (Z.to_nat size) ]}
  | None => True
  end.

(** ** The instructions the domain evaluates exactly

    Constants with constants; an address only moves by a constant, or is subtracted
    from a near one. *)
Definition near (x : Z) : bool := 2 ^ 47 + WORD <=? x.
Definition regular_pair (ins : instruction) (x y : Z) : bool :=
  let named names := is_mnemonic ins names in
  is_constant x && is_constant y
  || named ["addi"; "c.addi"; "c.addi16sp"; "c.addi4spn"; "add"; "c.add"]
     && (near x && is_constant y || is_constant x && near y)
  || named ["sub"; "c.sub"] && near x && (is_constant y || near y && (Z.abs (x - y) <? WORD)).

(** No value of the operands takes the domain out of what it can describe; an entry
    token makes the result unknown. *)
Definition regular_values (ins : instruction) (a b : absval) : bool :=
  match a, b with
  | Some a, Some b =>
      existsb (fun x => x <? - WORD) (elements (a ∪ b))
      || forallb (fun xy => regular_pair ins xy.1 xy.2) (pairs a b)
  | _, _ => true
  end.

Definition regular (ins : instruction) (op : list string) (regs : regfile) : bool :=
  let check_sources immediate compressed :=
    match sources op regs immediate compressed with
    | Ok (_, a, b) => regular_values ins a b
    | _ => true
    end in
  match binary_form ins with
  | Some (_, immediate, compressed) => check_sources immediate compressed
  | None => if is_mnemonic ins ["andi"; "c.andi"] then check_sources true (String.prefix "c." (ins_mnemonic ins)) else true
  end.

(** For a memory access: the address is one the domain describes; a narrow load
    that extends the sign and a narrow store concern values that fit. *)
Definition fits (size : Z) (v : absval) : bool :=
  match v with Some s => forallb (fun x => (0 <=? x) && (x <? 2 ^ (size * 8))) (elements s) | None => true end.

Definition access_addresses (pc : Z) (op : list string) (regs : regfile) : urun (absval * absval * absval) :=
  second ← operand 1 op;
  located ← memory_operand pc second;
  r ← register located.2;
  addresses ← arithmetic (reg_at r regs) (const located.1) (total_op Z.add);
  Ok (reg_at r regs, const located.1, addresses).

Definition regular_access (read : Z -> Z -> absval) (pc : Z) (ins : instruction) (op : list string) (regs : regfile)
    (mem : facts) : bool :=
  match access_addresses pc op regs with
  | Ok (a, b, addresses) =>
      regular_values (Instruction 0 "addi" "" None "" 4 None) a b &&
      match dict_get (ins_mnemonic ins) LOADS with
      | Some size => negb (bool_decide (ins_mnemonic ins ∈ ["lb"; "lh"])) || fits size (addresses ≫= load_value read mem size)
      | None =>
          match dict_get (ins_mnemonic ins) STORES, ok_of (first ← operand 0 op; register first) with
          | Some size, Some r => (size =? 4) || fits size (reg_at r regs)
          | _, _ => true
          end
      end
  | _ => true
  end.

(** A store the domain records: one address of the stack window. *)
Definition exact_store (addresses : absval) : bool :=
  match elements <$> addresses with
  | Some [ptr] => (STACK - stack_limit <=? ptr) && (ptr <=? STACK)
  | _ => false
  end.

(** The instructions whose effect the domain can describe. *)
Definition regular_step (read : Z -> Z -> absval) (pc : Z) (ins : instruction) (regs : regfile) (mem : facts) : bool :=
  if has_key (ins_mnemonic ins) LOADS || has_key (ins_mnemonic ins) STORES
  then regular_access read pc ins (operands ins) regs mem
  else regular ins (operands ins) regs.

(** A store the domain does not record hits none of its facts. *)
Definition harmless (base : Z) (pc : Z) (ins : instruction) (regs : regfile) (mem : facts) (R : registers) : Prop :=
  forall size a b addresses c,
    dict_get (ins_mnemonic ins) LOADS = None -> dict_get (ins_mnemonic ins) STORES = Some size ->
    access_addresses pc (operands ins) regs = Ok (a, b, addresses) -> exact_store addresses = false ->
    effective pc (operands ins) R = Some c -> spares base mem c size.

(** An abstract state covers a concrete one. *)
Record covers (base : Z) (entry : nat -> Z) (read : Z -> Z -> absval) (regs : regfile) (mem : facts) (mc : machine) :
    Prop := {
  cover_words : words (mc_regs mc);
  cover_bytes : forall x, 0 <= mc_mem mc x < 256;
  cover_regs : describes_regs base entry regs (mc_regs mc);
  cover_memory : describes_memory base entry mem (mc_mem mc);
  cover_sections : describes_sections read (mc_mem mc)
}.

(** ** Branches *)
Definition second_register (op : list string) : option nat := ok_of (second ← operand 1 op; register second).

Definition taken (ins : instruction) (R : registers) : option bool :=
  let m := ins_mnemonic ins in
  let op := operands ins in
  let zero f := r ← first_register op; Some (f (R r =? 0)) in
  let two f := a ← first_register op; b ← second_register op; Some (f (R a) (R b)) in
  if String.eqb m "c.beqz" then zero id
  else if String.eqb m "c.bnez" then zero negb
  else if String.eqb m "beq" then two Z.eqb
  else if String.eqb m "bne" then two (fun x y => negb (x =? y))
  else if String.eqb m "bltu" then two Z.ltb
  else if String.eqb m "bgeu" then two (fun x y => y <=? x)
  else if String.eqb m "blt" then two (fun x y => signed x <? signed y)
  else if String.eqb m "bge" then two (fun x y => signed y <=? signed x)
  else None.

(** No stack address is the null pointer. *)
Definition addresses_not_null (base : Z) (regs : regfile) : Prop :=
  forall r s x, reg_at r regs = Some s -> x ∈ s -> is_address x = true -> mask32 (base + x) <> 0.
