(* ===== verification/EngineGaps.v ===== *)
(** * Steps of the interval engine that do not cover the processor

    The theorems about the engine ask that the steps of an execution are regular: this
    file shows, on small inputs, what the engine does with steps that are not. *)
From S2P Require Import Prelude PyValue PyText PyRegex PyFiles PyInt Bytes Disassembly StackFrame LinkedInputs Interval Rv32 IntervalFixture.

Definition gap_instruction (line : string) : instruction :=
  default (Instruction 0 "" "" None "" 0 None) (decode_line ascii_only (codepoints line)).
Definition nothing_read (a size : Z) : absval := None.
(** The state at an entry, with [x10] given. *)
Definition gap_registers (x10 : absval) : regfile :=
  <[10%nat := x10]> (<[2%nat := const STACK]> (<[1%nat := const RETURN]> (<[0%nat := const 0]> (replicate 32 None)))).
Fixpoint transfers (lines : list string) (regs : regfile) (mem : facts) : urun effect :=
  match lines with
  | [] => Ok (Effect regs mem [])
  | line :: lines =>
      e ← transfer nothing_read 0x100 STACK (gap_instruction line) regs mem;
      transfers lines (ef_regs e) (ef_memory e)
  end.
Definition register_after (lines : list string) (x10 : absval) (r : nat) : option absval :=
  match transfers lines (gap_registers x10) ∅ with Ok e => Some (reg_at r (ef_regs e)) | _ => None end.

(** A byte store keeps the whole register as the fact of its byte: the byte that is
    read back is 0x1234 to the engine and 0x34 to the processor. *)
Example byte_store_keeps_word :
  register_after ["100: 00a10023 sb x10, 0(x2)"; "104: 00014583 lbu x11, 0(x2)"] (const 0x1234) 11 = Some (const 0x1234)
  /\ read_word (write_word 0x1000 1 0x1234 (fun _ => 0)) 0x1000 1 = 0x34.
Proof. split; vm_compute; reflexivity. Qed.

(** A shifted stack address is the constant 0, whatever the stack pointer is. *)
Example shifted_address_is_zero :
  register_after ["100: 00415593 srli x11, x2, 4"] None 11 = Some (const 0)
  /\ word_form (gap_instruction "100: 00415593 srli x11, x2, 4") 0x40800000 4 = Some 0x4080000.
Proof. split; vm_compute; reflexivity. Qed.

(** A stack address is below 1 for an unsigned comparison. *)
Example address_is_below_one :
  register_after ["100: 00113593 sltiu x11, x2, 1"] None 11 = Some (const 1)
  /\ word_form (gap_instruction "100: 00113593 sltiu x11, x2, 1") 0x40800000 1 = Some 0.
Proof. split; vm_compute; reflexivity. Qed.

(** The stack pointer taken from zero is the token of the return address, so a return
    through it is accepted as a return to the caller. *)
Example forged_return_address :
  register_after ["100: 402000b3 sub x1, x0, x2"] None 1 = Some (const RETURN)
  /\ word_form (gap_instruction "100: 402000b3 sub x1, x0, x2") 0 0x40800000 = Some 0xBF800000.
Proof. split; vm_compute; reflexivity. Qed.

(** A store to one of two stack slots leaves what was known of both. *)
Definition two_slots : absval := Some {[STACK - 16; STACK - 8]}.
Example store_to_two_slots_forgets_nothing :
  (fun e => ef_memory e !! (STACK - 8, 4)) <$>
    ok_of (transfer nothing_read 0x100 (STACK - 32) (gap_instruction "100: 00052023 sw x0, 0(x10)") (gap_registers two_slots)
             {[(STACK - 8, 4) := const 7]}) = Some (Some (const 7)).
Proof. vm_compute. reflexivity. Qed.

(** A branch to the next instruction: the state where it is not taken is not analyzed. *)
Example branch_to_next_drops_an_edge :
  let ins := gap_instruction "100: c119 c.beqz x10, 0x102 <next>" in
  (ins_target ins, reg_at 10 <$> default None (ok_of (refine ins 0x102 (gap_registers (Some {[0; 5]}))))) = (Some 0x102, Some (const 0)).
Proof. vm_compute. reflexivity. Qed.
