(* ===== verification/IntervalTheorems.v ===== *)
(** * Soundness of the interval's abstract machine *)
From S2P Require Import Prelude PyValue PyText PyRegex PyInt Disassembly StackFrame Interval Rv32.

(** ** Words *)
Lemma mask32_mod z : mask32 z = z mod WORD.
Proof. unfold mask32, WORD. change 0xFFFFFFFF with (Z.ones 32). by rewrite Z.land_ones. Qed.

Lemma mask32_bound z : 0 <= mask32 z < WORD.
Proof. rewrite mask32_mod. by apply Z.mod_pos_bound. Qed.

Lemma mask32_small z : 0 <= z < WORD -> mask32 z = z.
Proof. intros ?. rewrite mask32_mod. by apply Z.mod_small. Qed.

Lemma mask32_idem z : mask32 (mask32 z) = mask32 z.
Proof. apply mask32_small, mask32_bound. Qed.

Lemma mask32_add x y : mask32 (mask32 x + y) = mask32 (x + y).
Proof. rewrite !mask32_mod. apply Zplus_mod_idemp_l. Qed.
Lemma mask32_add_r x y : mask32 (x + mask32 y) = mask32 (x + y).
Proof. rewrite !mask32_mod. apply Zplus_mod_idemp_r. Qed.
Lemma mask32_sub x y : mask32 (mask32 x - mask32 y) = mask32 (x - y).
Proof. rewrite !mask32_mod. symmetry. apply Zminus_mod. Qed.

Lemma mask32_testbit z n : 0 <= n -> Z.testbit (mask32 z) n = Z.testbit z n && (n <? 32).
Proof.
  intros Hn. unfold mask32. change 0xFFFFFFFF with (Z.ones 32). rewrite Z.land_spec.
  rewrite Z.testbit_ones_nonneg by lia. done.
Qed.

(** An operation on bits commutes with the mask. *)
Ltac by_bits :=
  apply Z.bits_inj'; intros ? ?;
  repeat first [ rewrite mask32_testbit by lia | rewrite Z.land_spec | rewrite Z.lor_spec | rewrite Z.lxor_spec ];
  repeat match goal with |- context [Z.testbit ?a ?b] => destruct (Z.testbit a b) end;
  by destruct (_ <? 32).

Lemma mask32_land x y : mask32 (Z.land (mask32 x) (mask32 y)) = mask32 (Z.land x y).
Proof. by_bits. Qed.
Lemma mask32_lor x y : mask32 (Z.lor (mask32 x) (mask32 y)) = mask32 (Z.lor x y).
Proof. by_bits. Qed.
Lemma mask32_lxor x y : mask32 (Z.lxor (mask32 x) (mask32 y)) = mask32 (Z.lxor x y).
Proof. by_bits. Qed.

Lemma mask32_shiftl x n : 0 <= n -> mask32 (Z.shiftl (mask32 x) n) = mask32 (Z.shiftl x n).
Proof.
  intros Hn. rewrite !Z.shiftl_mul_pow2, !mask32_mod by done. apply Zmult_mod_idemp_l.
Qed.

Lemma signed_mask x : signed (mask32 x) = signed x.
Proof. unfold signed. by rewrite mask32_idem. Qed.

Lemma constant_mask x : is_constant (mask32 x) = true.
Proof. unfold is_constant. pose proof (mask32_bound x). lia. Qed.

(** ** Operations *)
Lemma word_total_agrees f x y v :
  mask32 (f (mask32 x) (mask32 y)) = mask32 (f x y) ->
  word_total f (mask32 x) (mask32 y) = Some v -> v = mask32 (f x y).
Proof. by intros <- [= <-]. Qed.

Ltac name_case H :=
  match type of H with context [is_mnemonic ?i ?l] => destruct (is_mnemonic i l) eqn:? end.

Definition BINARY : list string :=
  ["addi"; "c.addi"; "c.addi16sp"; "c.addi4spn"; "add"; "c.add"; "sub"; "c.sub"; "slli"; "c.slli"; "srli"; "c.srli";
   "xori"; "ori"; "or"; "c.or"; "and"; "c.and"; "xor"; "c.xor"; "sltiu"; "slti"; "sltu"; "slt"].

Lemma binary_form_mnemonic ins r : binary_form ins = Some r -> ins_mnemonic ins ∈ BINARY.
Proof.
  unfold binary_form, is_mnemonic. intros H.
  repeat (case_bool_decide as E;
    [ clear H; revert E; generalize (ins_mnemonic ins); intros m Hm; unfold BINARY;
      repeat (apply elem_of_cons in Hm as [->|Hm]; [set_solver|]); by apply elem_of_nil in Hm
    | clear E ]); done.
Qed.

(** What an operation computes on constants is what the instruction computes on
    the words. *)
Definition agrees (f : operation) (g : word_op) : Prop :=
  forall x y r v, is_constant x = true -> is_constant y = true ->
  f x y = Ok r -> g (mask32 x) (mask32 y) = Some v -> v = mask32 r.

Lemma agrees_total f : (forall x y, mask32 (f (mask32 x) (mask32 y)) = mask32 (f x y)) -> agrees (total_op f) (word_total f).
Proof. intros Hf x y r v _ _ [= <-] [= <-]. apply Hf. Qed.

Lemma agrees_add : agrees (total_op Z.add) (word_total Z.add).
Proof. apply agrees_total. intros. by rewrite mask32_add, mask32_add_r. Qed.
Lemma agrees_sub : agrees (total_op Z.sub) (word_total Z.sub).
Proof. apply agrees_total, mask32_sub. Qed.
Lemma agrees_land : agrees (total_op Z.land) (word_total Z.land).
Proof. apply agrees_total, mask32_land. Qed.
Lemma agrees_lor : agrees (total_op Z.lor) (word_total Z.lor).
Proof. apply agrees_total, mask32_lor. Qed.
Lemma agrees_lxor : agrees (total_op Z.lxor) (word_total Z.lxor).
Proof. apply agrees_total, mask32_lxor. Qed.

Lemma agrees_shiftl : agrees shift_left (word_shift Z.shiftl).
Proof.
  intros x y r v _ Hy. unfold shift_left, word_shift, is_constant in *.
  destruct (y <? 0) eqn:?; [done|]. rewrite (mask32_small y) by lia. intros [= <-].
  destruct (y <? 32); [|done]. intros [= <-]. apply mask32_shiftl. lia.
Qed.
Lemma agrees_shiftr : agrees shift_right (word_shift Z.shiftr).
Proof.
  intros x y r v _ Hy. unfold shift_right, word_shift, is_constant in *.
  destruct (y <? 0) eqn:?; [done|]. rewrite (mask32_small y) by lia. intros [= <-].
  destruct (y <? 32); [|done]. by intros [= <-].
Qed.
Lemma agrees_less unsigned : agrees (less_than unsigned) (word_less unsigned).
Proof.
  intros x y r v _ _. unfold less_than, word_less, total_op. intros [= <-] [= <-].
  rewrite !signed_mask. symmetry. apply mask32_small. unfold WORD. destruct (if unsigned then _ else _); simpl; lia.
Qed.

Ltac by_mnemonic :=
  cbv -[total_op Z.add Z.sub Z.land Z.lor Z.lxor shift_left shift_right less_than word_total word_shift word_less
        Z.shiftl Z.shiftr is_constant near WORD signed mask32 Z.ltb Z.abs andb orb].

Ltac each_mnemonic Hm tac :=
  repeat (apply elem_of_cons in Hm as [->|Hm]; [tac|]); by apply elem_of_nil in Hm.

Lemma binary_form_agrees ins f i c : binary_form ins = Some (f, i, c) -> agrees f (word_form ins).
Proof.
  intros H. pose proof (binary_form_mnemonic _ _ H) as Hm. destruct ins as [a m o t tx sz e]. simpl in Hm.
  unfold BINARY in Hm.
  each_mnemonic Hm ltac:(revert H; by_mnemonic; intros [= <- <- <-];
    first [ apply agrees_add | apply agrees_sub | apply agrees_land | apply agrees_lor | apply agrees_lxor
          | apply agrees_shiftl | apply agrees_shiftr | apply agrees_less ]).
Qed.

(** The operation that evaluates an instruction. *)
Definition evaluates (ins : instruction) (f : operation) : Prop :=
  (exists i c, binary_form ins = Some (f, i, c)) \/ is_mnemonic ins ["andi"; "c.andi"] = true /\ f = total_op Z.land.

Lemma evaluates_agrees ins f : evaluates ins f -> agrees f (word_form ins).
Proof.
  intros [(i & c & H)|[Hm%bool_decide_eq_true ->]]; [by eapply binary_form_agrees|].
  destruct ins as [a m o t tx sz e]. simpl in Hm.
  each_mnemonic Hm ltac:(by_mnemonic; apply agrees_land).
Qed.

Definition ADD_LIKE : list string := ["addi"; "c.addi"; "c.addi16sp"; "c.addi4spn"; "add"; "c.add"].
Lemma evaluates_add ins f :
  is_mnemonic ins ADD_LIKE = true -> evaluates ins f -> f = total_op Z.add /\ word_form ins = word_total Z.add.
Proof.
  intros Hm%bool_decide_eq_true. destruct ins as [a m o t tx sz e]. simpl in Hm. unfold ADD_LIKE, evaluates in *.
  each_mnemonic Hm ltac:(by_mnemonic; intros [(? & ? & [= <- _ _])|[? _]]; done).
Qed.
Lemma evaluates_sub ins f :
  is_mnemonic ins ["sub"; "c.sub"] = true -> evaluates ins f -> f = total_op Z.sub /\ word_form ins = word_total Z.sub.
Proof.
  intros Hm%bool_decide_eq_true. destruct ins as [a m o t tx sz e]. simpl in Hm. unfold evaluates.
  each_mnemonic Hm ltac:(by_mnemonic; intros [(? & ? & [= <- _ _])|[? _]]; done).
Qed.

Section description.
Context (base : Z) (entry : nat -> Z).
Abbreviation stands := (stands_for base entry).
Abbreviation described := (describes_value base entry).

Lemma stands_constant x w : is_constant x = true -> stands x w <-> w = mask32 x.
Proof. unfold stands_for. by intros ->. Qed.

Lemma stands_address x w : is_address x = true -> stands x w <-> w = mask32 (base + x).
Proof.
  unfold stands_for, is_address, is_constant. intros Hx. rewrite Hx.
  destruct (Z.abs x <? WORD) eqn:E; [unfold WORD in E; lia|done].
Qed.

Lemma stands_mask z : stands (mask32 z) (mask32 z).
Proof. apply stands_constant; [apply constant_mask|]. by rewrite mask32_idem. Qed.

Lemma near_address x : near x = true -> is_address x = true.
Proof. unfold near, is_address, WORD. lia. Qed.
Lemma near_big x : near x = true -> is_big x = true.
Proof. unfold near, is_big, WORD. lia. Qed.
Lemma constant_not_big x : is_constant x = true -> is_big x = false.
Proof. unfold is_constant, is_big. lia. Qed.

Lemma stands_sum x y a b : is_address x = true -> is_constant y = true -> is_address (x + y) = true ->
  stands x a -> stands y b -> stands (x + y) (mask32 (a + b)).
Proof.
  intros Hx Hy Hxy Ha Hb. apply stands_address in Ha as ->; [|done]. apply stands_constant in Hb as ->; [|done].
  apply stands_address; [done|]. rewrite mask32_add, mask32_add_r. f_equal. lia.
Qed.

Lemma stands_difference x y a b : is_address x = true -> is_constant y = true -> is_address (x - y) = true ->
  stands x a -> stands y b -> stands (x - y) (mask32 (a - b)).
Proof.
  intros Hx Hy Hxy Ha Hb. apply stands_address in Ha as ->; [|done]. apply stands_constant in Hb as ->; [|done].
  apply stands_address; [done|]. rewrite mask32_sub. f_equal. lia.
Qed.

Lemma stands_distance x y a b : is_address x = true -> is_address y = true -> is_constant (x - y) = true ->
  stands x a -> stands y b -> stands (x - y) (mask32 (a - b)).
Proof.
  intros Hx Hy Hxy Ha Hb. apply stands_address in Ha as ->, Hb as ->; [|done..].
  apply stands_constant; [done|]. rewrite mask32_sub. f_equal. lia.
Qed.

Lemma near_shift x y : near x = true -> is_constant y = true -> is_address (x + y) = true /\ is_address (x - y) = true.
Proof. unfold near, is_constant, is_address, WORD. lia. Qed.

(** A regular pair of operands gives a value that stands for the instruction's result. *)
Lemma combine_sound ins f x y r a b v :
  evaluates ins f -> regular_pair ins x y = true ->
  stands x a -> stands y b -> combine f x y = Ok r -> word_form ins a b = Some v -> stands r v.
Proof.
  intros Hform Hreg Ha Hb (z & Hz & [= <-])%bind_Ok Hv.
  unfold regular_pair in Hreg. fold ADD_LIKE in Hreg.
  apply orb_true_iff in Hreg as [[[Hx Hy]%andb_true_iff|[Hm Hreg]%andb_true_iff]%orb_true_iff
                                |[[Hm Hx]%andb_true_iff Hreg]%andb_true_iff].
  - rewrite (constant_not_big _ Hx), (constant_not_big _ Hy). simpl.
    apply stands_constant in Ha as ->, Hb as ->; [|done..].
    rewrite (evaluates_agrees _ _ Hform x y z v) by done. apply stands_mask.
  - destruct (evaluates_add _ _ Hm Hform) as [-> Hw]. rewrite Hw in Hv.
    injection Hv as <-. injection Hz as <-.
    apply orb_true_iff in Hreg as [[Hx Hy]%andb_true_iff|[Hy Hx]%andb_true_iff].
    + rewrite (near_big _ Hx). simpl. apply stands_sum; auto using near_address. by apply near_shift.
    + rewrite (near_big _ Hx), orb_true_r, (Z.add_comm x), (Z.add_comm a).
      apply stands_sum; auto using near_address. by apply near_shift.
  - destruct (evaluates_sub _ _ Hm Hform) as [-> Hw]. rewrite Hw in Hv.
    injection Hv as <-. injection Hz as <-. rewrite (near_big _ Hx). simpl.
    apply orb_true_iff in Hreg as [Hy|[Hy Hd]%andb_true_iff].
    + apply stands_difference; auto using near_address. by apply near_shift.
    + apply stands_distance; auto using near_address.
Qed.

Lemma elem_of_pairs x y (s t : gset Z) : (x, y) ∈ pairs s t <-> x ∈ s /\ y ∈ t.
Proof.
  unfold pairs. rewrite list_elem_of_bind. setoid_rewrite list_elem_of_fmap. setoid_rewrite elem_of_elements.
  split; [intros (? & (? & [= -> ->] & ?) & ?)|intros []]; eauto.
Qed.

Lemma described_limited s w : described (Some s) w -> described (limited s) w.
Proof. unfold limited. by destruct (Nat.leb _ _). Qed.

Lemma arithmetic_sound ins f A B V a b v :
  evaluates ins f -> regular_values ins A B = true -> described A a -> described B b ->
  arithmetic A B f = Ok V -> word_form ins a b = Some v -> described V v.
Proof.
  intros Hf Hreg Ha Hb Hv Hw. destruct A as [A|], B as [B|]; simpl in Hv; try by injection Hv as <-.
  unfold regular_values in Hreg. destruct (existsb _ _); [by injection Hv as <-|]. simpl in Hreg.
  apply bind_Ok in Hv as (values & Hvalues%map_outcome_Ok & [= <-]).
  destruct Ha as (x & Hx & Ha), Hb as (y & Hy & Hb). apply described_limited.
  assert (Hxy : (x, y) ∈ pairs A B) by by apply elem_of_pairs.
  apply list_elem_of_lookup_1 in Hxy as [n Hn].
  destruct (Forall2_lookup_l _ _ _ _ _ Hvalues Hn) as (r & Hr & Hcombine). simpl in Hcombine.
  exists r. split; [apply elem_of_list_to_set; by eapply list_elem_of_lookup_2|].
  refine (combine_sound ins f x y r a b v Hf _ Ha Hb Hcombine Hw). rewrite forallb_forall in Hreg. apply (Hreg (x, y)), list_elem_of_In.
  by eapply list_elem_of_lookup_2.
Qed.

(** ** Register instructions *)
Lemma reg_at_setreg r v regs i : (i < length regs)%nat ->
  reg_at i (setreg r v regs) = if Nat.eqb i r && negb (Nat.eqb r 0) then v else reg_at i regs.
Proof.
  intros Hi. unfold reg_at. destruct r as [|r]; [by rewrite andb_false_r|]. rewrite andb_true_r. simpl setreg.
  destruct (Nat.eqb_spec i (S r)) as [->|Hne].
  - by rewrite nth_lookup, list_lookup_insert_eq.
  - by rewrite !nth_lookup, list_lookup_insert_ne.
Qed.

Lemma reg_at_beyond regs i : (length regs <= i)%nat -> reg_at i regs = None.
Proof. intros. unfold reg_at. by rewrite nth_overflow. Qed.

Lemma length_setreg r v regs : length (setreg r v regs) = length regs.
Proof. destruct r; simpl; [done|]. apply length_insert. Qed.

Lemma setreg_sound regs R r v w :
  describes_regs base entry regs R -> described v w ->
  forall R', (forall i, R' i = set_register r w R i) -> describes_regs base entry (setreg r v regs) R'.
Proof.
  intros Hregs Hv R' HR i. rewrite HR. destruct (decide (i < length regs)%nat) as [Hi|Hi].
  - rewrite reg_at_setreg by done. unfold set_register. destruct (Nat.eqb_spec i r) as [->|]; [|apply Hregs].
    destruct (Nat.eqb r 0); [apply Hregs|done].
  - rewrite reg_at_beyond by (rewrite length_setreg; lia). done.
Qed.

Lemma sources_sound op regs R imm c dest A B dest' a b :
  describes_regs base entry regs R -> sources op regs imm c = Ok (dest, A, B) ->
  word_operands op R imm c = Some (dest', a, b) -> dest' = dest /\ described A a /\ described B b.
Proof.
  intros Hregs. unfold sources, word_operands.
  destruct (operand 0 op) as [first| |]; [|done..]. simpl. destruct (register first) as [d| |]; [|done..]. simpl.
  intros (l & Hl & (rhs & Hr & [= <- <- <-])%bind_Ok)%bind_Ok.
  assert (Hleft : (if c then Some d else ok_of (second ← operand 1 op; register second)) = Some l)
    by (destruct c; [by injection Hl as <-|by rewrite Hl]).
  rewrite Hleft. simpl. destruct imm.
  - apply bind_Ok in Hr as (n & Hn & [= <-]). rewrite Hn. simpl. destruct (is_constant n) eqn:En; [|done].
    intros [= <- <- <-]. split_and!; [done|apply Hregs|]. exists n. split; [by apply elem_of_singleton|].
    by apply stands_constant.
  - apply bind_Ok in Hr as (n & Hn & [= <-]). rewrite Hn. simpl. intros [= <- <- <-]. split_and!; [done|apply Hregs..].
Qed.

Lemma binary_sound pc ins op regs regs' R R' f i c w :
  binary_form ins = Some (f, i, c) -> describes_regs base entry regs R -> regular ins op regs = true ->
  binary pc op regs f i c = Ok regs' -> word_binary ins op R i c = Some w -> updates w R R' ->
  describes_regs base entry regs' R'.
Proof.
  intros Hform Hregs Hreg Hbin Hword Hup. unfold regular in Hreg. rewrite Hform in Hreg. unfold binary in Hbin.
  apply bind_Ok in Hbin as ([[dest A] B] & Hs & (V & HV & ([] & _ & [= <-])%bind_Ok)%bind_Ok).
  rewrite Hs in Hreg. apply bind_Some in Hword as ([[dest' a] b] & Hops & (v & Hv & [= <-])%bind_Some).
  destruct (sources_sound _ _ _ _ _ _ _ _ _ _ _ Hregs Hs Hops) as (-> & Ha & Hb).
  eapply setreg_sound; [done| |exact Hup]. eapply arithmetic_sound; eauto. left. eauto.
Qed.

Lemma and_immediate_inv pc op regs c regs' :
  and_immediate pc op regs c = Ok regs' ->
  exists dest A mask V, sources op regs true c = Ok (dest, A, const mask)
    /\ arithmetic A (const mask) (total_op Z.land) = Ok V
    /\ regs' = setreg dest (match A with
                            | None => if (0 <=? mask) && (mask <=? 31)
                                      then Some (list_to_set (List.filter (fun n => Z.land n mask =? n) (seqZ 0 (mask + 1))))
                                      else V
                            | Some _ => V
                            end) regs.
Proof.
  unfold and_immediate, sources.
  intros (first & -> & (dest & Hdest & ([] & _ & (mask & Hmask & (r & Hr & (V & HV & [= <-])%bind_Ok)%bind_Ok)%bind_Ok)%bind_Ok)%bind_Ok)%bind_Ok.
  exists dest, (reg_at r regs), mask, V. split_and!; [|done|by destruct (reg_at r regs)].
  simpl. rewrite Hdest. simpl. rewrite Hr. simpl. by rewrite Hmask.
Qed.

Lemma land_small a mask : 0 <= a -> 0 <= mask ->
  0 <= Z.land a mask <= mask /\ Z.land (Z.land a mask) mask = Z.land a mask.
Proof.
  intros Ha Hm. rewrite <- Z.land_assoc, Z.land_diag. split; [|done].
  split; [by apply Z.land_nonneg; left|]. rewrite <- (Z2N.id a), <- (Z2N.id mask) by done.
  rewrite <- N2Z.inj_land. apply N2Z.inj_le, N.land_le_r.
Qed.

Lemma and_immediate_sound pc ins op regs regs' R R' c w :
  is_mnemonic ins ["andi"; "c.andi"] = true -> binary_form ins = None -> c = String.prefix "c." (ins_mnemonic ins) ->
  words R -> describes_regs base entry regs R -> regular ins op regs = true ->
  and_immediate pc op regs c = Ok regs' -> word_binary ins op R true c = Some w -> updates w R R' ->
  describes_regs base entry regs' R'.
Proof.
  intros Hm Hform -> Hwords Hregs Hreg Hand Hword Hup. unfold regular in Hreg. rewrite Hform, Hm in Hreg.
  apply and_immediate_inv in Hand as (dest & A & mask & V & Hs & HV & ->). rewrite Hs in Hreg.
  apply bind_Some in Hword as ([[dest' a] b] & Hops & (v & Hv & [= <-])%bind_Some).
  destruct (sources_sound _ _ _ _ _ _ _ _ _ _ _ Hregs Hs Hops) as (-> & Ha & Hb).
  eapply setreg_sound; [done| |exact Hup].
  assert (HVv : described V v) by (eapply arithmetic_sound; [right|..]; eauto).
  destruct A; [done|]. destruct (_ && _) eqn:Hsmall; [|done].
  assert (Hva : 0 <= a /\ v = Z.land a mask).
  { destruct Hb as (? & ->%elem_of_singleton & Hb). apply stands_constant in Hb as ->; [|unfold is_constant, WORD; lia].
    rewrite (mask32_small mask) in Hv by (unfold WORD; lia).
    assert (Hpos : 0 <= a < WORD).
    { unfold word_operands in Hops. destruct (ok_of (_ ← operand 0 op; _)); [|done]. simpl in Hops.
      destruct (if String.prefix _ _ then _ else _); [|done]. simpl in Hops.
      destruct (ok_of (integer _)); [|done]. simpl in Hops. destruct (is_constant _); [|done].
      injection Hops as <- <- _. apply Hwords. }
    revert Hv. apply bool_decide_eq_true in Hm. destruct ins as [? m ? ? ? ? ?]. simpl in Hm.
    assert (Hsplit : word_total Z.land a mask = Some v -> 0 <= a /\ v = Z.land a mask).
    { intros [= <-]. split; [lia|]. apply mask32_small. destruct (land_small a mask); unfold WORD; lia. }
    each_mnemonic Hm ltac:(by_mnemonic; apply Hsplit). }
  destruct Hva as [Hpos ->]. destruct (land_small a mask) as [Hle Hidem]; [lia..|].
  exists (Z.land a mask). split.
  - apply elem_of_list_to_set, list_elem_of_In, filter_In. rewrite <- list_elem_of_In, elem_of_seqZ. lia.
  - apply stands_constant; [unfold is_constant, WORD; lia|]. symmetry. apply mask32_small. unfold WORD. lia.
Qed.

(** [setreg(register(op[0]), value)] with a described value. *)
Lemma write_sound op regs R R' (v : urun absval) regs' rd x :
  (first ← operand 0 op; dest ← register first; value ← v; Ok (setreg dest value regs)) = Ok regs' ->
  first_register op = Some rd -> describes_regs base entry regs R ->
  updates (rd, x) R R' ->
  (forall v', v = Ok v' -> match x with Some x => described v' x | None => v' = None end) ->
  describes_regs base entry regs' R'.
Proof.
  unfold first_register. intros (first & -> & (dest & Hd & (value & -> & [= <-])%bind_Ok)%bind_Ok)%bind_Ok.
  simpl. rewrite Hd. intros [= <-] Hregs Hup Hv. specialize (Hv _ eq_refl). destruct x as [x|]; [by eapply setreg_sound|].
  destruct Hup as (x & _ & Hup). subst value. by eapply setreg_sound.
Qed.

Lemma literal_inv op f v (E : (second ← operand 1 op; n ← integer second; Ok (const (f n))) = Ok v) n :
  ok_of (second ← operand 1 op; integer second) = Some n -> v = const (f n).
Proof.
  apply bind_Ok in E as (second & -> & (z & Hz & [= <-])%bind_Ok). simpl. rewrite Hz. by intros [= <-].
Qed.

Lemma described_const x : is_constant x = true -> described (const x) (mask32 x).
Proof. intros Hx. exists x. split; [by apply elem_of_singleton|]. by apply stands_constant. Qed.

Lemma described_word x : 0 <= x < WORD -> described (const x) x.
Proof.
  intros Hx. exists x. split; [by apply elem_of_singleton|]. apply stands_constant; [unfold is_constant; lia|].
  by rewrite mask32_small.
Qed.

(** A register instruction keeps the description of the registers. *)
Lemma register_instruction_sound pc ins op regs regs' R R' w :
  register_instruction pc ins op regs = Some (Ok regs') -> executes pc ins op R w -> regular ins op regs = true ->
  words R -> describes_regs base entry regs R -> updates w R R' -> describes_regs base entry regs' R'.
Proof.
  intros Habs Hconc Hreg Hwords Hregs Hup. unfold register_instruction in Habs. unfold executes in Hconc.
  destruct (binary_form ins) as [[[f i] c]|] eqn:Hform.
  { injection Habs as Habs. by eapply binary_sound. }
  cbv zeta in Habs, Hconc.
  name_case Habs. { (* lui *)
    injection Habs as Habs. destruct Hconc as (rd & n & Hrd & Hn & Hbound & ->).
    eapply write_sound; [exact Habs|done..|]. intros v E.
    rewrite (literal_inv _ _ _ E _ Hn). apply described_word. rewrite Z.shiftl_mul_pow2 by lia. unfold WORD. lia. }
  name_case Habs. { (* auipc *)
    injection Habs as Habs. destruct Hconc as (rd & n & Hrd & Hn & ->).
    eapply write_sound; [exact Habs|done..|]. intros v E.
    rewrite (literal_inv _ _ _ E _ Hn). apply described_word, mask32_bound. }
  name_case Habs. { (* c.li *)
    injection Habs as Habs. destruct Hconc as (rd & n & Hrd & Hn & ->).
    eapply write_sound; [exact Habs|done..|]. intros v E.
    rewrite (literal_inv _ _ _ E _ Hn). apply described_word, mask32_bound. }
  name_case Habs. { (* c.mv *)
    injection Habs as Habs. destruct Hconc as (rd & rs & Hrd & Hrs & ->).
    eapply write_sound; [exact Habs|done..|]. intros v (t & Ht & (r & Hr & [= <-])%bind_Ok)%bind_Ok.
    rewrite Ht in Hrs. simpl in Hrs. rewrite Hr in Hrs. injection Hrs as <-. apply Hregs. }
  name_case Habs. { (* andi *) injection Habs as Habs. by eapply and_immediate_sound. }
  name_case Habs. { (* fence *)
    injection Habs as <-. subst w. intros i. rewrite (Hup i). unfold set_register. simpl. by destruct (Nat.eqb i 0). }
  destruct Hconc as (rd & Hrd & ->). destruct (is_mnemonic ins UNKNOWN_RESULTS).
  { injection Habs as Habs. eapply (write_sound op regs R R' (Ok None)); [exact Habs|done..|by intros v [= <-]]. }
  destruct (is_mnemonic ins UNKNOWN_ARITHMETIC); [|done]. injection Habs as Habs.
  eapply (write_sound op regs R R' (Ok None)); [|done..|by intros v [= <-]]. inv_ok.
  match goal with H : operand 0 op = _, H' : register _ = _ |- _ => rewrite H; simpl; rewrite H'; done end.
Qed.
End description.
