(* ===== verification/TransferTheorems.v ===== *)
(** * Soundness of one instruction: memory and the whole transfer *)
From S2P Require Import Prelude PyValue PyText PyRegex PyInt Disassembly StackFrame Interval Rv32 IntervalTheorems.

(** ** Words in byte memory *)
Definition read_from (M : Z -> Z) (a : Z) (start n : nat) : Z :=
  foldr (fun i acc => M (mask32 (a + Z.of_nat i)) + 256 * acc) 0 (seq start n).

Lemma read_word_mask M a n : read_word M (mask32 a) n = read_word M a n.
Proof.
  unfold read_word. generalize 0%nat as start. induction n as [|n IH]; intros start; simpl; [done|].
  by rewrite IH, mask32_add.
Qed.

Lemma read_from_bound M a n start : (forall x, 0 <= M x < 256) -> 0 <= read_from M a start n < 256 ^ Z.of_nat n.
Proof.
  intros HM. revert start. induction n as [|n IH]; intros start; [done|].
  specialize (IH (S start)). specialize (HM (mask32 (a + Z.of_nat start))).
  rewrite Nat2Z.inj_succ, Z.pow_succ_r by lia. unfold read_from in *. simpl. lia.
Qed.

Lemma write_word_at a size w M x : write_word a size w M (mask32 (a + x)) =
  if mask32 x <? size then (w / 256 ^ mask32 x) mod 256 else M (mask32 (a + x)).
Proof.
  unfold write_word. replace (mask32 (mask32 (a + x) - a)) with (mask32 x); [done|].
  rewrite !mask32_mod, Zminus_mod_idemp_l. f_equal. lia.
Qed.

Lemma read_written a size w M n start :
  Z.of_nat start + Z.of_nat n <= size -> size <= 4 ->
  read_from (write_word a size w M) a start n = (w / 256 ^ Z.of_nat start) mod 256 ^ Z.of_nat n.
Proof.
  revert start. induction n as [|n IH]; intros start Hn Hsize; [by rewrite Z.pow_0_r, Z.mod_1_r|].
  unfold read_from in *. simpl. rewrite IH, write_word_at by lia.
  rewrite mask32_small by (unfold WORD; lia). destruct (_ <? size) eqn:?; [|lia].
  rewrite !Nat2Z.inj_succ, !Z.pow_succ_r by lia.
  assert (0 < 256 ^ Z.of_nat start /\ 0 < 256 ^ Z.of_nat n) as [] by (split; apply Z.pow_pos_nonneg; lia).
  rewrite (Z.mul_comm 256 (256 ^ Z.of_nat start)), <- Z.div_div by lia. rewrite Z.rem_mul_r by lia. lia.
Qed.

Lemma read_other a size w M b n start :
  (forall i j, 0 <= i < size -> Z.of_nat start <= j < Z.of_nat start + Z.of_nat n -> mask32 (a + i) <> mask32 (b + j)) ->
  read_from (write_word a size w M) b start n = read_from M b start n.
Proof.
  revert start. induction n as [|n IH]; intros start Hdis; [done|].
  unfold read_from in *. simpl. rewrite IH by (intros; apply Hdis; lia). f_equal.
  unfold write_word. destruct (_ <? size) eqn:E; [|done]. exfalso.
  pose proof (mask32_bound (mask32 (b + Z.of_nat start) - a)).
  apply (Hdis (mask32 (mask32 (b + Z.of_nat start) - a)) (Z.of_nat start)); [lia..|].
  rewrite mask32_add_r, Zplus_minus. apply mask32_idem.
Qed.

Lemma mask32_near x y : mask32 x = mask32 y -> Z.abs (x - y) < WORD -> x = y.
Proof.
  rewrite !mask32_mod. intros H ?.
  assert (Hdiv : (x - y) mod WORD = 0) by by rewrite Zminus_mod, H, Z.sub_diag.
  apply Z.mod_divide in Hdiv as [k Hk]; [|done]. unfold WORD in *. lia.
Qed.

(** ** Loads *)
Section memory.
Context (base : Z) (entry : nat -> Z).
Abbreviation described := (describes_value base entry).

Lemma described_union a b w : described a w \/ described b w -> described (union_value a b) w.
Proof.
  destruct a as [a|], b as [b|]; simpl; try done. intros Hw. apply described_limited.
  destruct Hw as [(x & Hx & Hw)|(x & Hx & Hw)]; exists x; (split; [set_solver|done]).
Qed.

Lemma described_unions v vs w : Exists (fun v => described v w) (v :: vs) -> described (foldl union_value v vs) w.
Proof.
  revert v. induction vs as [|u vs IH]; intros v Hv; simpl.
  - by apply Exists_cons in Hv as [|?%Exists_nil].
  - apply IH. apply Exists_cons in Hv as [|[|]%Exists_cons]; apply Exists_cons; auto using described_union.
Qed.

Lemma read_word_bound M a size : (forall x, 0 <= M x < 256) -> 0 < size <= 4 ->
  0 <= read_word M a (Z.to_nat size) < 256 ^ size /\ 256 ^ size <= WORD.
Proof.
  intros HM Hsize. pose proof (read_from_bound M a (Z.to_nat size) 0 HM) as H. rewrite Z2Nat.id in H by lia.
  split; [done|]. change WORD with (256 ^ 4). apply Z.pow_le_mono_r; lia.
Qed.

Context (read : Z -> Z -> absval).

Lemma load_described mem M size addresses ptr a :
  describes_memory base entry mem M -> describes_sections read M -> (forall x, 0 <= M x < 256) -> 0 < size <= 4 ->
  ptr ∈ addresses -> stands_for base entry ptr a ->
  described (load_value read mem size addresses) (read_word M a (Z.to_nat size)).
Proof.
  intros Hmem Hsec HM Hsize Hptr Ha. unfold load_value.
  set (f := fun p => default (read p size) (mem !! (p, size))).
  assert (Hf : described (f ptr) (read_word M a (Z.to_nat size))).
  { unfold f. destruct (mem !! (ptr, size)) as [v|] eqn:E; simpl.
    - destruct (Hmem _ _ E) as (Hwin & _ & Hv). simpl in *.
      apply stands_address in Ha as ->; [by rewrite read_word_mask|].
      unfold is_address, STACK, stack_limit in *. lia.
    - pose proof (Hsec ptr size Hsize) as Hread. destruct (read ptr size) as [s|]; [|done].
      destruct Hread as [Hconst ->]. apply stands_constant in Ha as ->; [|done]. rewrite read_word_mask.
      apply described_word. pose proof (read_word_bound M ptr size HM Hsize). lia. }
  assert (Hex : Exists (fun v => described v (read_word M a (Z.to_nat size))) (f <$> elements addresses)).
  { apply Exists_exists. exists (f ptr). split; [|done]. apply list_elem_of_fmap_2. by apply elem_of_elements. }
  destruct (f <$> elements addresses); [by apply Exists_nil in Hex|]. by apply described_unions.
Qed.

Lemma access_described pc op regs R A B addresses a :
  access_addresses pc op regs = Ok (A, B, addresses) -> effective pc op R = Some a ->
  regular_values (Instruction 0 "addi" "" None "" 4 None) A B = true ->
  describes_regs base entry regs R -> described addresses a.
Proof.
  unfold access_addresses, effective, access_addresses. intros Habs Heff Hreg Hregs.
  destruct (operand 1 op) as [t| |]; [|done..]. cbn [mbind outcome_bind] in Habs, Heff.
  destruct (memory_operand pc t) as [[offset text]| |]; [|done..]. cbn in Heff. cbn [mbind outcome_bind fst snd] in Habs.
  destruct (register text) as [r| |]; [|done..]. cbn in Heff. cbn [mbind outcome_bind] in Habs.
  destruct (is_constant offset) eqn:Hoff; [|done]. injection Heff as <-.
  apply bind_Ok in Habs as (V & HV & [= <- <- <-]).
  eapply (arithmetic_sound base entry (Instruction 0 "addi" "" None "" 4 None));
    [left; by eexists _, _|exact Hreg|apply Hregs|by apply described_const|exact HV|].
  assert (Hform : word_form (Instruction 0 "addi" "" None "" 4 None) = word_total Z.add) by (unfold word_form, is_mnemonic; done).
  rewrite Hform. unfold word_total. by rewrite mask32_add_r.
Qed.

Lemma sign_extend_described size v w m :
  m ∈ ["lb"; "lh"] -> 0 < size <= 4 -> fits size v = true -> described v w ->
  described (sign_extend size <$> v) (extended m size w).
Proof.
  intros Hm Hsize Hfits Hw. destruct v as [s|]; [|done]. destruct Hw as (x & Hx & Hw).
  unfold fits in Hfits. rewrite forallb_forall in Hfits.
  assert (0 <= x < 2 ^ (size * 8)) as Hb.
  { specialize (Hfits x). rewrite <- list_elem_of_In, elem_of_elements in Hfits. specialize (Hfits Hx). lia. }
  assert (2 ^ (size * 8) <= WORD) by (apply Z.pow_le_mono_r; lia).
  apply stands_constant in Hw as ->; [|unfold is_constant; lia]. rewrite (mask32_small x) by lia.
  unfold extended. rewrite bool_decide_eq_true_2 by done.
  exists (mask32 (if x <? 2 ^ (size * 8 - 1) then x else x - 2 ^ (size * 8))). split; [|apply stands_mask].
  apply elem_of_map. by exists x.
Qed.

(** ** Stores *)
Lemma value_fits size v w : 0 < size <= 4 -> (size =? 4) || fits size v = true -> 0 <= w < WORD ->
  described v w -> described v (w mod 256 ^ size).
Proof.
  intros Hsize Hfits Hw Hv. destruct (decide (size = 4)) as [->|Hne].
  { rewrite Z.mod_small; [done|]. exact Hw. }
  destruct (size =? 4) eqn:?; [lia|]. simpl in Hfits. destruct v as [s|]; [|done]. destruct Hv as (x & Hx & Hv).
  unfold fits in Hfits. rewrite forallb_forall in Hfits.
  assert (0 <= x < 2 ^ (size * 8)) as Hb.
  { specialize (Hfits x). rewrite <- list_elem_of_In, elem_of_elements in Hfits. specialize (Hfits Hx). lia. }
  assert (2 ^ (size * 8) <= WORD) by (apply Z.pow_le_mono_r; lia).
  assert (Hx256 : 0 <= x < 256 ^ size) by (rewrite Z.mul_comm, Z.pow_mul_r in Hb by lia; exact Hb).
  apply stands_constant in Hv as ->; [|unfold is_constant; lia]. rewrite (mask32_small x) by lia.
  rewrite Z.mod_small by lia. exists x. split; [done|]. apply stands_constant; [unfold is_constant; lia|].
  by rewrite mask32_small by lia.
Qed.

Lemma store_described mem M ptr size v w a :
  describes_memory base entry mem M -> 0 < size <= 4 -> STACK - stack_limit <= ptr <= STACK ->
  stands_for base entry ptr a -> described v (w mod 256 ^ size) ->
  describes_memory base entry (store_fact ptr size v mem) (write_word a size w M).
Proof.
  intros Hmem Hsize Hptr Ha Hv. apply stands_address in Ha as ->; [|unfold is_address, STACK, stack_limit in *; lia].
  unfold store_fact. apply map_Forall_insert_2.
  - simpl. split_and!; [lia..|]. rewrite <- read_word_mask.
    pose proof (read_written (mask32 (base + ptr)) size w M (Z.to_nat size) 0) as Hr.
    unfold read_from in Hr. unfold read_word. rewrite Hr, Z.div_1_r, Z2Nat.id by lia. done.
  - intros [k n] v' [Hk Hdis]%map_lookup_filter_Some. simpl in *.
    destruct (Hmem _ _ Hk) as (Hwin & Hn & Hv'). simpl in *. split_and!; [lia..|].
    pose proof (read_other (mask32 (base + ptr)) size w M (base + k) (Z.to_nat n) 0) as Hr.
    unfold read_from in Hr. unfold read_word in *. rewrite Hr; [done|]. intros i j Hi Hj.
    rewrite mask32_add. intros E. apply mask32_near in E; unfold WORD, stack_limit in *; lia.
Qed.

Lemma spared_described mem M a size w :
  describes_memory base entry mem M -> spares base mem a size -> describes_memory base entry mem (write_word a size w M).
Proof.
  intros Hmem Hspare key v Hk. destruct (Hmem _ _ Hk) as (Hwin & Hn & Hv). split_and!; [lia..|].
  pose proof (read_other a size w M (base + key.1) (Z.to_nat key.2) 0) as Hr.
  unfold read_from in Hr. unfold read_word in *. rewrite Hr; [done|]. intros i j Hi Hj.
  apply (Hspare _ _ Hk); lia.
Qed.

(** ** One instruction *)
Lemma access_sizes ins size :
  dict_get (ins_mnemonic ins) LOADS = Some size \/ dict_get (ins_mnemonic ins) STORES = Some size -> 0 < size <= 4.
Proof.
  generalize (ins_mnemonic ins). intros m. unfold LOADS, STORES. simpl.
  intros [H|H]; repeat (destruct (String.eqb m _); [injection H as <-; lia|]); done.
Qed.

(** The load half and the store half of [memory_instruction]. *)
Lemma load_inv pc sp ins op regs mem size eff :
  dict_get (ins_mnemonic ins) LOADS = Some size -> memory_instruction read pc sp ins op regs mem = Some (Ok eff) ->
  exists A B addresses rd, access_addresses pc op regs = Ok (A, B, addresses) /\ first_register op = Some rd
    /\ ef_memory eff = mem
    /\ ef_regs eff = setreg rd (let v := addresses ≫= load_value read mem size in
                                if bool_decide (ins_mnemonic ins ∈ ["lb"; "lh"]) then sign_extend size <$> v else v) regs.
Proof.
  intros Hsize. unfold memory_instruction, access_addresses, first_register. rewrite Hsize. intros [= H]. inv_ok.
  repeat match goal with H : _ = Ok _ |- _ => rewrite H; clear H; cbn [mbind outcome_bind ok_of] end.
  eexists _, _, _, _. split_and!; done.
Qed.

Lemma store_inv pc sp ins op regs mem size eff :
  dict_get (ins_mnemonic ins) LOADS = None -> dict_get (ins_mnemonic ins) STORES = Some size ->
  memory_instruction read pc sp ins op regs mem = Some (Ok eff) ->
  exists A B addresses, access_addresses pc op regs = Ok (A, B, addresses) /\ ef_regs eff = regs
    /\ (exact_store addresses = false /\ ef_memory eff = mem
        \/ exists ptr rs, elements <$> addresses = Some [ptr] /\ STACK - stack_limit <= ptr <= STACK
             /\ first_register op = Some rs /\ ef_memory eff = store_fact ptr size (reg_at rs regs) mem).
Proof.
  intros Hload Hsize. unfold memory_instruction, access_addresses, first_register, exact_store. rewrite Hload, Hsize. intros [= H].
  inv_ok.
  repeat match goal with H : _ = Ok _ |- context [_ ≫= _] => rewrite H; cbn [mbind outcome_bind ok_of] end.
  eexists _, _, _. split; [done|].
  destruct (elements <$> _) as [[|ptr [|? ?]]|] eqn:Hel; [inv_ok; auto| |inv_ok; auto|inv_ok; auto].
  destruct (_ && _) eqn:Hwin; [|inv_ok; auto]. apply bind_Ok in H as (rs & Hrs & [= <-]). split; [done|right].
  exists ptr, rs. rewrite Hrs. split_and!; [done|lia..|done|done].
Qed.

(** The transfer function is sound: what it computes from a state that covers the
    processor covers the processor after the instruction. *)
Lemma transfer_covers pc sp ins regs mem eff mc mc' :
  transfer read pc sp ins regs mem = Ok eff -> step pc ins mc mc' ->
  covers base entry read regs mem mc -> regular_step read pc ins regs mem = true ->
  harmless base pc ins regs mem (mc_regs mc) ->
  describes_regs base entry (ef_regs eff) (mc_regs mc') /\ describes_memory base entry (ef_memory eff) (mc_mem mc').
Proof.
  intros Htr Hstep [Hwords Hbytes Hregs Hmem Hsec] Hreg Hharm. unfold transfer in Htr. unfold regular_step, has_key in Hreg.
  destruct Hstep as [w R' Hnl Hns Hex Hup|size a rd R' Hl Heff Hrd Hup|size a rs Hnl Hst Heff Hrs].
  - rewrite Hnl, Hns in Hreg. simpl in Hreg.
    assert (Hmi : memory_instruction read pc sp ins (operands ins) regs mem = None)
      by (unfold memory_instruction; by rewrite Hnl, Hns).
    rewrite Hmi in Htr. destruct (register_instruction _ _ _ _) as [r|] eqn:Hr; [|done].
    apply bind_Ok in Htr as (regs' & -> & [= <-]). split; [|done]. by eapply register_instruction_sound.
  - rewrite Hl in Hreg. simpl in Hreg.
    destruct (memory_instruction read pc sp ins (operands ins) regs mem) as [r|] eqn:Hr;
      [subst r|by unfold memory_instruction in Hr; rewrite Hl in Hr].
    destruct (load_inv _ _ _ _ _ _ _ _ Hl Hr) as (A & B & addresses & rd' & Hacc & Hrd' & -> & ->).
    assert (rd' = rd) as -> by congruence. split; [|done]. eapply setreg_sound; [done| |exact Hup].
    pose proof (access_sizes ins size (or_introl Hl)) as Hsize.
    unfold regular_access in Hreg. rewrite Hacc, Hl in Hreg. apply andb_true_iff in Hreg as [Hreg Hfits].
    pose proof (access_described _ _ _ _ _ _ _ _ Hacc Heff Hreg Hregs) as Ha. cbv zeta.
    assert (Hv : described (addresses ≫= load_value read mem size) (read_word (mc_mem mc) a (Z.to_nat size))).
    { destruct addresses as [s|]; [|done]. destruct Ha as (ptr & Hptr & Ha). by eapply load_described. }
    unfold extended. case_bool_decide as Hm; [|done].
    pose proof (sign_extend_described size _ _ _ Hm Hsize Hfits Hv) as H. unfold extended in H.
    by rewrite bool_decide_eq_true_2 in H.
  - rewrite Hnl, Hst in Hreg. simpl in Hreg.
    destruct (memory_instruction read pc sp ins (operands ins) regs mem) as [r|] eqn:Hr;
      [subst r|by unfold memory_instruction in Hr; rewrite Hnl, Hst in Hr].
    destruct (store_inv _ _ _ _ _ _ _ _ Hnl Hst Hr) as (A & B & addresses & Hacc & -> & Hcase). split; [done|].
    pose proof (access_sizes ins size (or_intror Hst)) as Hsize.
    destruct Hcase as [[Hno ->]|(ptr & rs' & Hel & Hwin & Hrs' & ->)]; [by eapply spared_described; eauto|].
    assert (rs' = rs) as -> by congruence.
    unfold regular_access in Hreg. rewrite Hacc, Hnl, Hst in Hreg. unfold first_register in Hrs. rewrite Hrs in Hreg.
    apply andb_true_iff in Hreg as [Hreg Hfits].
    pose proof (access_described _ _ _ _ _ _ _ _ Hacc Heff Hreg Hregs) as Ha.
    destruct addresses as [s|]; [|done]. destruct Ha as (ptr' & Hptr' & Ha).
    assert (ptr' = ptr) as ->.
    { injection Hel as Hel. apply elem_of_elements in Hptr'. rewrite Hel in Hptr'. by apply list_elem_of_singleton in Hptr'. }
    apply store_described; [done..|]. apply value_fits; [done..|apply Hwords|apply Hregs].
Qed.
End memory.
