(* ===== verification/RefineTheorems.v ===== *)
(** * Soundness of joins and of the branch refinement *)
From S2P Require Import Prelude PyValue PyText PyRegex PyInt Disassembly StackFrame Interval Rv32 IntervalTheorems TransferTheorems.

(** Membership of a known mnemonic in a list of mnemonics. *)
Ltac decide_mnemonics H :=
  repeat match type of H with
  | context [bool_decide ?P] => let b := eval vm_compute in (bool_decide P) in change (bool_decide P) with b in H
  end.

Section refine.
Context (base : Z) (entry : nat -> Z).
Abbreviation described := (describes_value base entry).

(** ** Joins *)
Lemma merge_regs s t u : State_merge s t = Ok u ->
  as_regs u = zip_with union_value (as_regs s) (as_regs t) /\ as_memory u = map_zip_with union_value (as_memory s) (as_memory t)
  /\ as_phase u = as_phase s /\ reg_at 2 (as_regs s) = reg_at 2 (as_regs t).
Proof. unfold State_merge. intros H. inv_ok. by bool_prop. Qed.

Lemma reg_at_zip r s t :
  reg_at r (zip_with union_value s t) = union_value (reg_at r s) (reg_at r t).
Proof.
  unfold reg_at. rewrite !nth_lookup, lookup_zip_with.
  destruct (s !! r) as [[|]|], (t !! r) as [[|]|]; done.
Qed.

(** A merged state describes what either state describes. *)
Lemma merge_describes s t u R M :
  State_merge s t = Ok u ->
  describes_regs base entry (as_regs s) R /\ describes_memory base entry (as_memory s) M
  \/ describes_regs base entry (as_regs t) R /\ describes_memory base entry (as_memory t) M ->
  describes_regs base entry (as_regs u) R /\ describes_memory base entry (as_memory u) M.
Proof.
  intros (-> & -> & _ & _)%merge_regs Hst. split.
  - intros r. rewrite reg_at_zip. apply described_union. destruct Hst as [[H _]|[H _]]; [left|right]; apply H.
  - intros key v Hv. apply map_lookup_zip_with_Some in Hv as (x & y & -> & Hx & Hy).
    destruct Hst as [[_ H]|[_ H]].
    + destruct (H _ _ Hx) as (? & ? & ?). do 2 (split; [done|]). apply described_union. by left.
    + destruct (H _ _ Hy) as (? & ? & ?). do 2 (split; [done|]). apply described_union. by right.
Qed.

(** ** Branch edges *)
Lemma set_described regs R r v : describes_regs base entry regs R -> described v (R r) ->
  describes_regs base entry (<[r := v]> regs) R.
Proof.
  intros Hregs Hv i. unfold reg_at. rewrite nth_lookup.
  destruct (decide (i = r)) as [->|Hne].
  - destruct (decide (r < length regs)%nat); [by rewrite list_lookup_insert_eq|].
    by rewrite lookup_ge_None_2 by (rewrite length_insert; lia).
  - rewrite list_lookup_insert_ne by done. rewrite <- nth_lookup. apply Hregs.
Qed.

Lemma refine_zero_sound r equal regs R :
  describes_regs base entry regs R -> addresses_not_null base regs -> (R r =? 0) = equal ->
  exists regs', refine_zero r equal regs = Some regs' /\ describes_regs base entry regs' R.
Proof.
  intros Hregs Hnull Hequal. unfold refine_zero. pose proof (Hregs r) as Hr.
  destruct (reg_at r regs) as [s|] eqn:Es; [|by eauto]. destruct (forallb _ _) eqn:Hall; [|by eauto].
  destruct Hr as (x & Hx & Hw). set (kept := List.filter _ _).
  assert (Hkept : x ∈ kept).
  { apply list_elem_of_In, filter_In. rewrite <- list_elem_of_In, elem_of_elements. split; [done|].
    rewrite forallb_forall in Hall. specialize (Hall x). rewrite <- list_elem_of_In, elem_of_elements in Hall.
    specialize (Hall Hx). subst equal. unfold stands_for in Hw.
    destruct (is_constant x) eqn:Hc; [|destruct (is_address x) eqn:Ha].
    - rewrite Hw. apply eqb_true_iff. apply eq_iff_eq_true. rewrite !Z.eqb_eq. split; [by intros ->|].
      intros H. apply (mask32_near x 0); [done|]. unfold is_constant in Hc. lia.
    - pose proof (Hnull _ _ _ Es Hx Ha). unfold is_address in Ha. destruct (x =? 0) eqn:?, (R r =? 0) eqn:?; lia.
    - exfalso. apply Z.leb_le in Hall. unfold RETURN, WORD in *. destruct Hw as [[-> _]|(i & Hi & -> & _)]; lia. }
  destruct kept as [|k kept]; [by apply elem_of_nil in Hkept|].
  eexists. split; [done|]. apply set_described; [done|]. exists x. split; [|done]. by apply elem_of_list_to_set.
Qed.

(** The comparison of the words is the comparison of the constants. *)
Lemma compares_mask m x y : compares m (mask32 x) (mask32 y) = compares m x y.
Proof. unfold compares. by rewrite !mask32_idem, !signed_mask. Qed.

Lemma constant_in_range x : - WORD <= x < WORD -> (exists w, stands_for base entry x w) -> is_constant x = true.
Proof.
  intros Hx [w Hw]. unfold stands_for in Hw. destruct (is_constant x); [done|]. exfalso.
  unfold is_address, RETURN, WORD in *. destruct (2 ^ 47 <=? x) eqn:?; [lia|].
  destruct Hw as [[-> _]|(i & Hi & -> & _)]; lia.
Qed.

Lemma refine_pair_sound m a b outcome regs R :
  describes_regs base entry regs R -> words R -> compares m (R a) (R b) = outcome ->
  exists regs', refine_pair m a b outcome regs = Some regs' /\ describes_regs base entry regs' R.
Proof.
  intros Hregs Hwords Hcmp. unfold refine_pair. pose proof (Hregs a) as Ha. pose proof (Hregs b) as Hb.
  destruct (reg_at a regs) as [av|] eqn:Ea; [|by eauto]. destruct (reg_at b regs) as [bv|] eqn:Eb.
  - destruct (values_between _ _ _) eqn:Hall; [|by eauto].
    assert (Hconst : forall x w, x ∈ av ∪ bv -> stands_for base entry x w -> is_constant x = true /\ w = mask32 x).
    { intros x w Hx Hw. unfold values_between in Hall. rewrite forallb_forall in Hall. specialize (Hall x).
      rewrite <- list_elem_of_In, elem_of_elements in Hall. specialize (Hall Hx).
      assert (is_constant x = true) by (apply constant_in_range; [lia|by exists w]).
      split; [done|]. by apply stands_constant in Hw. }
    assert (Hpair : exists x y, x ∈ av /\ y ∈ bv /\ R a = mask32 x /\ R b = mask32 y /\ is_constant x = true
                      /\ is_constant y = true /\ (a = b -> x = y)).
    { destruct Ha as (x & Hx & Ha). destruct (Hconst x (R a)) as [? ?]; [set_solver|done|].
      destruct (decide (a = b)) as [<-|Hne].
      - exists x, x. split_and!; [done| |done..]. congruence.
      - destruct Hb as (y & Hy & Hb). destruct (Hconst y (R b)) as [? ?]; [set_solver|done|].
        exists x, y. split_and!; done. }
    destruct Hpair as (x & y & Hx & Hy & Hax & Hby & Hcx & Hcy & Hsame). set (kept := List.filter _ _).
    assert (Hkept : (x, y) ∈ kept).
    { apply list_elem_of_In, filter_In. rewrite <- list_elem_of_In, elem_of_pairs. split; [done|]. simpl.
      rewrite <- compares_mask, <- Hax, <- Hby, Hcmp. by destruct outcome. }
    assert (Hd : described (Some (list_to_set kept.*1)) (R a) /\ described (Some (list_to_set kept.*2)) (R b)).
    { split; [exists x|exists y]; (split; [|by apply stands_constant]); apply elem_of_list_to_set, list_elem_of_fmap;
        by exists (x, y). }
    destruct kept as [|k kept]; [by apply elem_of_nil in Hkept|]. destruct Hd.
    eexists. split; [done|]. by apply set_described; [apply set_described|].
  - destruct (elements av) as [|limit [|]] eqn:Eel; [by eauto| |by eauto].
    destruct (_ && _) eqn:Hc; [|by eauto]. eexists. split; [done|]. apply set_described; [done|].
    bool_prop. destruct outcome; [done|].
    destruct Ha as (x & Hx & Ha). assert (x = limit) as ->.
    { apply elem_of_elements in Hx. rewrite Eel in Hx. by apply list_elem_of_singleton in Hx. }
    apply stands_constant in Ha; [|unfold is_constant, WORD; lia]. rewrite mask32_small in Ha by (unfold WORD; lia).
    assert (R b <= limit).
    { unfold compares in Hcmp. rewrite !mask32_small in Hcmp by apply Hwords.
      repeat case_bool_decide; try lia; set_solver. }
    exists (R b). destruct Hwords as [_ Hwords]. specialize (Hwords b). split.
    + apply elem_of_list_to_set, elem_of_seqZ. lia.
    + apply stands_constant; [unfold is_constant; lia|]. symmetry. by apply mask32_small.
Qed.

(** On the edge that the branch takes, the refined registers still describe the
    processor's; the edge is never dropped. *)
Lemma refine_describes ins following target t regs R r :
  refine ins target regs = Ok r -> taken ins R = Some t ->
  ins_target ins <> Some following -> (if t then ins_target ins = Some target else target = following) ->
  describes_regs base entry regs R -> words R -> addresses_not_null base regs ->
  exists regs', r = Some regs' /\ describes_regs base entry regs' R.
Proof.
  intros Href Ht Hne Htarget Hregs Hwords Hnull.
  assert (Hedge : bool_decide (ins_target ins = Some target) = t).
  { destruct t; [by apply bool_decide_eq_true_2|]. apply bool_decide_eq_false_2. by subst target. }
  unfold refine in Href. rewrite Hedge in Href. clear Hedge Htarget Hne. unfold taken, first_register, second_register in Ht.
  set (op := operands ins) in *. destruct ins as [? m o ? ? ? ?]. unfold is_mnemonic in Href. cbn [ins_mnemonic] in Href, Ht.
  repeat (match type of Ht with context [String.eqb m ?s] => destruct (String.eqb m s) eqn:E end;
    [ apply String.eqb_eq in E; subst m; decide_mnemonics Href;
      destruct (operand 0 op) as [first| |]; [|done..]; cbn in Href, Ht; destruct (register first) as [a| |]; [|done..];
      cbn in Href, Ht;
      try (destruct (operand 1 op) as [second| |]; [|done..]; cbn in Href, Ht; destruct (register second) as [b| |]; [|done..];
           cbn in Href, Ht);
      injection Ht as <-; injection Href as <-;
      first [ apply refine_zero_sound; [done..|] | apply refine_pair_sound; [done..|] ] | clear E ]).
  all: try done.
  all: try by match goal with |- (?x =? 0) = _ => destruct (x =? 0) end.
  all: destruct Hwords as [_ Hwords]; pose proof (Hwords a); pose proof (Hwords b); unfold compares;
    match goal with
    | |- (if ?c then _ else if ?d then _ else _) = _ =>
        let c' := eval vm_compute in c in change c with c'; let d' := eval vm_compute in d in change d with d'
    end; cbn match; rewrite ?mask32_small by done; lia.
Qed.
End refine.
