(* ===== verification/EngineTheorems.v ===== *)
(** * The fixed point of the path engine *)
From S2P Require Import Prelude PyValue PyText PyRegex PyFiles PyInt Bytes Disassembly StackFrame LinkedInputs Interval Program Iterate Engine ProgramTheorems Rv32 IntervalTheorems TransferTheorems RefineTheorems.

(** ** The order on abstract states *)
Definition le_value (a b : absval) : Prop :=
  match a, b with _, None => True | Some s, Some t => s ⊆ t | None, Some _ => False end.
Definition le_regs (a b : regfile) : Prop := forall r, le_value (reg_at r a) (reg_at r b).
Definition le_facts (a b : facts) : Prop :=
  forall key v, b !! key = Some v -> exists u, a !! key = Some u /\ le_value u v.
Definition le_state (s t : astate) : Prop :=
  le_regs (as_regs s) (as_regs t) /\ le_facts (as_memory s) (as_memory t).

#[export] Instance le_value_preorder : PreOrder le_value.
Proof.
  split.
  - intros [s|]; simpl; [done|done].
  - intros [a|] [b|] [c|]; simpl; try done. intros; by etrans.
Qed.
#[export] Instance le_state_preorder : PreOrder le_state.
Proof.
  split.
  - intros s. split; [by intros r|]. intros key v Hv. exists v. by split.
  - intros s t u [Hr Hm] [Hr' Hm']. split; [intros r; exact (transitivity (Hr r) (Hr' r))|].
    intros key v Hv. destruct (Hm' _ _ Hv) as (w & Hw & ?). destruct (Hm _ _ Hw) as (x & Hx & ?).
    exists x. split; [done|]. by eapply transitivity.
Qed.

Lemma le_union_l a b : le_value a (union_value a b).
Proof.
  destruct a as [a|], b as [b|]; simpl; try done. unfold limited. destruct (Nat.leb _ _); simpl; [set_solver|done].
Qed.
Lemma le_union_r a b : le_value b (union_value a b).
Proof.
  destruct a as [a|], b as [b|]; simpl; try done. unfold limited. destruct (Nat.leb _ _); simpl; [set_solver|done].
Qed.

(** A merge is an upper bound of both states. *)
Lemma merge_upper s t u : State_merge s t = Ok u -> le_state s u /\ le_state t u.
Proof.
  intros (Hr & Hm & _ & _)%merge_regs. unfold le_state, le_regs, le_facts. rewrite Hr, Hm.
  split; (split; [intros r; rewrite reg_at_zip; first [apply le_union_l|apply le_union_r]|]);
    intros key v (x & y & -> & Hx & Hy)%map_lookup_zip_with_Some.
  - exists x. split; [done|apply le_union_l].
  - exists y. split; [done|apply le_union_r].
Qed.

Section described.
Context (base : Z) (entry : nat -> Z).

Lemma le_described a b w : le_value a b -> describes_value base entry a w -> describes_value base entry b w.
Proof. destruct a as [a|], b as [b|]; simpl; try done. intros Hab (x & Hx & Hw). exists x. split; [set_solver|done]. Qed.

Lemma le_describes_regs a b R : le_regs a b -> describes_regs base entry a R -> describes_regs base entry b R.
Proof. intros Hab Ha r. exact (le_described _ _ _ (Hab r) (Ha r)). Qed.

Lemma le_describes_memory a b M : le_facts a b -> describes_memory base entry a M -> describes_memory base entry b M.
Proof.
  intros Hab Ha key v Hv. destruct (Hab _ _ Hv) as (u & Hu & Hle). destruct (Ha _ _ Hu) as (? & ? & ?).
  do 2 (split; [done|]). by eapply le_described.
Qed.
End described.

(** ** The edges of one iteration *)
(** An edge is in the states: it is infeasible, or its state is below the one kept
    for its location. *)
Definition edge_covered (ins : instruction) (fl : flowing) (states : gmap location astate) (target : Z) : Prop :=
  refine ins target (fl_regs fl) = Ok None \/
  exists regs s, refine ins target (fl_regs fl) = Ok (Some regs)
    /\ states !! location_of target regs (fl_phase fl) = Some s
    /\ le_state (AState regs (fl_memory fl) (fl_phase fl)) s.

(** [states'] extends [states]: what changed is in the work list again. *)
Record extends (states states' : gmap location astate) (work work' : list location) : Prop := {
  ext_grow : forall k s, states !! k = Some s -> exists s', states' !! k = Some s' /\ le_state s s';
  ext_new : forall k s', states' !! k = Some s' -> states !! k = Some s' \/ k ∈ work';
  ext_work : forall k, k ∈ work -> k ∈ work';
  ext_dom : forall k, k ∈ work' -> k ∈ work \/ is_Some (states' !! k)
}.

Lemma extends_refl states work : extends states states work work.
Proof. split; eauto. intros k s Hs. exists s. by split. Qed.

Lemma extends_trans s1 s2 s3 w1 w2 w3 : extends s1 s2 w1 w2 -> extends s2 s3 w2 w3 -> extends s1 s3 w1 w3.
Proof.
  intros [G1 N1 W1 D1] [G2 N2 W2 D2]. split.
  - intros k s (s' & Hs' & ?)%G1. destruct (G2 _ _ Hs') as (s'' & ? & ?). exists s''. split; [done|]. by etrans.
  - intros k s' [Hs'|]%N2; [|by right]. apply N1 in Hs' as [|]; [by left|right; auto].
  - auto.
  - intros k [Hk|]%D2; [|by right]. apply D1 in Hk as [|[s Hs]]; [by left|right].
    destruct (G2 _ _ Hs) as (s' & ? & _). by exists s'.
Qed.

Lemma edge_covered_extends ins fl s1 s2 w1 w2 target :
  extends s1 s2 w1 w2 -> edge_covered ins fl s1 target -> edge_covered ins fl s2 target.
Proof.
  intros Hext [|(regs & s & Hr & Hs & Hle)]; [by left|right].
  destruct (ext_grow _ _ _ _ Hext _ _ Hs) as (s' & ? & ?). exists regs, s'. split_and!; [done..|]. by etrans.
Qed.

Lemma extends_insert states work k s :
  (forall old, states !! k = Some old -> le_state old s) -> extends states (<[k := s]> states) work (work ++ [k]).
Proof.
  intros Hle. split.
  - intros k' s' Hs'. destruct (decide (k' = k)) as [->|].
    + exists s. rewrite lookup_insert_eq. auto.
    + exists s'. by rewrite lookup_insert_ne.
  - intros k' s'. destruct (decide (k' = k)) as [->|]; [right; set_solver|]. rewrite lookup_insert_ne by done. auto.
  - set_solver.
  - intros k' [| ->%list_elem_of_singleton]%elem_of_app; [by left|right]. by rewrite lookup_insert_eq.
Qed.

Lemma edge_step_covered ins fl states work target states' work' :
  edge_step ins fl (states, work) target = Ok (states', work') ->
  extends states states' work work' /\ edge_covered ins fl states' target.
Proof.
  unfold edge_step, edge_covered. intros (refined & -> & H)%bind_Ok.
  destruct refined as [regs|]; [|injection H as <- <-; split; [apply extends_refl|by left]].
  destruct (states !! _) as [old|] eqn:Hold.
  - apply bind_Ok in H as (merged & Hm & H). apply merge_upper in Hm as [Hl Hr].
    case_bool_decide as Heq; injection H as <- <-.
    + split; [apply extends_refl|]. right. exists regs, old. subst merged. by split_and!.
    + split; [apply extends_insert; congruence|]. right. exists regs, merged. by rewrite lookup_insert_eq.
  - injection H as <- <-. split; [apply extends_insert; congruence|].
    right. eexists regs, _. rewrite lookup_insert_eq. by split_and!.
Qed.

Lemma edge_fold_covered ins fl targets states work states' work' :
  fold_outcome (edge_step ins fl) (states, work) targets = Ok (states', work') ->
  extends states states' work work' /\ forall t, t ∈ targets -> edge_covered ins fl states' t.
Proof.
  revert states work. induction targets as [|t targets IH]; intros states work; simpl.
  { intros [= <- <-]. split; [apply extends_refl|set_solver]. }
  intros ([states1 work1] & [Hext Ht]%edge_step_covered & [Hext' Hts]%IH)%bind_Ok.
  split; [by eapply extends_trans|]. intros t' [->|]%elem_of_cons; [|auto]. by eapply edge_covered_extends.
Qed.

(** ** The code does not change *)
(** The table of functions is keyed by their start. *)
Definition keyed_functions (p : program) : Prop := forall a fn, fn_at a (pr_functions p) = Some fn -> fn_start fn = a.
Definition same_code (p q : program) : Prop :=
  pr_instructions q = pr_instructions p /\ pr_sections q = pr_sections p
  /\ (forall a fn, fn_at a (pr_functions p) = Some fn -> fn_at a (pr_functions q) = Some fn)
  /\ (forall W, within W p -> within W q) /\ (keyed_functions p -> keyed_functions q) /\ pr_rows q = pr_rows p.
#[export] Instance same_code_preorder : PreOrder same_code.
Proof.
  split; [by intros p|]. intros p q r (H1 & H2 & H3 & H4 & H5 & H6) (H7 & H8 & H9 & H10 & H11 & H12). unfold same_code.
  rewrite H7, H1, H8, H2, H12, H6. split_and!; auto.
Qed.

Lemma fn_at_set a k fn fs : fn_at a (fn_set k fn fs) = if a =? k then Some fn else fn_at a fs.
Proof.
  unfold fn_at, fn_set. induction fs as [|[k' fn'] fs IH]; simpl.
  - rewrite (Z.eqb_sym a k). by destruct (k =? a).
  - destruct (Z.eqb_spec k' k) as [->|Hk]; simpl.
    + rewrite (Z.eqb_sym a k). by destruct (k =? a).
    + destruct (Z.eqb_spec k' a) as [->|]; [|done]. by rewrite (proj2 (Z.eqb_neq a k)).
Qed.

Lemma same_code_read p q : same_code p q -> program_read q = program_read p.
Proof. intros (_ & H & _). unfold program_read. by rewrite H. Qed.

Lemma validate_owner_code alnum a fn p fn' q :
  validate_owner alnum a fn p = Ok (fn', q) ->
  pr_instructions q = pr_instructions p /\ pr_sections q = pr_sections p /\ pr_functions q = pr_functions p
  /\ pr_rows q = pr_rows p /\ fn' = fn.
Proof.
  unfold validate_owner. intros (p' & Hp' & [= <- <-])%bind_Ok. case_bool_decide; [by injection Hp' as <-|].
  destruct (pr_origins p !! _); [|done]. by apply bind_Ok in Hp' as (? & _ & [= <-]).
Qed.

Lemma vector_start p a fn : vector_at p a = Ok (Some fn) -> fn_start fn = a.
Proof.
  unfold vector_at. destruct (pr_instructions p !! a); [|done]. destruct (_ && _); [|done].
  destruct (raw_at p a 4) as [|? []]; [done| |done]. intros (? & _ & H)%bind_Ok. case_bool_decide; [|done]. by injection H as <-.
Qed.
Lemma anonymous_start p a fn : anonymous_at p a = Ok fn -> fn_start fn = a.
Proof. unfold anonymous_at. by intros (? & _ & (_ & _ & [= <-])%bind_Ok)%bind_Ok. Qed.

Lemma install_code a fn p : known_owner p a = None -> fn_start fn = a ->
  (forall b g, fn_at b (pr_functions p) = Some g -> fn_at b (pr_functions (install a fn p).2) = Some g)
  /\ (keyed_functions p -> keyed_functions (install a fn p).2).
Proof.
  intros Hknown Hstart. split.
  - intros b g Hb. simpl. rewrite fn_at_set. destruct (Z.eqb_spec b a) as [->|]; [|done].
    unfold known_owner in Hknown. by rewrite Hb in Hknown.
  - intros Hp b g. simpl. rewrite fn_at_set. destruct (Z.eqb_spec b a) as [->|]; [by intros [= <-]|apply Hp].
Qed.

Lemma function_at_code alnum p a fn q : function_at alnum p a = Ok (fn, q) -> same_code p q.
Proof.
  intros H. cut (pr_instructions q = pr_instructions p /\ pr_sections q = pr_sections p /\ pr_rows q = pr_rows p
    /\ (forall a fn, fn_at a (pr_functions p) = Some fn -> fn_at a (pr_functions q) = Some fn)
    /\ (keyed_functions p -> keyed_functions q)).
  { intros (? & ? & ? & ? & ?). split_and!; [done..| |done|done]. intros W Hw. by eapply function_at_within. }
  revert H. unfold function_at. destruct (known_owner p a) as [fn'|] eqn:Hknown.
  { intros (-> & -> & Hf & -> & _)%validate_owner_code. unfold keyed_functions. by rewrite Hf. }
  destruct (List.filter _ _).
  2: { intros (-> & -> & Hf & -> & _)%validate_owner_code. unfold keyed_functions. by rewrite Hf. }
  intros (vector & Hv & H)%bind_Ok. destruct vector as [f|].
  - injection H as <- <-. destruct (install_code a f p Hknown (vector_start _ _ _ Hv)). by split_and!.
  - destruct (_ && _); [|done]. apply bind_Ok in H as (f & Hf & [= <- <-]).
    destruct (install_code a f p Hknown (anonymous_start _ _ _ Hf)). by split_and!.
Qed.

(** What a development may know of the results that the engine has cached: a property
    that only new results can break. *)
Class Certificate := {
  certified : engine -> Prop;
  certified_same e e' : en_cache e' = en_cache e -> same_code (en_program e) (en_program e') -> certified e -> certified e'
}.
#[export] Instance no_certificate : Certificate | 100 := {| certified _ := True; certified_same _ _ _ _ _ := I |}.

(** The engine only learns: the code stays, the records grow, and what is known of the
    cache stays true. *)
Record keeps_code `{Cert : Certificate} (e e' : engine) : Prop := {
  kc_code : same_code (en_program e) (en_program e');
  kc_exceptions : en_exceptions e ⊆ en_exceptions e';
  kc_visited : en_visited e ⊆ en_visited e';
  kc_certified : certified e -> certified e'
}.
#[export] Instance keeps_code_preorder `{Certificate} : PreOrder keeps_code.
Proof. split; [by intros e|]. intros e1 e2 e3 [] []. split; [by etrans..|auto]. Qed.
Lemma keeps_code_trans `{Certificate} e1 e2 e3 : keeps_code e1 e2 -> keeps_code e2 e3 -> keeps_code e1 e3.
Proof. apply transitivity. Qed.
Ltac by_keeps := split; simpl; [done|set_solver|set_solver|by apply certified_same].

Section code.
Context `{Cert : Certificate} (alnum : Z -> bool) (set_order : list Z -> list Z).

Lemma lift_Ok {A} (m : urun A) a : lift m = Ok a <-> m = Ok a.
Proof. unfold lift, map_error. destruct m; naive_solver. Qed.

Lemma function_of_pc_code a e fn e' : function_of_pc alnum a e = Ok (fn, e') -> keeps_code e e'.
Proof.
  unfold function_of_pc. intros ([fn' p] & Hf%lift_Ok & [= <- <-])%bind_Ok. apply function_at_code in Hf as Hcode.
  split; simpl; [done..|]. by apply certified_same.
Qed.

Definition analysis : Type := Z -> request -> engine -> erun ((Z * stack_path) * engine).
Definition analysis_keeps_code (an : analysis) : Prop := forall a rq e r e', an a rq e = Ok (r, e') -> keeps_code e e'.

Context (an : analysis) (Han : analysis_keeps_code an) (rq : request) (sp0 : absval) (saved0 : list absval).

Lemma call_step_code owner pc following depth rd target tfn fl e fl' e' :
  call_step an rq owner pc following depth rd target tfn fl e = Ok (fl', e') -> keeps_code e e'.
Proof.
  unfold call_step. intros ([[bound path] e1] & Hcall & H)%bind_Ok.
  assert (keeps_code e e1).
  { destruct (_ && _); [by injection Hcall as _ _ <-|by eapply Han]. }
  destruct (if fl_maximum fl <? _ then _ else _). by injection H as _ <-.
Qed.

Lemma add_transfer_code edge call binding site e : keeps_code e (add_transfer edge call binding site e).
Proof. by_keeps. Qed.
Lemma add_exception_code x e : keeps_code e (add_exception x e).
Proof. by_keeps. Qed.
Lemma add_accesses_code l e : keeps_code e (add_accesses l e).
Proof. by_keeps. Qed.
Lemma add_dispatch_code pc ts e : keeps_code e (add_dispatch pc ts e).
Proof. by_keeps. Qed.

Lemma destination_step_code owner pc following depth rd fl e target fl' e' :
  destination_step alnum an rq owner pc following depth rd (fl, e) target = Ok (fl', e') -> keeps_code e e'.
Proof.
  unfold destination_step. intros ([tfn e1] & Hf & H)%bind_Ok. apply function_of_pc_code in Hf.
  apply bind_Ok in H as (_ & _ & (binding & _ & (stage & _ & H)%bind_Ok)%bind_Ok).
  assert (Ht : forall edge call b site, keeps_code e (add_transfer edge call b site e1))
    by (intros; eapply keeps_code_trans; [exact Hf|apply add_transfer_code]).
  case_bool_decide; [injection H as _ <-; apply Ht|].
  case_bool_decide; [injection H as _ <-; eapply keeps_code_trans; [apply Ht|apply add_exception_code]|].
  destruct (_ || _); [injection H as _ <-; apply Ht|]. apply call_step_code in H. exact (keeps_code_trans _ _ _ (Ht _ _ _ _) H).
Qed.

Lemma destinations_code owner pc following depth rd targets fl e fl' e' :
  fold_outcome (destination_step alnum an rq owner pc following depth rd) (fl, e) targets = Ok (fl', e') -> keeps_code e e'.
Proof.
  revert fl e. induction targets as [|t targets IH]; intros fl e; simpl; [by intros [= _ <-]|].
  intros ([fl1 e1] & H1%destination_step_code & H2%IH)%bind_Ok. by eapply keeps_code_trans.
Qed.

Lemma jump_step_code owner pc following depth ins fl e fl' e' :
  jump_step alnum an rq sp0 saved0 owner pc following depth ins fl e = Ok (fl', e') -> keeps_code e e'.
Proof.
  unfold jump_step. intros ([rd [ds|]] & _ & H)%bind_Ok; [|done]. apply bind_Ok in H as (fl1 & _ & H).
  case_bool_decide; [by injection H as _ <-|]. apply destinations_code in H. destruct (Nat.ltb _ _); [|done].
  exact (keeps_code_trans _ _ _ (add_dispatch_code _ _ _) H).
Qed.

Lemma body_step_code owner pc depth sp ins s ac e fl e' :
  body_step alnum an rq sp0 saved0 owner pc depth sp ins s ac e = Ok (fl, e') -> keeps_code e e'.
Proof.
  unfold body_step. destruct (is_mnemonic ins TRAPS); [intros [= _ <-]; apply add_exception_code|].
  destruct (is_mnemonic ins INTERVAL_BRANCHES).
  { destruct (ins_target ins); [|done]. by intros (_ & _ & [= _ <-])%bind_Ok. }
  destruct (is_mnemonic ins JUMPS); [by apply jump_step_code|]. intros (eff & _ & [= _ <-])%bind_Ok. apply add_accesses_code.
Qed.

(** ** The bound only grows *)
Lemma call_step_maximum owner pc following depth rd target tfn fl e fl' e' :
  call_step an rq owner pc following depth rd target tfn fl e = Ok (fl', e') -> fl_maximum fl <= fl_maximum fl'.
Proof.
  unfold call_step. intros ([[bound path] e1] & _ & H)%bind_Ok.
  destruct (fl_maximum fl <? _) eqn:?; injection H as <- _; simpl; lia.
Qed.

Lemma destination_step_maximum owner pc following depth rd fl e target fl' e' :
  destination_step alnum an rq owner pc following depth rd (fl, e) target = Ok (fl', e') -> fl_maximum fl <= fl_maximum fl'.
Proof.
  unfold destination_step. intros ([tfn e1] & _ & H)%bind_Ok.
  apply bind_Ok in H as (_ & _ & (binding & _ & (stage & _ & H)%bind_Ok)%bind_Ok).
  case_bool_decide; [by injection H as <- _|]. case_bool_decide; [by injection H as <- _|].
  destruct (_ || _); [by injection H as <- _|]. by apply call_step_maximum in H.
Qed.

Lemma destinations_maximum owner pc following depth rd targets fl e fl' e' :
  fold_outcome (destination_step alnum an rq owner pc following depth rd) (fl, e) targets = Ok (fl', e') ->
  fl_maximum fl <= fl_maximum fl'.
Proof.
  revert fl e. induction targets as [|t targets IH]; intros fl e; simpl; [by intros [= <- _]|].
  intros ([fl1 e1] & H1%destination_step_maximum & H2%IH)%bind_Ok. lia.
Qed.

Lemma check_return_maximum pc fl fl' : check_return rq sp0 saved0 pc fl = Ok fl' -> fl_maximum fl' = fl_maximum fl.
Proof. unfold check_return. intros H. by inv_ok. Qed.

Lemma jump_step_maximum owner pc following depth ins fl e fl' e' :
  jump_step alnum an rq sp0 saved0 owner pc following depth ins fl e = Ok (fl', e') -> fl_maximum fl <= fl_maximum fl'.
Proof.
  unfold jump_step. intros ([rd [ds|]] & _ & H)%bind_Ok; [|done]. apply bind_Ok in H as (fl1 & H1 & H).
  assert (fl_maximum fl1 = fl_maximum fl).
  { destruct (bool_decide (RETURN ∈ ds)); [|by injection H1 as <-]. by apply lift_Ok, check_return_maximum in H1. }
  clear H1.
  case_bool_decide; [injection H as <- _; lia|]. apply destinations_maximum in H. simpl in H. lia.
Qed.

Lemma body_step_maximum owner pc depth sp ins s ac e fl e' :
  body_step alnum an rq sp0 saved0 owner pc depth sp ins s ac e = Ok (fl, e') ->
  ac_maximum ac <= fl_maximum fl /\ depth <= fl_maximum fl.
Proof.
  unfold body_step. set (m := if ac_maximum ac <? depth then _ else _).
  assert (Hm : ac_maximum ac <= m.1 /\ depth <= m.1) by (unfold m; destruct (_ <? _) eqn:?; simpl; lia).
  destruct (is_mnemonic ins TRAPS); [by intros [= <- _]|].
  destruct (is_mnemonic ins INTERVAL_BRANCHES).
  { destruct (ins_target ins); [|done]. by intros (_ & _ & [= <- _])%bind_Ok. }
  destruct (is_mnemonic ins JUMPS); [|by intros (eff & _ & [= <- _])%bind_Ok].
  intros H%jump_step_maximum. simpl in H. lia.
Qed.

Lemma visit_location_code current state ac e ac' e' :
  visit_location alnum set_order an rq sp0 saved0 current state ac e = Ok (ac', e') -> keeps_code e e'.
Proof.
  unfold visit_location. case_bool_decide.
  { intros (_ & _ & (sp & _ & [= _ <-])%bind_Ok)%bind_Ok. by_keeps. }
  intros ([owner e1] & He1%function_of_pc_code & Hrest)%bind_Ok.
  assert (He : keeps_code e e1) by (eapply keeps_code_trans; [|exact He1]; by_keeps).
  destruct (pr_instructions _ !! _) as [ins|]; [|done].
  apply bind_Ok in Hrest as ([sp depth] & _ & ([fl e2] & Hbody & (_ & _ & (reached & _ & [= _ <-])%bind_Ok)%bind_Ok)%bind_Ok).
  eapply keeps_code_trans; [exact He|]. by eapply body_step_code.
Qed.

Lemma activation_step_inv name st :
  match activation_step alnum set_order an rq sp0 saved0 name st with
  | inl st' => exists current work state, ac_work st.1 = current :: work /\ ac_states st.1 !! current = Some state
      /\ visit_location alnum set_order an rq sp0 saved0 current state
           (Activation (ac_states st.1) work (ac_maximum st.1) (ac_maximum_path st.1) (ac_return_states st.1)
              (ac_stops st.1) (ac_count st.1 + 1) (ac_local_max st.1)) st.2 = Ok st'
      /\ ac_count st.1 < iteration_limit
  | inr (Ok st') => st' = st /\ ac_work st.1 = []
  | _ => True
  end.
Proof.
  destruct st as [ac e]. simpl. destruct (ac_work ac) as [|current work]; [done|].
  destruct (iteration_limit <? _) eqn:?; [done|]. destruct (ac_states ac !! current) as [state|] eqn:Hs; [|done].
  destruct (visit_location _ _ _ _ _ _ _ _ _ _) as [st'|x|x] eqn:Hv; [|done..].
  exists current, work, state. split_and!; [done..|lia].
Qed.

(** ** The loop invariant *)
Context (Horder : forall l x, x ∈ set_order l <-> x ∈ l).

(** A location whose state has been processed: every successor is covered, and the
    bound is at least its depth. *)
Definition settled (p0 : program) (e : engine) (states : gmap location astate) (maximum : Z) (k : location) (s : astate) : Prop :=
  k.1.1.1.1 ∈ rq_stop_pcs rq \/
  exists ins owner sp depth ac1 e1 fl e2,
    pr_instructions p0 !! k.1.1.1.1 = Some ins /\ stack_depth k.1.1.1.1 (as_regs s) = Ok (sp, depth)
    /\ same_code p0 (en_program e1) /\ certified e1 /\ k.1.1.1.1 ∈ en_visited e1 /\ keeps_code e2 e
    /\ body_step alnum an rq sp0 saved0 owner k.1.1.1.1 depth sp ins s ac1 e1 = Ok (fl, e2)
    /\ fl_maximum fl <= maximum /\ forall t, t ∈ fl_targets fl -> edge_covered ins fl states t.

Lemma settled_extends p0 e e' states states' work work' m m' k s :
  extends states states' work work' -> m <= m' -> keeps_code e e' ->
  settled p0 e states m k s -> settled p0 e' states' m' k s.
Proof.
  intros Hext Hm He [|(ins & owner & sp & depth & ac1 & e1 & fl & e2 & Hi & Hd & Hc & Hce & Hv & Hk & Hb & Hmax & Hcov)];
    [by left|right].
  exists ins, owner, sp, depth, ac1, e1, fl, e2. split_and!; [done..|by etrans|done|lia|].
  intros t Ht. eapply edge_covered_extends; [exact Hext|auto].
Qed.

Record closing (p0 : program) (key : location) (start : astate) (st : activation * engine) : Prop := {
  cl_code : same_code p0 (en_program st.2);
  cl_certified : certified st.2;
  cl_settled : forall k s, ac_states st.1 !! k = Some s ->
    k ∈ ac_work st.1 \/ settled p0 st.2 (ac_states st.1) (ac_maximum st.1) k s;
  cl_work : forall k, k ∈ ac_work st.1 -> is_Some (ac_states st.1 !! k);
  cl_entry : exists s, ac_states st.1 !! key = Some s /\ le_state start s
}.

Lemma visit_location_closing p0 key start current state ac e ac' e' :
  (forall k s, ac_states ac !! k = Some s -> k = current \/ k ∈ ac_work ac \/ settled p0 e (ac_states ac) (ac_maximum ac) k s) ->
  (forall k, k ∈ ac_work ac -> is_Some (ac_states ac !! k)) ->
  (exists s, ac_states ac !! key = Some s /\ le_state start s) -> same_code p0 (en_program e) -> certified e ->
  ac_states ac !! current = Some state ->
  visit_location alnum set_order an rq sp0 saved0 current state ac e = Ok (ac', e') ->
  closing p0 key start (ac', e').
Proof.
  intros Hset Hwork Hentry Hcode Hcert Hcur. unfold visit_location. case_bool_decide as Hstop.
  { intros (_ & _ & (sp & _ & [= <- <-])%bind_Ok)%bind_Ok. split; simpl; [done|by apply (certified_same e)| |done|done].
    intros k s Hk. destruct (Hset k s Hk) as [->|[|]]; [right; by left|by left|right].
    eapply (settled_extends _ e); [apply (extends_refl _ [])|done| |done]. by_keeps. }
  intros ([owner e1] & He1%function_of_pc_code & H)%bind_Ok.
  assert (He : keeps_code e e1) by (eapply keeps_code_trans; [|exact He1]; by_keeps).
  assert (Hvis : current.1.1.1.1 ∈ en_visited e1) by (apply (kc_visited _ _ He1); simpl; set_solver).
  assert (Hcode1 : same_code p0 (en_program e1)) by (etrans; [done|apply (kc_code _ _ He)]).
  pose proof (kc_certified _ _ He Hcert) as Hcert1.
  destruct (pr_instructions _ !! _) as [ins|] eqn:Hins; [|done].
  apply bind_Ok in H as ([sp depth] & Hdepth%lift_Ok & ([fl e2] & Hbody & (_ & _ & ([states work] & Hfold%lift_Ok & [= <- <-])%bind_Ok)%bind_Ok)%bind_Ok).
  pose proof (body_step_maximum _ _ _ _ _ _ _ _ _ _ Hbody) as [Hmax _].
  assert (Hcode2 : keeps_code e1 e2) by by eapply body_step_code.
  apply edge_fold_covered in Hfold as [Hext Hcov].
  assert (Hnew : settled p0 e2 states (fl_maximum fl) current state).
  { right. exists ins, owner, sp, depth, ac, e1, fl, e2. split_and!; [|done..| |].
    - by rewrite <- (proj1 Hcode1).
    - done.
    - intros t Ht. apply Hcov, Horder, elem_of_elements, elem_of_list_to_set, Ht. }
  split; simpl.
  - etrans; [done|apply (kc_code _ _ Hcode2)].
  - by apply (kc_certified _ _ Hcode2).
  - intros k s Hk. destruct (ext_new _ _ _ _ Hext _ _ Hk) as [Hold|]; [|by left].
    destruct (Hset _ _ Hold) as [->|[Hw|Hs]].
    + right. assert (s = state) as -> by congruence. done.
    + left. by apply (ext_work _ _ _ _ Hext).
    + right. eapply (settled_extends _ e); [done..| |done]. by eapply keeps_code_trans.
  - intros k [Hk|]%(ext_dom _ _ _ _ Hext); [|done]. destruct (Hwork _ Hk) as [s Hs].
    destruct (ext_grow _ _ _ _ Hext _ _ Hs) as (s' & ? & _). by exists s'.
  - destruct Hentry as (s & Hs & Hle). destruct (ext_grow _ _ _ _ Hext _ _ Hs) as (s' & ? & ?).
    exists s'. split; [done|]. by eapply transitivity.
Qed.

Lemma activation_step_closing p0 key start name st st' :
  closing p0 key start st -> activation_step alnum set_order an rq sp0 saved0 name st = inl st' ->
  closing p0 key start st'.
Proof.
  intros [Hcode Hcert Hset Hwork Hentry] Hstep. pose proof (activation_step_inv name st) as Hst. rewrite Hstep in Hst.
  destruct Hst as (current & work & state & Hw & Hs & Hv & _). destruct st' as [ac' e'].
  eapply visit_location_closing; [..|exact Hv]; simpl; [| |done..].
  - intros k s Hk. destruct (Hset k s Hk) as [Hin|]; [|auto]. rewrite Hw in Hin. apply elem_of_cons in Hin as [|]; auto.
  - intros k Hk. apply Hwork. rewrite Hw. by right.
Qed.
End code.

Section analyze.
Context `{Cert : Certificate} (alnum : Z -> bool) (set_order : list Z -> list Z).

Lemma default_Ok {A} (m : option (erun A)) a : default (Raise OutOfFuel) m = Ok a -> m = Some (Ok a).
Proof. destruct m; simpl; naive_solver. Qed.

Lemma enter_code address e fn e' : enter alnum address e = Ok (fn, e') -> keeps_code e e'.
Proof.
  unfold enter. intros (_ & _ & H%function_of_pc_code)%bind_Ok. eapply keeps_code_trans; [|exact H]. by_keeps.
Qed.

(** The loop rule for an activation. *)
Lemma run_activation_inv an rq name address e st (I : activation * engine -> Prop) :
  (forall st st', I st -> activation_step alnum set_order an rq (reg_at 2 (request_seed rq).1)
                            (saved_values (request_seed rq)) name st = inl st' -> I st') ->
  I (start_activation address (request_seed rq), e) ->
  run_activation alnum set_order an rq name address e = Ok st -> I st /\ ac_work st.1 = [].
Proof.
  intros Hstep Hstart Hrun%default_Ok.
  refine (run_loop_inv _ I (fun r => forall st, r = Ok st -> I st /\ ac_work st.1 = []) _ _ _ Hstep _ Hstart Hrun _ eq_refl).
  intros st1 r HI Hend st2 ->.
  pose proof (activation_step_inv alnum set_order an rq (reg_at 2 (request_seed rq).1) (saved_values (request_seed rq)) name st1) as Hinv.
  rewrite Hend in Hinv. by destruct Hinv as [-> ?].
Qed.

Lemma run_activation_code an rq name address e ac e' : analysis_keeps_code an ->
  run_activation alnum set_order an rq name address e = Ok (ac, e') -> keeps_code e e'.
Proof.
  intros Han Hloop. apply (run_activation_inv _ _ _ _ _ _ (fun st => keeps_code e st.2)) in Hloop as [Hloop _]; [done| |done].
  intros st st' Hst Hstep. pose proof (activation_step_inv alnum set_order an rq
    (reg_at 2 (request_seed rq).1) (saved_values (request_seed rq)) name st) as Hinv.
  rewrite Hstep in Hinv. destruct Hinv as (? & ? & ? & _ & _ & Hv & _). destruct st' as [ac' e''].
  apply visit_location_code in Hv; [|done]. by eapply keeps_code_trans.
Qed.

Lemma conclude_visited address rq fn ac e r e' : conclude address rq fn ac e = Ok (r, e') -> en_visited e ⊆ en_visited e'.
Proof. unfold conclude. by intros (_ & _ & (_ & _ & [= _ <-])%bind_Ok)%bind_Ok. Qed.

(** An analysis keeps the code; that what it caches is certified is up to the certificate. *)
Lemma analysis_code fuel a rq e r e' : analysis_keeps_code (analyze alnum set_order fuel) ->
  (forall fn e1 ac e2, enter alnum a e = Ok (fn, e1) ->
     run_activation alnum set_order (analyze alnum set_order fuel) rq (fn_name fn) a e1 = Ok (ac, e2) ->
     conclude a rq fn ac e2 = Ok (r, e') -> certified e -> certified e2 -> certified e') ->
  analyze alnum set_order (S fuel) a rq e = Ok (r, e') -> keeps_code e e'.
Proof.
  intros IH Hnew. simpl. destruct (if is_special rq then None else _); [by intros [= _ <-]|].
  intros ([fn e1] & He1 & ([ac e2] & Hloop & Hend)%bind_Ok)%bind_Ok. simpl in *.
  assert (Hk : keeps_code e e2) by (eapply keeps_code_trans; [by eapply enter_code|by eapply run_activation_code]).
  destruct Hk as [Hc He Hv Hcert].
  pose proof Hend as Hfinish. unfold conclude in Hfinish. apply bind_Ok in Hfinish as (_ & _ & (_ & _ & [= _ Hfinish])%bind_Ok).
  split; [by rewrite <- Hfinish..|]. intros Hce. eapply Hnew; eauto.
Qed.

(** An activation ends with states in which every location is settled, and which
    hold the start. *)
Lemma activation_settled (Horder : forall l x, x ∈ set_order l <-> x ∈ l) p0 an address rq name e ac e' :
  analysis_keeps_code an -> same_code p0 (en_program e) -> certified e ->
  run_activation alnum set_order an rq name address e = Ok (ac, e') ->
  (exists s, ac_states ac !! location_of address (request_seed rq).1 0 = Some s
    /\ le_state (AState (request_seed rq).1 (request_seed rq).2 0) s)
  /\ forall k s, ac_states ac !! k = Some s ->
       settled alnum an rq (reg_at 2 (request_seed rq).1) (saved_values (request_seed rq))
         p0 e' (ac_states ac) (ac_maximum ac) k s.
Proof.
  intros Han Hp0 Hcert Hloop.
  apply (run_activation_inv _ _ _ _ _ _ (closing alnum an rq (reg_at 2 (request_seed rq).1)
    (saved_values (request_seed rq)) p0 (location_of address (request_seed rq).1 0) (AState (request_seed rq).1 (request_seed rq).2 0))) in Hloop
    as [[Hcode _ Hset _ Hentry] Hwork].
  - split; [done|]. intros k s Hk. destruct (Hset k s Hk) as [Hin|Hsettled]; [|done].
    simpl in Hin, Hwork. rewrite Hwork in Hin. by apply elem_of_nil in Hin.
  - intros st st' Hst Hstep. eapply activation_step_closing; [..|exact Hstep]; done.
  - split; simpl.
    + done.
    + done.
    + intros k s' [<- _]%lookup_singleton_Some. left. by left.
    + intros k ->%list_elem_of_singleton. by rewrite lookup_singleton_eq.
    + eexists. rewrite lookup_singleton_eq. by split.
Qed.
End analyze.

(** Without a certificate nothing is asked of the results. *)
Lemma analyze_keeps_code alnum set_order fuel : analysis_keeps_code (Cert := no_certificate) (analyze alnum set_order fuel).
Proof. induction fuel as [|fuel IH]; [by intros ?|]. intros a rq e r e'. by apply analysis_code. Qed.
