(* ===== verification/JumpTheorems.v ===== *)
(** * Jumps of the path engine

    Where a jump of the processor goes, that the destinations of the engine describe
    it, and what the engine records for each destination. *)
From S2P Require Import Prelude PyValue PyText PyRegex PyFiles PyInt Bytes Disassembly StackFrame LinkedInputs Interval Program Iterate Engine ProgramTheorems Rv32 IntervalTheorems TransferTheorems RefineTheorems EngineTheorems.

(** ** The processor *)
(** The link register and the target of a jump; a register jump goes to an even
    address. *)
Definition jumps (pc : Z) (ins : instruction) (R : registers) : option (nat * Z) :=
  let direct rd := t ← ins_target ins; if 0 <=? t then Some (rd, t) else None in
  let indirect rd := r ← first_register (operands ins); if Z.even (R r) then Some (rd, R r) else None in
  if is_mnemonic ins ["c.j"] then direct 0%nat
  else if is_mnemonic ins ["c.jal"] then direct 1%nat
  else if is_mnemonic ins ["jal"] then rd ← first_register (operands ins); direct rd
  else if is_mnemonic ins ["jalr"] then
    rd ← first_register (operands ins); a ← effective pc (operands ins) R; Some (rd, Z.land a (-2))
  else if is_mnemonic ins ["c.jalr"] then indirect 1%nat
  else if is_mnemonic ins ["c.jr"] then indirect 0%nat
  else None.

(** The ROM byte copy, which the engine summarizes. *)
Definition rom_memcpy_address : Z := 0x400004AC.
(** Where the body returns to. *)
Definition return_address (entry : nat -> Z) : Z := Z.land (mask32 (entry 1%nat)) (-2).

Lemma land_even y : Z.land y (-2) = 2 * (y / 2).
Proof.
  transitivity (Z.shiftl (Z.shiftr y 1) 1); [|by rewrite Z.shiftl_mul_pow2, Z.shiftr_div_pow2, Z.mul_comm].
  rewrite <- Z.ldiff_ones_r by done. apply Z.bits_inj'. intros n Hn.
  rewrite Z.ldiff_spec, Z.land_spec. f_equal. change (-2) with (Z.lnot 1). by rewrite Z.lnot_spec.
Qed.

Lemma land_even_mask y : mask32 (Z.land y (-2)) = Z.land (mask32 y) (-2).
Proof.
  apply Z.bits_inj'. intros n Hn. rewrite mask32_testbit, !Z.land_spec, mask32_testbit by done.
  by rewrite <- !andb_assoc, (andb_comm (Z.testbit (-2) n)).
Qed.

Lemma even_land y : Z.even y = true -> Z.land y (-2) = y.
Proof. intros [k ->]%Z.even_spec. replace (2 * k) with (k * 2) by lia. rewrite land_even, Z.div_mul by done. lia. Qed.

Lemma jumps_nonneg pc ins R rd t : words R -> jumps pc ins R = Some (rd, t) -> 0 <= t.
Proof.
  intros [_ Hw]. unfold jumps. repeat (case_match; [|]).
  all: repeat match goal with |- context [?x ≫= _] => destruct x as [?y|] eqn:?E; simpl; [|done] end.
  all: try (case_match; [|done]).
  all: intros [= <- <-] || done; try lia; try apply Hw.
  apply Z.land_nonneg. left. unfold effective in *. repeat (simplify_option_eq; case_match; simplify_eq; try done).
  apply mask32_bound.
Qed.

(** ** The destinations of the engine *)
Section described.
Context (base : Z) (entry : nat -> Z).

(** What a value is: the constant itself, the return token, or no address of code. *)
Definition goes (x t : Z) : Prop :=
  x = t \/ (x = RETURN /\ t = return_address entry) \/ (~ 0 <= x < WORD /\ x <> RETURN).

Lemma stands_goes x w : 0 <= w < WORD -> Z.even w = true -> stands_for base entry x w -> goes x w.
Proof.
  intros Hw Heven. unfold stands_for, goes. destruct (is_constant x) eqn:Hc.
  - intros ->. unfold is_constant in Hc. apply Z.ltb_lt in Hc. destruct (decide (0 <= x)).
    + left. rewrite mask32_small; [done|lia].
    + right. right. split; [lia|]. unfold RETURN, WORD in *. lia.
  - destruct (is_address x) eqn:Ha.
    + intros _. right. right. unfold is_address, RETURN, WORD in *. apply Z.leb_le in Ha. lia.
    + intros [[-> ->]|(r & Hr & -> & _)]; right; [left|right].
      * split; [done|]. unfold return_address. by rewrite mask32_small, even_land.
      * unfold RETURN, WORD. assert (r <> 0)%nat by (intros ->; set_solver). lia.
Qed.

Lemma stands_sum_goes x off w v : stands_for base entry x w -> is_constant off = true -> - WORD <= x ->
  combine (total_op (fun x y => Z.land (x + y) (-2))) x off = Ok v -> goes v (Z.land (mask32 (w + off)) (-2)).
Proof.
  intros Hs Hoff Hx [= <-]. destruct (is_constant x) eqn:Hc.
  - apply stands_constant in Hs as ->; [|done]. left.
    rewrite (constant_not_big x), (constant_not_big off) by done. simpl. by rewrite mask32_add, land_even_mask.
  - assert (Ha : 2 ^ 47 <= x).
    { unfold stands_for in Hs. rewrite Hc in Hs. destruct (is_address x) eqn:Ha; [by apply Z.leb_le|].
      exfalso. unfold RETURN, WORD in *. destruct Hs as [[? _]|(r & _ & ? & _)]; lia. }
    assert (Hbig : is_big x = true) by (apply Z.leb_le; unfold WORD; lia). rewrite Hbig. simpl. right. right.
    unfold is_constant in Hoff. apply Z.ltb_lt in Hoff. rewrite land_even. unfold RETURN, WORD in *.
    pose proof (Z.div_mod (x + off) 2). pose proof (Z.mod_pos_bound (x + off) 2). lia.
Qed.

Lemma limited_Some s t : limited s = Some t -> t = s.
Proof. unfold limited. destruct (Nat.leb _ _); congruence. Qed.

Lemma arithmetic_elem A off f ds : arithmetic A (const off) f = Ok (Some ds) ->
  exists s, A = Some s /\ forall x, x ∈ s -> - WORD <= x /\ exists v, combine f x off = Ok v /\ v ∈ ds.
Proof.
  unfold arithmetic, const. destruct A as [s|]; [|done]. intros H. exists s. split; [done|]. intros x Hx.
  destruct (existsb _ _) eqn:Hlow; [done|]. rewrite existsb_elem_false in Hlow.
  assert (- WORD <= x) by (apply Z.ltb_ge, Hlow, elem_of_elements; set_solver). split; [done|].
  apply bind_Ok in H as (values & Hvalues%map_outcome_Ok & [= ->%limited_Some]).
  assert (Hp : (x, off) ∈ pairs s {[ off ]}) by (apply elem_of_pairs; set_solver).
  apply list_elem_of_lookup in Hp as [i Hi]. destruct (Forall2_lookup_l _ _ _ _ _ Hvalues Hi) as (v & Hv & Hc).
  exists v. split; [done|]. apply elem_of_list_to_set. by eapply list_elem_of_lookup_2.
Qed.

Lemma jumps_described pc ins regs R rd t rd' ds :
  describes_regs base entry regs R -> words R -> jumps pc ins R = Some (rd, t) ->
  jump_destinations pc ins (operands ins) regs = Ok (rd', Some ds) -> rd' = rd /\ exists x, x ∈ ds /\ goes x t.
Proof.
  intros Hregs [_ Hw]. unfold jumps, jump_destinations, first_register.
  assert (Hdirect : forall a b : nat, (t ← ins_target ins; if 0 <=? t then Some (a, t) else None) = Some (rd, t) ->
    Ok (E := unclosed) (b, match ins_target ins with Some t => const t | None => None end) = Ok (rd', Some ds) ->
    a = rd /\ b = rd' /\ exists x, x ∈ ds /\ goes x t).
  { intros a b. destruct (ins_target ins) as [u|]; [|done]. simpl. destruct (0 <=? u); [|done]. intros [= -> ->] [= -> <-].
    split_and!; [done..|]. exists t. split; [by apply elem_of_singleton|by left]. }
  assert (Hindirect : forall a b : nat, (r ← ok_of (first ← operand 0 (operands ins); register first);
      if Z.even (R r) then Some (a, R r) else None) = Some (rd, t) ->
    (first ← operand 0 (operands ins); r ← register first; Ok (b, reg_at r regs)) = Ok (rd', Some ds) ->
    a = rd /\ b = rd' /\ exists x, x ∈ ds /\ goes x t).
  { intros a b H1 (first & Hf & (r & Hr & [= -> Hv])%bind_Ok)%bind_Ok. rewrite Hf in H1. simpl in H1. rewrite Hr in H1.
    simpl in H1. destruct (Z.even (R r)) eqn:He; [|done]. injection H1 as -> <-. split_and!; [done..|].
    pose proof (Hregs r) as Hd. rewrite Hv in Hd. destruct Hd as (x & Hx & Hs). exists x. split; [done|].
    by apply stands_goes. }
  destruct (is_mnemonic ins ["c.j"]). { intros H1 H2. destruct (Hdirect _ _ H1 H2) as (<- & <- & ?). done. }
  destruct (is_mnemonic ins ["c.jal"]). { intros H1 H2. destruct (Hdirect _ _ H1 H2) as (<- & <- & ?). done. }
  destruct (is_mnemonic ins ["jal"]).
  { intros H1 (first & Hf & (r & Hr & H2)%bind_Ok)%bind_Ok. rewrite Hf in H1. simpl in H1. rewrite Hr in H1.
    destruct (Hdirect _ _ H1 H2) as (<- & <- & ?). done. }
  destruct (is_mnemonic ins ["jalr"]).
  { intros H1 (first & Hf & (r & Hr & (D & HD & [= -> ->])%bind_Ok)%bind_Ok)%bind_Ok. rewrite Hf in H1. simpl in H1.
    rewrite Hr in H1. simpl in H1. unfold effective in H1. unfold jalr_destinations in HD.
    apply bind_Ok in HD as (second & Hsec & (located & Hloc & (q & Hq & HD)%bind_Ok)%bind_Ok).
    rewrite Hsec in H1. simpl in H1. destruct (memory_operand pc second) as [[off text]|e|x]; [|done..].
    injection Hloc as <-. simpl in *. rewrite Hq in H1. simpl in H1. destruct (is_constant off) eqn:Hoff; [|done].
    injection H1 as <- <-. split; [done|]. pose proof (Hregs q) as Hd.
    destruct (_ && bool_decide _) eqn:Hret.
    - apply andb_true_iff in Hret as [->%Z.eqb_eq Hb%bool_decide_eq_true]. rewrite Hb in HD, Hd. injection HD as <-.
      exists RETURN. split; [by apply elem_of_singleton|]. destruct Hd as (x & ->%elem_of_singleton & Hs).
      right. left. split; [done|]. rewrite Z.add_0_r. unfold return_address. do 2 f_equal.
      unfold stands_for in Hs. destruct Hs as [[_ ?]|(z & Hz & Hzz & _)]; [done|]. exfalso.
      assert (z <> 0)%nat by (intros ->; set_solver). lia.
    - apply arithmetic_elem in HD as (s & Hs & Hel). rewrite Hs in Hd. destruct Hd as (x & Hx & Hst).
      destruct (Hel _ Hx) as (Hlow & v & Hv & Hin). exists v. split; [done|]. by eapply stands_sum_goes. }
  destruct (is_mnemonic ins ["c.jalr"]); [intros H1 H2; destruct (Hindirect _ _ H1 H2) as (<- & <- & ?); done|].
  destruct (is_mnemonic ins ["c.jr"]); [intros H1 H2; destruct (Hindirect _ _ H1 H2) as (<- & <- & ?); done|done].
Qed.
End described.

(** ** What the engine records for a jump *)
(** A call that an inlining request enters. *)
Definition inlined (rq : request) (t : Z) : bool := rq_inline_calls rq && negb (bool_decide (t ∈ rq_summaries rq)).
Definition inner (rq : request) (owner tfn : function) (rd : nat) (t : Z) : Prop :=
  fn_start tfn = fn_start owner \/ rd ∈ [0; 5]%nat \/ inlined rq t = true.

Section record.
Context `{Cert : Certificate} (alnum : Z -> bool) (an : analysis) (rq : request) (Hskip : rq_skip_calls rq = false).
Context (owner : function) (pc following depth : Z) (rd : nat).
Abbreviation visit := (destination_step alnum an rq owner pc following depth rd).
Abbreviation linked h := (setreg rd (const following) h).

(** The bound of a callee is part of the bound. *)
Definition callee_within (cb : absval) (t : Z) (e : engine) (maximum : Z) : Prop :=
  exists e1 b path e2, an t (plain_request cb) e1 = Ok ((b, path), e2) /\ keeps_code e e1 /\ depth + b <= maximum.

Lemma destination_inv fl e t fl' e' : visit (fl, e) t = Ok (fl', e') ->
  exists tfn e1, function_of_pc alnum t e = Ok (tfn, e1)
    /\ (t =? fn_start owner) && bool_decide (rd ∈ [0; 1; 5]%nat) = false
    /\ ((t ∈ rq_stop_calls rq \/ (pc, fn_name tfn, exceptional_scope) ∈ en_exceptions e')
          /\ fl_regs fl' = fl_regs fl /\ fl_memory fl' = fl_memory fl /\ fl_targets fl' = fl_targets fl
        \/ inner rq owner tfn rd t /\ fl_regs fl' = linked (fl_regs fl) /\ fl_memory fl' = fl_memory fl
          /\ fl_targets fl' = fl_targets fl ++ [t]
        \/ ~ inner rq owner tfn rd t /\ fl_regs fl' = linked (forget_caller (fl_regs fl))
          /\ (t <> rom_memcpy_address -> fl_memory fl' = fl_memory fl) /\ fl_targets fl' = fl_targets fl ++ [following]
          /\ exists cb, (cb = None \/ cb = reg_at 11 (fl_regs fl)) /\ callee_within cb t e (fl_maximum fl')).
Proof using Cert Hskip.
  unfold destination_step. intros ([tfn e1] & Hf & H)%bind_Ok. exists tfn, e1. split; [done|].
  apply bind_Ok in H as (_ & Hrec%check_Ok & (binding & _ & (stage & Hstage%lift_Ok & H)%bind_Ok)%bind_Ok).
  split; [by apply negb_true_iff|]. simpl in H.
  case_bool_decide as Hstop; [left; injection H as <- <-; split; [by left|done]|].
  case_bool_decide as Hexc; [left; injection H as <- <-; split; [right; simpl; set_solver|done]|]. right.
  unfold inner, inlined. destruct (fn_start tfn =? fn_start owner) eqn:Hown; simpl in H.
  { left. injection H as <- _. split; [left; lia|done]. }
  case_bool_decide as Hrd; simpl in H; [left; injection H as <- _; split; [by right; left|done]|].
  destruct (rq_inline_calls rq && _) eqn:Hinl; [left; injection H as <- _; split; [by right; right|done]|].
  right. split; [intros [?|[?|?]]; [lia|done|done]|]. unfold call_step in H. simpl in H. rewrite Hskip in H. simpl in H.
  apply bind_Ok in H as ([[b path] e3] & Han' & H). destruct (if fl_maximum fl <? _ then _ else _) as [m mp] eqn:Hm.
  injection H as <- _. simpl. split_and!; [done| |done|].
  - intros Ht. unfold rom_memcpy_address in Ht. by rewrite (proj2 (Z.eqb_neq t 0x400004AC) Ht).
  - eexists. split; [|do 4 eexists; split_and!; [exact Han'| |]].
    + destruct (String.eqb _ _); auto.
    + apply function_of_pc_code in Hf. eapply keeps_code_trans; [exact Hf|apply add_transfer_code].
    + destruct (fl_maximum fl <? depth + b) eqn:Hlt; injection Hm as <- _; simpl; lia.
Qed.

Abbreviation visits := (fold_outcome visit).

(** An invariant of the registers. *)
Lemma destinations_regs (I : regfile -> Prop) l fl e fl' e' :
  (forall h, I h -> I (linked h)) -> (forall h, I h -> I (linked (forget_caller h))) ->
  visits (fl, e) l = Ok (fl', e') -> I (fl_regs fl) -> I (fl_regs fl').
Proof using Cert Hskip.
  intros Hl Hf. revert fl e. induction l as [|t l IH]; intros fl e; cbn [fold_outcome]; [by intros [= <- _]|].
  intros ([fl1 e1] & H1 & H2)%bind_Ok HI. eapply IH; [exact H2|].
  apply destination_inv in H1 as (tfn & e0 & _ & _ & [(_ & -> & _)|[(_ & -> & _)|(_ & -> & _)]]); auto.
Qed.

Lemma destinations_grow (Han : analysis_keeps_code an) l fl e fl' e' : visits (fl, e) l = Ok (fl', e') ->
  (rom_memcpy_address ∉ l -> fl_memory fl' = fl_memory fl) /\ (forall t, t ∈ fl_targets fl -> t ∈ fl_targets fl')
  /\ fl_maximum fl <= fl_maximum fl' /\ keeps_code e e'.
Proof using Cert Hskip.
  intros Hv. pose proof (destinations_maximum _ _ _ _ _ _ _ _ _ _ _ _ _ Hv) as Hm.
  pose proof (destinations_code _ _ Han _ _ _ _ _ _ _ _ _ _ _ Hv) as Hk. revert Hv Hm Hk.
  intros Hv _ _. split_and!; [| |by eapply destinations_maximum|by eapply destinations_code].
  - revert fl e Hv. induction l as [|t l IH]; intros fl e; cbn [fold_outcome]; [by intros [= <- _]|].
    intros ([fl1 e1] & H1 & H2)%bind_Ok Hno. rewrite (IH _ _ H2) by set_solver.
    apply destination_inv in H1 as (tfn & e0 & _ & _ & [(_ & _ & -> & _)|[(_ & _ & -> & _)|(_ & _ & -> & _)]]); try done. set_solver.
  - revert fl e Hv. induction l as [|t l IH]; intros fl e; cbn [fold_outcome]; [by intros [= <- _]|].
    intros ([fl1 e1] & H1 & H2)%bind_Ok u Hu. eapply IH; [exact H2|].
    apply destination_inv in H1 as (tfn & e0 & _ & _ & [(_ & _ & _ & ->)|[(_ & _ & _ & ->)|(_ & _ & _ & -> & _)]]); set_solver.
Qed.

Lemma destinations_at l fl e fl' e' t : visits (fl, e) l = Ok (fl', e') -> t ∈ l ->
  exists l1 l2 fl1 e1 fl2 e2, l = l1 ++ t :: l2 /\ visits (fl, e) l1 = Ok (fl1, e1) /\ visit (fl1, e1) t = Ok (fl2, e2)
    /\ visits (fl2, e2) l2 = Ok (fl', e').
Proof.
  intros Hv (l1 & l2 & ->)%list_elem_of_split. rewrite fold_outcome_app in Hv.
  apply bind_Ok in Hv as ([fl1 e1] & H1 & ([fl2 e2] & H2 & H3)%bind_Ok). by exists l1, l2, fl1, e1, fl2, e2.
Qed.
End record.

(** A jump looks at each destination that is not the return. *)
Lemma jump_step_inv `{Certificate} alnum an rq sp0 saved0 owner pc following depth ins fl e fl' e' :
  jump_step alnum an rq sp0 saved0 owner pc following depth ins fl e = Ok (fl', e') ->
  exists rd ds, jump_destinations pc ins (operands ins) (fl_regs fl) = Ok (rd, Some ds)
    /\ (ds ∖ {[ RETURN ]} = ∅ \/ exists fl0 e0 l, fl_regs fl0 = fl_regs fl /\ fl_memory fl0 = fl_memory fl /\ keeps_code e e0
         /\ (forall t, t ∈ l <-> t ∈ ds /\ t <> RETURN)
         /\ fold_outcome (destination_step alnum an rq owner pc following depth rd) (fl0, e0) l = Ok (fl', e')).
Proof.
  unfold jump_step. intros ([rd [ds|]] & Hd%lift_Ok & Hj)%bind_Ok; [|done]. exists rd, ds. split; [done|]. cbn [fst snd] in *.
  apply bind_Ok in Hj as (fl1 & Hret & Hj).
  assert (Hsame : fl_regs fl1 = fl_regs fl /\ fl_memory fl1 = fl_memory fl).
  { destruct (bool_decide (RETURN ∈ ds)); [|by injection Hret as <-].
    apply lift_Ok in Hret. unfold check_return in Hret. by inv_ok. }
  case_bool_decide as Hempty; [by left|right]. destruct Hsame as [Hr Hm].
  eexists _, _, _. split_and!; [| | | |exact Hj]; [done|done| |].
  - destruct (Nat.ltb _ _); [apply add_dispatch_code|done].
  - intros t. rewrite elem_of_sort_by, elem_of_elements. set_solver.
Qed.
