(* ===== verification/StackBound.v ===== *)
(** * The bound of the engine on the processor's stack

    Executions of one body, with a call that is not inlined as one move that keeps
    the calling convention, and the theorem that the states of the engine cover every
    position such an execution reaches. *)
From S2P Require Import Prelude PyValue PyText PyRegex PyFiles PyInt Bytes Disassembly StackFrame LinkedInputs Interval Program Iterate Engine IntervalFixture ProgramTheorems Rv32 IntervalTheorems TransferTheorems RefineTheorems EngineTheorems JumpTheorems.

(** ** Executions *)
Abbreviation position := (Z * machine)%type.

Definition is_linear (ins : instruction) : bool :=
  negb (is_mnemonic ins TRAPS) && negb (is_mnemonic ins INTERVAL_BRANCHES) && negb (is_mnemonic ins JUMPS).

(** Registers are words, memory holds bytes, and the immutable sections are in place. *)
Record machine_ok (p : program) (mc : machine) : Prop := {
  ok_words : words (mc_regs mc);
  ok_bytes : forall x, 0 <= mc_mem mc x < 256;
  ok_sections : describes_sections (program_read p) (mc_mem mc)
}.

(** A jump stays in the body when it does not link, links in [t0], or is a call that
    the request inlines; any other call is one move, of a function that starts at the
    target. *)
Inductive moves (rq : request) (p : program) : position -> position -> Prop :=
  | MoveLinear pc ins mc mc' :
      pr_instructions p !! pc = Some ins -> is_linear ins = true -> step pc ins mc mc' ->
      moves rq p (pc, mc) (pc + ins_size ins, mc')
  | MoveBranch pc ins mc t next :
      pr_instructions p !! pc = Some ins -> is_mnemonic ins INTERVAL_BRANCHES = true -> taken ins (mc_regs mc) = Some t ->
      ins_target ins <> Some (pc + ins_size ins) ->
      (if t then ins_target ins = Some next else next = pc + ins_size ins) -> moves rq p (pc, mc) (next, mc)
  | MoveJump pc ins mc rd t R' :
      pr_instructions p !! pc = Some ins -> jumps pc ins (mc_regs mc) = Some (rd, t) ->
      rd ∈ [0; 5]%nat \/ inlined rq t = true -> 0 <= pc + ins_size ins < WORD ->
      (forall r, R' r = set_register rd (pc + ins_size ins) (mc_regs mc) r) ->
      moves rq p (pc, mc) (t, Machine R' (mc_mem mc))
  | MoveCall pc ins mc mc' t :
      pr_instructions p !! pc = Some ins -> jumps pc ins (mc_regs mc) = Some (1%nat, t) -> inlined rq t = false ->
      is_Some (fn_at t (pr_functions p)) -> 0 <= pc + ins_size ins < WORD ->
      mc_regs mc' 1%nat = pc + ins_size ins -> (forall r, r ∉ CALLER -> mc_regs mc' r = mc_regs mc r) ->
      moves rq p (pc, mc) (pc + ins_size ins, mc').

(** What a move needs from the abstract states that cover its start: the
    instruction is one the domain describes, a branch does not compare a stack
    address that is the null pointer, and a call leaves the caller's facts alone and
    is not the byte copy. A move is not the end of the body: a stop of the request, a
    return, or a transfer to an exceptional function. *)
Record admissible (base : Z) (entry : nat -> Z) (rq : request) (p : program) (ac : activation) (e : engine)
    (from to : position) : Prop := {
  ad_running : from.1 ∉ rq_stop_pcs rq;
  ad_quiet : forall name, (from.1, name, exceptional_scope) ∉ en_exceptions e;
  ad_inside : forall ins rd t, pr_instructions p !! from.1 = Some ins -> jumps from.1 ins (mc_regs from.2) = Some (rd, t) ->
    t ∉ rq_stop_calls rq /\ t <> return_address entry;
  ad_machine : machine_ok p to.2;
  ad_state : forall k s ins, ac_states ac !! k = Some s -> k.1.1.1.1 = from.1 -> pr_instructions p !! from.1 = Some ins ->
    covers base entry (program_read p) (as_regs s) (as_memory s) from.2 ->
    (is_linear ins = true -> regular_step (program_read p) from.1 ins (as_regs s) (as_memory s) = true
       /\ harmless base from.1 ins (as_regs s) (as_memory s) (mc_regs from.2))
    /\ (is_mnemonic ins INTERVAL_BRANCHES = true -> addresses_not_null base (as_regs s))
    /\ (is_mnemonic ins JUMPS = true -> describes_memory base entry (as_memory s) (mc_mem to.2)
         /\ forall rd ds, jump_destinations from.1 ins (operands ins) (as_regs s) = Ok (rd, Some ds) -> rom_memcpy_address ∉ ds)
}.

Inductive reaches (base : Z) (entry : nat -> Z) (rq : request) (p : program) (ac : activation) (e : engine) (start : position) :
    position -> Prop :=
  | reaches_start : reaches base entry rq p ac e start start
  | reaches_move x y :
      reaches base entry rq p ac e start x -> moves rq p x y -> admissible base entry rq p ac e x y ->
      reaches base entry rq p ac e start y.

Lemma mnemonic_disjoint ins l l' : is_mnemonic ins l = true -> forallb (fun m => bool_decide (m ∉ l')) l = true ->
  is_mnemonic ins l' = false.
Proof.
  unfold is_mnemonic. intros Hm%bool_decide_eq_true Hl. rewrite forallb_forall in Hl.
  apply list_elem_of_In, Hl, bool_decide_eq_true in Hm. by apply bool_decide_eq_false.
Qed.

Lemma mnemonic_subset ins l l' : is_mnemonic ins l = true -> forallb (fun m => bool_decide (m ∈ l')) l = true ->
  is_mnemonic ins l' = true.
Proof.
  unfold is_mnemonic. intros Hm%bool_decide_eq_true Hl. rewrite forallb_forall in Hl.
  by apply list_elem_of_In, Hl in Hm.
Qed.

Lemma stack_depth_inv pc regs sp depth :
  stack_depth pc regs = Ok (sp, depth) -> reg_at 2 regs = Some {[ sp ]} /\ depth = STACK - sp /\ 0 <= depth <= 2 ^ 20.
Proof.
  unfold stack_depth. intros H. destruct (reg_at 2 regs) as [s|]; [|done]. simpl in H.
  destruct (elements s) as [|x [|]] eqn:E; [done| |done]. apply bind_Ok in H as (_ & Hc%check_Ok & [= -> <-]).
  split_and!; [|done|lia..]. f_equal. apply leibniz_equiv. intros y.
  rewrite <- elem_of_elements, E, list_elem_of_singleton. set_solver.
Qed.

Lemma reg_at_clear r x (g : regfile) : x <> 0%nat -> reg_at r (setreg x None g) = if decide (r = x) then None else reg_at r g.
Proof.
  intros Hx. destruct (decide (r < length g)%nat).
  - rewrite reg_at_setreg by done. destruct x; [done|]. simpl negb. rewrite andb_true_r.
    destruct (Nat.eqb_spec r (S x)), (decide (r = S x)); done.
  - rewrite reg_at_beyond by (rewrite length_setreg; lia). rewrite reg_at_beyond by lia. by destruct (decide _).
Qed.

Lemma reg_at_clears r l (g : regfile) : 0%nat ∉ l ->
  reg_at r (foldl (fun g r => setreg r None g) g l) = if decide (r ∈ l) then None else reg_at r g.
Proof.
  revert g. induction l as [|x l IH]; intros g Hl; cbn [foldl].
  { by destruct (decide (r ∈ [])) as [?%elem_of_nil|]. }
  rewrite IH, reg_at_clear by set_solver. destruct (decide (r ∈ l)), (decide (r = x)), (decide (r ∈ x :: l)); set_solver.
Qed.

(** The mnemonics of the engine's branches are disjoint, so an edge of another
    instruction is not refined. *)
Lemma refine_other ins t regs : is_mnemonic ins INTERVAL_BRANCHES = false -> refine ins t regs = Ok (Some regs).
Proof.
  unfold refine, is_mnemonic. intros H%bool_decide_eq_false. rewrite !bool_decide_eq_false_2; [done|set_solver..].
Qed.

Lemma length_forget g : length (forget_caller g) = length g.
Proof.
  unfold forget_caller. generalize CALLER. intros l. revert g. induction l as [|x l IH]; intros g; [done|].
  cbn [foldl]. by rewrite IH, length_setreg.
Qed.
Lemma reg_at_forget r g : bool_decide (r ∈ CALLER) = true -> reg_at r (forget_caller g) = None.
Proof. intros Hr%bool_decide_eq_true. unfold forget_caller. rewrite reg_at_clears by set_solver. by rewrite decide_True. Qed.
Lemma reg_at_linked_forget r rd v (g : regfile) : (r < length g)%nat ->
  reg_at r (setreg rd v (forget_caller g)) = if Nat.eqb r rd && negb (Nat.eqb rd 0) then v else if decide (r ∈ CALLER) then None else reg_at r g.
Proof.
  intros Hr. rewrite reg_at_setreg by by rewrite length_forget. destruct (_ && _); [done|].
  unfold forget_caller. by rewrite reg_at_clears by set_solver.
Qed.
Lemma reg_at_linked_beyond r rd v (g : regfile) : (length g <= r)%nat -> reg_at r (setreg rd v (forget_caller g)) = None.
Proof. intros Hr. apply reg_at_beyond. by rewrite length_setreg, length_forget. Qed.

(** *** Registers after a link *)
Section link.
Context (base : Z) (entry : nat -> Z) (rd : nat) (w : Z) (R : registers).
Context (Hw : 0 <= w < WORD) (Hlink : forall r, R r = set_register rd w R r).
Abbreviation described h := (describes_regs base entry h R).
Abbreviation link h := (setreg rd (const w) h).

Lemma described_link h : described h -> described (link h).
Proof. intros Hh. eapply setreg_sound; [exact Hh|by apply described_word|exact Hlink]. Qed.

Lemma link_forget h : described (link h) -> described (link (forget_caller h)).
Proof.
  intros Hh r. destruct (decide (r < length h)%nat); [|by rewrite reg_at_linked_beyond by lia].
  specialize (Hh r). rewrite reg_at_setreg in Hh by done. rewrite reg_at_linked_forget by done.
  destruct (_ && _); [done|]. by destruct (decide _).
Qed.

Lemma forget_link h : described (link (forget_caller h)) -> described (link (forget_caller (link h))).
Proof.
  intros Hh r. specialize (Hh r). destruct (decide (r < length h)%nat) as [Hr|].
  - rewrite reg_at_linked_forget in Hh by done. rewrite reg_at_linked_forget by by rewrite length_setreg.
    destruct (_ && _) eqn:E; [done|]. destruct (decide _); [done|]. by rewrite reg_at_setreg, E.
  - by rewrite reg_at_linked_beyond by (rewrite length_setreg; lia).
Qed.

(** What the engine may do to the registers at another destination of the same jump. *)
Definition kept (I : regfile -> Prop) : Prop := (forall h, I h -> I (link h)) /\ (forall h, I h -> I (link (forget_caller h))).
Lemma kept_described : kept (fun h => described h).
Proof using Hw Hlink. split; intros h Hh; [|apply link_forget]; by apply described_link. Qed.
Lemma kept_link : kept (fun h => described (link h)).
Proof using Hw Hlink. split; intros h Hh; apply described_link; [done|by apply link_forget]. Qed.
Lemma kept_forget : kept (fun h => described (link (forget_caller h))).
Proof using Hw Hlink. split; intros h Hh; [by apply forget_link|]. by apply link_forget, described_link. Qed.
End link.

Section bound.
Context `{Cert : Certificate} (alnum : Z -> bool).
Context (base : Z) (entry : nat -> Z) (p : program) (an : analysis) (Han : analysis_keeps_code an).
Context (rq : request) (Hskip : rq_skip_calls rq = false).
Context (ac : activation) (e' : engine) (sp0 : absval) (saved0 : list absval).
Context (W : gset Z) (Hwithin : within W p) (HW : forall x, x ∈ W -> 0 <= x < WORD).

Definition covered (x : position) : Prop :=
  exists k s, ac_states ac !! k = Some s /\ k.1.1.1.1 = x.1
    /\ covers base entry (program_read p) (as_regs s) (as_memory s) x.2.

Lemma edge_reaches ins fl t regs mc :
  edge_covered ins fl (ac_states ac) t -> refine ins t (fl_regs fl) = Ok (Some regs) ->
  machine_ok p mc -> describes_regs base entry regs (mc_regs mc) -> describes_memory base entry (fl_memory fl) (mc_mem mc) ->
  covered (t, mc).
Proof.
  intros [Hnone|(regs' & s & Hr & Hs & [Hle Hlem])] Href [] Hregs Hmem; [congruence|].
  assert (regs' = regs) as -> by congruence.
  exists (location_of t regs (fl_phase fl)), s. split_and!; [done..|]. split; [done|done| | |done].
  - by eapply le_describes_regs.
  - by eapply le_describes_memory.
Qed.

Lemma stack_pointer_at regs R sp : describes_regs base entry regs R -> reg_at 2 regs = Some {[ sp ]} ->
  0 <= STACK - sp <= 2 ^ 20 -> R 2%nat = mask32 (base - (STACK - sp)).
Proof.
  intros Hregs H Hsp. specialize (Hregs 2%nat). rewrite H in Hregs. destruct Hregs as (x & ->%elem_of_singleton & Hx).
  apply stands_address in Hx as ->; [|unfold is_address, STACK in *; lia]. rewrite !mask32_mod.
  replace (base + sp) with (base - (STACK - sp) + 2 ^ 16 * WORD) by (unfold STACK, WORD; lia). by rewrite Z.mod_add.
Qed.

(** *** One position is settled, so its moves lead to covered positions *)
Abbreviation settled_here := (settled alnum an rq sp0 saved0 p e' (ac_states ac) (ac_maximum ac)).

Lemma linear_covered k s mc mc' ins :
  settled_here k s -> k.1.1.1.1 ∉ rq_stop_pcs rq -> pr_instructions p !! k.1.1.1.1 = Some ins -> is_linear ins = true ->
  covers base entry (program_read p) (as_regs s) (as_memory s) mc -> step k.1.1.1.1 ins mc mc' ->
  regular_step (program_read p) k.1.1.1.1 ins (as_regs s) (as_memory s) = true ->
  harmless base k.1.1.1.1 ins (as_regs s) (as_memory s) (mc_regs mc) -> machine_ok p mc' ->
  covered (k.1.1.1.1 + ins_size ins, mc').
Proof.
  intros [Hstop|Hset] Hrun Hi Hlin Hcov Hstep Hreg Hharm Hok; [done|].
  destruct Hset as (ins' & owner & sp & depth & ac1 & e1 & fl & e2 & Hi' & _ & Hcode & _ & _ & _ & Hbody & _ & Hedges).
  assert (ins' = ins) as -> by congruence.
  unfold is_linear in Hlin. apply andb_true_iff in Hlin as [[Ht Hb]%andb_true_iff Hj].
  apply negb_true_iff in Ht, Hb, Hj. unfold body_step in Hbody. rewrite Ht, Hb, Hj in Hbody.
  apply bind_Ok in Hbody as (eff & Htr%lift_Ok & [= <- _]). simpl in *.
  rewrite (same_code_read _ _ Hcode) in Htr.
  destruct (transfer_covers _ _ _ _ _ _ _ _ _ _ _ Htr Hstep Hcov Hreg Hharm).
  eapply edge_reaches; [apply Hedges; by left|by apply refine_other|done..].
Qed.

Lemma branch_covered k s mc ins t next :
  settled_here k s -> k.1.1.1.1 ∉ rq_stop_pcs rq -> pr_instructions p !! k.1.1.1.1 = Some ins ->
  is_mnemonic ins INTERVAL_BRANCHES = true ->
  covers base entry (program_read p) (as_regs s) (as_memory s) mc -> taken ins (mc_regs mc) = Some t ->
  ins_target ins <> Some (k.1.1.1.1 + ins_size ins) ->
  (if t then ins_target ins = Some next else next = k.1.1.1.1 + ins_size ins) ->
  addresses_not_null base (as_regs s) -> machine_ok p mc -> covered (next, mc).
Proof.
  intros [Hstop|Hset] Hrun Hi Hb Hcov Ht Hne Hnext Hnull Hok; [done|].
  destruct Hset as (ins' & owner & sp & depth & ac1 & e1 & fl & e2 & Hi' & _ & Hcode & _ & _ & _ & Hbody & _ & Hedges).
  assert (ins' = ins) as -> by congruence.
  assert (Htrap : is_mnemonic ins TRAPS = false) by by apply (mnemonic_disjoint _ _ _ Hb).
  unfold body_step in Hbody. rewrite Htrap, Hb in Hbody. destruct (ins_target ins) as [target|] eqn:Htarget; [|done].
  apply bind_Ok in Hbody as (_ & _ & [= <- _]). simpl in *.
  assert (Hin : next ∈ [k.1.1.1.1 + ins_size ins; target]) by (destruct t; [injection Hnext as <-|subst next]; set_solver).
  pose proof (Hedges next Hin) as Hedge. clear Hedges.
  assert (Hrefined : exists r, refine ins next (as_regs s) = Ok r).
  { destruct Hedge as [Hr|(r & ? & Hr & _)]; eauto. }
  destruct Hrefined as [r Hr]. destruct Hcov as [Hw Hby Hregs Hmem Hsec].
  destruct (refine_describes base entry ins (k.1.1.1.1 + ins_size ins) next t (as_regs s) (mc_regs mc) r Hr Ht) as (regs & -> & Hd); [| |done..|].
  { rewrite Htarget. exact Hne. } { destruct t; [by rewrite Htarget|done]. }
  by eapply edge_reaches.
Qed.

Lemma jumps_mnemonic pc ins R rdt : jumps pc ins R = Some rdt ->
  is_mnemonic ins JUMPS = true /\ is_mnemonic ins TRAPS = false /\ is_mnemonic ins INTERVAL_BRANCHES = false.
Proof.
  intros H. assert (Hj : is_mnemonic ins JUMPS = true); [|split_and!; [done|by eapply mnemonic_disjoint..]].
  unfold jumps in H. repeat (case_match; [by eapply mnemonic_subset|]). done.
Qed.

(** What the engine recorded for the target of a jump. *)
Record recorded (k : location) (s : astate) (ins : instruction) (rd : nat) (t depth : Z) (fl : flowing) (owner tfn : function)
    (e1 : engine) : Prop := {
  rc_memory : fl_memory fl = as_memory s;
  rc_edges : forall u, u ∈ fl_targets fl -> edge_covered ins fl (ac_states ac) u;
  rc_function : exists e2, same_code p (en_program e1) /\ function_of_pc alnum t e1 = Ok (tfn, e2);
  rc_certified : certified e1;
  rc_entry : (t =? fn_start owner) && bool_decide (rd ∈ [0; 1; 5]%nat) = false;
  rc_target : inner rq owner tfn rd t -> t ∈ fl_targets fl;
  rc_inner : inner rq owner tfn rd t -> forall R, 0 <= k.1.1.1.1 + ins_size ins < WORD ->
    (forall r, R r = set_register rd (k.1.1.1.1 + ins_size ins) R r) ->
    describes_regs base entry (setreg rd (const (k.1.1.1.1 + ins_size ins)) (as_regs s)) R -> describes_regs base entry (fl_regs fl) R;
  rc_following : ~ inner rq owner tfn rd t -> k.1.1.1.1 + ins_size ins ∈ fl_targets fl;
  rc_call : ~ inner rq owner tfn rd t -> forall R, 0 <= k.1.1.1.1 + ins_size ins < WORD ->
    (forall r, R r = set_register rd (k.1.1.1.1 + ins_size ins) R r) ->
    describes_regs base entry (setreg rd (const (k.1.1.1.1 + ins_size ins)) (forget_caller (as_regs s))) R ->
    describes_regs base entry (fl_regs fl) R;
  rc_callee : ~ inner rq owner tfn rd t -> rd = 1%nat -> forall w, describes_value base entry (reg_at 11 (as_regs s)) w ->
    exists cb e3, describes_value base entry cb w /\ keeps_code e1 e3 /\ callee_within an depth cb t e3 (ac_maximum ac)
}.

Lemma reg_at_link_other r rd v g : r <> rd -> reg_at r (setreg rd v g) = reg_at r g.
Proof.
  intros Hr. destruct (decide (r < length g)%nat).
  - rewrite reg_at_setreg by done. by rewrite (proj2 (Nat.eqb_neq r rd)).
  - by rewrite !reg_at_beyond by (rewrite ?length_setreg; lia).
Qed.

Lemma jump_recorded k s mc ins rd t :
  settled_here k s -> k.1.1.1.1 ∉ rq_stop_pcs rq -> pr_instructions p !! k.1.1.1.1 = Some ins ->
  jumps k.1.1.1.1 ins (mc_regs mc) = Some (rd, t) -> covers base entry (program_read p) (as_regs s) (as_memory s) mc ->
  (forall name, (k.1.1.1.1, name, exceptional_scope) ∉ en_exceptions e') -> t ∉ rq_stop_calls rq -> t <> return_address entry ->
  (forall rd ds, jump_destinations k.1.1.1.1 ins (operands ins) (as_regs s) = Ok (rd, Some ds) -> rom_memcpy_address ∉ ds) ->
  exists sp depth fl owner tfn e1, stack_depth k.1.1.1.1 (as_regs s) = Ok (sp, depth) /\ recorded k s ins rd t depth fl owner tfn e1.
Proof using Han Hskip Hwithin HW.
  intros [Hstop|Hset] Hrun Hi Hj Hcov Hquiet Hcall Hret Hrom; [done|].
  destruct Hset as (ins' & owner & sp & depth & ac1 & e1 & fl & e2 & Hi' & Hd & Hcode & Hcert & _ & Hkeep & Hbody & Hmax & Hedges).
  assert (ins' = ins) as -> by congruence. destruct (jumps_mnemonic _ _ _ _ Hj) as (Hm & Htrap & Hbranch).
  unfold body_step in Hbody. rewrite Htrap, Hbranch, Hm in Hbody.
  apply jump_step_inv in Hbody as (rd' & ds & Hdest & Hcases). cbn [fl_regs fl_memory] in *. specialize (Hrom _ _ Hdest).
  destruct (jumps_described base entry _ _ _ _ _ _ _ _ (cover_regs _ _ _ _ _ _ Hcov) (cover_words _ _ _ _ _ _ Hcov) Hj Hdest)
    as (-> & x & Hx & Hgoes).
  pose proof (jumps_nonneg _ _ _ _ _ (cover_words _ _ _ _ _ _ Hcov) Hj) as Hpos.
  assert (Hxr : x <> RETURN).
  { intros ->. destruct Hgoes as [<-|[[_ ?]|[_ ?]]]; [unfold RETURN in Hpos; lia|done..]. }
  destruct Hcases as [Hempty|(fl0 & e0 & l & Hr0 & Hm0 & Hk0 & Hl & Hfold)].
  { exfalso. apply (not_elem_of_empty (C := gset Z) x). rewrite <- Hempty. apply elem_of_difference.
    split; [done|]. by rewrite elem_of_singleton. }
  assert (Hxl : x ∈ l) by by apply Hl.
  destruct (destinations_at _ _ _ _ _ _ _ _ _ _ _ _ _ _ Hfold Hxl) as (l1 & l2 & fl1 & e3 & fl2 & e4 & El & H1 & H2 & H3).
  destruct (destination_inv _ _ _ Hskip _ _ _ _ _ _ _ _ _ _ H2) as (tfn & e5 & Hf & Hentry & Hkind).
  destruct (destinations_grow _ _ _ Hskip _ _ _ _ _ Han _ _ _ _ _ H1) as (Hmem1 & Htg1 & Hmax1 & Hk1).
  destruct (destinations_grow _ _ _ Hskip _ _ _ _ _ Han _ _ _ _ _ H3) as (Hmem3 & Htg3 & Hmax3 & Hk3).
  assert (Hcode3 : same_code p (en_program e3)).
  { etrans; [exact Hcode|]. etrans; [apply (kc_code _ _ Hk0)|apply (kc_code _ _ Hk1)]. }
  assert (Hxt : x = t).
  { destruct Hgoes as [->|[[-> _]|[Hno _]]]; [done|done|]. exfalso. apply Hno, HW.
    unfold function_of_pc in Hf. apply bind_Ok in Hf as ([f q] & Hf%lift_Ok & _).
    refine (proj1 (function_at_within _ W _ _ _ _ _ Hf)). by apply (proj1 (proj2 (proj2 (proj2 Hcode3)))). }
  subst x. assert (Hnol : rom_memcpy_address ∉ l) by (intros [? _]%Hl; done).
  assert (Hno1 : rom_memcpy_address ∉ l1 /\ t <> rom_memcpy_address /\ rom_memcpy_address ∉ l2) by (subst l; set_solver).
  destruct Hno1 as (Hno1 & Hnot & Hno2).
  destruct Hkind as [([Hs|Hexc] & _)|Hkind]; [done| |].
  { exfalso. eapply Hquiet, (kc_exceptions _ _ Hkeep), (kc_exceptions _ _ Hk3), Hexc. }
  pose proof (kc_certified _ _ Hk1 (kc_certified _ _ Hk0 Hcert)) as Hcert3.
  exists sp, depth, fl, owner, tfn, e3. split; [done|].
  assert (Hkeeps : forall I, kept rd (k.1.1.1.1 + ins_size ins) I ->
    (I (as_regs s) -> I (fl_regs fl1)) /\ (I (fl_regs fl2) -> I (fl_regs fl))).
  { intros I [Hi1 Hi2]. rewrite <- Hr0. split; intros HI.
    - by eapply (destinations_regs alnum an rq Hskip); [..|exact H1|].
    - by eapply (destinations_regs alnum an rq Hskip); [..|exact H3|]. }
  destruct Hkind as [(Hin & Hregs & Hmem & Htg)|(Hout & Hregs & Hmem & Htg & cb & Hcb & Hcal)]; split; try done.
  - by rewrite Hmem3, Hmem, Hmem1, Hm0.
  - by exists e5.
  - intros _. apply Htg3. rewrite Htg. set_solver.
  - intros _ R Hw HR Hdes. destruct (Hkeeps _ (kept_described base entry _ _ R Hw HR)) as [_ Hend]. apply Hend. rewrite Hregs.
    by destruct (Hkeeps _ (kept_link base entry _ _ R Hw HR)) as [Hstart _]; apply Hstart.
  - by rewrite Hmem3, (Hmem Hnot), Hmem1, Hm0.
  - by exists e5.
  - intros _. apply Htg3. rewrite Htg. set_solver.
  - intros _ R Hw HR Hdes. destruct (Hkeeps _ (kept_described base entry _ _ R Hw HR)) as [_ Hend]. apply Hend. rewrite Hregs.
    by destruct (Hkeeps _ (kept_forget base entry _ _ R Hw HR)) as [Hstart _]; apply Hstart.
  - intros _ -> w Hw. exists cb, e3. split_and!; [|done|].
    + destruct Hcb as [->| ->]; [done|].
      destruct (Hkeeps (fun h => describes_value base entry (reg_at 11 h) w)) as [Hstart _]; [|by apply Hstart].
      split; intros h Hh; rewrite reg_at_link_other by done; [done|].
      by rewrite reg_at_forget by done.
    + destruct Hcal as (e6 & b & path & e7 & Hrun7 & Hk6 & Hb). exists e6, b, path, e7. split_and!; [done..|lia].
Qed.

Lemma jump_covered k s mc ins rd t R' :
  settled_here k s -> pr_instructions p !! k.1.1.1.1 = Some ins -> jumps k.1.1.1.1 ins (mc_regs mc) = Some (rd, t) ->
  rd ∈ [0; 5]%nat \/ inlined rq t = true -> 0 <= k.1.1.1.1 + ins_size ins < WORD ->
  (forall r, R' r = set_register rd (k.1.1.1.1 + ins_size ins) (mc_regs mc) r) ->
  covers base entry (program_read p) (as_regs s) (as_memory s) mc -> ac_states ac !! k = Some s ->
  admissible base entry rq p ac e' (k.1.1.1.1, mc) (t, Machine R' (mc_mem mc)) -> covered (t, Machine R' (mc_mem mc)).
Proof using Han Hskip Hwithin HW.
  intros Hset Hi Hj Hstay Hw HR Hcov Hk [Hrun Hquiet Hinside Hok Hstate]. cbn [fst snd] in *.
  destruct (jumps_mnemonic _ _ _ _ Hj) as (Hm & _ & Hb). destruct (Hinside _ _ _ Hi Hj) as [Hcall Hret].
  destruct (Hstate _ _ _ Hk eq_refl Hi Hcov) as (_ & _ & Hjump). destruct (Hjump Hm) as [Hmem Hrom].
  destruct (jump_recorded k s mc ins rd t) as (sp & depth & fl & owner & tfn & e1 & _ & Hrec); [done..|].
  assert (Hin : inner rq owner tfn rd t) by by right.
  eapply edge_reaches; [apply (rc_edges _ _ _ _ _ _ _ _ _ _ Hrec), (rc_target _ _ _ _ _ _ _ _ _ _ Hrec Hin)|by apply refine_other|done| |].
  - simpl. apply (rc_inner _ _ _ _ _ _ _ _ _ _ Hrec Hin); [done| |].
    + intros r. unfold set_register at 1. rewrite !HR. unfold set_register. destruct (Nat.eqb r rd); [|done].
      by destruct (Nat.eqb rd 0).
    + eapply setreg_sound; [exact (cover_regs _ _ _ _ _ _ Hcov)|by apply described_word|done].
  - rewrite (rc_memory _ _ _ _ _ _ _ _ _ _ Hrec). exact Hmem.
Qed.

Lemma call_outside k s mc ins t fn depth fl owner tfn e1 :
  recorded k s ins 1 t depth fl owner tfn e1 -> jumps k.1.1.1.1 ins (mc_regs mc) = Some (1%nat, t) -> inlined rq t = false ->
  keyed_functions p -> fn_at t (pr_functions p) = Some fn -> ~ inner rq owner tfn 1 t.
Proof.
  intros Hrec Hj Hno Hkeyed Hfn. destruct (rc_function _ _ _ _ _ _ _ _ _ _ Hrec) as (e2 & (_ & _ & Hfns & _) & Hf).
  assert (tfn = fn) as ->.
  { apply bind_Ok in Hf as ([f q] & Hf%lift_Ok & [= <- _]). unfold function_at, known_owner in Hf.
    rewrite (Hfns _ _ Hfn) in Hf. by apply validate_owner_code in Hf as (_ & _ & _ & _ & ->). }
  intros [Hown|[Hrd|Hinl]]; [|set_solver|congruence]. pose proof (rc_entry _ _ _ _ _ _ _ _ _ _ Hrec) as He.
  by rewrite <- Hown, (Hkeyed _ _ Hfn), Z.eqb_refl, bool_decide_eq_true_2 in He by set_solver.
Qed.

Lemma call_covered k s mc mc' ins t fn :
  settled_here k s -> pr_instructions p !! k.1.1.1.1 = Some ins -> jumps k.1.1.1.1 ins (mc_regs mc) = Some (1%nat, t) ->
  inlined rq t = false -> keyed_functions p -> fn_at t (pr_functions p) = Some fn ->
  0 <= k.1.1.1.1 + ins_size ins < WORD -> mc_regs mc' 1%nat = k.1.1.1.1 + ins_size ins ->
  (forall r, r ∉ CALLER -> mc_regs mc' r = mc_regs mc r) ->
  covers base entry (program_read p) (as_regs s) (as_memory s) mc -> ac_states ac !! k = Some s ->
  admissible base entry rq p ac e' (k.1.1.1.1, mc) (k.1.1.1.1 + ins_size ins, mc') -> covered (k.1.1.1.1 + ins_size ins, mc').
Proof using Han Hskip Hwithin HW.
  intros Hset Hi Hj Hno Hkeyed Hfn Hw Hra HR Hcov Hk [Hrun Hquiet Hinside Hok Hstate]. cbn [fst snd] in *.
  destruct (jumps_mnemonic _ _ _ _ Hj) as (Hm & _ & Hb). destruct (Hinside _ _ _ Hi Hj) as [Hcall Hret].
  destruct (Hstate _ _ _ Hk eq_refl Hi Hcov) as (_ & _ & Hjump). destruct (Hjump Hm) as [Hmem Hrom].
  destruct (jump_recorded k s mc ins 1 t) as (sp & depth & fl & owner & tfn & e1 & _ & Hrec); [done..|].
  pose proof (call_outside _ _ _ _ _ _ _ _ _ _ _ Hrec Hj Hno Hkeyed Hfn) as Hout.
  eapply edge_reaches; [apply (rc_edges _ _ _ _ _ _ _ _ _ _ Hrec), (rc_following _ _ _ _ _ _ _ _ _ _ Hrec Hout)|by apply refine_other|done| |].
  - assert (Hlink : forall r, mc_regs mc' r = set_register 1 (k.1.1.1.1 + ins_size ins) (mc_regs mc') r).
    { intros r. unfold set_register. simpl. by destruct (Nat.eqb_spec r 1) as [->|]. }
    apply (rc_call _ _ _ _ _ _ _ _ _ _ Hrec Hout); [done..|].
    eapply setreg_sound; [|by apply described_word|exact Hlink]. intros r. destruct (decide (r ∈ CALLER)) as [Hr|Hr].
    + by rewrite reg_at_forget by by apply bool_decide_eq_true.
    + rewrite HR by done. unfold forget_caller. rewrite reg_at_clears by set_solver. rewrite decide_False by done.
      apply (cover_regs _ _ _ _ _ _ Hcov).
  - rewrite (rc_memory _ _ _ _ _ _ _ _ _ _ Hrec). exact Hmem.
Qed.

(** *** Every move *)
Lemma move_covered (Hkeyed : keyed_functions p)
    (Hsettled : forall k s, ac_states ac !! k = Some s -> settled_here k s) x y :
  covered x -> moves rq p x y -> admissible base entry rq p ac e' x y -> covered y.
Proof using Han Hskip Hwithin HW.
  intros (k & s & Hk & Hpc & Hcov) Hmove Hadm. pose proof (Hsettled _ _ Hk) as Hset.
  destruct Hmove as [pc ins mc mc' Hi Hlin Hstep|pc ins mc t next Hi Hb Ht Hne Hnext
                    |pc ins mc rd t R' Hi Hj Hstay Hw HR|pc ins mc mc' t Hi Hj Hno [fn Hfn] Hw Hra HR];
    simpl in *; subst pc; destruct (ad_state _ _ _ _ _ _ _ _ Hadm k s ins Hk eq_refl Hi Hcov) as (Hlinear & Hbranch & _).
  - destruct (Hlinear Hlin). eapply linear_covered; [done| |done..|]; apply Hadm.
  - eapply branch_covered; eauto; apply Hadm.
  - by eapply jump_covered.
  - by eapply call_covered.
Qed.

Lemma reaches_covered (Hkeyed : keyed_functions p)
    (Hsettled : forall k s, ac_states ac !! k = Some s -> settled_here k s) start x :
  covered start -> reaches base entry rq p ac e' start x -> covered x.
Proof using Han Hskip Hwithin HW. intros Hstart. induction 1 as [|x y Hreach IH Hmove Hadm]; [done|by eapply move_covered]. Qed.

(** *** The bound *)
Lemma covered_depth (Hsettled : forall k s, ac_states ac !! k = Some s -> settled_here k s) pc mc :
  covered (pc, mc) -> pc ∉ rq_stop_pcs rq ->
  pc ∈ en_visited e' /\ exists depth, 0 <= depth <= ac_maximum ac /\ mc_regs mc 2%nat = mask32 (base - depth).
Proof using Han.
  intros (k & s & Hk & Hpc & Hcov) Hrun. cbn [fst snd] in *. subst pc.
  destruct (Hsettled _ _ Hk) as [Hstop|(ins & owner & sp & depth & ac1 & e3 & fl & e4 & _ & Hd & _ & _ & Hvis & Hk4 & Hbody & Hmax & _)];
    [done|]. split.
  - apply (kc_visited _ _ Hk4). assert (Hk3 : keeps_code e3 e4) by by eapply body_step_code. by apply (kc_visited _ _ Hk3).
  - assert (Hdm : depth <= fl_maximum fl) by by eapply body_step_maximum.
    apply stack_depth_inv in Hd as (Hsp & -> & Hdepth).
    exists (STACK - sp). split; [lia|]. eapply stack_pointer_at; [exact (cover_regs _ _ _ _ _ _ Hcov)|done|lia].
Qed.

(** At a call the bound of the callee is added to the depth. *)
Lemma covered_call (Hkeyed : keyed_functions p)
    (Hsettled : forall k s, ac_states ac !! k = Some s -> settled_here k s) pc mc ins t y :
  covered (pc, mc) -> pr_instructions p !! pc = Some ins -> jumps pc ins (mc_regs mc) = Some (1%nat, t) -> inlined rq t = false ->
  is_Some (fn_at t (pr_functions p)) -> admissible base entry rq p ac e' (pc, mc) y ->
  exists depth cb e1, 0 <= depth /\ mc_regs mc 2%nat = mask32 (base - depth)
    /\ describes_value base entry cb (mc_regs mc 11%nat) /\ same_code p (en_program e1) /\ certified e1
    /\ callee_within an depth cb t e1 (ac_maximum ac).
Proof using Han Hskip Hwithin HW.
  intros (k & s & Hk & Hpc & Hcov) Hi Hj Hno [fn Hfn] [Hrun Hquiet Hinside Hok Hstate]. cbn [fst snd] in *. subst pc.
  destruct (jumps_mnemonic _ _ _ _ Hj) as (Hm & _ & Hb). destruct (Hinside _ _ _ Hi Hj) as [Hcall Hret].
  destruct (Hstate _ _ _ Hk eq_refl Hi Hcov) as (_ & _ & Hjump). destruct (Hjump Hm) as [Hmem Hrom].
  destruct (jump_recorded k s mc ins 1 t) as (sp & depth & fl & owner & tfn & e1 & Hd & Hrec); [auto..|].
  pose proof (call_outside _ _ _ _ _ _ _ _ _ _ _ Hrec Hj Hno Hkeyed Hfn) as Hout.
  destruct (rc_callee _ _ _ _ _ _ _ _ _ _ Hrec Hout eq_refl _ (cover_regs _ _ _ _ _ _ Hcov 11%nat)) as (cb & e3 & Hcb & Hk3 & Hcal).
  destruct (rc_function _ _ _ _ _ _ _ _ _ _ Hrec) as (e4 & Hcode1 & _). pose proof (rc_certified _ _ _ _ _ _ _ _ _ _ Hrec) as Hcert1.
  apply stack_depth_inv in Hd as (Hsp & -> & Hdepth).
  exists (STACK - sp), cb, e3. split_and!; [lia| |done| |by apply (kc_certified _ _ Hk3)|done].
  - eapply stack_pointer_at; [exact (cover_regs _ _ _ _ _ _ Hcov)|done|lia].
  - etrans; [exact Hcode1|apply (kc_code _ _ Hk3)].
Qed.
End bound.
(** ** The start *)
Lemma stands_token base (entry : nat -> Z) r x w :
  (r = 1%nat /\ x = RETURN \/ r ∈ SAVED /\ x = RETURN - Z.of_nat r) -> w = entry r -> stands_for base entry x w.
Proof.
  intros Hx ->. unfold stands_for.
  assert (Hneg : is_constant x = false /\ is_address x = false).
  { unfold is_constant, is_address, RETURN, WORD in *. destruct Hx as [[_ ->]|[_ ->]]; (split; [apply Z.ltb_ge|apply Z.leb_gt]; lia). }
  destruct Hneg as [-> ->]. destruct Hx as [[-> ->]|[Hr ->]]; [by left|right]. by exists r.
Qed.

Lemma initial_described (R : registers) cb :
  words R -> (match cb with Some s => exists x, x ∈ s /\ stands_for (R 2%nat) R x (R 11%nat) | None => True end) ->
  describes_regs (R 2%nat) R (initial_regs cb) R.
Proof.
  intros [H0 Hw] Hcb.
  assert (Hplain : describes_regs (R 2%nat) R (initial_regs None) R).
  { intros r. do 32 (destruct r as [|r]; [unfold initial_regs, reg_at; simpl;
      first [ done
            | eexists; (split; [apply elem_of_singleton; reflexivity|]);
              first [ apply (stands_token _ _ 1); [by left|done]
                    | match goal with |- stands_for _ _ _ (R ?n) => apply (stands_token _ _ n); [right; split; [set_solver|done]|done] end
                    | apply stands_constant; [done|]; by rewrite H0
                    | apply stands_address; [done|]; rewrite mask32_mod;
                      replace (R 2%nat + STACK) with (R 2%nat + 2 ^ 16 * WORD) by done; rewrite Z.mod_add by done;
                      symmetry; apply Z.mod_small, Hw ] ] |]).
    unfold reg_at. by rewrite nth_overflow by (simpl; lia). }
  destruct cb as [s|]; [|done]. change (initial_regs (Some s)) with (<[11%nat := Some s]> (initial_regs None)).
  by apply set_described.
Qed.

(** ** A whole activation *)
Section activation.
Context `{Cert : Certificate} (alnum : Z -> bool) (set_order : list Z -> list Z) (Horder : forall l x, x ∈ set_order l <-> x ∈ l).
Context (p : program) (Hkeyed : keyed_functions p) (Hwords : forall x, x ∈ addresses p -> 0 <= x < WORD).
Context (an : analysis) (Han : analysis_keeps_code an) (rq : request) (Hskip : rq_skip_calls rq = false) (name : string) (address : Z) (e1 : engine) (ac : activation)
  (e2 : engine) (Hcode : same_code p (en_program e1)) (Hcert : certified e1).
Context (Hrun : run_activation alnum set_order an rq name address e1 = Ok (ac, e2)).
Context (base : Z) (entry : nat -> Z) (mc0 : machine) (Hok : machine_ok p mc0).
Context (Hregs : describes_regs base entry (request_seed rq).1 (mc_regs mc0)).
Context (Hmem : describes_memory base entry (request_seed rq).2 (mc_mem mc0)).

Lemma activation_reaches x : reaches base entry rq p ac e2 (address, mc0) x -> covered base entry p ac x.
Proof using All.
  destruct (activation_settled alnum set_order Horder p an address rq name e1 ac e2) as [(s0 & Hs0 & Hle0 & Hlem0) Hsettled]; [done..|].
  eapply (reaches_covered alnum base entry p an Han rq Hskip ac e2);
    [apply within_addresses|exact Hwords|exact Hkeyed|exact Hsettled|].
  exists (location_of address (request_seed rq).1 0), s0. split_and!; [done..|]. destruct Hok as [Hw Hb Hsec].
  split; [done|done| | |done].
  - by eapply le_describes_regs.
  - by eapply le_describes_memory.
Qed.

Lemma activation_depth pc mc : reaches base entry rq p ac e2 (address, mc0) (pc, mc) -> pc ∉ rq_stop_pcs rq ->
  pc ∈ en_visited e2 /\ exists depth, 0 <= depth <= ac_maximum ac /\ mc_regs mc 2%nat = mask32 (base - depth).
Proof using All.
  intros Hreach%activation_reaches. destruct (activation_settled alnum set_order Horder p an address rq name e1 ac e2) as [_ Hsettled]; [done..|].
  eapply covered_depth; [exact Han|exact Hsettled|done].
Qed.

Lemma activation_call pc mc ins t y :
  reaches base entry rq p ac e2 (address, mc0) (pc, mc) -> pr_instructions p !! pc = Some ins ->
  jumps pc ins (mc_regs mc) = Some (1%nat, t) -> inlined rq t = false -> is_Some (fn_at t (pr_functions p)) ->
  admissible base entry rq p ac e2 (pc, mc) y ->
  exists depth cb e3, 0 <= depth /\ mc_regs mc 2%nat = mask32 (base - depth)
    /\ describes_value base entry cb (mc_regs mc 11%nat) /\ same_code p (en_program e3) /\ certified e3
    /\ callee_within an depth cb t e3 (ac_maximum ac).
Proof using All.
  intros Hreach%activation_reaches. destruct (activation_settled alnum set_order Horder p an address rq name e1 ac e2) as [_ Hsettled]; [done..|].
  eapply covered_call; [exact Han|exact Hskip|apply within_addresses|exact Hwords|exact Hkeyed|exact Hsettled|done].
Qed.
End activation.

(** ** The whole tree of calls *)
Section tree.
Context (alnum : Z -> bool) (set_order : list Z -> list Z) (p : program).

(** A bound of a function and of everything it calls. It is the maximum that some
    activation of the engine ends with; every position that an execution of the body
    reaches is at most that far below the stack pointer at entry; and at every call
    that the execution makes at some depth, the called function is bounded in turn by
    what the depth leaves. *)
Inductive bounded : Z -> absval -> Z -> Prop :=
  | bounded_by address rq fuel name e1 ac e2 :
      is_special rq = false -> same_code p (en_program e1) ->
      run_activation alnum set_order (analyze alnum set_order fuel) rq name address e1 = Ok (ac, e2) ->
      (forall mc0 pc mc,
         let base := mc_regs mc0 2%nat in
         machine_ok p mc0 ->
         match rq_callback rq with Some s => exists x, x ∈ s /\ stands_for base (mc_regs mc0) x (mc_regs mc0 11%nat) | None => True end ->
         reaches base (mc_regs mc0) rq p ac e2 (address, mc0) (pc, mc) ->
         (pc ∈ en_visited e2 /\ exists depth, 0 <= depth <= ac_maximum ac /\ mc_regs mc 2%nat = mask32 (base - depth))
         /\ forall ins t y, pr_instructions p !! pc = Some ins -> jumps pc ins (mc_regs mc) = Some (1%nat, t) ->
            is_Some (fn_at t (pr_functions p)) -> admissible base (mc_regs mc0) rq p ac e2 (pc, mc) y ->
            exists depth callback b, 0 <= depth /\ mc_regs mc 2%nat = mask32 (base - depth)
              /\ describes_value base (mc_regs mc0) callback (mc_regs mc 11%nat)
              /\ depth + b <= ac_maximum ac /\ bounded t callback b) ->
      bounded address (rq_callback rq) (ac_maximum ac).

(** Everything the engine has cached is such a bound. *)
Definition tree_certified (e : engine) : Prop :=
  same_code p (en_program e) /\ forall key r, en_cache e !! key = Some r -> bounded key.1 key.2 r.1.
Lemma tree_certified_same e e' : en_cache e' = en_cache e -> same_code (en_program e) (en_program e') -> tree_certified e -> tree_certified e'.
Proof. intros Hc Hs [Hp Hall]. split; [by etrans|]. by rewrite Hc. Qed.
Lemma new_certified : tree_certified (new_engine p).
Proof. split; [done|]. intros key r. simpl. by rewrite lookup_empty. Qed.
Definition tree_certificate : Certificate := {| certified := tree_certified; certified_same := tree_certified_same |}.
Local Existing Instance tree_certificate.

Context (Horder : forall l x, x ∈ set_order l <-> x ∈ l) (Hkeyed : keyed_functions p)
  (Hwords : forall x, x ∈ addresses p -> 0 <= x < WORD).

Definition bounds_calls (an : analysis) : Prop := forall t cb e r e', certified e -> an t (plain_request cb) e = Ok (r, e') -> bounded t cb r.1.

Lemma not_special rq : is_special rq = false -> rq_seed rq = None /\ rq_skip_calls rq = false /\ rq_stop_pcs rq = [] /\ rq_inline_calls rq = false.
Proof.
  unfold is_special. intros [[[[Hs _]%orb_false_iff Hskip]%orb_false_iff Hinline]%orb_false_iff Hstop]%orb_false_iff.
  destruct (rq_seed rq); [done|]. by destruct (rq_stop_pcs rq).
Qed.

(** An activation whose callees are bounded is bounded. *)
Lemma activation_bounded fuel rq name address e1 ac e2 :
  analysis_keeps_code (analyze alnum set_order fuel) -> bounds_calls (analyze alnum set_order fuel) -> is_special rq = false -> certified e1 ->
  run_activation alnum set_order (analyze alnum set_order fuel) rq name address e1 = Ok (ac, e2) ->
  bounded address (rq_callback rq) (ac_maximum ac).
Proof using Hkeyed Horder Hwords.
  intros Han Hcalls Hspecial Hcert Hrun. destruct (not_special _ Hspecial) as (Hseed & Hskip & Hstop & Hinline).
  apply (bounded_by _ _ fuel name e1 ac e2); [done|apply Hcert|done|]. intros mc0 pc mc base Hok Hcb Hreach.
  assert (Hregs : describes_regs base (mc_regs mc0) (request_seed rq).1 (mc_regs mc0)).
  { unfold request_seed. rewrite Hseed. apply initial_described; [by destruct Hok|done]. }
  assert (Hmem : describes_memory base (mc_regs mc0) (request_seed rq).2 (mc_mem mc0)).
  { unfold request_seed. rewrite Hseed. apply map_Forall_empty. }
  assert (Hcode : same_code p (en_program e1)) by apply Hcert. split.
  - apply (activation_depth alnum set_order Horder p Hkeyed Hwords _ Han rq Hskip name address e1 ac e2 Hcode Hcert Hrun
      base (mc_regs mc0) mc0 Hok Hregs Hmem pc mc Hreach). rewrite Hstop. by apply not_elem_of_nil.
  - intros ins t y Hi Hj Hfn Hadm. assert (Hno : inlined rq t = false) by (unfold inlined; by rewrite Hinline).
    destruct (activation_call alnum set_order Horder p Hkeyed Hwords _ Han rq Hskip name address e1 ac e2 Hcode Hcert Hrun
      base (mc_regs mc0) mc0 Hok Hregs Hmem pc mc ins t y Hreach Hi Hj Hno Hfn Hadm)
      as (depth & cb & e3 & Hd & Hsp & Hdcb & _ & Hcert3 & (e4 & b & path & e5 & Hcall & Hk & Hb)).
    exists depth, cb, b. split_and!; [done..|]. apply (Hcalls t cb e4 (b, path) e5); [by apply (kc_certified _ _ Hk)|done].
Qed.

Lemma analyze_certified fuel : analysis_keeps_code (analyze alnum set_order fuel) /\ bounds_calls (analyze alnum set_order fuel).
Proof using Hkeyed Horder Hwords.
  induction fuel as [|fuel [IHk IHb]]; [split; by intros ?|].
  assert (Hrun : forall a rq e fn e1 ac e2, certified e -> is_special rq = false -> enter alnum a e = Ok (fn, e1) ->
    run_activation alnum set_order (analyze alnum set_order fuel) rq (fn_name fn) a e1 = Ok (ac, e2) -> bounded a (rq_callback rq) (ac_maximum ac)).
  { intros a rq e fn e1 ac e2 Hcert Hs Henter. apply activation_bounded; [done..|]. by apply (kc_certified _ _ (enter_code _ _ _ _ _ Henter)). }
  split.
  - intros a rq e r e'. apply analysis_code; [done|]. intros fn e1 ac e2 Henter Hact Hend Hcert [Hcode Hcache].
    unfold conclude in Hend. apply bind_Ok in Hend as (_ & _ & (_ & _ & [= _ <-])%bind_Ok). split; [done|]. simpl.
    destruct (is_special rq) eqn:Hs; [done|]. intros key res [[<- <-]|[_ Hk]]%lookup_insert_Some; [|by apply Hcache]. by eapply Hrun.
  - intros t cb e [b path] e' Hcert Han. simpl in Han. destruct (en_cache e !! (t, cb)) as [res|] eqn:Hc.
    + injection Han as -> <-. by apply Hcert in Hc.
    + apply bind_Ok in Han as ([fn e1] & Henter & ([ac e2] & Hact & Hend)%bind_Ok). simpl in *.
      unfold conclude in Hend. apply bind_Ok in Hend as (_ & _ & (_ & _ & [= <- _ _])%bind_Ok). by eapply (Hrun t (plain_request cb)).
Qed.
End tree.


(** Every location of an activation whose instruction is linear is one the domain
    describes, and records its stores: what [admissible] asks of linear moves. *)
Definition describable (p : program) (ks : location * astate) : bool :=
  match pr_instructions p !! ks.1.1.1.1.1 with
  | Some ins =>
      negb (is_linear ins)
      || regular_step (program_read p) ks.1.1.1.1.1 ins (as_regs ks.2) (as_memory ks.2)
         && match dict_get (ins_mnemonic ins) STORES, access_addresses ks.1.1.1.1.1 (operands ins) (as_regs ks.2) with
            | Some _, Ok (_, _, addresses) => exact_store addresses
            | _, _ => true
            end
  | None => true
  end.

Lemma linear_no_jump ins : is_linear ins = true -> is_mnemonic ins JUMPS = false /\ is_mnemonic ins INTERVAL_BRANCHES = false.
Proof. unfold is_linear. by intros [[_ ?%negb_true_iff]%andb_true_iff ?%negb_true_iff]%andb_true_iff. Qed.

Lemma describable_linear base entry rq p ac e pc ins mc mc' :
  forallb (describable p) (map_to_list (ac_states ac)) = true -> pr_instructions p !! pc = Some ins -> is_linear ins = true ->
  pc ∉ rq_stop_pcs rq -> (forall name, (pc, name, exceptional_scope) ∉ en_exceptions e) -> machine_ok p mc' ->
  admissible base entry rq p ac e (pc, mc) (pc + ins_size ins, mc').
Proof.
  intros Hall Hins Hlin Hrun Hquiet Hok. destruct (linear_no_jump _ Hlin) as [Hnj Hnb]. split; cbn [fst snd]; [done|done| |done|].
  { intros ins' rd t Hi (Hj & _)%jumps_mnemonic. congruence. }
  intros k s ins' Hk Hpc Hi Hcov. assert (ins' = ins) as -> by congruence.
  rewrite forallb_forall in Hall. specialize (Hall (k, s)). rewrite <- list_elem_of_In, elem_of_map_to_list in Hall.
  specialize (Hall Hk). unfold describable in Hall. cbn [fst snd] in Hall. rewrite Hpc, Hins, Hlin in Hall. cbn [negb orb] in Hall.
  apply andb_true_iff in Hall as [Hreg Hstore]. split_and!; [|congruence..].
  intros _. split; [done|]. intros size a b addresses c _ Hst Hacc Hno _. rewrite Hst, Hacc in Hstore. congruence.
Qed.

(** ** A witness: the leaf of the fixture, and its first move *)
Definition leaf_engine : engine := new_engine (program_of [leaf]).
Definition rest : machine := Machine (fun r => if Nat.eqb r 2 then 0x40801000 else 0) (fun _ => 0).
Definition pushed : machine := Machine (set_register 2 0x40800FF0 (mc_regs rest)) (fun _ => 0).

Definition describable_run (p : program) (m : erun (activation * engine)) : bool :=
  match m with
  | Ok (ac, e) => forallb (describable p) (map_to_list (ac_states ac)) && bool_decide (en_exceptions e = ∅)
  | _ => false
  end.

Lemma keyed_program_of fns : keyed_functions (program_of fns).
Proof.
  intros a fn. unfold program_of, fn_at, pr_functions. induction fns as [|f fns IH]; [done|]. cbn [fmap list_fmap List.find fst].
  destruct (Z.eqb_spec (fn_start f) a) as [<-|]; [|done]. by intros [= <-].
Qed.

Lemma machine_ok_leaf R : words R -> machine_ok (program_of [leaf]) (Machine R (fun _ => 0)).
Proof. intros HR. split; [done|done|]. intros ptr size _. unfold program_read. simpl. done. Qed.

Lemma rest_words : words (mc_regs rest).
Proof. split; [done|]. intros r. simpl. unfold WORD. destruct (Nat.eqb r 2); lia. Qed.
Lemma pushed_words : words (mc_regs pushed).
Proof.
  split; [done|]. intros r. simpl. unfold set_register. pose proof (proj2 rest_words r).
  destruct (Nat.eqb r 2); [unfold WORD; simpl; lia|done].
Qed.

(** One linear instruction of a checked activation is a move. *)
Lemma linear_reaches base entry rq p ac e pc ins mc mc' :
  pr_instructions p !! pc = Some ins -> is_linear ins = true -> step pc ins mc mc' -> describable_run p (Ok (ac, e)) = true ->
  pc ∉ rq_stop_pcs rq -> machine_ok p mc' -> reaches base entry rq p ac e (pc, mc) (pc + ins_size ins, mc').
Proof.
  intros Hins Hlin Hstep Hdes Hrun Hok. apply andb_true_iff in Hdes as [Hdes He%bool_decide_eq_true].
  eapply reaches_move; [apply reaches_start|by apply MoveLinear|]. apply describable_linear; [done..| |done].
  intros name. rewrite He. apply not_elem_of_empty.
Qed.

(** [c.addi x2, n] *)
Definition is_push (n : string) (ins : instruction) : bool :=
  String.eqb (ins_mnemonic ins) "c.addi" && bool_decide (operands ins = ["x2"; n]) && (ins_size ins =? 2).
Lemma push_step pc n z ins mc : is_push n ins = true -> integer n = Ok z -> is_constant z = true ->
  step pc ins mc (Machine (set_register 2 (mask32 (mc_regs mc 2%nat + mask32 z)) (mc_regs mc)) (mc_mem mc))
  /\ is_linear ins = true /\ ins_size ins = 2.
Proof.
  intros [[Hm%String.eqb_eq Hop%bool_decide_eq_true]%andb_true_iff Hs%Z.eqb_eq]%andb_true_iff Hn Hz.
  split_and!; [|unfold is_linear, is_mnemonic; by rewrite Hm|done].
  assert (Hform : binary_form ins = Some (total_op Z.add, true, true)) by (unfold binary_form, is_mnemonic; by rewrite Hm).
  apply (StepRegister _ _ _ (2%nat, Some (mask32 (mc_regs mc 2%nat + mask32 z)))); [by rewrite Hm..| |done].
  assert (Hreg : register "x2" = Ok 2%nat) by (vm_compute; reflexivity).
  unfold executes. rewrite Hform, Hop. unfold word_binary, word_operands.
  change (last_operand ["x2"; n]) with n.
  assert (Hdest : (first ← operand 0 ["x2"; n]; register first) = Ok 2%nat) by exact Hreg.
  rewrite Hdest, Hn. unfold ok_of, mbind, option_bind. rewrite Hz.
  unfold word_form, is_mnemonic. by rewrite Hm.
Qed.

Lemma leaf_push ac e2 : describable_run (program_of [leaf]) (Ok (ac, e2)) = true ->
  reaches 0x40801000 (mc_regs rest) (plain_request None) (program_of [leaf]) ac e2 (0x100, rest) (0x102, pushed).
Proof.
  intros Hdes.
  assert (Hins : exists ins, pr_instructions (program_of [leaf]) !! 0x100 = Some ins /\ is_push "-16" ins = true)
    by (eexists; split; vm_compute; reflexivity).
  destruct Hins as (ins & Hins & Hpush). destruct (push_step 0x100 "-16" (-16) ins rest Hpush) as (Hstep & Hlin & Hsize); [done..|].
  replace 0x102 with (0x100 + ins_size ins) by by rewrite Hsize.
  apply linear_reaches; [exact Hins|exact Hlin|exact Hstep|exact Hdes|apply not_elem_of_nil|apply machine_ok_leaf, pushed_words].
Qed.

(** The activation of the leaf has executions: one of them pushes a frame. *)
Lemma leaf_execution : exists name e1 ac e2,
  run_activation ascii_only id (analyze ascii_only id 1) (plain_request None) name 0x100 e1 = Ok (ac, e2) /\ ac_maximum ac = 16
  /\ reaches 0x40801000 (mc_regs rest) (plain_request None) (program_of [leaf]) ac e2 (0x100, rest) (0x102, pushed).
Proof.
  assert (Hcheck : match enter ascii_only 0x100 leaf_engine with
                   | Ok (fn, e1) =>
                       let r := run_activation ascii_only id (analyze ascii_only id 1) (plain_request None) (fn_name fn) 0x100 e1 in
                       describable_run (program_of [leaf]) r && match r with Ok (ac, _) => ac_maximum ac =? 16 | _ => false end
                   | _ => false end = true) by (vm_compute; reflexivity).
  destruct (enter ascii_only 0x100 leaf_engine) as [[fn e1]|e|x] eqn:Henter; [|done..]. cbv zeta in Hcheck.
  destruct (run_activation _ _ _ _ (fn_name fn) _ e1) as [[ac e2]|e|x] eqn:Hact; [|by rewrite andb_false_r in Hcheck..].
  apply andb_true_iff in Hcheck as [Hdes Hmax%Z.eqb_eq]. exists (fn_name fn), e1, ac, e2. split_and!; [done..|]. by apply leaf_push.
Qed.

Lemma small_words x : x ∈ addresses small -> 0 <= x < WORD.
Proof.
  intros Hx. assert (Hall : forallb (fun x => (0 <=? x) && (x <? WORD)) (elements (addresses small)) = true) by (vm_compute; reflexivity).
  rewrite forallb_forall in Hall. specialize (Hall x). rewrite <- list_elem_of_In, elem_of_elements in Hall. specialize (Hall Hx). lia.
Qed.
