(* ===== verification/EngineTermination.v ===== *)
(** * The engine terminates, and accepts exactly acyclic call graphs *)
From stdpp Require Import relations.
From S2P Require Import Prelude PyValue PyText PyRegex PyFiles PyInt Bytes Disassembly StackFrame LinkedInputs Interval Program Iterate Engine IntervalFixture ProgramTheorems EngineTheorems.

(** ** The depth-first search of the call graph *)
Section graph.
Context (graph : gset (Z * Z)).
Definition calls (a b : Z) : Prop := (a, b) ∈ graph.

Lemma elem_of_adjacent a b : b ∈ adjacent graph a <-> calls a b.
Proof.
  unfold adjacent, calls. rewrite list_elem_of_fmap. split.
  - intros ([a' b'] & -> & Hin). apply list_elem_of_In, filter_In in Hin as [Hin Ha]. simpl in *.
    apply Z.eqb_eq in Ha as ->. by apply elem_of_elements, list_elem_of_In.
  - intros Hin. exists (a, b). split; [done|]. apply list_elem_of_In, filter_In. split; [|simpl; lia].
    by apply list_elem_of_In, elem_of_elements.
Qed.

Lemma calls_nodes a b : calls a b -> a ∈ graph_nodes graph /\ b ∈ graph_nodes graph.
Proof. unfold calls, graph_nodes. intros H. split; apply elem_of_union; [left|right]; apply elem_of_map; by exists (a, b). Qed.

(** No endless chain of calls starts at a node. *)
Definition ends (a : Z) : Prop := Acc (fun b a => calls a b) a.

Lemma ends_no_cycle a : ends a -> ~ tc calls a a.
Proof.
  induction 1 as [a _ IH]. intros Hcycle. inversion Hcycle as [? ? Hab|? b ? Hab Hba]; subst.
  - apply (IH a Hab). by apply tc_once.
  - apply (IH b Hab). eapply tc_r; [exact Hba|exact Hab].
Qed.

(** What a search returns: it completes only nodes at which every chain ends, or it
    has found a cycle through the path. *)
Definition search_result (r : urun (gset Z)) (n : Z) (completed : gset Z) : Prop :=
  match r with
  | Ok done => ends n /\ completed ⊆ done /\ forall a, a ∈ done -> ends a
  | Raise e => e = RecursiveGraph /\ exists a, tc calls a a
  | Crash _ => False
  end.

Lemma each_target_search (visit : Z -> gset Z -> option (urun (gset Z))) l completed :
  (forall t c, t ∈ l -> (forall a, a ∈ c -> ends a) -> exists r, visit t c = Some r /\ search_result r t c) ->
  (forall a, a ∈ completed -> ends a) ->
  exists r, each_target visit l completed = Some r /\
    match r with
    | Ok done => (forall t, t ∈ l -> ends t) /\ completed ⊆ done /\ forall a, a ∈ done -> ends a
    | Raise e => e = RecursiveGraph /\ exists a, tc calls a a
    | Crash _ => False
    end.
Proof.
  revert completed. induction l as [|t l IH]; intros completed Hvisit Hcomp; simpl.
  { eexists. split; [done|]. split_and!; [|done|done]. by intros t ?%elem_of_nil. }
  destruct (Hvisit t completed) as (r & -> & Hr); [by left|done|]. destruct r as [c|e|x]; [|by eauto|done].
  destruct Hr as (Ht & Hsub & Hc). destruct (IH c) as (r & -> & Hr); [|done|].
  { intros t' c' Hin. apply Hvisit. by right. }
  eexists. split; [done|]. destruct r as [c'|e|x]; [|done..]. destruct Hr as (Hl & Hsub' & Hc').
  split_and!; [|by etrans|done]. intros t' [->|]%elem_of_cons; auto.
Qed.

Lemma size_difference_add (X Y : gset Z) n : n ∈ X -> n ∉ Y -> (size (X ∖ ({[ n ]} ∪ Y)) < size (X ∖ Y))%nat.
Proof. intros. apply subset_size. set_solver. Qed.

Lemma acyclic_search fuel n path completed :
  (forall a, a ∈ completed -> ends a) -> (forall a, a ∈ path -> tc calls a n) ->
  n ∈ graph_nodes graph -> (size (graph_nodes graph ∖ path) < fuel)%nat ->
  exists r, acyclic fuel graph path n completed = Some r /\ search_result r n completed.
Proof.
  revert n path completed. induction fuel as [|fuel IH]; intros n path completed Hcomp Hpath Hn Hfuel; [lia|].
  cbn [acyclic]. case_bool_decide as Hin.
  { eexists. split; [done|]. split; [done|]. exists n. by apply Hpath. }
  case_bool_decide as Hdone.
  { eexists. split; [done|]. split_and!; [by apply Hcomp|done|done]. }
  pose proof (size_difference_add _ _ _ Hn Hin) as Hdecr.
  destruct (each_target_search (acyclic fuel graph ({[ n ]} ∪ path)) (adjacent graph n) completed) as (r & -> & Hr); [|done|].
  { intros t c Ht%elem_of_adjacent Hc. apply IH; [done| |by apply (calls_nodes n)|lia].
    intros a [->%elem_of_singleton|Ha]%elem_of_union; [by apply tc_once|]. eapply tc_r; [by apply Hpath|done]. }
  destruct r as [c|e|x]; [|by eexists|done]. destruct Hr as (Hl & Hsub & Hc). eexists. split; [done|].
  assert (Hends : ends n) by (constructor; intros b Hb; by apply Hl, elem_of_adjacent).
  split_and!; [done|set_solver|]. intros a [->%elem_of_singleton|]%elem_of_union; auto.
Qed.

Lemma check_acyclic_run :
  check_acyclic graph = Ok tt /\ (forall a b, calls a b -> ends a)
  \/ check_acyclic graph = Raise (Error RecursiveGraph) /\ exists a, tc calls a a.
Proof.
  unfold check_acyclic.
  destruct (each_target_search (acyclic (S (size (graph_nodes graph))) graph ∅)
    (elements (set_map (C := gset _) (D := gset Z) fst graph)) ∅) as (r & -> & Hr).
  - intros t c Ht Hc. apply acyclic_search; [done|by intros a ?%elem_of_empty| |].
    + unfold graph_nodes. apply elem_of_union_l. by apply elem_of_elements in Ht.
    + apply Nat.lt_succ_r, subseteq_size, subseteq_difference_l. done.
  - by intros a ?%elem_of_empty.
  - destruct r as [c|e|x]; [left|right|done].
    + split; [done|]. intros a b Hab. destruct Hr as (Hl & _). apply Hl, elem_of_elements, elem_of_map.
      by exists (a, b).
    + destruct Hr as [-> ?]. by split.
Qed.
End graph.

(** C23: the call graph check accepts exactly the graphs without a cycle, and its
    depth-first search never runs out of its bound: any other graph raises the
    recursion error. *)
Theorem check_acyclic_exact graph :
  (check_acyclic graph = Ok tt <-> forall a, ~ tc (calls graph) a a)
  /\ (check_acyclic graph <> Ok tt -> check_acyclic graph = Raise (Error RecursiveGraph)).
Proof.
  destruct (check_acyclic_run graph) as [[-> Hends]|[-> [a Hcycle]]].
  - split; [|done]. split; [|done]. intros _ a Hcycle. refine (ends_no_cycle graph a _ Hcycle).
    inversion Hcycle; subst; by eapply Hends.
  - split; [|done]. split; [done|]. intros Hno. by destruct (Hno a).
Qed.

(** ** Runs that do not run out of fuel and keep a property of the engine *)
Definition calm {R} (good : engine -> Prop) (m : erun (R * engine)) : Prop :=
  match m with Ok r => good r.2 | Raise OutOfFuel => False | _ => True end.

Lemma calm_bind {R S} good good' (m : erun (R * engine)) (f : R * engine -> erun (S * engine)) :
  calm good m -> (forall r e, good e -> calm good' (f (r, e))) -> calm good' (m ≫= f).
Proof. destruct m as [[r e]|[]|]; simpl; auto. Qed.

Lemma calm_lift {A S} good (m : urun A) (f : A -> erun (S * engine)) :
  (forall a, m = Ok a -> calm good (f a)) -> calm good (lift m ≫= f).
Proof. destruct m; simpl; auto. Qed.

Lemma calm_check {S} good b x (f : erun (S * engine)) : (b = true -> calm good f) -> calm good (check b (Error x) ;; f).
Proof. destruct b; simpl; auto. Qed.

Section terminates.
Context (alnum : Z -> bool) (set_order : list Z -> list Z) (W : gset Z).

(** What recursion keeps: the active addresses, and the addresses of the program. *)
Definition steady (active : list Z) (e : engine) : Prop := en_active e = active /\ within W (en_program e).

Lemma steady_same A e e' : en_active e' = en_active e -> en_program e' = en_program e -> steady A e -> steady A e'.
Proof. unfold steady. by intros -> ->. Qed.

Lemma function_of_pc_steady A a e : steady A e -> calm (fun e' => steady A e' /\ a ∈ W) (function_of_pc alnum a e).
Proof.
  intros [HA Hw]. unfold function_of_pc. apply calm_lift. intros [fn p] Hf. simpl.
  destruct (function_at_within _ _ _ _ _ _ Hw Hf). by split; [split|].
Qed.

Lemma function_of_pc_calm A a e : steady A e -> calm (steady A) (function_of_pc alnum a e).
Proof.
  intros He. pose proof (function_of_pc_steady A a e He) as H. destruct (function_of_pc _ _ _) as [r|[]|]; simpl in *; naive_solver.
Qed.

Context (A : list Z) (an : analysis) (Han : forall a rq e, steady A e -> calm (steady A) (an a rq e)).
Context (rq : request) (sp0 : absval) (saved0 : list absval).

Lemma call_step_calm owner pc following depth rd target tfn fl e :
  steady A e -> calm (steady A) (call_step an rq owner pc following depth rd target tfn fl e).
Proof.
  intros He. unfold call_step. apply (calm_bind (steady A)).
  - destruct (_ && _); [done|by apply Han].
  - intros [bound path] e1 He1. by destruct (if fl_maximum fl <? _ then _ else _).
Qed.

Lemma destination_step_calm owner pc following depth rd fl e target :
  steady A e -> calm (steady A) (destination_step alnum an rq owner pc following depth rd (fl, e) target).
Proof.
  intros He. unfold destination_step. apply (calm_bind (steady A)); [by apply function_of_pc_calm|]. intros tfn e1 He1.
  apply calm_check. intros _. apply calm_lift. intros binding _. apply calm_lift. intros stage _.
  assert (Ht : forall edge call b site, steady A (add_transfer edge call b site e1))
    by (intros; by eapply steady_same; [..|exact He1]).
  case_bool_decide; [apply Ht|]. case_bool_decide; [apply Ht|]. destruct (_ || _); [apply Ht|]. by apply call_step_calm.
Qed.

Lemma destinations_calm owner pc following depth rd targets fl e :
  steady A e -> calm (steady A) (fold_outcome (destination_step alnum an rq owner pc following depth rd) (fl, e) targets).
Proof.
  revert fl e. induction targets as [|t targets IH]; intros fl e He; cbn [fold_outcome]; [done|].
  apply (calm_bind (steady A)); [by apply destination_step_calm|]. intros fl1 e1 He1. by apply IH.
Qed.

Lemma jump_step_calm owner pc following depth ins fl e :
  steady A e -> calm (steady A) (jump_step alnum an rq sp0 saved0 owner pc following depth ins fl e).
Proof.
  intros He. unfold jump_step. apply calm_lift. intros [rd [ds|]] _; [|done].
  assert (Hret : calm (steady A) (fl1 ← (if bool_decide (RETURN ∈ ds) then lift (check_return rq sp0 saved0 pc fl) else Ok fl);
            Ok (fl1, e))).
  { destruct (bool_decide (RETURN ∈ ds)); [|done]. by apply calm_lift. }
  destruct (if bool_decide (RETURN ∈ ds) then _ else _) as [fl1|[]|]; simpl in *; try done.
  case_bool_decide; [done|]. apply destinations_calm. by destruct (Nat.ltb _ _).
Qed.

Lemma body_step_calm owner pc depth sp ins s ac e :
  steady A e -> calm (steady A) (body_step alnum an rq sp0 saved0 owner pc depth sp ins s ac e).
Proof.
  intros He. unfold body_step. destruct (is_mnemonic ins TRAPS); [done|]. destruct (is_mnemonic ins INTERVAL_BRANCHES).
  { destruct (ins_target ins); [|done]. by apply calm_lift. }
  destruct (is_mnemonic ins JUMPS); [by apply jump_step_calm|]. by apply calm_lift.
Qed.

Lemma visit_location_calm current state ac e :
  steady A e -> calm (steady A) (visit_location alnum set_order an rq sp0 saved0 current state ac e).
Proof.
  intros He. unfold visit_location. case_bool_decide.
  { apply calm_check. intros _. by apply calm_lift. }
  apply (calm_bind (steady A)); [by apply function_of_pc_calm|]. intros owner e1 He1.
  destruct (pr_instructions _ !! _); [|done]. apply calm_lift. intros [sp depth] _.
  apply (calm_bind (steady A)); [by apply body_step_calm|]. intros fl e2 He2.
  apply calm_check. intros _. by apply calm_lift.
Qed.

(** The count of the iterations goes up to the limit. *)
Lemma visit_location_count current state ac e ac' e' :
  visit_location alnum set_order an rq sp0 saved0 current state ac e = Ok (ac', e') -> ac_count ac' = ac_count ac.
Proof.
  unfold visit_location. case_bool_decide; [by intros (_ & _ & (sp & _ & [= <- _])%bind_Ok)%bind_Ok|].
  intros ([owner e1] & _ & Hrest)%bind_Ok. destruct (pr_instructions _ !! _); [|done].
  by apply bind_Ok in Hrest as ([sp depth] & _ & ([fl e2] & _ & (_ & _ & (reached & _ & [= <- _])%bind_Ok)%bind_Ok)%bind_Ok).
Qed.

Definition running (st : activation * engine) : Prop := steady A st.2 /\ 0 <= ac_count st.1 <= iteration_limit.

Lemma activation_step_running name st :
  running st ->
  match activation_step alnum set_order an rq sp0 saved0 name st with
  | inl st' => running st' /\ ac_count st'.1 = ac_count st.1 + 1
  | inr r => calm (steady A) r
  end.
Proof.
  intros [He Hcount]. destruct st as [ac e]. unfold activation_step. simpl in *.
  destruct (ac_work ac) as [|current work]; [done|]. destruct (iteration_limit <? _) eqn:Hlim; [done|].
  destruct (ac_states ac !! current) as [state|]; [|done].
  match goal with |- context [visit_location _ _ _ _ _ _ _ _ ?a _] => pose proof (visit_location_calm current state a e He) as Hv;
    pose proof (visit_location_count current state a e) as Hc end.
  destruct (visit_location _ _ _ _ _ _ _ _ _ _) as [[ac' e']|[]|]; [|done..].
  specialize (Hc _ _ eq_refl). simpl in *. split; [split; [done|simpl; lia]|done].
Qed.

End terminates.

Section analysis.
Context (alnum : Z -> bool) (set_order : list Z -> list Z) (W : gset Z).

Lemma run_activation_calm A an rq name address e :
  (forall a rq e, steady W A e -> calm (steady W A) (an a rq e)) -> steady W A e ->
  calm (steady W A) (run_activation alnum set_order an rq name address e).
Proof.
  intros Han He. unfold run_activation.
  set (step := activation_step _ _ _ _ _ _ _). set (st := (start_activation _ _, e)).
  assert (Hst : running W A st) by (split; [done|unfold iteration_limit; simpl; lia]).
  destruct (run_loop_total step (running W A) (fun st => iteration_limit - ac_count st.1) loop_depth st) as [r Hr]; [|done| |].
  - intros s s' Hs Es. pose proof (activation_step_running alnum set_order W A an Han rq (reg_at 2 (request_seed rq).1) (saved_values (request_seed rq)) name s Hs) as Hn. subst step. rewrite Es in Hn.
    destruct Hn as [Hn ?]. destruct (Hs) as [_ ?], (Hn) as [_ ?]. split; [done|lia].
  - unfold iteration_limit, loop_depth. simpl. lia.
  - rewrite Hr. simpl.
    assert (Hc : calm (fun st => steady W A st) r); [|by destruct r as [[]|[]|]].
    refine (run_loop_inv step (running W A) (calm (steady W A)) loop_depth st r _ _ Hst Hr); intros s' x Hs' Es;
      pose proof (activation_step_running alnum set_order W A an Han rq (reg_at 2 (request_seed rq).1) (saved_values (request_seed rq)) name s' Hs') as Hn; subst step; rewrite Es in Hn; [by destruct Hn|done].
Qed.
Lemma enter_calm A address e : steady W A e ->
  calm (fun e' => steady W (A ++ [address]) e' /\ address ∈ W /\ address ∉ A) (enter alnum address e).
Proof.
  intros [HA Hw]. unfold enter. apply calm_check. intros Hn%negb_true_iff%bool_decide_eq_false. rewrite HA in *.
  pose proof (function_of_pc_steady alnum W (A ++ [address]) address (with_active (A ++ [address]) e)
    (conj eq_refl Hw)) as Hf.
  destruct (function_of_pc _ _ _) as [r|[]|]; simpl in *; by (destruct Hf || idtac).
Qed.

Lemma conclude_calm A a address rq fn ac e : steady W (A ++ [a]) e -> calm (steady W A) (conclude address rq fn ac e).
Proof.
  intros [HA Hw]. unfold conclude. rewrite HA, removelast_last.
  destruct (check_acyclic_run (en_call_graph (with_active A e))) as [[-> _]|[-> _]]; [|done].
  simpl. destruct (_ || _); [|done]. by split.
Qed.

(** Every activation on the stack is at a different address of the program. *)
Lemma analyze_calm fuel A address rq e :
  steady W A e -> NoDup A -> list_to_set A ⊆ W -> (size W < fuel + length A)%nat ->
  calm (steady W A) (analyze alnum set_order fuel address rq e).
Proof.
  revert A address rq e. induction fuel as [|fuel IH]; intros A address rq e He Hnd Hsub Hfuel.
  { pose proof (subseteq_size _ _ Hsub). rewrite size_list_to_set in * by done. lia. }
  cbn [analyze]. destruct (if is_special rq then _ else _); [done|].
  pose proof (enter_calm A address e He) as Henter. destruct (enter alnum address e) as [[fn e1]|[]|]; [|done..].
  destruct Henter as (He1 & Hw & Hn). simpl in *.
  assert (Hnd' : NoDup (A ++ [address])).
  { apply NoDup_app. split_and!; [done| |apply NoDup_singleton]. by intros x Hx ->%list_elem_of_singleton. }
  apply (calm_bind (steady W (A ++ [address]))).
  - apply run_activation_calm; [|done]. intros a rq' e' He'. apply IH; [done..| |].
    + rewrite list_to_set_app_L. simpl. set_solver.
    + rewrite length_app. simpl. lia.
  - intros ac e2 He2. by apply (conclude_calm A address).
Qed.
End analysis.

(** C13: an analysis that starts with no active call always ends: with one level of
    recursion for each address the program has a function, an owner, an instruction or
    an executable byte for, the recursion of [analyze] never runs out of its bound,
    whatever the order of the sets; the loop over the worklist stops at its limit and
    the recursion at the addresses already active. *)
Theorem analyze_terminates alnum set_order fuel address rq e :
  en_active e = [] -> (size (addresses (en_program e)) < fuel)%nat ->
  analyze alnum set_order fuel address rq e <> Raise OutOfFuel
  /\ forall r e', analyze alnum set_order fuel address rq e = Ok (r, e') -> en_active e' = [].
Proof.
  intros Hactive Hfuel.
  pose proof (analyze_calm alnum set_order (addresses (en_program e)) fuel [] address rq e) as H.
  destruct (analyze _ _ _ _ _ _) as [[r e']|[]|]; simpl in H; (split; [intros ?|intros ? ? ?]); simplify_eq;
    apply H; try done; try apply NoDup_nil_2; try (split; [done|apply within_addresses]); simpl; lia.
Qed.

Lemma analyze_terminates_witness :
  size (addresses small) = 24%nat
  /\ analyze ascii_only id 25 0x200 (plain_request None) (new_engine small) <> Raise OutOfFuel.
Proof.
  assert (Hsize : size (addresses small) = 24%nat) by (vm_compute; reflexivity).
  split; [exact Hsize|].
  refine (proj1 (analyze_terminates ascii_only id 25 0x200 (plain_request None) (new_engine small) eq_refl _)).
  change (en_program (new_engine small)) with small. lia.
Defined.
