(* ===== verification/InitProof.v ===== *)
(** * The proof of the first-initialization interval

    [describe], [prove] and [classify_application_guards] of
    [Tools/EmbeddedApplicationMacros/initialization_interval.py]. The engines of one
    proof share their program, so what one analysis validates is passed to the next.
    Constant texts of the report are left out. *)
From S2P Require Import Prelude PyValue PyText PyRegex PyFiles PyInt Bytes Disassembly StackFrame LinkedInputs Interval Program Iterate Engine.

(** ** Orders of Python tuples *)
Definition lex {A B} (RA : relation A) (RB : relation B) : relation (A * B) :=
  fun x y => (x.1 <> y.1 /\ RA x.1 y.1) \/ (x.1 = y.1 /\ RB x.2 y.2).
#[export] Instance lex_dec {A B} (RA : relation A) (RB : relation B) `{EqDecision A, !RelDecision RA, !RelDecision RB} :
  RelDecision (lex RA RB).
Proof. unfold lex. intros x y. apply _. Defined.
(** [key=]: only a first component is compared. *)
Definition by_first {A} : relation (Z * A) := fun x y => x.1 <= y.1.
#[export] Instance by_first_dec {A} : RelDecision (by_first (A := A)).
Proof. unfold by_first. intros x y. apply _. Defined.
Fixpoint ints_le (a b : list Z) : Prop :=
  match a, b with
  | [], _ => True
  | _, [] => False
  | x :: a, y :: b => x < y \/ (x = y /\ ints_le a b)
  end.
#[export] Instance ints_le_dec : RelDecision ints_le.
Proof. intros a. induction a as [|x a IH]; intros [|y b]; apply _. Defined.
#[export] Instance string_le_rel : RelDecision string_le := string_le_dec.
Definition named_le : relation (string * Z) := lex string_le Z.le.
#[export] Instance named_le_dec : RelDecision named_le := lex_dec _ _.
Definition sorted_ints (s : gset Z) : list Z := sort_by Z.le (elements s).

(** ** [describe] *)
Record body_evidence := BodyEvidence {
  be_start : Z;
  be_end : Z;
  be_symbol : string;
  be_aliases : list (string * Z);
  be_sha256 : string;
  be_origin : string
}.
Record description := Description {
  ds_bodies : list body_evidence;
  ds_bindings : list (Z * list Z * list Z);
  ds_edges : list (string * Z * string * Z * nat);
  ds_dispatches : list (Z * list Z);
  ds_exceptions : list (Z * string * string);
  ds_frames : list (string * Z);
  ds_visited : nat
}.

Definition edge_le : relation (string * Z * string * Z * nat) := lex (lex (lex (lex string_le Z.le) string_le) Z.le) Nat.le.
Definition exception_le : relation (Z * string * string) := lex (lex Z.le string_le) string_le.
Definition binding_le : relation (Z * list Z * list Z) := lex (lex Z.le ints_le) ints_le.
#[export] Instance edge_le_dec : RelDecision edge_le := lex_dec _ _.
#[export] Instance exception_le_dec : RelDecision exception_le := lex_dec _ _.
#[export] Instance binding_le_dec : RelDecision binding_le := lex_dec _ _.

(** [range(start, end, 2)] *)
Definition halfwords (start stop : Z) : list Z := (fun i => start + 2 * i) <$> seqZ 0 ((stop - start + 1) / 2).

Section describe.
Context (sha256 : list Z -> string).

Definition body_evidence_of (e : engine) (address : Z) : urun (list body_evidence) :=
  match fn_at address (pr_functions (en_program e)) with
  | None => Crash KeyError
  | Some fn =>
      if existsb (fun pc => bool_decide (pc ∈ en_visited e)) (halfwords (fn_start fn) (fn_end fn)) then
        body ← map_outcome (E := unclosed) encoded (fn_instructions fn);
        Ok [BodyEvidence (fn_start fn) (fn_end fn) (fn_name fn) (sort_by named_le (fn_symbol_sizes fn)) (sha256 (mjoin body))
              (match pr_origins (en_program e) !! address with
               | Some o => og_name o
               | None => "complete-executable-gap-or-vector"
               end)]
      else Ok []
  end.

Definition describe (e : engine) : urun description :=
  bodies ← map_outcome (body_evidence_of e) (sorted_ints (pr_validated (en_program e)));
  Ok (Description (mjoin bodies)
        (sort_by binding_le ((fun b => (b.1.1, sorted_ints b.1.2, sorted_ints b.2)) <$> elements (en_callback_bindings e)))
        (sort_by edge_le (elements (en_edges e)))
        ((fun d => (d.1, sorted_ints d.2)) <$> sort_by by_first (map_to_list (en_dispatches e)))
        (sort_by exception_le (elements (en_exceptions e)))
        (sort_by named_le (en_frames e))
        (size (en_visited e))).
End describe.

(** ** [classify_application_guards] *)
Record guard := Guard {
  gd_symbol : string;
  gd_address : Z;
  gd_once : bool;
  gd_sites : list (Z * list Z);
  gd_reads : list Z;
  gd_writes : list Z
}.

Definition guard_le : relation guard := fun a b => gd_address a <= gd_address b.
#[export] Instance guard_le_dec : RelDecision guard_le.
Proof. unfold guard_le. intros x y. apply _. Defined.

Definition is_lazy_control (name : string) : bool := String.prefix "$e10__idf_main" name && ends_with "_Wz" name.
Definition site_le : relation (Z * list Z) := lex Z.le ints_le.
#[export] Instance site_le_dec : RelDecision site_le := lex_dec _ _.

Definition callback_sites (e : engine) (address : Z) : list (Z * list Z) :=
  (fun b : Z * gset Z * gset Z => (b.1.1, sorted_ints b.2)) <$>
    List.filter (fun b : Z * gset Z * gset Z => bool_decide (address ∈ b.1.2)) (elements (en_callback_bindings e)).
(** The instructions of [kinds] that access [address]. *)
Definition access_pcs (kinds : list (string * Z)) (e : engine) (address : Z) : list Z :=
  sort_by Z.le ((fun a : Z * string * Z * Z => a.1.1.1) <$>
    List.filter (fun a : Z * string * Z * Z => (a.1.2 =? address) && bool_decide (is_Some (dict_get a.1.1.2 kinds))) (elements (en_accesses e))).

Definition guard_step (e : engine) (required : list string) (acc : list guard * list string) (row : image_symbol) :
    urun (list guard * list string) :=
  let '(guards, seen) := acc in
  let name := im_name row in
  if is_lazy_control name then
    let bindings := callback_sites e (im_address row) in
    let reads := access_pcs LOADS e (im_address row) in
    let writes := access_pcs STORES e (im_address row) in
    if negb (bool_decide (name ∈ required)) && bool_decide (bindings = []) && bool_decide (reads = []) && bool_decide (writes = [])
    then Ok (guards, seen)
    else
      check ((im_size row =? 4) && (im_type row =? 1) && (im_section_type row =? 8)) (GuardStorage name) ;;
      check (negb (bool_decide (bindings = []) && (bool_decide (reads = []) || bool_decide (writes = [])))) (GuardOutside name) ;;
      Ok (guards ++ [Guard name (im_address row) (negb (bool_decide (bindings = []))) (sort_by site_le bindings) reads writes],
          seen ++ [name])
  else Ok (guards, seen).

Definition classify_application_guards (p : program) (initializer : engine) (required : list string) : urun (list guard) :=
  found ← fold_outcome (guard_step initializer required) ([], []) (pr_rows p);
  check (forallb (fun name => bool_decide (name ∈ found.2)) required) GuardMissing ;;
  check (negb (bool_decide (found.1 = []))) NoGuards ;;
  Ok found.1.

(** ** [prove] *)
Definition allocator : rx :=
  alternatives ((fun s => literal_ignoring_case (string_bytes s)) <$>
    ["malloc"; "calloc"; "realloc"; "memalign"; "aligned_alloc"; "strdup"; "swift_alloc"; "swift_slowalloc"; "swift_task_alloc"]).
Definition is_allocator (name : string) : bool := bool_decide (is_Some (re_search allocator (codepoints name))).

Definition rom_memcpy : Z := 0x400004ac.
Definition HOOK_NAME : string := "DeviceSmokeO21initializeStaticState".
Definition BEGIN_NAME : string := "EmbeddedPlatformCapabilitiesV14beginHeapTrace".
Definition END_NAME : string := "EmbeddedPlatformCapabilitiesV12endHeapTrace".
Definition is_run_name (n : string) : bool := contains "16startDeviceSmokey" n && contains "EmbeddedApplicationResult" n.

Record roots := Roots {
  rt_main : Z;
  rt_app : Z;
  rt_entry : Z;
  rt_hook : Z;
  rt_begin : Z;
  rt_end : Z;
  rt_run : Z
}.
Definition start_of (p : program) (predicate : string -> bool) : urun Z := fn ← one p predicate; Ok (fn_start fn).
Definition named (p : program) (name : string) : urun Z := start_of p (fun n => String.eqb n name).
Definition find_roots (p : program) : urun roots :=
  main ← named p "main_task"; app ← named p "app_main"; entry ← named p "axoloty_application_main";
  hook ← start_of p (contains HOOK_NAME); begin ← start_of p (contains BEGIN_NAME); stop ← start_of p (contains END_NAME);
  run ← start_of p is_run_name;
  Ok (Roots main app entry hook begin stop run).

(** The stack that the creation of the main task requests. *)
Definition requested_stack (main : Z) (creation : list stop) : urun Z :=
  check (negb (bool_decide (creation = []))
         && forallb (fun s => bool_decide (reg_at 10 (as_regs (st_state s)) = const main)) creation) TaskTargetOpen ;;
  let requests := omap (M := list) (fun s => single (reg_at 12 (as_regs (st_state s)))) creation in
  match elements (list_to_set requests : gset Z) with
  | [requested] => check (Nat.eqb (length creation) (length requests)) TaskRequestNotConstant ;; Ok requested
  | _ => Raise TaskRequestNotConstant
  end.

(** The compiled capacity: what every return of its function holds in [a0]. *)
Definition compiled_capacity (configured : Z) (sizes : option (list astate)) : urun unit :=
  match sizes with
  | None => Crash KeyError
  | Some sizes =>
      check (negb (bool_decide (sizes = [])) && forallb (fun s => bool_decide (reg_at 10 (as_regs s) = const configured)) sizes)
            CapacityDiffers
  end.

Definition task_seed (main : Z) : regfile * facts :=
  let regs := <[10%nat := const main]> (<[2%nat := const STACK]> (<[1%nat := const RETURN]> (<[0%nat := const 0]> (repeat None 32)))) in
  (foldl (fun regs r => <[r := const (RETURN - Z.of_nat r)]> regs) regs SAVED, ∅).

Definition single_stop (target : Z) (stops : list stop) : urun (regfile * facts) :=
  match st_state <$> List.filter (fun s => st_target s =? target) stops with
  | [] => Raise InitializationUnreached
  | first :: rest =>
      check (forallb (fun s => bool_decide (s = first)) rest) AmbiguousEntry ;;
      Ok (<[1%nat := const RETURN]> (as_regs first), as_memory first)
  end.

Definition skipping (seed : option (regfile * facts)) (stops summaries stages : list Z) : request :=
  Request None seed stops true false summaries [] stages.

(** The call of the trace end, and where it returns to. *)
Definition trace_end (p : program) (target : Z) (stops : list stop) : urun (Z * Z) :=
  sites ← map_outcome (fun s => match pr_instructions p !! st_pc s with
                               | Some ins => Ok (st_pc s, ins_size ins)
                               | None => Crash KeyError
                               end) (List.filter (fun s => st_target s =? target) stops);
  match sites with
  | [] => Raise TraceEndNotUnique
  | site :: rest => check (forallb (fun s => bool_decide (s = site)) rest) TraceEndNotUnique ;; Ok site
  end.

(** [dict] rows of the allocation entries. *)
Definition allocator_rows (p : program) : list (string * Z * Z) :=
  elements (list_to_set ((fun r => (im_name r, im_address r, im_size r)) <$> List.filter (fun r => is_allocator (im_name r)) (pr_rows p))
            : gset (string * Z * Z)).
Definition is_reached (e : engine) (row : string * Z * Z) : bool :=
  existsb (fun pc => (row.1.2 <=? pc) && (pc <? row.1.2 + row.2)) (elements (en_visited e)).

Record interval_report := IntervalReport {
  rp_maximum : Z;
  rp_controls : list guard;
  rp_other_controls : list (string * Z);
  rp_configured : Z;
  rp_requested : Z;
  rp_headroom : Z;
  rp_caller_depth : Z;
  rp_hook_maximum : Z;
  rp_path : stack_path;
  rp_hook_path : stack_path;
  rp_roots : roots;
  rp_cut : Z;
  rp_stages : list (Z * Z * Z * Z);
  rp_initializer : description;
  rp_interval : description;
  rp_allocators : list (string * Z)
}.

Section prove.
Context (alnum : Z -> bool) (set_order : list Z -> list Z) (sha256 : list Z -> string) (fuel : nat).
Abbreviation run := (analyze alnum set_order fuel).

(** The start of the main task: the stack its creation requests. *)
Definition task_creation (r : roots) (configured : Z) (e : engine) : erun (Z * engine) :=
  startup ← lift (named (en_program e) "esp_startup_start_app");
  create ← lift (named (en_program e) "xTaskCreatePinnedToCore");
  ran ← run startup (skipping None [create] [] []) e;
  requested ← lift (requested_stack (rt_main r) (en_last_stops ran.2));
  getter ← lift (named (en_program ran.2) "axoloty_main_stack_size");
  sized ← run getter (plain_request None) ran.2;
  getter ← lift (named (en_program sized.2) "axoloty_main_stack_size");
  lift (compiled_capacity configured (en_return_values sized.2 !! (getter, None))) ;;
  check (configured <=? requested) (Error ReservesLess) ;;
  Ok (requested, sized.2).

(** The chain of callers down to the application: the state in which it is entered. *)
Definition caller_chain (r : roots) (e : engine) : erun ((regfile * facts) * engine) :=
  wrapper ← lift (named (en_program e) "vPortTaskWrapper");
  ran ← run wrapper (skipping (Some (task_seed (rt_main r))) [rt_main r] [] []) e;
  seed ← lift (single_stop (rt_main r) (en_last_stops ran.2));
  ran ← run (rt_main r) (skipping (Some seed) [rt_app r] [] []) ran.2;
  seed ← lift (single_stop (rt_app r) (en_last_stops ran.2));
  platform ← lift (named (en_program ran.2) "axoloty_platform_get_v1");
  carrier ← lift (named (en_program ran.2) "axoloty_carrier_get_v1");
  ran ← run (rt_app r) (skipping (Some seed) [rt_entry r] [platform; carrier] []) ran.2;
  seed ← lift (single_stop (rt_entry r) (en_last_stops ran.2));
  Ok (seed, ran.2).

Definition interval_stages (r : roots) : list Z := [rt_begin r; rt_hook r; rt_end r].

(** The interval from the application's entry to the return of the trace end. *)
Definition interval_request (r : roots) (seed : regfile * facts) (cut : Z) : request :=
  Request None (Some seed) [rt_run r] false true [rt_hook r; rom_memcpy; 0x400004a8] [cut] (interval_stages r).

Definition interval (r : roots) (seed : regfile * facts) (cut : Z) (e : engine) : erun ((Z * stack_path) * engine) :=
  ran ← run (rt_entry r) (interval_request r seed cut) e;
  check (negb (bool_decide (en_last_stops ran.2 = [])) && forallb (fun s => st_target s =? cut) (en_last_stops ran.2))
        (Error EscapesIntoRun) ;;
  check (bool_decide (set_map (fun s : Z * Z * Z * Z => s.1.1.1) (en_stage_sites ran.2) = ({[1; 2; 3]} : gset Z))) (Error StagesMissing) ;;
  Ok ran.

Definition stage_le : relation (Z * Z * Z * Z) := lex (lex (lex Z.le Z.le) Z.le) Z.le.
#[export] Instance stage_le_dec : RelDecision stage_le := lex_dec _ _.

(** The refusals of a finished interval: an allocation in the initializer, the lazy
    controls, and the bound against the configured stack. *)
Definition accept (configured total : Z) (required : list string) (p : program) (initializer : engine) : urun (list guard) :=
  let reached := List.filter (is_reached initializer) (allocator_rows p) in
  check (bool_decide (reached = [])) (AllocatorReached (sort_by named_le reached.*1)) ;;
  guards ← classify_application_guards p initializer required;
  check (total <=? configured) (BoundExceeds total configured) ;;
  Ok guards.

(** What is known when the interval starts: the caller state, the hook's own bound,
    the call of the trace end and the engine of the caller chain. *)
Record exploration := Exploration {
  xp_roots : roots;
  xp_requested : Z;
  xp_seed : regfile * facts;
  xp_top : Z;
  xp_hooked : (Z * stack_path) * engine;
  xp_site : Z * Z;
  xp_start : engine
}.
Definition xp_cut (x : exploration) : Z := (xp_site x).1 + (xp_site x).2.

Definition explore (p : program) (configured : Z) : erun exploration :=
  r ← lift (find_roots p);
  created ← task_creation r configured (new_engine p);
  chain ← caller_chain r created.2;
  top ← lift (first_of set_order (reg_at 2 chain.1.1));
  hooked ← run (rt_hook r) (plain_request None) (new_engine (en_program chain.2));
  probed ← run (rt_entry r) (skipping (Some chain.1) [rt_end r; rt_run r] [] (interval_stages r)) (new_engine (en_program hooked.2));
  site ← lift (trace_end (en_program probed.2) (rt_end r) (en_last_stops probed.2));
  Ok (Exploration r created.1 chain.1 top hooked site (with_program (en_program probed.2) chain.2)).

Definition prove (p : program) (configured : Z) (required : list string) : erun interval_report :=
  x ← explore p configured;
  ended ← interval (xp_roots x) (xp_seed x) (xp_cut x) (xp_start x);
  let '(total, path, e) := ended in
  let initializer := with_program (en_program e) (xp_hooked x).2 in
  guards ← lift (accept configured total required (en_program e) initializer);
  initializer_graph ← lift (describe sha256 initializer);
  interval_graph ← lift (describe sha256 e);
  Ok (IntervalReport total (sort_by guard_le guards)
        ((fun row => (im_name row, im_address row)) <$>
           List.filter (fun row => is_lazy_control (im_name row) && negb (bool_decide (im_name row ∈ gd_symbol <$> guards)))
             (pr_rows (en_program e)))
        configured (xp_requested x) (configured - total) (STACK - xp_top x) (xp_hooked x).1.1 path (xp_hooked x).1.2 (xp_roots x)
        (xp_cut x) (sort_by stage_le (elements (en_stage_sites e))) initializer_graph interval_graph
        (sort_by named_le (allocator_rows (en_program e)).*1)).
End prove.
