(* ===== verification/OutputFiles.v ===== *)
(** * The output file of a command: checked, invalidated, replaced

    [paths_alias], [reject_output_aliases], [invalidate_output], [write_report_atomic]
    and the readers of [Tools/EmbeddedApplicationMacros/first_init_stack.py]. What the
    operating system does is a class: its operations are what the code calls, and
    [FileSystemLaws] is what the code relies on. *)
From S2P Require Import Prelude PyValue PyText JsonDoc PyFiles.

(** What a call of the operating system gives: an answer, [FileNotFoundError] or
    [NotADirectoryError], or another [OSError] (a loop of links included). *)
Inductive os_answer (A : Type) := Answer (a : A) | Absent | Denied.
Arguments Answer {A} a.
Arguments Absent {A}.
Arguments Denied {A}.

Class FileSystem (F : Type) := {
  os_resolve : F -> path -> os_answer path;
  os_samefile : F -> path -> path -> os_answer bool;
  os_is_dir : F -> path -> os_answer bool;
  os_is_symlink : F -> path -> os_answer bool;
  os_is_file : F -> path -> os_answer bool;
  os_exists : F -> path -> os_answer bool;
  os_read : F -> path -> os_answer (list Z);
  os_make_directories : path -> F -> F * os_answer unit;
  os_unlink : path -> F -> F * os_answer unit;                 (* [missing_ok] *)
  os_create_temporary : path -> F -> F * os_answer path;       (* beside the path, with a name of its own *)
  os_write : path -> list Z -> F -> F * os_answer unit;        (* write, flush, [fsync] and close *)
  os_replace : path -> path -> F -> F * os_answer unit
}.

Inductive file_error :=
  | OutputIsDirectory (p : path)
  | CannotInvalidate (p : path)
  | CannotCompare
  | OutputAliases (input output : path)
  | CannotWrite (p : path).

(** [path.parent] *)
Definition parent_of (p : path) : path := MkPath (path_root p) (removelast (path_parts p)).

(** ** Programs over the file system *)
Definition io (F E A : Type) : Type := F -> F * outcome E A.
#[export] Instance io_ret F E : MRet (io F E) := fun A a f => (f, Ok a).
#[export] Instance io_bind F E : MBind (io F E) := fun A B k m f =>
  match m f with
  | (f', Ok a) => k a f'
  | (f', Raise e) => (f', Raise e)
  | (f', Crash x) => (f', Crash x)
  end.
(** A computation that only looks at the state. *)
Definition pure {F E A} (m : F -> outcome E A) : io F E A := fun f => (f, m f).
Definition map_io {F E E' A} (g : E -> E') (m : io F E A) : io F E' A :=
  fun f => let '(f', r) := m f in (f', map_error g r).
(** An operation whose [OSError] the caller turns into [e]. *)
Definition os_try {F E A} (e : E) (op : F -> F * os_answer A) : io F E A := fun f =>
  match op f with (f', Answer a) => (f', Ok a) | (f', _) => (f', Raise e) end.
(** [except OSError: pass] *)
Definition os_ignore {F E} (op : F -> F * os_answer unit) : io F E unit := fun f => ((op f).1, Ok tt).
Definition asked {E A} (e : E) (a : os_answer A) : outcome E A := match a with Answer a => Ok a | _ => Raise e end.

Section output.
Context `{FileSystem F}.

Definition paths_alias (f : F) (first second : path) : outcome file_error bool :=
  match os_resolve f first with
  | Denied => Raise CannotCompare
  | Absent => Ok false
  | Answer x =>
      match os_resolve f second with
      | Denied => Raise CannotCompare
      | Absent => Ok false
      | Answer y =>
          if bool_decide (x = y) then Ok true
          else match os_samefile f first second with
               | Answer b => Ok b
               | Absent => Ok false
               | Denied => Raise CannotCompare
               end
      end
  end.

Definition reject_output_aliases (output : path) (inputs : list path) (f : F) : outcome file_error unit :=
  for_each (fun input_path => b ← paths_alias f output input_path; check (negb b) (OutputAliases input_path output)) inputs.

Definition invalidate_output (p : path) : io F file_error unit :=
  os_try (CannotInvalidate p) (os_make_directories (parent_of p)) ;;
  pure (fun f =>
    dir ← asked (CannotInvalidate p) (os_is_dir f p);
    if (dir : bool)
    then link ← asked (CannotInvalidate p) (os_is_symlink f p); check link (OutputIsDirectory p)
    else Ok tt) ;;
  os_try (CannotInvalidate p) (os_unlink p).

(** The prior output is gone before the new one is written. *)
Definition preflight_output (output : path) (inputs : list path) : io F file_error unit :=
  pure (reject_output_aliases output inputs) ;; invalidate_output output.

Definition write_report_atomic (p : path) (text : list Z) : io F file_error unit := fun f =>
  match os_create_temporary p f with
  | (f1, Answer temporary) =>
      let failed f := (os_ignore (os_unlink p) ;; os_ignore (os_unlink temporary) ;; pure (fun _ => Raise (CannotWrite p))) f in
      match os_write temporary text f1 with
      | (f2, Answer _) =>
          match os_replace temporary p f2 with
          | (f3, Answer _) => (f3, Ok tt)
          | (f3, _) => failed f3
          end
      | (f2, _) => failed f2
      end
  | (f1, _) => (os_ignore (os_unlink p) ;; pure (fun _ => Raise (CannotWrite p))) f1
  end.
End output.

(** ** What the code relies on

    [resolve] does not ask for the file to exist, and a directory that is made
    changes no file and no resolution; [unlink] removes the named entry only, so a file that
    resolves elsewhere is as before unless the entry is a link to a directory; a
    temporary file has a name of its own and is written through its descriptor; a file
    that is replaced has the contents of the new one, and a replacement that fails
    changes nothing. *)
Class FileSystemLaws (F : Type) `{FileSystem F} := {
  resolve_present f p : os_resolve f p <> Absent;
  resolve_directories p f q x : os_resolve f q = Answer x -> os_resolve (os_make_directories p f).1 q = Answer x;
  read_directories p f q c : os_read f q = Answer c -> os_read (os_make_directories p f).1 q = Answer c;
  unlink_gone p f f' u : os_unlink p f = (f', Answer u) -> os_read f' p = Absent;
  unlink_absent p f q : os_read f q = Absent -> os_read (os_unlink p f).1 q = Absent;
  unlink_other p f q x y : os_is_dir f p = Answer false -> os_resolve f p = Answer x -> os_resolve f q = Answer y -> x <> y ->
    os_read (os_unlink p f).1 q = os_read f q;
  create_absent p f : os_read f p = Absent -> os_read (os_create_temporary p f).1 p = Absent;
  write_absent t text f p : os_read f p = Absent -> os_read (os_write t text f).1 p = Absent;
  write_read t text f f' u : os_write t text f = (f', Answer u) -> os_read f' t = Answer text;
  replace_read t p f f' u text : os_replace t p f = (f', Answer u) -> os_read f t = Answer text -> os_read f' p = Answer text;
  replace_failed t p f f' a q : os_replace t p f = (f', a) -> (forall u, a <> Answer u) -> os_read f' q = os_read f q
}.

Section laws.
Context `{FileSystemLaws F}.

Lemma io_bind_Ok {E A B} (m : io F E A) (k : A -> io F E B) f f' b :
  (m ≫= k) f = (f', Ok b) <-> exists f1 a, m f = (f1, Ok a) /\ k a f1 = (f', Ok b).
Proof. unfold mbind, io_bind. destruct (m f) as [f1 [a|e|x]]; naive_solver. Qed.

Lemma os_try_Ok {E A} (e : E) (op : F -> F * os_answer A) f f' a : os_try e op f = (f', Ok a) <-> op f = (f', Answer a).
Proof. unfold os_try. destruct (op f) as [f1 []]; naive_solver. Qed.
Lemma os_try_fst {E A} (e : E) (op : F -> F * os_answer A) f : (os_try e op f).1 = (op f).1.
Proof. unfold os_try. by destruct (op f) as [f1 []]. Qed.

Lemma not_alias f p q : paths_alias f p q = Ok false -> exists x y, os_resolve f p = Answer x /\ os_resolve f q = Answer y /\ x <> y.
Proof.
  unfold paths_alias. destruct (os_resolve f p) as [x| |] eqn:Ep; [|by destruct (resolve_present f p)|done].
  destruct (os_resolve f q) as [y| |] eqn:Eq; [|by destruct (resolve_present f q)|done].
  case_bool_decide as Hxy; [done|]. eauto.
Qed.
Lemma reject_aliases_Ok output inputs f u :
  reject_output_aliases output inputs f = Ok u -> forall q, q ∈ inputs -> paths_alias f output q = Ok false.
Proof.
  unfold reject_output_aliases. intros Hall%for_each_Ok q Hq. rewrite Forall_forall in Hall. specialize (Hall q Hq).
  apply bind_Ok in Hall as ([] & Hb & [=]%check_Ok). done.
Qed.

(** An invalidated output is gone. *)
Lemma invalidate_gone p f f' u : invalidate_output p f = (f', Ok u) -> os_read f' p = Absent.
Proof.
  intros (f1 & u1 & _ & H1)%io_bind_Ok. apply io_bind_Ok in H1 as (f2 & u2 & _ & H2).
  apply os_try_Ok in H2. by eapply unlink_gone.
Qed.

(** Writing the report to a path where nothing is leaves the whole report or nothing. *)
Lemma write_report_result p text f f' r :
  os_read f p = Absent -> write_report_atomic p text f = (f', r) ->
  match r with Ok _ => os_read f' p = Answer text | _ => os_read f' p = Absent end.
Proof.
  intros Hp. unfold write_report_atomic.
  pose proof (create_absent p f Hp) as Hc. destruct (os_create_temporary p f) as [f1 ct]. cbn [fst] in Hc.
  destruct ct as [t| |]; [|intros [= <- <-]; simpl; by apply unlink_absent..].
  pose proof (write_absent t text f1 p Hc) as Hw. destruct (os_write t text f1) as [f2 cw] eqn:Ew. cbn [fst] in Hw.
  destruct cw as [u| |]; [|intros [= <- <-]; simpl; by apply unlink_absent, unlink_absent..].
  destruct (os_replace t p f2) as [f3 cr] eqn:Er. destruct cr as [u3| |].
  - intros [= <- <-]. eapply replace_read; [exact Er|]. by eapply write_read.
  - intros [= <- <-]. simpl. apply unlink_absent, unlink_absent. by rewrite (replace_failed _ _ _ _ _ p Er).
  - intros [= <- <-]. simpl. apply unlink_absent, unlink_absent. by rewrite (replace_failed _ _ _ _ _ p Er).
Qed.
End laws.
