(* ===== verification/FlatFiles.v ===== *)
(** * A file system of files without links, which satisfies the laws *)
From S2P Require Import Prelude PyValue PyText JsonDoc PyFiles OutputFiles.

Definition flat : Type := path -> option (list Z).
Definition flat_set (p : path) (c : option (list Z)) (f : flat) : flat := fun q => if decide (q = p) then c else f q.
Definition flat_read (f : flat) (p : path) : os_answer (list Z) := match f p with Some c => Answer c | None => Absent end.
Definition temporary_of (p : path) : path := MkPath (path_root p) (removelast (path_parts p) ++ ["." +:+ path_name p +:+ ".0.tmp"]).
#[export] Instance flat_files : FileSystem flat := {
  os_resolve f p := Answer p;
  os_samefile f p q := match f p, f q with Some _, Some _ => Answer (bool_decide (p = q)) | _, _ => Absent end;
  os_is_dir f p := Answer false;
  os_is_symlink f p := Answer false;
  os_is_file f p := Answer (bool_decide (is_Some (f p)));
  os_exists f p := Answer (bool_decide (is_Some (f p)));
  os_read := flat_read;
  os_make_directories p f := (f, Answer tt);
  os_unlink p f := (flat_set p None f, Answer tt);
  os_create_temporary p f := match f (temporary_of p) with Some _ => (f, Denied) | None => (flat_set (temporary_of p) (Some []) f, Answer (temporary_of p)) end;
  os_write t text f := match f t with Some _ => (flat_set t (Some text) f, Answer tt) | None => (f, Denied) end;
  os_replace t p f := match f t with Some c => (flat_set p (Some c) (flat_set t None f), Answer tt) | None => (f, Absent) end
}.

Lemma string_length_app s t : String.length (s +:+ t) = (String.length s + String.length t)%nat.
Proof. induction s as [|a s IH]; [done|]. simpl. by rewrite IH. Qed.
Lemma temporary_differs p : temporary_of p <> p.
Proof.
  intros E. assert (Hn : path_name (temporary_of p) = path_name p) by by rewrite E.
  unfold temporary_of, path_name in Hn. cbn [path_parts] in Hn. rewrite List.last_last in Hn.
  apply (f_equal String.length) in Hn. rewrite !string_length_app in Hn. simpl in Hn. fold (path_name p) in Hn. lia.
Qed.
Lemma flat_set_same p c f : flat_set p c f p = c.
Proof. unfold flat_set. by rewrite decide_True. Qed.
Lemma flat_set_other p c f q : q <> p -> flat_set p c f q = f q.
Proof. intros. unfold flat_set. by rewrite decide_False. Qed.

#[export] Instance flat_laws : FileSystemLaws flat.
Proof.
  split; cbn [os_resolve os_samefile os_is_dir os_is_symlink os_read os_make_directories os_unlink os_create_temporary os_write os_replace flat_files];
    unfold flat_read.
  - done.
  - done.
  - done.
  - intros p f f' u [= <- _]. by rewrite flat_set_same.
  - intros p f q. simpl. unfold flat_set. by destruct (decide _).
  - intros p f q x y _ [= <-] [= <-] Hxy. simpl. by rewrite flat_set_other by congruence.
  - intros p f Hp. destruct (f (temporary_of p)); [done|]. simpl. rewrite flat_set_other; [done|]. by apply not_eq_sym, temporary_differs.
  - intros t text f p Hp. destruct (f t) as [c|] eqn:Et; [|done]. simpl. unfold flat_set.
    destruct (decide (p = t)) as [->|]; [by rewrite Et in Hp|done].
  - intros t text f f' u. destruct (f t); [|done]. intros [= <- _]. by rewrite flat_set_same.
  - intros t p f f' u text. destruct (f t) as [c|]; [|done]. intros [= <- _] [= <-]. by rewrite flat_set_same.
  - intros t p f f' a q. destruct (f t) as [c|]; [|by intros [= <- _]]. intros [= _ <-] Hu. by destruct (Hu tt).
Qed.
