(* ===== verification/CallGraph.v ===== *)
(** * The candidate call graph of the stack diagnostics

    [analyze] of [Tools/EmbeddedApplicationMacros/first_init_stack.py]. An unresolved
    observation is a constructor of [note], kept in a list without repetitions where
    the code has a set of texts that it sorts at the end. *)
From Stdlib Require Import HexadecimalString.
From S2P Require Import Prelude PyValue PyText PyRegex PyFiles PyInt Disassembly Iterate StackFrame.

(** [f"{z:x}"] of an address. *)
Definition hex_of (z : Z) : string := NilZero.string_of_uint (N.to_hex_uint (Z.to_N z)).
Definition call_key (fn : function) (ins : instruction) : string :=
  fn_name fn +:+ "@0x" +:+ hex_of (ins_address ins).

(** ** What is observed *)
(** The target of an edge: a function, a contract, the name in the listing, an
    address, or nothing. *)
Inductive edge_target := Named (name : string) | At (address : Z) | Unknown.
Inductive edge_kind := Site (kind : call_kind) | RomEdge | CallbackEdge.
Inductive resolution := Exact | Contract | MissingEdgeBody | UnresolvedEdge.
#[export] Instance edge_target_eq_dec : EqDecision edge_target.
Proof. solve_decision. Defined.
#[export] Instance edge_kind_eq_dec : EqDecision edge_kind.
Proof. solve_decision. Defined.
#[export] Instance resolution_eq_dec : EqDecision resolution.
Proof. solve_decision. Defined.

Record call_edge := CallEdge {
  ce_caller : string;
  ce_pc : Z;
  ce_kind : edge_kind;
  ce_target : edge_target;
  ce_resolution : resolution
}.
#[export] Instance call_edge_eq_dec : EqDecision call_edge.
Proof. solve_decision. Defined.

Inductive note :=
  | FrameNote (name : string) (issue : frame_issue)
  | RecursivePath (name : string) (start : Z)
  | NoBodyAt (key name : string) (address : Z)
  | IncompleteContract (key : string) (address : Z)
  | MissingLinked (key : string) (address : Z)
  | CallbackMissing (owner callback : string)
  | UnresolvedIndirect (key : string)
  | OutlinedContinuation
  | NoCeiling
  | SemanticsUnverified.
#[export] Instance note_eq_dec : EqDecision note.
Proof. solve_decision. Defined.

Record rom_requirement := RomRequirement { rr_caller : string; rr_pc : Z; rr_address : Z; rr_symbol : string }.
#[export] Instance rom_requirement_eq_dec : EqDecision rom_requirement.
Proof. solve_decision. Defined.
Record indirect_site := IndirectSite { is_caller : string; is_pc : Z; is_text : string }.

(** A ROM contract as the traversal reads it: [name], [complete], and [stackBytes]
    when it is an integer. *)
Record rom_contract := RomContract { rc_name : option string; rc_complete : bool; rc_stack : option Z }.
Inductive frame_entry := Analyzed (report : frame_report) | RomClaim (bytes : Z).
Definition entry_bytes (f : frame_entry) : option Z :=
  match f with Analyzed r => fr_frame_bytes r | RomClaim b => Some b end.

(** Adding to a set. *)
Definition add_new {A} `{EqDecision A} (x : A) (l : list A) : list A := if bool_decide (x ∈ l) then l else l ++ [x].

(** An entry of [todo]: the function, its callers, the callbacks it may call, and
    whether [t0] is its link register. *)
Record visit_item := VisitItem {
  vi_function : function;
  vi_ancestors : list string;
  vi_context : list string;
  vi_linkreg : bool
}.

Record graph_state := GraphState {
  gs_todo : list visit_item;
  gs_visited : list (string * string * list string);
  gs_unresolved : list note;
  gs_frames : list (string * frame_entry);
  gs_edges : list call_edge;
  gs_reachable : list string;
  gs_indirect : list indirect_site;
  gs_rom : list rom_requirement
}.

Definition with_todo (l : list visit_item) (st : graph_state) : graph_state :=
  GraphState l (gs_visited st) (gs_unresolved st) (gs_frames st) (gs_edges st) (gs_reachable st) (gs_indirect st) (gs_rom st).
Definition add_visit (key : string * string * list string) (st : graph_state) : graph_state :=
  GraphState (gs_todo st) (key :: gs_visited st) (gs_unresolved st) (gs_frames st) (gs_edges st) (gs_reachable st) (gs_indirect st)
    (gs_rom st).
Definition add_note (n : note) (st : graph_state) : graph_state :=
  GraphState (gs_todo st) (gs_visited st) (add_new n (gs_unresolved st)) (gs_frames st) (gs_edges st) (gs_reachable st)
    (gs_indirect st) (gs_rom st).
Definition set_frame (name : string) (f : frame_entry) (st : graph_state) : graph_state :=
  GraphState (gs_todo st) (gs_visited st) (gs_unresolved st) (dict_set name f (gs_frames st)) (gs_edges st) (gs_reachable st)
    (gs_indirect st) (gs_rom st).
Definition add_edge (e : call_edge) (st : graph_state) : graph_state :=
  GraphState (gs_todo st) (gs_visited st) (gs_unresolved st) (gs_frames st) (gs_edges st ++ [e]) (gs_reachable st) (gs_indirect st)
    (gs_rom st).
Definition add_reachable (name : string) (st : graph_state) : graph_state :=
  GraphState (gs_todo st) (gs_visited st) (gs_unresolved st) (gs_frames st) (gs_edges st) (add_new name (gs_reachable st))
    (gs_indirect st) (gs_rom st).
Definition add_indirect (s : indirect_site) (st : graph_state) : graph_state :=
  GraphState (gs_todo st) (gs_visited st) (gs_unresolved st) (gs_frames st) (gs_edges st) (gs_reachable st) (gs_indirect st ++ [s])
    (gs_rom st).
Definition add_rom (r : rom_requirement) (st : graph_state) : graph_state :=
  GraphState (gs_todo st) (gs_visited st) (gs_unresolved st) (gs_frames st) (gs_edges st) (gs_reachable st) (gs_indirect st)
    (gs_rom st ++ [r]).

(** ** One call site *)
Section graph.
Context (alnum : Z -> bool).
Context (by_addr : functions) (by_name : option (list (string * Z))) (callbacks : list (string * list string)) (rom : list (Z * rom_contract)).

Definition ANNOTATION : rx := rx_seq [Str "<"; Group 1 (Plus true (Chr (fun c => negb (c =? 0x3E)))); Str ">"].
Definition annotation_name (ins : instruction) : option string :=
  match re_search ANNOTATION (codepoints (ins_operands ins)) with Some c => Some (capture_text 1 c) | None => None end.

(** [(?:^|_)(?:malloc|calloc|realloc|free|heap_caps_\w+)(?:$|_)], ignoring case. *)
Definition GRAPH_ALLOCATOR : rx :=
  rx_seq [Alt (Assert (fun prev _ => match prev with None => true | Some _ => false end)) (Str "_");
          alternatives (((fun s => literal_ignoring_case (string_bytes s)) <$> ["malloc"; "calloc"; "realloc"; "free"])
                        ++ [Seq (literal_ignoring_case (string_bytes "heap_caps_")) (Plus true (Chr (is_word alnum)))]);
          Alt Eol (Str "_")].
Definition names_allocator (name : string) : bool := bool_decide (is_Some (re_search GRAPH_ALLOCATOR (codepoints name))).

Definition rom_at (a : Z) : option rom_contract := snd <$> List.find (fun kv => kv.1 =? a) rom.

(** The functions a callback name stands for: the one [by_name] holds, or all of
    that name. *)
Definition candidates (name : string) : list function :=
  match (table ← by_name; dict_get name table) with
  | Some start => match fn_at start by_addr with Some fn => [fn] | None => [] end
  | None => List.filter (fun fn => String.eqb (fn_name fn) name) (snd <$> by_addr)
  end.

Definition callback_targets (owner : string) (names : list string) (st : graph_state) : list (function * edge_kind) * graph_state :=
  foldl (fun acc name =>
      match candidates name with
      | [] => (acc.1, add_note (CallbackMissing owner name) acc.2)
      | found => (acc.1 ++ ((fun fn => (fn, CallbackEdge)) <$> found), acc.2)
      end) ([], st) names.

(** The edges to the targets, each of which is visited later. *)
Definition push_target (fn : function) (ancestors : list string) (ins : instruction) (names : list string)
    (st : graph_state) (target : function * edge_kind) : graph_state :=
  let '(callee, kind) := target in
  let st := add_edge (CallEdge (fn_name fn) (ins_address ins) kind (Named (fn_name callee)) Exact) st in
  let st := if names_allocator (fn_name callee) then add_reachable (fn_name callee) st else st in
  let context := if contains "swift_once" (fn_name callee) then names else [] in
  with_todo (VisitItem callee (ancestors ++ [fn_name fn]) context (bool_decide (kind = Site OutlinedLink)) :: gs_todo st) st.

Definition push_targets (fn : function) (ancestors : list string) (ins : instruction) (names : list string)
    (targets : list (function * edge_kind)) (st : graph_state) : graph_state :=
  foldl (push_target fn ancestors ins names) st targets.

Definition no_target (fn : function) (ins : instruction) (kind : call_kind) (st : graph_state) : graph_state :=
  let st := add_note (UnresolvedIndirect (call_key fn ins)) st in
  let st := if bool_decide (kind ∈ [TailTransfer; TailCall])
            then add_edge (CallEdge (fn_name fn) (ins_address ins) (Site kind) Unknown UnresolvedEdge) st else st in
  add_indirect (IndirectSite (fn_name fn) (ins_address ins) (ins_text ins)) st.

Definition visit_site (fn : function) (ancestors context : list string) (st : graph_state)
    (site : instruction * option Z * call_kind) : graph_state :=
  let '(ins, target, kind) := site in
  let key := call_key fn ins in
  let listed := default [] (dict_get key callbacks) in
  match target with
  | Some t =>
      match fn_at t by_addr with
      | Some callee =>
          let st := match fn_instructions callee with
                    | [] => add_note (NoBodyAt key (fn_name callee) t)
                              (add_rom (RomRequirement (fn_name fn) (ins_address ins) t (fn_name callee)) st)
                    | _ => st
                    end in
          let '(found, st) := callback_targets key listed st in
          push_targets fn ancestors ins listed ((callee, Site kind) :: found) st
      | None =>
          match rom_at t with
          | Some contract =>
              let st := add_edge (CallEdge (fn_name fn) (ins_address ins) RomEdge
                                    (match rc_name contract with Some n => Named n | None => At t end) Contract) st in
              match rc_complete contract, rc_stack contract with
              | true, Some bytes => set_frame (default ("ROM@0x" +:+ hex_of t) (rc_name contract)) (RomClaim bytes) st
              | _, _ => add_note (IncompleteContract key t) st
              end
          | None =>
              let name := annotation_name ins in
              let st := add_edge (CallEdge (fn_name fn) (ins_address ins) (Site kind)
                                    (match name with Some n => Named n | None => At t end) MissingEdgeBody) st in
              let st := add_note (MissingLinked key t) st in
              if t <? 0x40800000
              then add_rom (RomRequirement (fn_name fn) (ins_address ins) t (default "unknown" name)) st else st
          end
      end
  | None =>
      let names := match context with [] => listed | _ => context end in
      let '(found, st) := callback_targets key names st in
      match names with
      | [] => no_target fn ins kind st
      | _ => push_targets fn ancestors ins names found st
      end
  end.

(** ** The traversal *)
Definition frame_notes (name : string) (report : frame_report) (st : graph_state) : graph_state :=
  foldl (fun st issue => add_note (FrameNote name issue) st) st (fr_unresolved report).

(** One iteration of [while todo]; [inr None] is a frame analysis that fails. *)
Definition graph_step (st : graph_state) : graph_state + option graph_state :=
  match gs_todo st with
  | [] => inr (Some st)
  | item :: todo =>
      let fn := vi_function item in
      let st := with_todo todo st in
      if bool_decide (fn_name fn ∈ vi_ancestors item) then inl (add_note (RecursivePath (fn_name fn) (fn_start fn)) st)
      else
        let key := (fn_name fn, List.last (vi_ancestors item) "", vi_context item) in
        if bool_decide (key ∈ gs_visited st) then inl st
        else
          match analyze_frame (fn_instructions fn) (fn_start fn) (vi_linkreg item) with
          | None => inr None
          | Some report =>
              let st := frame_notes (fn_name fn) report (set_frame (fn_name fn) (Analyzed report) (add_visit key st)) in
              inl (foldl (visit_site fn (vi_ancestors item) (vi_context item)) st (call_sites fn))
          end
  end.

(** A bound on the iterations: a name is visited once for each caller and context,
    and pushes at most one item per site and callback candidate. *)
Definition contexts : list (list string) := [] :: (snd <$> callbacks).
Definition site_pushes : Z :=
  1 + foldr (fun names => Z.max (Z.of_nat (length names) * Z.of_nat (S (length by_addr)))) 0 (snd <$> callbacks).
Definition item_pushes (hook : function) : Z :=
  foldr (fun fn => Z.max (Z.of_nat (length (call_sites fn)) * site_pushes)) 0 (hook :: (snd <$> by_addr)).
Definition graph_bound (hook : function) : Z :=
  let n := Z.of_nat (length by_addr) in
  (n + 1) * (n + 2) * Z.of_nat (length contexts) * (item_pushes hook + 1) + 2.

Definition start_graph (root hook : function) (frame : frame_report) : graph_state :=
  frame_notes (fn_name root) frame
    (GraphState [VisitItem hook [fn_name root] [] false] [] [] [(fn_name root, Analyzed frame)] [] [] [] []).

(** ** The report *)
(** [list({key(x): x for x in l}.values())] *)
Fixpoint set_by {A B} `{EqDecision B} (key : A -> B) (x : A) (l : list A) : list A :=
  match l with
  | [] => [x]
  | y :: l => if bool_decide (key y = key x) then x :: l else y :: set_by key x l
  end.
Definition unique_by {A B} `{EqDecision B} (key : A -> B) (l : list A) : list A := foldl (fun d x => set_by key x d) [] l.

Inductive report_status := UNRESOLVED | PASS.
#[export] Instance report_status_eq_dec : EqDecision report_status.
Proof. solve_decision. Defined.

Record graph_report := GraphReport {
  gr_status : report_status;
  gr_entry : string;
  gr_hook : string;
  gr_maximum : option Z;
  gr_frames : list (string * frame_entry);
  gr_edges : list call_edge;
  gr_present : list string;
  gr_reachable : list string;
  gr_indirect : list indirect_site;
  gr_rom : list rom_requirement;
  gr_unresolved : list note
}.

(** The sum of the frames is computed, and dropped for want of a ceiling. *)
Definition bound_notes (st : graph_state) (edges : list call_edge) : list note * option Z :=
  let total := foldr (fun kv acc => default 0 (entry_bytes kv.2) + acc) 0 (gs_frames st) in
  let '(notes, bound) :=
    match gs_unresolved st with
    | [] => if existsb (fun e => bool_decide (ce_kind e = Site OutlinedLink)) edges
            then ([OutlinedContinuation], None) else ([], Some total)
    | notes => (notes, None)
    end in
  match bound with
  | Some _ => (add_new NoCeiling notes, None)
  | None => (notes, None)
  end.

Definition analyze (root hook : function) : option graph_report :=
  frame ← analyze_frame (fn_instructions root) (fn_start root) false;
  st ← run_loop graph_step (depth_for (graph_bound hook)) (start_graph root hook frame);
  st ← st;
  let edges := unique_by id (gs_edges st) in
  let '(notes, bound) := bound_notes st edges in
  Some (GraphReport UNRESOLVED (fn_name root) (fn_name hook) bound (gs_frames st) edges
          (foldl (fun l fn => if names_allocator (fn_name fn) then add_new (fn_name fn) l else l) [] (snd <$> by_addr))
          (gs_reachable st) (unique_by (fun s => (is_caller s, is_pc s)) (gs_indirect st)) (unique_by id (gs_rom st))
          (add_new SemanticsUnverified notes)).
End graph.
