(* ===== verification/CallGraphTheorems.v ===== *)
(** * The traversal ends, and its exact edges are the calls reachable from the hook *)
From stdpp Require Import pretty.
From S2P Require Import Prelude PyValue PyText PyRegex PyFiles PyInt Disassembly Iterate StackFrame FrameTheorems CallGraph.

Lemma elem_of_add_new {A} `{EqDecision A} (x y : A) l : y ∈ add_new x l <-> y = x \/ y ∈ l.
Proof.
  unfold add_new. case_bool_decide as Hx; [|rewrite elem_of_app, list_elem_of_singleton; tauto].
  split; [auto|]. by intros [->|].
Qed.

Lemma analyze_frame_total fn linkreg : exists r, analyze_frame (fn_instructions fn) (fn_start fn) linkreg = Some r.
Proof.
  unfold analyze_frame. destruct (fn_instructions fn) as [|first rest] eqn:E; [by eexists|].
  destruct (frame_loop_total (first :: rest) linkreg (ins_address first) (layout_issues (first :: rest) (fn_start fn))) as [st Hst].
  { unfold starts. simpl. by left. }
  unfold start_state in Hst. by rewrite Hst; eexists.
Qed.

Section graph.
Context (alnum : Z -> bool) (by_addr : functions) (by_name : option (list (string * Z))) (callbacks : list (string * list string))
  (rom : list (Z * rom_contract)).
Abbreviation cand := (candidates by_addr by_name).
Abbreviation site := (instruction * option Z * call_kind)%type.

(** ** What a site adds *)
Definition site_names (fn : function) (context : list string) (s : site) : list string :=
  let listed := default [] (dict_get (call_key fn s.1.1) callbacks) in
  match s.1.2, context with None, _ :: _ => context | _, _ => listed end.
Definition callback_of (names : list string) : list (function * edge_kind) :=
  names ≫= fun name => (fun fn => (fn, CallbackEdge)) <$> cand name.
(** The functions a site calls. *)
Definition site_targets (fn : function) (context : list string) (s : site) : list (function * edge_kind) :=
  match s.1.2 with
  | Some t => match fn_at t by_addr with
              | Some callee => (callee, Site s.2) :: callback_of (site_names fn context s)
              | None => []
              end
  | None => callback_of (site_names fn context s)
  end.
Definition target_context (names : list string) (callee : function) : list string :=
  if contains "swift_once" (fn_name callee) then names else [].
Definition target_item (fn : function) (ancestors names : list string) (target : function * edge_kind) : visit_item :=
  VisitItem target.1 (ancestors ++ [fn_name fn]) (target_context names target.1) (bool_decide (target.2 = Site OutlinedLink)).
Definition target_edge (fn : function) (s : site) (target : function * edge_kind) : call_edge :=
  CallEdge (fn_name fn) (ins_address s.1.1) target.2 (Named (fn_name target.1)) Exact.
Definition site_items (fn : function) (ancestors context : list string) (s : site) : list visit_item :=
  target_item fn ancestors (site_names fn context s) <$> site_targets fn context s.
Definition site_edges (fn : function) (context : list string) (s : site) : list call_edge :=
  target_edge fn s <$> site_targets fn context s.
Definition exact_edges (l : list call_edge) : list call_edge := List.filter (fun e => bool_decide (ce_resolution e = Exact)) l.

(** The parts of the state the traversal depends on. *)
Record adds (items : list visit_item) (edges : list call_edge) (st st' : graph_state) : Prop := {
  ad_todo : gs_todo st' = reverse items ++ gs_todo st;
  ad_edges : exact_edges (gs_edges st') = exact_edges (gs_edges st) ++ edges;
  ad_visited : gs_visited st' = gs_visited st;
  ad_notes : forall n, n ∈ gs_unresolved st -> n ∈ gs_unresolved st'
}.

Lemma adds_refl st : adds [] [] st st.
Proof. split; [done|by rewrite app_nil_r|done|done]. Qed.
Lemma adds_trans i1 e1 i2 e2 st1 st2 st3 : adds i1 e1 st1 st2 -> adds i2 e2 st2 st3 -> adds (i1 ++ i2) (e1 ++ e2) st1 st3.
Proof.
  intros [H1 H2 H3 H4] [H5 H6 H7 H8]. split.
  - by rewrite H5, H1, reverse_app, app_assoc.
  - by rewrite H6, H2, app_assoc.
  - by rewrite H7.
  - auto.
Qed.
Lemma adds_note n st : adds [] [] st (add_note n st).
Proof. split; [done|by rewrite app_nil_r|done|]. intros m Hm. simpl. apply elem_of_add_new. by right. Qed.
Lemma adds_rom r st : adds [] [] st (add_rom r st).
Proof. split; [done|by rewrite app_nil_r|done|done]. Qed.
Lemma adds_indirect s st : adds [] [] st (add_indirect s st).
Proof. split; [done|by rewrite app_nil_r|done|done]. Qed.
Lemma adds_frame name f st : adds [] [] st (set_frame name f st).
Proof. split; [done|by rewrite app_nil_r|done|done]. Qed.
Lemma adds_edge e st : ce_resolution e <> Exact -> adds [] [] st (add_edge e st).
Proof.
  intros He. split; [done| |done|done]. simpl. unfold exact_edges. rewrite List.filter_app. simpl.
  rewrite bool_decide_eq_false_2 by done. done.
Qed.
Lemma adds_then st1 st2 st3 i e : adds [] [] st1 st2 -> adds i e st2 st3 -> adds i e st1 st3.
Proof. apply (adds_trans [] [] i e). Qed.
Lemma adds_quiet st1 st2 st3 i e : adds i e st1 st2 -> adds [] [] st2 st3 -> adds i e st1 st3.
Proof. intros H1 H2. rewrite <- (app_nil_r i), <- (app_nil_r e). by eapply adds_trans. Qed.

Lemma push_target_adds fn ancestors ins kind names st target :
  adds [target_item fn ancestors names target] [target_edge fn (ins, None, kind) target] st
    (push_target alnum fn ancestors ins names st target).
Proof.
  unfold push_target. destruct target as [callee k]. destruct (names_allocator alnum (fn_name callee)); split; try done;
    simpl; unfold exact_edges; rewrite List.filter_app; reflexivity.
Qed.

Lemma push_targets_adds fn ancestors ins kind names targets st :
  adds (target_item fn ancestors names <$> targets) (target_edge fn (ins, None, kind) <$> targets) st
    (push_targets alnum fn ancestors ins names targets st).
Proof.
  unfold push_targets. revert st. induction targets as [|t ts IH]; intros st; [apply adds_refl|]. cbn [foldl fmap list_fmap].
  eapply (adds_trans [_] [_]); [apply (push_target_adds _ _ _ kind)|apply IH].
Qed.

Lemma callback_targets_adds owner names st :
  (callback_targets by_addr by_name owner names st).1 = callback_of names
  /\ adds [] [] st (callback_targets by_addr by_name owner names st).2.
Proof.
  unfold callback_targets, callback_of.
  cut (forall acc, let r := foldl (fun acc name => match cand name with
      | [] => (acc.1, add_note (CallbackMissing owner name) acc.2)
      | found => (acc.1 ++ ((fun fn => (fn, CallbackEdge)) <$> found), acc.2) end) acc names in
    r.1 = acc.1 ++ (names ≫= fun name => (fun fn => (fn, CallbackEdge)) <$> cand name) /\ adds [] [] acc.2 r.2).
  { intros H. apply (H ([], st)). }
  induction names as [|name names IH]; intros acc; simpl.
  { rewrite app_nil_r. split; [done|apply adds_refl]. }
  destruct (cand name) as [|f fs] eqn:E; destruct (IH (match cand name with
      | [] => (acc.1, add_note (CallbackMissing owner name) acc.2)
      | found => (acc.1 ++ ((fun fn => (fn, CallbackEdge)) <$> found), acc.2) end)) as [H1 H2]; rewrite E in H1, H2; simpl in *.
  - split; [by rewrite H1|]. eapply adds_then; [apply adds_note|done].
  - split; [by rewrite H1, <- app_assoc|done].
Qed.

Lemma visit_site_adds fn ancestors context s st :
  adds (site_items fn ancestors context s) (site_edges fn context s) st
    (visit_site alnum by_addr by_name callbacks rom fn ancestors context st s).
Proof.
  destruct s as [[ins target] kind]. unfold visit_site, site_items, site_edges, site_targets, site_names. cbn [fst snd].
  set (listed := default [] _). destruct target as [t|].
  - destruct (fn_at t by_addr) as [callee|].
    + set (st1 := match fn_instructions callee with [] => _ | _ => st end).
      assert (Hst1 : adds [] [] st st1).
      { unfold st1. destruct (fn_instructions callee); [|apply adds_refl]. eapply adds_then; [apply adds_rom|apply adds_note]. }
      destruct (callback_targets_adds (call_key fn ins) listed st1) as [Hf Hst2].
      destruct (callback_targets _ _ _ _ st1) as [found st2]. cbn [fst snd] in *. subst found.
      eapply adds_then; [exact Hst1|]. eapply adds_then; [exact Hst2|]. apply (push_targets_adds _ _ _ kind).
    + cbn [fmap list_fmap]. destruct (rom_at rom t) as [contract|].
      * destruct (rc_complete contract), (rc_stack contract);
          (eapply adds_then; [|first [apply adds_frame|apply adds_note]]); by apply adds_edge.
      * destruct (t <? 0x40800000); [eapply adds_then; [|apply adds_rom]|];
          (eapply adds_then; [|apply adds_note]); by apply adds_edge.
  - set (names := match context with [] => listed | s :: l => s :: l end).
    destruct (callback_targets_adds (call_key fn ins) names st) as [Hf Hst].
    assert (Hsame : match context with [] => listed | _ => context end = names) by by destruct context. rewrite Hsame.
    destruct (callback_targets _ _ _ names st) as [found st2]. cbn [fst snd] in *. subst found.
    destruct names as [|n ns] eqn:E.
    + eapply adds_then; [exact Hst|]. unfold no_target. case_bool_decide.
      * eapply adds_then; [|apply adds_indirect]. eapply adds_then; [|by apply adds_edge]. apply adds_note.
      * eapply adds_then; [apply adds_note|]. apply adds_indirect.
    + eapply adds_then; [exact Hst|]. apply (push_targets_adds _ _ _ kind).
Qed.

(** A site without a target leaves a note, or its target has a complete contract. *)
Definition accounted (fn : function) (s : site) (st : graph_state) : Prop :=
  let key := call_key fn s.1.1 in
  match s.1.2 with
  | Some t => MissingLinked key t ∈ gs_unresolved st \/ IncompleteContract key t ∈ gs_unresolved st
      \/ exists contract, rom_at rom t = Some contract /\ rc_complete contract = true /\ is_Some (rc_stack contract)
  | None => UnresolvedIndirect key ∈ gs_unresolved st \/ exists name, CallbackMissing key name ∈ gs_unresolved st
  end.
Lemma accounted_mono fn s st st' : (forall n, n ∈ gs_unresolved st -> n ∈ gs_unresolved st') -> accounted fn s st -> accounted fn s st'.
Proof. intros Hn. unfold accounted. destruct s.1.2; naive_solver. Qed.

Lemma note_added n st : n ∈ gs_unresolved (add_note n st).
Proof. apply elem_of_add_new. by left. Qed.

Lemma callback_targets_missing owner names st : names <> [] -> callback_of names = [] ->
  exists name, CallbackMissing owner name ∈ gs_unresolved (callback_targets by_addr by_name owner names st).2.
Proof.
  intros Hn Hc. destruct names as [|name names]; [done|]. unfold callback_of in Hc. rewrite bind_cons in Hc.
  apply app_eq_nil in Hc as [Hf _]. apply fmap_nil_inv in Hf. exists name.
  assert (Hstep : callback_targets by_addr by_name owner (name :: names) st
      = callback_targets by_addr by_name owner names (add_note (CallbackMissing owner name) st)).
  { unfold callback_targets. cbn [foldl]. by rewrite Hf. }
  rewrite Hstep. apply (ad_notes _ _ _ _ (proj2 (callback_targets_adds owner names _))), note_added.
Qed.

Lemma visit_site_accounts fn ancestors context s st : site_targets fn context s = [] ->
  accounted fn s (visit_site alnum by_addr by_name callbacks rom fn ancestors context st s).
Proof.
  destruct s as [[ins target] kind]. unfold visit_site, site_targets, site_names, accounted. cbn [fst snd].
  set (listed := default [] _). destruct target as [t|].
  - destruct (fn_at t by_addr) as [callee|]; [done|]. intros _. destruct (rom_at rom t) as [contract|].
    + destruct (rc_complete contract) eqn:Ec, (rc_stack contract) eqn:Es; try (right; left; apply note_added).
      right. right. exists contract. by rewrite Ec, Es.
    + left. destruct (t <? _); apply note_added.
  - set (names := match context with [] => listed | s :: l => s :: l end).
    assert (Hsame : match context with [] => listed | _ => context end = names) by by destruct context. rewrite Hsame.
    intros Hnone. destruct (decide (names = [])) as [Hn|Hn].
    + destruct (callback_targets _ _ _ names st) as [found st2]. rewrite Hn. left. unfold no_target.
      case_bool_decide; apply note_added.
    + right. destruct (callback_targets_missing (call_key fn ins) _ st Hn Hnone) as [name Hname].
      destruct (callback_targets _ _ _ names st) as [found st2]. exists name. destruct names; [done|].
      by apply (ad_notes _ _ _ _ (push_targets_adds fn ancestors ins kind _ found st2)).
Qed.

Lemma visit_sites_adds fn ancestors context sites st :
  adds (sites ≫= site_items fn ancestors context) (sites ≫= site_edges fn context) st
    (foldl (visit_site alnum by_addr by_name callbacks rom fn ancestors context) st sites).
Proof.
  revert st. induction sites as [|s sites IH]; intros st; [apply adds_refl|]. cbn [foldl mbind list_bind].
  eapply adds_trans; [apply visit_site_adds|apply IH].
Qed.

Lemma visit_sites_accounts fn ancestors context sites st s : s ∈ sites -> site_targets fn context s = [] ->
  accounted fn s (foldl (visit_site alnum by_addr by_name callbacks rom fn ancestors context) st sites).
Proof.
  revert st. induction sites as [|s' sites IH]; intros st Hin Hs; [by apply elem_of_nil in Hin|]. cbn [foldl].
  apply elem_of_cons in Hin as [<-|Hin]; [|by apply IH].
  eapply accounted_mono; [apply (ad_notes _ _ _ _ (visit_sites_adds fn ancestors context sites _))|by apply visit_site_accounts].
Qed.

Lemma frame_notes_adds name report st : adds [] [] st (frame_notes name report st).
Proof.
  unfold frame_notes. generalize (fr_unresolved report). intros l. revert st.
  induction l as [|i l IH]; intros st; [apply adds_refl|]. cbn [foldl]. eapply adds_then; [apply adds_note|apply IH].
Qed.

(** ** The functions reached from the hook *)
Context (root hook : function).

Inductive calls_from : function -> list string -> Prop :=
  | calls_hook : calls_from hook []
  | calls_site fn context s target :
      calls_from fn context -> s ∈ call_sites fn -> target ∈ site_targets fn context s ->
      calls_from target.1 (target_context (site_names fn context s) target.1).

Definition recursive (st : graph_state) : Prop := exists name start, RecursivePath name start ∈ gs_unresolved st.
Definition pending (st : graph_state) (fn : function) (context : list string) : Prop :=
  (exists item, item ∈ gs_todo st /\ vi_function item = fn /\ vi_context item = context)
  \/ (exists parent, (fn_name fn, parent, context) ∈ gs_visited st) \/ recursive st.
Definition settled (st : graph_state) (fn : function) (context : list string) : Prop :=
  forall s, s ∈ call_sites fn ->
    (forall e, e ∈ site_edges fn context s -> e ∈ exact_edges (gs_edges st))
    /\ (forall target, target ∈ site_targets fn context s -> pending st target.1 (target_context (site_names fn context s) target.1))
    /\ (site_targets fn context s = [] -> accounted fn s st).

Record traced (st : graph_state) : Prop := {
  tr_items : forall item, item ∈ gs_todo st -> calls_from (vi_function item) (vi_context item);
  tr_visited : forall name parent context, (name, parent, context) ∈ gs_visited st ->
    exists fn, calls_from fn context /\ fn_name fn = name /\ settled st fn context;
  tr_edges : forall e, e ∈ exact_edges (gs_edges st) ->
    exists fn context s, calls_from fn context /\ s ∈ call_sites fn /\ e ∈ site_edges fn context s;
  tr_hook : pending st hook []
}.

(** A state that knows more: nothing recorded is lost, and a popped item is visited. *)
Record advances (st st' : graph_state) : Prop := {
  av_edges : forall e, e ∈ exact_edges (gs_edges st) -> e ∈ exact_edges (gs_edges st');
  av_pending : forall fn context, pending st fn context -> pending st' fn context;
  av_notes : forall n, n ∈ gs_unresolved st -> n ∈ gs_unresolved st'
}.
Lemma advances_settled st st' fn context : advances st st' -> settled st fn context -> settled st' fn context.
Proof. 
  intros [He Hp Hn] Hs s Hin. destruct (Hs s Hin) as (H1 & H2 & H3). split_and!; auto.
  intros Ht. eapply accounted_mono; [exact Hn|auto].
 Qed.

Lemma adds_advances items edges st st' : adds items edges st st' -> advances st st'.
Proof.
  intros [Ht He Hv Hn]. split.
  - intros e Hin. rewrite He. apply elem_of_app. by left.
  - intros fn context [(item & Hin & ?)|[(parent & Hin)|(name & start & Hin)]].
    + left. exists item. split; [|done]. rewrite Ht. apply elem_of_app. by right.
    + right. left. exists parent. by rewrite Hv.
    + right. right. exists name, start. auto.
  - done.
Qed.

Lemma pop_advances item todo st st' :
  gs_todo st = item :: todo -> gs_edges st' = gs_edges st -> (forall n, n ∈ gs_unresolved st -> n ∈ gs_unresolved st') ->
  gs_todo st' = todo -> (forall key, key ∈ gs_visited st -> key ∈ gs_visited st') ->
  pending st' (vi_function item) (vi_context item) -> advances st st'.
Proof.
  intros Ht He Hn Ht' Hv Hitem. split; [by rewrite He| |done].
  intros fn context [(it & Hin & <- & <-)|[(parent & Hin)|(name & start & Hin)]].
  - rewrite Ht in Hin. apply elem_of_cons in Hin as [->|Hin]; [done|]. left. exists it. by rewrite Ht'.
  - right. left. exists parent. auto.
  - right. right. exists name, start. auto.
Qed.

Lemma traced_pop item todo st st' :
  traced st -> gs_todo st = item :: todo -> gs_todo st' = todo -> gs_visited st' = gs_visited st -> gs_edges st' = gs_edges st ->
  advances st st' -> traced st'.
Proof.
  intros [Hi Hv He Hh] Ht Ht' Hv' He' Hadv. split.
  - intros it Hin. rewrite Ht' in Hin. apply Hi. rewrite Ht. by right.
  - intros name parent context Hin. rewrite Hv' in Hin. destruct (Hv _ _ _ Hin) as (fn & ? & ? & ?).
    exists fn. split_and!; [done..|]. by eapply advances_settled.
  - intros e. rewrite He'. apply He.
  - by apply (av_pending _ _ Hadv).
Qed.

Abbreviation step := (graph_step alnum by_addr by_name callbacks rom).

Lemma elem_of_sites_bind {B} (f : site -> list B) (l : list site) x : x ∈ (l ≫= f) <-> exists s, s ∈ l /\ x ∈ f s.
Proof. rewrite list_elem_of_bind. naive_solver. Qed.

Lemma step_traced st st' : traced st -> step st = inl st' -> traced st'.
Proof.
  intros Htr. unfold graph_step. destruct (gs_todo st) as [|item todo] eqn:Ht; [done|].
  destruct (bool_decide (fn_name _ ∈ _)).
  { intros [= <-]. eapply traced_pop; [exact Htr|exact Ht|done..|].
    eapply pop_advances; [exact Ht|done| |done|done|].
    - intros n Hn. simpl. apply elem_of_add_new. by right.
    - right. right. do 2 eexists. simpl. apply elem_of_add_new. by left. }
  case_bool_decide as Hkey.
  { intros [= <-]. eapply traced_pop; [exact Htr|exact Ht|done..|].
    eapply pop_advances; [exact Ht|done|done|done|done|]. right. left. eexists. exact Hkey. }
  set (fn := vi_function item) in *. set (key := (fn_name fn, _, vi_context item)) in *.
  destruct (analyze_frame _ _ _) as [report|]; [|done]. intros [= <-].
  set (st1 := add_visit key (with_todo todo st)).
  set (st2 := frame_notes (fn_name fn) report (set_frame (fn_name fn) (Analyzed report) st1)).
  assert (H12 : adds [] [] st1 st2) by (eapply adds_then; [apply adds_frame|apply frame_notes_adds]).
  pose proof (visit_sites_adds fn (vi_ancestors item) (vi_context item) (call_sites fn) st2) as H23.
  set (st3 := foldl _ st2 _) in *. pose proof (adds_then _ _ _ _ _ H12 H23) as H13.
  assert (Hadv : advances st st1).
  { eapply pop_advances; [exact Ht|done|done|done|by right|]. right. left. eexists. by left. }
  assert (Hadv3 : advances st st3).
  { destruct Hadv as [A1 A2 A3], (adds_advances _ _ _ _ H13) as [B1 B2 B3]. split; auto. }
  assert (Hfn : calls_from fn (vi_context item)) by (apply (tr_items _ Htr); rewrite Ht; by left).
  destruct H13 as [Htodo Hedges Hvis _]. split.
  - intros it. rewrite Htodo, elem_of_app, elem_of_reverse. intros [Hin|Hin].
    + apply elem_of_sites_bind in Hin as (s & Hs & (target & -> & Htarget)%list_elem_of_fmap). by eapply calls_site.
    + apply (tr_items _ Htr). rewrite Ht. by right.
  - intros name parent context. rewrite Hvis. intros [[= -> -> ->]|Hin]%elem_of_cons.
    + exists fn. split_and!; [done..|]. intros s Hs. split_and!; [| |by apply visit_sites_accounts].
      * intros e He. rewrite Hedges. apply elem_of_app. right. apply elem_of_sites_bind. by exists s.
      * intros target Htarget. left. exists (target_item fn (vi_ancestors item) (site_names fn (vi_context item) s) target).
        split; [|done]. rewrite Htodo. apply elem_of_app. left. apply elem_of_reverse, elem_of_sites_bind.
        exists s. split; [done|]. apply list_elem_of_fmap. by exists target.
    + destruct (tr_visited _ Htr _ _ _ Hin) as (g & ? & ? & ?). exists g. split_and!; [done..|]. by eapply advances_settled.
  - intros e. rewrite Hedges, elem_of_app. intros [Hin|Hin]; [by apply (tr_edges _ Htr)|].
    apply elem_of_sites_bind in Hin as (s & Hs & He). by exists fn, (vi_context item), s.
  - apply (av_pending _ _ Hadv3), (tr_hook _ Htr).
Qed.

Lemma start_traced frame : traced (start_graph root hook frame).
Proof.
  unfold start_graph. set (st := GraphState _ _ _ _ _ _ _ _).
  pose proof (frame_notes_adds (fn_name root) frame st) as [Ht He Hv Hn]. split.
  - intros item. rewrite Ht. intros ->%list_elem_of_singleton. apply calls_hook.
  - intros ? ? ?. rewrite Hv. by intros ?%elem_of_nil.
  - intros e. rewrite He. by intros ?%elem_of_nil.
  - left. eexists. split; [rewrite Ht; by left|done].
Qed.

Lemma step_end st r : step st = inr r -> exists st', r = Some st' /\ st' = st /\ gs_todo st = [].
Proof.
  unfold graph_step. destruct (gs_todo st) as [|item todo] eqn:Ht; [intros [= <-]; by eexists|].
  destruct (bool_decide _); [done|]. destruct (bool_decide _); [done|].
  destruct (analyze_frame_total (vi_function item) (vi_linkreg item)) as [rep Hrep]. by rewrite Hrep.
Qed.

(** *** The end of the traversal *)
Lemma pending_visited st fn context : gs_todo st = [] -> ~ recursive st -> pending st fn context ->
  exists parent, (fn_name fn, parent, context) ∈ gs_visited st.
Proof. intros Ht Hr [(item & Hin & _)|[Hv|?]]; [rewrite Ht in Hin; by apply elem_of_nil in Hin|done|done]. Qed.

Definition names_unique : Prop :=
  forall f g c d, calls_from f c -> calls_from g d -> fn_name f = fn_name g -> f = g.

Lemma traced_settled st : traced st -> gs_todo st = [] -> ~ recursive st -> names_unique ->
  forall fn context, calls_from fn context -> settled st fn context.
Proof.
  intros Htr Ht Hr Hu. assert (Hvisited : forall fn context, calls_from fn context -> pending st fn context -> settled st fn context).
  { intros fn context Hfn Hp. apply pending_visited in Hp as [parent Hin]; [|done..].
    destruct (tr_visited _ Htr _ _ _ Hin) as (g & Hg & Hname & Hs). by rewrite <- (Hu _ _ _ _ Hg Hfn Hname). }
  intros fn context Hfn. apply Hvisited; [done|].
  induction Hfn as [|fn context s target Hfn IH Hs Htarget]; [apply (tr_hook _ Htr)|].
  destruct (Hvisited _ _ Hfn IH s Hs) as (_ & H & _). by apply H.
Qed.

(** ** Termination *)
Definition graph_functions : list function := hook :: (snd <$> by_addr).
Definition key_space : list (string * string * list string) :=
  name ← fn_name <$> graph_functions; parent ← fn_name root :: (fn_name <$> graph_functions);
  context ← contexts callbacks; [(name, parent, context)].

Lemma length_bind_const {A B} (f : A -> list B) l n : (forall x, length (f x) = n) -> length (l ≫= f) = (length l * n)%nat.
Proof. intros Hf. induction l as [|x l IH]; [done|]. cbn [mbind list_bind]. by rewrite length_app, Hf, IH. Qed.
Lemma length_key_space : Z.of_nat (length key_space) =
  (Z.of_nat (length by_addr) + 1) * (Z.of_nat (length by_addr) + 2) * Z.of_nat (length (contexts callbacks)).
Proof.
  unfold key_space. set (parents := fn_name root :: _).
  rewrite (length_bind_const _ _ (length parents * (length (contexts callbacks) * 1))).
  - unfold parents, graph_functions. cbn [length]. rewrite !length_fmap. cbn [length]. rewrite !length_fmap. lia.
  - intros name. apply length_bind_const. intros parent. by apply length_bind_const.
Qed.

Lemma elem_of_key_space name parent context :
  name ∈ fn_name <$> graph_functions -> parent ∈ fn_name root :: (fn_name <$> graph_functions) -> context ∈ contexts callbacks ->
  (name, parent, context) ∈ key_space.
Proof.
  intros Hn Hp Hc. unfold key_space. apply list_elem_of_bind. exists name. split; [|done].
  apply list_elem_of_bind. exists parent. split; [|done]. apply list_elem_of_bind. exists context. split; [by left|done].
Qed.

Lemma site_names_contexts fn context s : context ∈ contexts callbacks -> site_names fn context s ∈ contexts callbacks.
Proof.
  intros Hc. unfold site_names. set (listed := default [] _).
  assert (Hl : listed ∈ contexts callbacks).
  { unfold listed. destruct (dict_get _ callbacks) as [l|] eqn:E; [|by left]. right. apply list_elem_of_fmap. eexists (_, _). split; [|by eapply dict_get_elem]; done. }
  destruct s.1.2; [done|]. by destruct context.
Qed.
Lemma target_context_contexts names callee : names ∈ contexts callbacks -> target_context names callee ∈ contexts callbacks.
Proof. intros. unfold target_context. destruct (contains _ _); [done|by left]. Qed.

Lemma fn_at_value t fn : fn_at t by_addr = Some fn -> fn ∈ snd <$> by_addr.
Proof.
  unfold fn_at. destruct (List.find _ by_addr) as [[k f]|] eqn:E; [|done]. intros [= <-].
  apply find_some in E as [Hin _]. apply list_elem_of_fmap. exists (k, f). split; [done|by apply list_elem_of_In].
Qed.
Lemma candidates_functions name fn : fn ∈ cand name -> fn ∈ snd <$> by_addr.
Proof.
  unfold candidates. destruct (table ← by_name; dict_get name table) as [start|].
  - destruct (fn_at start by_addr) as [f|] eqn:E; [|by intros ?%elem_of_nil]. intros ->%list_elem_of_singleton. by eapply fn_at_value.
  - by intros [Hin _]%elem_of_filterb.
Qed.
Lemma length_candidates name : (length (cand name) <= S (length by_addr))%nat.
Proof.
  unfold candidates. destruct (table ← by_name; dict_get name table) as [start|].
  - destruct (fn_at start by_addr); simpl; lia.
  - etrans; [apply filter_length_le|]. rewrite length_fmap. lia.
Qed.
Lemma site_targets_functions fn context s target : target ∈ site_targets fn context s -> target.1 ∈ graph_functions.
Proof.
  assert (Hcb : forall names, target ∈ callback_of names -> target.1 ∈ graph_functions).
  { intros names (name & (f & -> & Hf)%list_elem_of_fmap & _)%list_elem_of_bind. right. by eapply candidates_functions. }
  unfold site_targets. destruct s.1.2 as [t|]; [|apply Hcb].
  destruct (fn_at t by_addr) as [callee|] eqn:E; [|by intros ?%elem_of_nil].
  intros [->|Hin]%elem_of_cons; [|by eapply Hcb]. right. by eapply fn_at_value.
Qed.

Lemma length_callback_of names : (length (callback_of names) <= length names * S (length by_addr))%nat.
Proof.
  induction names as [|name names IH]; [done|]. unfold callback_of in *. cbn [mbind list_bind length].
  rewrite length_app, length_fmap. pose proof (length_candidates name). simpl. lia.
Qed.
Lemma foldr_max_elem {A} (f : A -> Z) l x : x ∈ l -> f x <= foldr (fun y => Z.max (f y)) 0 l.
Proof. induction l as [|y l IH]; [by intros ?%elem_of_nil|]. simpl. intros [->|Hin]%elem_of_cons; [lia|]. specialize (IH Hin). lia. Qed.
Lemma foldr_max_nonneg {A} (f : A -> Z) l : 0 <= foldr (fun y => Z.max (f y)) 0 l.
Proof. induction l; simpl; lia. Qed.

Lemma length_site_targets fn context s : context ∈ contexts callbacks ->
  Z.of_nat (length (site_targets fn context s)) <= site_pushes by_addr callbacks.
Proof.
  intros Hc. pose proof (site_names_contexts fn _ s Hc) as Hn. set (names := site_names fn context s) in *.
  assert (Hcb : Z.of_nat (length (callback_of names)) <= site_pushes by_addr callbacks - 1).
  { pose proof (length_callback_of names). unfold site_pushes. unfold contexts in Hn. apply elem_of_cons in Hn as [->|Hn].
    - pose proof (foldr_max_nonneg (fun names => Z.of_nat (length names) * Z.of_nat (S (length by_addr))) (snd <$> callbacks)). simpl. lia.
    - pose proof (foldr_max_elem (fun names => Z.of_nat (length names) * Z.of_nat (S (length by_addr))) _ _ Hn). simpl in *. lia. }
  unfold site_targets. fold names. destruct s.1.2 as [t|]; [|lia]. destruct (fn_at t by_addr); simpl; lia.
Qed.

Lemma length_site_items fn ancestors context sites : context ∈ contexts callbacks ->
  Z.of_nat (length (sites ≫= site_items fn ancestors context)) <= Z.of_nat (length sites) * site_pushes by_addr callbacks.
Proof.
  intros Hc. induction sites as [|s sites IH]; [simpl; lia|]. rewrite bind_cons, length_app.
  unfold site_items at 1. rewrite length_fmap. cbn [length]. pose proof (length_site_targets fn context s Hc).
  rewrite Nat2Z.inj_succ, Z.mul_succ_l. lia.
Qed.

Record bounded_graph (st : graph_state) : Prop := {
  bg_items : forall item, item ∈ gs_todo st -> vi_function item ∈ graph_functions /\ vi_context item ∈ contexts callbacks
    /\ List.last (vi_ancestors item) "" ∈ fn_name root :: (fn_name <$> graph_functions);
  bg_keys : NoDup (gs_visited st) /\ forall key, key ∈ gs_visited st -> key ∈ key_space
}.
Definition graph_measure (st : graph_state) : Z :=
  Z.of_nat (length (gs_todo st)) + (item_pushes by_addr callbacks hook + 1) * (Z.of_nat (length key_space) - Z.of_nat (length (gs_visited st))).

Lemma keys_bound keys : NoDup keys -> (forall key, key ∈ keys -> key ∈ key_space) -> Z.of_nat (length keys) <= Z.of_nat (length key_space).
Proof. intros Hn Hsub. by apply inj_le, submseteq_length, NoDup_submseteq. Qed.
Lemma length_sites_items fn ancestors context : fn ∈ graph_functions -> context ∈ contexts callbacks ->
  Z.of_nat (length (call_sites fn ≫= site_items fn ancestors context)) <= item_pushes by_addr callbacks hook.
Proof.
  intros Hfn Hc. etrans; [by apply length_site_items|]. unfold item_pushes.
  by apply (foldr_max_elem (fun fn => Z.of_nat (length (call_sites fn)) * site_pushes by_addr callbacks)).
Qed.

Lemma bounded_pop item todo st : bounded_graph st -> gs_todo st = item :: todo ->
  (vi_function item ∈ graph_functions /\ vi_context item ∈ contexts callbacks
    /\ List.last (vi_ancestors item) "" ∈ fn_name root :: (fn_name <$> graph_functions))
  /\ (forall it, it ∈ todo -> it ∈ gs_todo st)
  /\ forall st', gs_todo st' = todo -> gs_visited st' = gs_visited st -> bounded_graph st' /\ 0 <= graph_measure st' < graph_measure st.
Proof.
  intros [Hi [Hn Hk]] Ht. assert (Hin : forall it, it ∈ todo -> it ∈ gs_todo st) by (intros; rewrite Ht; by right).
  split; [apply Hi; rewrite Ht; by left|]. split; [done|]. intros st' Ht' Hv'. split.
  - split; [|by rewrite Hv']. intros it Hit. apply Hi, Hin. by rewrite <- Ht'.
  - unfold graph_measure. rewrite Ht, Ht', Hv'. pose proof (keys_bound _ Hn Hk).
    pose proof (foldr_max_nonneg (fun fn => Z.of_nat (length (call_sites fn)) * site_pushes by_addr callbacks) graph_functions).
    change (0 <= item_pushes by_addr callbacks hook) in H0. cbn [length]. nia.
Qed.

Lemma graph_bounded_step st st' : bounded_graph st -> step st = inl st' -> bounded_graph st' /\ 0 <= graph_measure st' < graph_measure st.
Proof.
  intros Hb. unfold graph_step. destruct (gs_todo st) as [|item todo] eqn:Ht; [done|].
  destruct (bounded_pop _ _ _ Hb Ht) as ((Hfn & Hctx & Hpar) & Hin & Hpop).
  destruct (bool_decide (fn_name _ ∈ _)); [intros [= <-]; by apply Hpop|].
  case_bool_decide as Hkey; [intros [= <-]; by apply Hpop|].
  set (fn := vi_function item) in *. set (key := (fn_name fn, _, vi_context item)) in *.
  destruct (analyze_frame _ _ _) as [report|]; [|done]. intros [= <-].
  set (st1 := add_visit key (with_todo todo st)). destruct Hb as [Hi [Hn Hk]].
  assert (Hkey1 : forall k, k ∈ key :: gs_visited st -> k ∈ key_space).
  { intros k [->|?]%elem_of_cons; [|by apply Hk]. apply elem_of_key_space; [|done..]. by apply list_elem_of_fmap_2. }
  assert (Hn1 : NoDup (key :: gs_visited st)) by by constructor.
  pose proof (adds_then _ _ _ _ _ (adds_then _ _ _ _ _ (adds_frame (fn_name fn) (Analyzed report) st1) (frame_notes_adds (fn_name fn) report _))
    (visit_sites_adds fn (vi_ancestors item) (vi_context item) (call_sites fn) _)) as [Htodo _ Hvis _].
  set (st3 := foldl _ _ (call_sites fn)) in *. change (gs_todo st1) with todo in Htodo. change (gs_visited st1) with (key :: gs_visited st) in Hvis.
  pose proof (length_sites_items fn (vi_ancestors item) _ Hfn Hctx) as Hlen. pose proof (keys_bound _ Hn1 Hkey1) as Hsize.
  split.
  - split; [|by rewrite Hvis]. intros it. rewrite Htodo, elem_of_app, elem_of_reverse. intros [Hit|Hit]; [|by apply Hi, Hin].
    apply elem_of_sites_bind in Hit as (s & _ & (target & -> & Htarget)%list_elem_of_fmap). split_and!.
    + by eapply site_targets_functions.
    + by apply target_context_contexts, site_names_contexts.
    + cbn [target_item vi_ancestors]. rewrite List.last_last. right. by apply list_elem_of_fmap_2.
  - unfold graph_measure. rewrite Htodo, Hvis, Ht, length_app, length_reverse. cbn [length] in *. nia.
Qed.

Lemma graph_bounded_start frame : bounded_graph (start_graph root hook frame) /\ graph_measure (start_graph root hook frame) < graph_bound by_addr callbacks hook.
Proof.
  unfold start_graph. set (st := GraphState _ _ _ _ _ _ _ _).
  pose proof (frame_notes_adds (fn_name root) frame st) as [Ht _ Hv _].
  change (gs_todo (frame_notes (fn_name root) frame st) = [VisitItem hook [fn_name root] [] false]) in Ht.
  change (gs_visited (frame_notes (fn_name root) frame st) = []) in Hv. split.
  - split; [|rewrite Hv; split; [constructor|by intros ? ?%elem_of_nil]]. intros item. rewrite Ht.
    intros ->%list_elem_of_singleton. split_and!; by left.
  - unfold graph_measure. rewrite Ht, Hv, length_key_space. unfold graph_bound. cbn [length]. lia.
Qed.

Lemma traversal_ends frame : exists st, run_loop step (depth_for (graph_bound by_addr callbacks hook)) (start_graph root hook frame) = Some (Some st)
  /\ traced st /\ gs_todo st = [].
Proof.
  destruct (graph_bounded_start frame) as [Hb Hm].
  assert (Hnn : 0 <= graph_bound by_addr callbacks hook).
  { destruct Hb as [_ [Hn Hk]]. pose proof (keys_bound _ Hn Hk).
    pose proof (foldr_max_nonneg (fun fn => Z.of_nat (length (call_sites fn)) * site_pushes by_addr callbacks) graph_functions).
    change (0 <= item_pushes by_addr callbacks hook) in H0. unfold graph_bound. nia. }
  destruct (run_loop_total step bounded_graph graph_measure (depth_for (graph_bound by_addr callbacks hook)) (start_graph root hook frame)) as [r Hr].
  - intros. by apply graph_bounded_step.
  - done.
  - pose proof (depth_for_enough _ Hnn). lia.
  - rewrite Hr. apply (run_loop_inv step traced (fun r => exists st, r = Some st /\ traced st /\ gs_todo st = [])) in Hr
      as (st & -> & Htr & Ht); [by exists st| | |apply start_traced].
    + intros. by eapply step_traced.
    + intros s r' Hs (st & -> & -> & ?)%step_end. by exists s.
Qed.

(** ** The report *)
Lemma elem_of_set_by {A B} `{EqDecision B} (key : A -> B) (x y : A) l : y ∈ set_by key x l -> y = x \/ y ∈ l.
Proof.
  induction l as [|z l IH]; simpl; [intros ->%list_elem_of_singleton; by left|].
  case_bool_decide; intros [->|Hin]%elem_of_cons; [by left|right; by right|right; by left|].
  destruct (IH Hin) as [->|?]; [by left|right; by right].
Qed.
Lemma set_by_id {A} `{EqDecision A} (x y : A) l : y ∈ set_by id x l <-> y = x \/ y ∈ l.
Proof.
  split; [apply elem_of_set_by|]. induction l as [|z l IH]; simpl; [intros [->|Hin]; [by left|by apply elem_of_nil in Hin]|].
  case_bool_decide as Hz; cbn [id] in Hz.
  - subst z. intros [->|[->|Hin]%elem_of_cons]; [by left|by left|by right].
  - intros [->|[->|Hin]%elem_of_cons]; [right; apply IH; by left|by left|right; apply IH; by right].
Qed.
Lemma unique_by_id {A} `{EqDecision A} (x : A) l : x ∈ unique_by id l <-> x ∈ l.
Proof.
  unfold unique_by. cut (forall d, x ∈ foldl (fun d x => set_by id x d) d l <-> x ∈ d \/ x ∈ l).
  { intros H. rewrite H. split; [by intros [?%elem_of_nil|?]|by right]. }
  induction l as [|y l IH]; intros d; cbn [foldl]; [|rewrite IH, set_by_id, elem_of_cons; tauto].
  split; [by left|by intros [?|?%elem_of_nil]].
Qed.
Lemma elem_of_exact_edges e l : e ∈ exact_edges l <-> e ∈ l /\ ce_resolution e = Exact.
Proof. unfold exact_edges. rewrite elem_of_filterb, bool_decide_eq_true. done. Qed.
End graph.

Section report.
Context (alnum : Z -> bool) (by_addr : functions) (by_name : option (list (string * Z))) (callbacks : list (string * list string))
  (rom : list (Z * rom_contract)) (root hook : function).
Abbreviation report := (analyze alnum by_addr by_name callbacks rom root hook).

Lemma report_state rep : report = Some rep -> exists st, traced by_addr by_name callbacks rom hook st /\ gs_todo st = []
  /\ (forall e, e ∈ gr_edges rep <-> e ∈ gs_edges st) /\ (forall n, n ∈ gs_unresolved st -> n ∈ gr_unresolved rep).
Proof.
  unfold analyze. destruct (analyze_frame_total root false) as [frame Hframe]. rewrite Hframe.
  destruct (traversal_ends alnum by_addr by_name callbacks rom root hook frame) as (st & Hst & Htr & Ht). cbn [mbind option_bind].
  rewrite Hst. cbn [mbind option_bind]. destruct (bound_notes _ _) as [notes bound] eqn:Hb. intros [= <-].
  exists st. split_and!; [done|done|intros; apply unique_by_id|]. intros n Hn. cbn [gr_unresolved]. apply elem_of_add_new. right.
  unfold bound_notes in Hb. destruct (gs_unresolved st) as [|n' l]; [by apply elem_of_nil in Hn|]. by injection Hb as <- <-.
Qed.

(** C36: the traversal of the call graph ends and a report is made for every listing:
    the bound on the iterations is never reached and no frame analysis fails. *)
Theorem call_graph_terminates : exists rep, analyze alnum by_addr by_name callbacks rom root hook = Some rep.
Proof.
  unfold analyze. destruct (analyze_frame_total root false) as [frame Hframe]. rewrite Hframe.
  destruct (traversal_ends alnum by_addr by_name callbacks rom root hook frame) as (st & Hst & _). cbn [mbind option_bind].
  rewrite Hst. cbn [mbind option_bind]. destruct (bound_notes _ _). by eexists.
Qed.

(** C16: an edge of the report is exact only when it is a call of a function reached
    from the hook; and when no recursive path is reported and reachable functions have
    distinct names, every call of every reachable function is reported: its targets as
    exact edges, and a call without a target as an unresolved observation, a call of a
    complete ROM contract apart. *)
Theorem call_graph_exact rep :
  report = Some rep ->
  (forall e, e ∈ gr_edges rep -> ce_resolution e = Exact ->
    exists fn context site, calls_from by_addr by_name callbacks hook fn context /\ site ∈ call_sites fn
      /\ e ∈ site_edges by_addr by_name callbacks fn context site)
  /\ ((forall name start, RecursivePath name start ∉ gr_unresolved rep) -> names_unique by_addr by_name callbacks hook ->
    forall fn context site, calls_from by_addr by_name callbacks hook fn context -> site ∈ call_sites fn ->
      (forall e, e ∈ site_edges by_addr by_name callbacks fn context site -> e ∈ gr_edges rep)
      /\ (site_targets by_addr by_name callbacks fn context site = [] ->
          match site.1.2 with
          | Some t => MissingLinked (call_key fn site.1.1) t ∈ gr_unresolved rep
              \/ IncompleteContract (call_key fn site.1.1) t ∈ gr_unresolved rep
              \/ exists contract, rom_at rom t = Some contract /\ rc_complete contract = true /\ is_Some (rc_stack contract)
          | None => UnresolvedIndirect (call_key fn site.1.1) ∈ gr_unresolved rep
              \/ exists name, CallbackMissing (call_key fn site.1.1) name ∈ gr_unresolved rep
          end)).
Proof.
  intros (st & Htr & Ht & He & Hn)%report_state. split.
  - intros e Hin Hex. apply (tr_edges _ _ _ _ _ _ Htr), elem_of_exact_edges. split; [by apply He|done].
  - intros Hrec Hu fn context site Hfn Hsite.
    destruct (traced_settled _ _ _ _ _ _ Htr Ht) with fn context site as (H1 & _ & H3); [|done..|].
    { intros (name & start & Hin). by apply (Hrec name start), Hn. }
    split; [intros e Hin; by apply He, (elem_of_exact_edges e _), H1|].
    intros Hnone. specialize (H3 Hnone). unfold accounted in H3. destruct site.1.2; naive_solver.
Qed.
End report.

(** ** The fixtures of the self tests *)
Definition plain_ins (address : Z) (mnemonic operands : string) (target : option Z) : instruction :=
  Instruction address mnemonic operands target (mnemonic +:+ " " +:+ operands) 4 None.
Definition sp_body (name : string) (start drop : Z) (inner : list (string * string * option Z)) : function :=
  let pc i := start + 4 * Z.of_nat i in
  let drop_text := pretty drop in
  Function_ name start (4 * (Z.of_nat (length inner) + 3))
    (plain_ins start "addi" ("sp,sp,-" +:+ drop_text) None
       :: imap (fun i m => plain_ins (pc (S i)) m.1.1 m.1.2 m.2) inner
       ++ [plain_ins (pc (S (length inner))) "addi" ("sp,sp," +:+ drop_text) None; plain_ins (pc (S (S (length inner)))) "ret" "" None]) [] [].
Definition nested_entry : function := sp_body "entry" 0x1000 12 [("jal", "ra,2000 # 2000", Some 0x2000)].
Definition nested_hook : function := sp_body "hook" 0x2000 12 [("jal", "ra,3000 # 3000", Some 0x3000); ("jalr", "a1", None)].
Definition nested_leaf : function := sp_body "nested" 0x3000 8 [].
Definition ascii_letters (c : Z) : bool := false.
Definition nested_functions : functions := [(0x1000, nested_entry); (0x2000, nested_hook); (0x3000, nested_leaf)].
Example nested_report :
  (fun r => (gr_edges r, gr_unresolved r)) <$> analyze ascii_letters nested_functions None [] [] nested_entry nested_hook =
  Some ([CallEdge "hook" 0x2004 (Site Call) (Named "nested") Exact],
        [FrameNote "entry" (LinkRegisterWrite 0x1004 "jal ra,2000 # 2000");
         FrameNote "hook" (LinkRegisterWrite 0x2004 "jal ra,3000 # 3000");
         FrameNote "hook" (Flow 0x2008 IndirectCall "jalr a1"); FrameNote "hook" (NoReturnPath 0x2000);
         UnresolvedIndirect "hook@0x2008"; SemanticsUnverified]).
Proof. vm_compute. reflexivity. Qed.

Lemma nested_calls fn context : calls_from nested_functions None [] nested_hook fn context ->
  (fn = nested_hook \/ fn = nested_leaf) /\ context = [].
Proof.
  induction 1 as [|fn context s target _ [[-> | ->] ->] Hs Ht]; [by split; [left|]| |].
  - replace (call_sites nested_hook) with [(plain_ins 0x2004 "jal" "ra,3000 # 3000" (Some 0x3000), Some 0x3000, Call);
      (plain_ins 0x2008 "jalr" "a1" None, None, Call)] in Hs by (vm_compute; reflexivity).
    apply elem_of_cons in Hs as [-> | ->%list_elem_of_singleton].
    + replace (site_targets _ _ _ _ _ _) with [(nested_leaf, Site Call)] in Ht by (vm_compute; reflexivity).
      apply list_elem_of_singleton in Ht as ->. split; [by right|vm_compute; reflexivity].
    + replace (site_targets _ _ _ _ _ _) with (@nil (function * edge_kind)) in Ht by (vm_compute; reflexivity).
      by apply elem_of_nil in Ht.
  - replace (call_sites nested_leaf) with (@nil (instruction * option Z * call_kind)) in Hs by (vm_compute; reflexivity).
    by apply elem_of_nil in Hs.
Qed.

Definition nested_result : option graph_report := Eval vm_compute in
  analyze ascii_letters nested_functions None [] [] nested_entry nested_hook.
(** The indirect call of the hook is reported. *)
Lemma call_graph_exact_witness :
  UnresolvedIndirect "hook@0x2008" ∈ default [] (gr_unresolved <$> nested_result)
  \/ exists name, CallbackMissing "hook@0x2008" name ∈ default [] (gr_unresolved <$> nested_result).
Proof.
  destruct nested_result as [rep|] eqn:E; [|discriminate E].
  refine (proj2 (proj2 (call_graph_exact ascii_letters nested_functions None [] [] nested_entry nested_hook rep _) _ _ nested_hook []
    (plain_ins 0x2008 "jalr" "a1" None, None, Call) _ _) _).
  - rewrite <- E. vm_compute. reflexivity.
  - intros name start Hin. revert E. unfold nested_result. intros [= <-]. cbn [gr_unresolved] in Hin.
    repeat (apply elem_of_cons in Hin as [Hin|Hin]; [discriminate Hin|]). by apply elem_of_nil in Hin.
  - intros f g c d [Hf _]%nested_calls [Hg _]%nested_calls. destruct Hf as [-> | ->], Hg as [-> | ->]; done.
  - apply calls_hook.
  - apply list_elem_of_lookup_2 with 1%nat. vm_compute. reflexivity.
  - vm_compute. reflexivity.
Defined.

(** A call of the function that is being visited is reported. *)
Definition recursive_leaf : function := sp_body "nested" 0x3000 8 [("jal", "ra,3000 # 3000", Some 0x3000)].
Example recursion_is_reported :
  (fun r => bool_decide (RecursivePath "nested" 0x3000 ∈ gr_unresolved r)) <$>
    analyze ascii_letters [(0x1000, nested_entry); (0x2000, nested_hook); (0x3000, recursive_leaf)] None [] [] nested_entry nested_hook
  = Some true.
Proof. vm_compute. reflexivity. Qed.

(** Two functions of one name, called by one function: only the one called last is
    analyzed, and the indirect call of the other is not reported. *)
Definition twin (start : Z) (inner : list (string * string * option Z)) : function := sp_body "twin" start 8 inner.
Definition twins_hook : function :=
  sp_body "hook" 0x2000 12 [("jal", "ra,3000 # 3000", Some 0x3000); ("jal", "ra,4000 # 4000", Some 0x4000)].
Example twins_are_visited_once :
  (fun r => (bool_decide (UnresolvedIndirect "twin@0x3004" ∈ gr_unresolved r), existsb (fun f => String.eqb f.1 "twin") (gr_frames r))) <$>
    analyze ascii_letters [(0x1000, nested_entry); (0x2000, twins_hook); (0x3000, twin 0x3000 [("jalr", "a1", None)]); (0x4000, twin 0x4000 [])]
      None [] [] nested_entry twins_hook
  = Some (false, true).
Proof. vm_compute. reflexivity. Qed.
