(* ===== verification/StackCommand.v ===== *)
(** * The command of the stack diagnostics

    [preflight_output_and_inputs], the readers and [main] of
    [Tools/EmbeddedApplicationMacros/first_init_stack.py] after [argparse]: the two
    parsers' results are data. SHA-256, the scanner of [json] and the printing of a
    report are parameters. *)
From S2P Require Import Prelude PyValue PyText PyRegex JsonDoc PyFiles PyInt Bytes Disassembly StackFrame CallbackTrace StackInputs LinkedInputs OutputFiles CallGraph.

(** ** Arguments *)
(** The occurrences of a file option for the tolerant parser: an option without a
    value is [None]. *)
Definition occurrences : Type := string -> list (option path).
Definition path_options : list string :=
  ["--elf"; "--map"; "--disassembly"; "--symbols"; "--build-config"; "--callbacks"; "--rom-contract"].
Definition preflight_output_and_inputs (values : occurrences) : option path * list path :=
  (mjoin (last (values "--out")), path_options ≫= fun option => omap id (values option)).

Record stack_arguments := StackArguments {
  sk_self_test : bool;
  sk_elf : list path;
  sk_map : list path;
  sk_disassembly : list path;
  sk_symbols : list path;
  sk_build_config : list path;
  sk_callbacks : list path;
  sk_rom_contract : list path;
  sk_entry : option string;
  sk_hook : option string;
  sk_begin : option string;
  sk_end : option string;
  sk_state_symbol : option string
}.
(** What the strict parser gives: [--help], a usage error, or the arguments and
    whether some were not recognized. *)
Inductive command := Help | BadUsage | Parsed (a : stack_arguments) (unknown : bool).

Inductive stack_error :=
  | OutputError (e : file_error)
  | Usage
  | Unrecognized
  | Required
  | CannotRead (label : string)
  | InvalidJson (label : string)
  | InvalidInput (e : input_error)
  | SymbolMissing.

(** [file.read_text()]: UTF-8 that decodes. *)
Definition decode_strict (bytes : list Z) : option string :=
  let text := decode_replace bytes in if bool_decide (string_bytes text = bytes) then Some text else None.
(** [s.split(sub)[0]] *)
Fixpoint before_text (sub s : string) : string :=
  match s with
  | EmptyString => EmptyString
  | String a s' => if String.prefix sub s then EmptyString else String a (before_text sub s')
  end.
(** The value of an option that [all(required)] accepts. *)
Definition named_option (o : option string) : option string :=
  match o with Some s => if String.eqb s "" then None else Some s | None => None end.

(** ** Callback evidence *)
(** A site of the contract: what was not proven, or the callback of a call. *)
Record callback_state := CallbackState { cb_unverified : list (string * Z); cb_callbacks : list (string * list string) }.

Section command.
Context `{FileSystem F} (alnum : Z -> bool) (sha256 : list Z -> string) (scan : string -> option jtree).

Definition read_bytes_input (label : string) (p : path) (f : F) : outcome stack_error (list Z) := asked (CannotRead label) (os_read f p).
Definition read_input (label : string) (p : path) (f : F) : outcome stack_error string :=
  bytes ← read_bytes_input label p f;
  match decode_strict bytes with Some text => Ok text | None => Raise (CannotRead label) end.
Definition read_json_input (label : string) (p : path) (f : F) : outcome stack_error pyval :=
  text ← read_input label p f;
  match scan text with Some t => Ok (loads t) | None => Raise (InvalidJson label) end.
(** [sha(path)], whose [OSError] nothing catches. *)
Definition sha (p : path) (f : F) : outcome stack_error string :=
  match os_read f p with Answer bytes => Ok (sha256 bytes) | _ => Crash OSError end.
Definition input_run {A} (m : irun A) : outcome stack_error A := map_error InvalidInput m.
Definition no_error {A} (m : trun A) : outcome stack_error A := map_error (fun e : Empty_set => match e with end) m.

Definition function_named (by_addr : functions) (by_name : list (string * Z)) (name : string) : option function :=
  start ← dict_get name by_name; fn_at start by_addr.

(** The call at [pc] goes to [swift_once], whether or not that is linked. *)
Definition calls_swift_once (by_addr : functions) (by_name : list (string * Z)) (ins : instruction) : bool :=
  bool_decide (ins_target ins = fn_start <$> function_named by_addr by_name "swift_once").

Definition callback_proven (by_addr : functions) (by_name : list (string * Z)) (caller callback_name : string) (pc callback_address : Z) :
    outcome stack_error bool :=
  match function_named by_addr by_name callback_name, function_named by_addr by_name caller with
  | Some actual, Some caller_fn =>
      match List.find (fun ins => ins_address ins =? pc) (fn_instructions caller_fn) with
      | Some call_ins =>
          if (fn_start actual =? callback_address) && calls_swift_once by_addr by_name call_ins
          then value ← no_error (callback_argument_value (fn_instructions caller_fn) pc "a1");
               Ok (bool_decide (value = Some callback_address))
          else Ok false
      | None => Ok false
      end
  | _, _ => Ok false
  end.

Definition text_item (k : string) (d : dict) : outcome stack_error string :=
  match dict_get k d with Some (PStr s) => Ok s | Some _ => Crash TypeError | None => Crash KeyError end.
Definition dict_item (k : string) (d : dict) : outcome stack_error dict :=
  match dict_get k d with Some (PDict d) => Ok d | Some _ => Crash TypeError | None => Crash KeyError end.

Definition callback_site (by_addr : functions) (by_name : list (string * Z)) (bound : bool) (st : callback_state) (indexed : nat * pyval) :
    outcome stack_error callback_state :=
  let '(index, raw_record) := indexed in
  let label := label_at "callback sites" in
  record ← (match raw_record with PDict d => Ok d | _ => Crash TypeError end);
  caller ← text_item "caller" record;
  pc ← (v ← item "callPc" record; input_run (parse_address v (label ".callPc" index)));
  callback ← dict_item "callback" record;
  callback_name ← text_item "symbol" callback;
  callback_address ← (v ← item "address" callback; input_run (parse_address v (label ".callback.address" index)));
  proven ← callback_proven by_addr by_name caller callback_name pc callback_address;
  Ok (if (proven : bool)
      then if bound
           then CallbackState (cb_unverified st) (dict_set (caller +:+ "@0x" +:+ hex_of pc) [callback_name] (cb_callbacks st)) else st
      else CallbackState (cb_unverified st ++ [(caller, pc)]) (cb_callbacks st)).

(** The callbacks of the contract and whether its digest is the image's. *)
Definition read_callbacks (by_addr : functions) (by_name : list (string * Z)) (digest : string) (contract : option path) (f : F) :
    outcome stack_error (callback_state * bool) :=
  match contract with
  | None => Ok (CallbackState [] [], true)
  | Some p =>
      value ← read_json_input "callback contract" p f;
      document ← input_run (validate_callback_contract value);
      bound ← (v ← item "elfSha256" document; Ok (py_eq v (PStr digest)));
      match dict_get "sites" document with
      | Some (PList sites) =>
          st ← fold_outcome (callback_site by_addr by_name bound) (CallbackState [] []) (enumerate sites);
          Ok (st, bound)
      | Some _ => Crash TypeError
      | None => Crash KeyError
      end
  end.

(** ** The report *)
Record state_evidence := StateEvidence { se_symbol : string; se_address : Z }.
(** The single symbol of the name, four bytes of zero-backed object without a lazy
    guard or accessor. *)
Definition state_evidence_of (elf_symbols : list image_symbol) (by_addr : functions) (state_symbol : string) : option state_evidence :=
  match List.filter (fun record => String.eqb (im_name record) state_symbol) elf_symbols with
  | [record] =>
      let guard := existsb (fun fn => contains (before_text "Vvp" state_symbol) (fn_name fn)
                                      && (contains "_Wz" (fn_name fn) || contains "_WZ" (fn_name fn))) (snd <$> by_addr) in
      if (im_type record =? 1) && (im_section_type record =? 8) && (im_size record =? 4) && negb guard
      then Some (StateEvidence (im_name record) (im_address record)) else None
  | _ => None
  end.

(** The symbols of the image, when it parses, and why the listings are not bound to it. *)
Definition bind_listings (elf_data : list Z) (symbols_text : string) (by_addr : functions) :
    outcome stack_error (list image_symbol * option binding_error) :=
  match elf32_riscv_image elf_data with
  | Ok (symbols, _) =>
      match validate_linked_inputs alnum elf_data symbols_text by_addr with
      | Ok _ => Ok (symbols, None)
      | Raise e => Ok (symbols, Some e)
      | Crash x => Crash x
      end
  | Raise e => Ok ([], Some e)
  | Crash x => Crash x
  end.

Inductive command_note :=
  | BindingFailed (e : binding_error) | DigestMismatch | CallbackUnproven (site : string * Z)
  | OrderUnproven | StateUnproven | StaleContracts.

Record stack_report := StackReport {
  sr_status : report_status;
  sr_graph : graph_report;
  sr_notes : list command_note;
  sr_hook_edge : option Z;           (* the address of the call of the hook *)
  sr_binding_error : option binding_error;
  sr_interval : interval_evidence;
  sr_state : option state_evidence;
  sr_hashes : list string;           (* elf, map, disassembly, symbols, build config *)
  sr_callbacks_sha : option string;
  sr_rom_sha : option string;
  sr_analyzer_sha : string;
  sr_idf_version : string;
  sr_stale : bool
}.

Definition optional_sha (p : option path) (f : F) : outcome stack_error (option string) :=
  match p with Some p => Some <$> sha p f | None => Ok None end.

(** The values that [all(required)] needs. *)
Record selected := Selected {
  in_elf : path; in_map : path; in_disassembly : path; in_symbols : path; in_build_config : path;
  in_entry : string; in_hook : string; in_begin : string; in_end : string; in_state : string; in_out : path
}.
Definition select (a : stack_arguments) (output : option path) : option selected :=
  elf ← last (sk_elf a); map_file ← last (sk_map a); disassembly ← last (sk_disassembly a); symbols ← last (sk_symbols a);
  build_config ← last (sk_build_config a);
  entry ← named_option (sk_entry a); hook ← named_option (sk_hook a); begin ← named_option (sk_begin a); finish ← named_option (sk_end a);
  state ← named_option (sk_state_symbol a); out ← output;
  Some (Selected elf map_file disassembly symbols build_config entry hook begin finish state out).
Definition selected_paths (s : selected) : list (string * path) :=
  [("elf", in_elf s); ("map", in_map s); ("disassembly", in_disassembly s); ("symbols", in_symbols s); ("buildConfig", in_build_config s)].

(** The [try] of [main] up to the writing of the report. *)
Definition stack_report_of (analyzer : path) (s : selected) (callbacks rom_contract : option path) (f : F) : outcome stack_error stack_report :=
  for_each (fun np => _ ← read_bytes_input np.1 np.2 f; Ok tt) (selected_paths s) ;;
  build_config ← (value ← read_json_input "build config" (in_build_config s) f; input_run (validate_build_config value));
  idf_version ← text_item "IDF_VERSION" build_config;
  symbols_text ← read_input "symbols" (in_symbols s) f;
  disassembly ← read_input "disassembly" (in_disassembly s) f;
  let '(declared, by_name) := parse_symbols alnum symbols_text in
  let by_addr := parse_disassembly alnum disassembly declared in
  let find name := function_named by_addr by_name name in
  match find (in_entry s), find (in_hook s), find (in_begin s), find (in_end s) with
  | Some root, Some hook, Some begin, Some finish =>
      let interval := trace_interval_evidence root (fn_start begin) (fn_start hook) (fn_start finish) in
      elf_digest ← sha (in_elf s) f;
      evidence ← read_callbacks by_addr by_name elf_digest callbacks f;
      let '(callback_state, bound) := evidence in
      rom_document ← (match rom_contract with
                      | Some p => value ← read_json_input "ROM contract" p f; input_run (validate_rom_contract value)
                      | None => Ok [("records", PList [])]
                      end);
      let '(_, stale_rom) := bind_rom_contracts rom_document in
      hashes ← map_outcome (fun np => sha np.2 f) (selected_paths s);
      match analyze alnum by_addr (Some by_name) (cb_callbacks callback_state) [] root hook with
      | None => Crash KeyError
      | Some graph =>
          elf_data ← read_bytes_input "ELF" (in_elf s) f;
          binding ← bind_listings elf_data symbols_text by_addr;
          let '(elf_symbols, binding_error) := binding in
          callbacks_sha ← optional_sha callbacks f;
          rom_sha ← optional_sha rom_contract f;
          let state := state_evidence_of elf_symbols by_addr (in_state s) in
          analyzer_sha ← sha analyzer f;
          Ok (StackReport (gr_status graph) graph
                ((match binding_error with Some e => [BindingFailed e] | None => [] end)
                 ++ unless bound DigestMismatch ++ (CallbackUnproven <$> cb_unverified callback_state)
                 ++ [OrderUnproven] ++ (match state with None => [StateUnproven] | Some _ => [] end)
                 ++ (if stale_rom then [StaleContracts] else []))
                (ie_hook interval) binding_error interval state hashes callbacks_sha rom_sha analyzer_sha idf_version stale_rom)
      end
  | _, _, _, _ => Raise SymbolMissing
  end.

(** ** [main] *)
Context (dumps : stack_report -> list Z).

Definition invalidate_preflight_output (values : occurrences) : io F stack_error unit :=
  let '(output, inputs) := preflight_output_and_inputs values in
  match output with Some output => map_io OutputError (preflight_output output inputs) | None => mret tt end.

Definition write_report (out : path) (report : stack_report) : io F stack_error Z :=
  map_io OutputError (write_report_atomic out (dumps report)) ;; mret (if bool_decide (sr_status report = PASS) then 0 else 2).

(** The value [main] returns; [Raise] is an error of [argparse]. *)
Definition stack_run (analyzer : path) (values : occurrences) (c : command) : io F stack_error Z :=
  match c with
  | Help => mret 0
  | BadUsage => invalidate_preflight_output values ;; pure (fun _ => Raise Usage)
  | Parsed a unknown =>
      if sk_self_test a then pure (fun _ => check (negb unknown) Unrecognized ;; Ok 0)
      else
        invalidate_preflight_output values ;;
        pure (fun _ => check (negb unknown) Unrecognized) ;;
        s ← pure (fun _ => match select a (preflight_output_and_inputs values).1 with Some s => Ok s | None => Raise Required end);
        report ← pure (stack_report_of analyzer s (last (sk_callbacks a)) (last (sk_rom_contract a)));
        write_report (in_out s) report
  end.
Definition stack_status (analyzer : path) (values : occurrences) (c : command) (f : F) : Z :=
  match (stack_run analyzer values c f).2 with Ok status => status | Raise _ => 2 | Crash _ => 1 end.
End command.
