(* ===== verification/StackCommandTheorems.v ===== *)
(** * The command of the stack diagnostics: its output file and its callbacks *)
From S2P Require Import Prelude PyValue PyText PyRegex JsonDoc PyFiles PyInt Bytes Disassembly Iterate StackFrame FrameTheorems CallbackTrace StackInputs LinkedInputs LinkedTheorems OutputFiles FlatFiles CallGraph CallGraphTheorems StackCommand.

Lemma analyze_status alnum by_addr by_name callbacks rom root hook rep :
  analyze alnum by_addr by_name callbacks rom root hook = Some rep -> gr_status rep = UNRESOLVED.
Proof.
  unfold analyze. destruct (analyze_frame _ _ _) as [frame|]; [|done]. cbn [mbind option_bind].
  destruct (run_loop _ _ _) as [[st|]|]; [|done..]. cbn [mbind option_bind]. destruct (bound_notes _ _). by intros [= <-].
Qed.

Section command.
Context `{FileSystemLaws F} (alnum : Z -> bool) (sha256 : list Z -> string) (scan : string -> option jtree) (dumps : stack_report -> list Z).
Abbreviation run := (stack_run alnum sha256 scan dumps).
Abbreviation report_of := (stack_report_of alnum sha256 scan).

Lemma report_status_unresolved analyzer s callbacks rom f report : report_of analyzer s callbacks rom f = Ok report -> sr_status report = UNRESOLVED.
Proof.
  unfold stack_report_of. intros (_ & _ & H1)%bind_Ok.
  repeat (apply bind_Ok in H1 as (? & _ & H1)). destruct (parse_symbols _ _) as [declared by_name].
  do 4 (match type of H1 with context [function_named ?a ?b ?n] => destruct (function_named a b n); [|done] end).
  apply bind_Ok in H1 as (? & _ & H1). apply bind_Ok in H1 as ([cbs bound] & _ & H1). apply bind_Ok in H1 as (? & _ & H1).
  destruct (bind_rom_contracts _) as [? stale]. apply bind_Ok in H1 as (? & _ & H1).
  destruct (analyze _ _ _ _ _ _ _) as [graph|] eqn:Eg; [|done]. apply analyze_status in Eg.
  apply bind_Ok in H1 as (? & _ & H1). apply bind_Ok in H1 as ([? ?] & _ & H1).
  do 3 apply bind_Ok in H1 as (? & _ & H1). by injection H1 as <-.
Qed.

(** ** The preflight *)
Lemma map_io_bind_fst {E E' A} (g : E -> E') (m : io F E A) f : (map_io g m f).1 = (m f).1.
Proof. unfold map_io. by destruct (m f). Qed.

Lemma reject_fails out inputs q f : q ∈ inputs -> paths_alias f out q = Ok true -> exists e, reject_output_aliases out inputs f = Raise e.
Proof.
  unfold reject_output_aliases. induction inputs as [|i inputs IH]; intros Hq Ha; [by apply elem_of_nil in Hq|]. cbn [for_each].
  apply elem_of_cons in Hq as [<-|Hq]; [rewrite Ha; by eexists|]. destruct (IH Hq Ha) as [e He].
  destruct (paths_alias f out i) as [[]|e'|x] eqn:E; [by eexists|rewrite He; by eexists|by eexists|].
  unfold paths_alias in E. destruct (os_resolve f out), (os_resolve f i); try done. destruct (bool_decide _); [done|]. by destruct (os_samefile f out i).
Qed.

(** C22: before the output of a run is removed it is compared with every input of the
    command line. When it is one of them, the run fails and nothing changes, neither an
    input nor an existing output; otherwise every input file reads as before, provided
    the output is not a link to a directory. *)
Theorem preflight_keeps_inputs values f out inputs :
  preflight_output_and_inputs values = (Some out, inputs) ->
  ((exists q, q ∈ inputs /\ paths_alias f out q = Ok true) ->
     exists e, invalidate_preflight_output values f = (f, Raise (OutputError e)))
  /\ (os_is_dir (os_make_directories (parent_of out) f).1 out = Answer false ->
     forall q c, q ∈ inputs -> os_read f q = Answer c -> os_read (invalidate_preflight_output values f).1 q = Answer c).
Proof.
  intros Hv. unfold invalidate_preflight_output. rewrite Hv. split.
  - intros (q & Hq & Ha). destruct (reject_fails _ _ _ _ Hq Ha) as [e He]. exists e.
    unfold map_io, preflight_output, mbind, io_bind, pure. by rewrite He.
  - intros Hdir q c Hq Hc. rewrite map_io_bind_fst. unfold preflight_output, mbind at 1, io_bind at 1, pure.
    destruct (reject_output_aliases out inputs f) as [u|e|x] eqn:Er; [|done|done].
    destruct (not_alias _ _ _ (reject_aliases_Ok _ _ _ _ Er q Hq)) as (x & y & Hx & Hy & Hxy).
    unfold invalidate_output, mbind, io_bind, pure.
    pose proof (read_directories (parent_of out) f q c Hc) as Hread.
    pose proof (resolve_directories (parent_of out) f out x Hx) as Hx'. pose proof (resolve_directories (parent_of out) f q y Hy) as Hy'.
    unfold os_try at 1. destruct (os_make_directories (parent_of out) f) as [f1 [u1| |]]; cbn [fst] in *; try done.
    rewrite Hdir. cbn [asked]. unfold outcome_bind.
    pose proof (unlink_other out f1 q x y Hdir Hx' Hy' Hxy) as Hun. rewrite os_try_fst. by rewrite Hun.
Qed.

(** C21: a run that gets past its preflight removes the prior output and, when it ends
    with a usage or input error or a traceback, leaves none: a stale report is never
    taken for the result of a failed run. A run that writes its report leaves the whole
    report, computed from the files as the preflight left them, and ends with 2: the
    diagnostics never accept. *)
Theorem failed_run_leaves_no_report analyzer values c f f1 f' r out inputs :
  preflight_output_and_inputs values = (Some out, inputs) ->
  match c with Help => False | BadUsage => True | Parsed a _ => sk_self_test a = false end ->
  invalidate_preflight_output values f = (f1, Ok tt) ->
  run analyzer values c f = (f', r) ->
  match r with
  | Ok status => status = 2 /\ exists a s report, c = Parsed a false /\ select a (Some out) = Some s
      /\ report_of analyzer s (last (sk_callbacks a)) (last (sk_rom_contract a)) f1 = Ok report /\ os_read f' out = Answer (dumps report)
  | _ => os_read f' out = Absent
  end.
Proof.
  intros Hv Hc Hpre. assert (Hgone : os_read f1 out = Absent).
  { revert Hpre. unfold invalidate_preflight_output. rewrite Hv. unfold map_io.
    destruct (preflight_output out inputs f) as [f2 [[]|e|x]] eqn:Ep; [|done..]. intros [= <-].
    apply io_bind_Ok in Ep as (f3 & u & [= <- _] & Ep). by eapply invalidate_gone. }
  unfold stack_run. destruct c as [| |a unknown]; [done| |].
  - unfold mbind, io_bind, pure. rewrite Hpre. by intros [= <- <-].
  - rewrite Hc, Hv. unfold mbind, io_bind, pure. rewrite Hpre. destruct unknown; [by intros [= <- <-]|]. cbn [check negb fst].
    destruct (select a (Some out)) as [s|] eqn:Es; [|by intros [= <- <-]].
    destruct (report_of analyzer s _ _ f1) as [report|e|x] eqn:Er; [|by intros [= <- <-]..].
    assert (Hout : in_out s = out).
    { revert Es. unfold select. repeat (match goal with |- context [mbind _ ?o] => destruct o; cbn [mbind option_bind]; [|done] end).
      by intros [= <-]. }
    unfold write_report, mbind, io_bind, map_io. rewrite Hout.
    destruct (write_report_atomic out (dumps report) f1) as [f2 w] eqn:Ew.
    pose proof (write_report_result _ _ _ _ _ Hgone Ew) as Hw.
    destruct w as [u|e|x]; cbn [map_error]; [|by intros [= <- <-]..]. intros [= <- <-].
    rewrite (report_status_unresolved _ _ _ _ _ _ Er). split; [done|]. by exists a, s, report.
Qed.

(** ** The callbacks of the contract *)
Definition proven_callback (by_addr : functions) (by_name : list (string * Z)) (key : string) (names : list string) : Prop :=
  exists caller pc name fn ins target,
    key = caller +:+ "@0x" +:+ hex_of pc /\ names = [name] /\ function_named by_addr by_name caller = Some fn
    /\ function_named by_addr by_name name = Some target /\ ins ∈ fn_instructions fn /\ ins_address ins = pc
    /\ ins_target ins = fn_start <$> function_named by_addr by_name "swift_once"
    /\ callback_argument_value (fn_instructions fn) pc "a1" = Ok (Some (fn_start target)).

Lemma callback_proven_inv by_addr by_name caller name pc address :
  callback_proven by_addr by_name caller name pc address = Ok true ->
  proven_callback by_addr by_name (caller +:+ "@0x" +:+ hex_of pc) [name].
Proof.
  unfold callback_proven. destruct (function_named by_addr by_name name) as [target|] eqn:Et; [|done].
  destruct (function_named by_addr by_name caller) as [fn|] eqn:Ec; [|done].
  destruct (List.find _ _) as [ins|] eqn:Ei; [|done]. apply find_some in Ei as [Hin Hpc%Z.eqb_eq].
  destruct (Z.eqb_spec (fn_start target) address) as [<-|]; [|done].
  destruct (calls_swift_once by_addr by_name ins) eqn:Es; [|done]. apply bool_decide_eq_true in Es. simpl.
  unfold no_error. intros (value & Hv & [= ->%bool_decide_eq_true])%bind_Ok. apply map_error_Ok in Hv.
  exists caller, pc, name, fn, ins, target. split_and!; try done. by apply list_elem_of_In.
Qed.

Lemma callback_site_inv by_addr by_name bound st indexed st' :
  callback_site by_addr by_name bound st indexed = Ok st' ->
  (forall key names, (key, names) ∈ cb_callbacks st -> bound = true /\ proven_callback by_addr by_name key names) ->
  forall key names, (key, names) ∈ cb_callbacks st' -> bound = true /\ proven_callback by_addr by_name key names.
Proof.
  destruct indexed as [index raw]. unfold callback_site. intros Hst Hinv key names.
  apply bind_Ok in Hst as (record & _ & Hst). apply bind_Ok in Hst as (caller & _ & Hst). apply bind_Ok in Hst as (pc & _ & Hst).
  apply bind_Ok in Hst as (callback & _ & Hst). apply bind_Ok in Hst as (name & _ & Hst). apply bind_Ok in Hst as (address & _ & Hst).
  apply bind_Ok in Hst as (proven & Hp & Hst). injection Hst as <-.
  destruct proven; [|apply Hinv]. destruct bound eqn:Eb; [|apply Hinv]. cbn [cb_callbacks]. intros [[= -> ->]|Hin]%elem_of_dict_set; [|by apply Hinv].
  split; [done|]. by eapply callback_proven_inv.
Qed.

Lemma read_callbacks_inv by_addr by_name digest contract f st bound :
  read_callbacks scan by_addr by_name digest contract f = Ok (st, bound) ->
  forall key names, (key, names) ∈ cb_callbacks st -> bound = true /\ proven_callback by_addr by_name key names.
Proof.
  unfold read_callbacks. destruct contract as [p|]; [|by intros [= <- <-] ? ? ?%elem_of_nil].
  intros (value & _ & Hst)%bind_Ok. apply bind_Ok in Hst as (document & _ & Hst). apply bind_Ok in Hst as (b & _ & Hst).
  destruct (dict_get "sites" document) as [[]|]; try done. apply bind_Ok in Hst as (st' & Hfold & [= <- <-]).
  eapply (fold_outcome_inv (fun st => forall key names, (key, names) ∈ cb_callbacks st -> b = true /\ proven_callback by_addr by_name key names));
    [exact Hfold|by intros ? ? ?%elem_of_nil|].
  intros st1 indexed st2 _ H1 H2. by eapply callback_site_inv.
Qed.

Lemma calls_from_context by_addr by_name callbacks hook fn context :
  calls_from by_addr by_name callbacks hook fn context -> context ∈ contexts callbacks.
Proof.
  induction 1 as [|fn context s target _ IH]; [by left|]. by apply target_context_contexts, site_names_contexts.
Qed.

(** A callback target comes from a list of the callbacks. *)
Lemma callback_edge_names by_addr by_name callbacks fn context s e :
  context ∈ contexts callbacks -> e ∈ site_edges by_addr by_name callbacks fn context s -> ce_kind e = CallbackEdge ->
  exists names name target, names ∈ snd <$> callbacks /\ name ∈ names /\ target ∈ candidates by_addr by_name name
    /\ ce_target e = Named (fn_name target).
Proof.
  intros Hc (target & -> & Ht)%list_elem_of_fmap Hk. simpl in Hk.
  assert (Hin : target ∈ callback_of by_addr by_name (site_names callbacks fn context s)).
  { revert Ht. unfold site_targets. destruct s.1.2 as [t|]; [|done]. destruct (fn_at t by_addr) as [callee|]; [|by intros ?%elem_of_nil].
    intros [->|?]%elem_of_cons; [done|done]. }
  unfold callback_of in Hin. apply list_elem_of_bind in Hin as (name & (g & -> & Hg)%list_elem_of_fmap & Hname).
  pose proof (site_names_contexts callbacks fn context s Hc) as Hn. unfold contexts in Hn.
  apply elem_of_cons in Hn as [Hn|Hn]; [rewrite Hn in Hname; by apply elem_of_nil in Hname|].
  by exists (site_names callbacks fn context s), name, g.
Qed.

(** The graph of a report, and the listings it is made from. *)
Lemma report_graph analyzer s callbacks rom f report : report_of analyzer s callbacks rom f = Ok report ->
  exists symbols_text disassembly by_addr by_name root hook st bound,
    read_input "symbols" (in_symbols s) f = Ok symbols_text /\ read_input "disassembly" (in_disassembly s) f = Ok disassembly
    /\ by_name = (parse_symbols alnum symbols_text).2 /\ by_addr = parse_disassembly alnum disassembly (parse_symbols alnum symbols_text).1
    /\ read_callbacks scan by_addr by_name (sha256 (default [] (match os_read f (in_elf s) with Answer b => Some b | _ => None end))) callbacks f = Ok (st, bound)
    /\ analyze alnum by_addr (Some by_name) (cb_callbacks st) [] root hook = Some (sr_graph report).
Proof.
  unfold stack_report_of. intros (_ & _ & H1)%bind_Ok.
  do 2 apply bind_Ok in H1 as (? & _ & H1). apply bind_Ok in H1 as (symbols_text & Hsym & H1). apply bind_Ok in H1 as (disassembly & Hdis & H1).
  destruct (parse_symbols _ _) as [declared by_name] eqn:Ep.
  set (by_addr := parse_disassembly alnum disassembly declared) in H1.
  match type of H1 with context [function_named ?a ?b (in_entry s)] => destruct (function_named a b (in_entry s)) as [root|]; [|done] end.
  match type of H1 with context [function_named ?a ?b (in_hook s)] => destruct (function_named a b (in_hook s)) as [hook|]; [|done] end.
  do 2 (match type of H1 with context [function_named ?a ?b ?n] => destruct (function_named a b n); [|done] end).
  apply bind_Ok in H1 as (digest & Hd & H1). apply bind_Ok in H1 as ([st bound] & Hcb & H1). apply bind_Ok in H1 as (? & _ & H1).
  destruct (bind_rom_contracts _) as [? stale]. apply bind_Ok in H1 as (? & _ & H1).
  destruct (analyze _ _ _ _ _ _ _) as [graph|] eqn:Eg; [|done].
  apply bind_Ok in H1 as (? & _ & H1). apply bind_Ok in H1 as ([? ?] & _ & H1).
  do 3 apply bind_Ok in H1 as (? & _ & H1). injection H1 as <-.
  exists symbols_text, disassembly, by_addr, by_name, root, hook, st, bound. rewrite Ep. split_and!; try done.
  unfold sha in Hd. destruct (os_read f (in_elf s)) as [bytes| |]; [|done..]. by injection Hd as <-.
Qed.

End command.




(** ** Concrete runs *)
Definition at_path (name : string) : path := path_of ("/w/" +:+ name).
Definition run_files (symbols : string) : flat := fun p => snd <$> List.find (fun kv => bool_decide (at_path kv.1 = p))
  [("elf", one_function_elf); ("map", []); ("dis", string_bytes one_function_text); ("sym", string_bytes symbols);
   ("config", [0x7B; 0x7D]); ("tool", [1]); ("report", [0xFF])].
Definition run_occurrences (out : string) : occurrences := fun option =>
  match dict_get option [("--elf", "elf"); ("--map", "map"); ("--disassembly", "dis"); ("--symbols", "sym"); ("--build-config", "config"); ("--out", out)] with
  | Some name => [Some (at_path name)]
  | None => []
  end.
Definition run_arguments (state : string) : stack_arguments :=
  StackArguments false [at_path "elf"] [at_path "map"] [at_path "dis"] [at_path "sym"] [at_path "config"] [] []
    (Some "f") (Some "f") (Some "f") (Some "f") (Some state).
Definition no_sha (bytes : list Z) : string := "".
Definition scan_config (text : string) : option jtree := Some (JObject [("IDF_VERSION", JStr "5.4.0")]).
Definition dump_notes (r : stack_report) : list Z := [Z.of_nat (length (sr_notes r)); Z.of_nat (length (gr_unresolved (sr_graph r)))].
Abbreviation run_once := (stack_run ascii_only no_sha scan_config dump_notes (at_path "tool")).

(** The report replaces the file that was there. *)
Example run_writes_report :
  let r := run_once (run_occurrences "report") (Parsed (run_arguments "state") false) (run_files one_function_listing) in
  (r.2, r.1 (at_path "report")) = (Ok 2, Some [2; 3]).
Proof. vm_compute. reflexivity. Qed.
(** An output that is an input changes nothing. *)
Example run_refuses_alias :
  let r := run_once (run_occurrences "elf") (Parsed (run_arguments "state") false) (run_files one_function_listing) in
  (r.2, r.1 (at_path "report"), bool_decide (r.1 (at_path "elf") = Some one_function_elf)) =
  (Raise (OutputError (OutputAliases (at_path "elf") (at_path "elf"))), Some [0xFF], true).
Proof. vm_compute. reflexivity. Qed.

Definition run_before : flat := (invalidate_preflight_output (run_occurrences "report") (run_files one_function_listing)).1.
Lemma run_before_Ok : invalidate_preflight_output (run_occurrences "report") (run_files one_function_listing) = (run_before, Ok tt).
Proof. reflexivity. Qed.
Lemma run_occurrences_report : preflight_output_and_inputs (run_occurrences "report") =
  (Some (at_path "report"), at_path <$> ["elf"; "map"; "dis"; "sym"; "config"]).
Proof. reflexivity. Qed.
Lemma failed_run_leaves_no_report_witness : exists f' r,
  run_once (run_occurrences "report") (Parsed (run_arguments "state") false) (run_files one_function_listing) = (f', r)
  /\ (r = Ok 2 -> exists bytes, os_read f' (at_path "report") = Answer bytes).
Proof.
  destruct (run_once (run_occurrences "report") (Parsed (run_arguments "state") false) (run_files one_function_listing)) as [f' r] eqn:Er.
  exists f', r. split; [exact eq_refl|]. intros ->.
  destruct (failed_run_leaves_no_report ascii_only no_sha scan_config dump_notes (at_path "tool") (run_occurrences "report")
    (Parsed (run_arguments "state") false) (run_files one_function_listing) run_before f' (Ok 2) (at_path "report") _
    run_occurrences_report eq_refl run_before_Ok Er) as (_ & a & s & report & _ & _ & _ & Hread).
  exists (dump_notes report). exact Hread.
Defined.

Lemma flat_not_dir (f : flat) p : os_is_dir f p = Answer false.
Proof. reflexivity. Qed.
Lemma preflight_keeps_inputs_witness :
  (exists e, invalidate_preflight_output (run_occurrences "elf") (run_files one_function_listing) = (run_files one_function_listing, Raise (OutputError e)))
  /\ os_read run_before (at_path "sym") = Answer (string_bytes one_function_listing).
Proof.
  split.
  - apply (preflight_keeps_inputs (run_occurrences "elf") (run_files one_function_listing) (at_path "elf")
      (preflight_output_and_inputs (run_occurrences "elf")).2); [reflexivity|].
    exists (at_path "elf"). split; [by left|vm_compute; reflexivity].
  - apply (proj2 (preflight_keeps_inputs (run_occurrences "report") (run_files one_function_listing) (at_path "report")
      _ run_occurrences_report) (flat_not_dir _ _) (at_path "sym")).
    + apply list_elem_of_lookup_2 with 3%nat. reflexivity.
    + vm_compute. reflexivity.
Defined.

(** ** A callback that is proven *)
Definition lines (l : list string) : string := foldr (fun line rest => line +:+ newline_text +:+ rest) "" l.
Definition callback_files : flat := fun p => snd <$> List.find (fun kv => bool_decide (at_path kv.1 = p))
  [("elf", [1]); ("map", []); ("config", string_bytes "config"); ("contract", string_bytes "contract"); ("tool", [1]);
   ("sym", string_bytes (lines ["00001000 00000004 T entry"; "00002000 0000000c T hook"; "00003000 00000008 T swift_once"; "00004000 00000004 T cb"]));
   ("dis", string_bytes (lines ["1000: 00008067 ret"; "2000: 000045b7 lui a1,0x4"; "2004: 7fd000ef jal ra,3000 <swift_once>"; "2008: 00008067 ret";
      "3000: 000580e7 jalr a1"; "3004: 00008067 ret"; "4000: 00008067 ret"]))].
Definition callback_contract : jtree := JObject [("elfSha256", JStr "digest"); ("sites", JArray [JObject [("caller", JStr "hook"); ("callPc", JStr "0x2004");
  ("callback", JObject [("symbol", JStr "cb"); ("address", JStr "0x4000")])]])].
Definition scan_callback (text : string) : option jtree :=
  if String.eqb text "contract" then Some callback_contract else scan_config text.
Definition callback_selected : selected :=
  Selected (at_path "elf") (at_path "map") (at_path "dis") (at_path "sym") (at_path "config") "entry" "hook" "entry" "entry" "state" (at_path "out").
Definition callback_digest (bytes : list Z) : string := "digest".
Abbreviation callback_run :=
  (stack_report_of ascii_only callback_digest scan_callback (at_path "tool") callback_selected (Some (at_path "contract")) None callback_files).
Definition callback_edge : call_edge := CallEdge "hook" 0x2004 CallbackEdge (Named "cb") Exact.
Example callback_run_edges :
  match callback_run with
  | Ok r => (bool_decide (callback_edge ∈ gr_edges (sr_graph r)), sr_notes r)
  | _ => (false, [])
  end = (true, [BindingFailed NotElf32; OrderUnproven; StateUnproven]).
Proof. vm_compute. reflexivity. Qed.

Lemma callback_run_reports : exists report, callback_run = Ok report /\ callback_edge ∈ gr_edges (sr_graph report).
Proof.
  generalize callback_run_edges. destruct callback_run as [report|e|x]; [|intros Hb; discriminate Hb..].
  intros Hb. exists report. split; [reflexivity|]. injection Hb as Hb _. exact (proj1 (bool_decide_eq_true _) Hb).
Qed.
