(* ===== verification/ProgramTypes.v ===== *)
(** * The linked program is well formed, and its lookups keep it so *)
From S2P Require Import Prelude PyValue PyText PyRegex PyFiles PyInt Bytes Disassembly DisassemblyTheorems StackFrame LinkedInputs Interval Program Iterate Engine ProgramTheorems Rv32 EngineTheorems.

(** ** The functions of a listing *)
Definition fresh_functions (fs : functions) : Prop := forall kv, kv ∈ fs -> fn_instructions kv.2 = [].
Definition contained (fn : function) : Prop := forall ins, ins ∈ fn_instructions fn -> fn_start fn <= ins_address ins < fn_end fn.

Lemma attach_typed decoded by_addr : keyed by_addr -> fresh_functions by_addr ->
  keyed (attach decoded by_addr) /\ forall kv, kv ∈ attach decoded by_addr -> contained kv.2.
Proof.
  intros Hk Hf. rewrite attach_swept by done. destruct Hk as [Hn Hs]. unfold attach_reference. split; [split|].
  - rewrite <- list_fmap_compose. by erewrite list_fmap_ext; [exact Hn|].
  - intros k fn ([k' g] & [= -> ->] & Hin)%list_elem_of_fmap. simpl. by apply Hs.
  - intros kv ([k g] & -> & Hin)%list_elem_of_fmap ins. pose proof (Hf _ Hin) as E. simpl in *. rewrite E.
    intros [Hi _]%elem_of_sort_by%elem_of_filterb%and_comm. unfold in_extent in Hi. unfold fn_end in *. simpl. lia.
Qed.
Lemma parsed_typed alnum symbols text : let parsed := parse_disassembly alnum text (parse_symbols alnum symbols).1 in
  keyed parsed /\ forall kv, kv ∈ parsed -> contained kv.2.
Proof. apply attach_typed; [apply parse_symbols_keyed|]. intros [k fn] Hin. by apply parse_symbols_fresh in Hin. Qed.

(** ** Well-formed programs *)
Record well_formed (p : program) : Prop := {
  wf_distinct : NoDup (pr_functions p).*1;
  wf_functions : forall kv, kv ∈ pr_functions p -> fn_start kv.2 = kv.1 /\ contained kv.2;
  wf_table : forall a ins, pr_instructions p !! a = Some ins -> ins_address ins = a;
  wf_owners : forall a fn, pr_owners p !! a = Some fn -> (fn_start fn, fn) ∈ pr_functions p /\ (fn_start fn = a \/ covers_address a fn = true)
}.

Lemma fn_set_keys a fn fs : NoDup fs.*1 -> NoDup (fn_set a fn fs).*1 /\ forall k, k ∈ (fn_set a fn fs).*1 <-> k = a \/ k ∈ fs.*1.
Proof.
  unfold fn_set. induction fs as [|[k f] fs IH]; simpl; intros Hn.
  - split; [apply NoDup_singleton|]. intros k. rewrite list_elem_of_singleton. set_solver.
  - apply NoDup_cons in Hn as [Hk Hn]. destruct (Z.eqb_spec k a) as [->|Hka]; simpl.
    + split; [by constructor|]. set_solver.
    + destruct (IH Hn) as [Hd He]. split; [constructor; [|done]; rewrite He; naive_solver|]. intros j. rewrite elem_of_cons, He. set_solver.
Qed.
Lemma elem_of_fn_set_new a fn fs : (a, fn) ∈ fn_set a fn fs.
Proof. unfold fn_set. induction fs as [|[k f] fs IH]; simpl; [by left|]. destruct (Z.eqb_spec k a) as [->|]; [by left|by right]. Qed.
Lemma elem_of_fn_set_old a fn fs kv : kv ∈ fs -> kv.1 <> a -> kv ∈ fn_set a fn fs.
Proof.
  unfold fn_set. induction fs as [|[k f] fs IH]; simpl; intros Hin Hne; [by apply elem_of_nil in Hin|]. apply elem_of_cons in Hin as [->|Hin]; simpl in Hne.
  - destruct (Z.eqb_spec k a); [done|by left].
  - destruct (Z.eqb_spec k a); right; [done|by apply IH].
Qed.

Lemma known_owner_elem p a fn : well_formed p -> known_owner p a = Some fn ->
  (fn_start fn, fn) ∈ pr_functions p /\ (fn_start fn = a \/ covers_address a fn = true).
Proof.
  intros Hp. unfold known_owner. destruct (fn_at a (pr_functions p)) as [f|] eqn:E; [|apply (wf_owners _ Hp)].
  intros [= ->]. apply fn_at_elem in E. destruct (wf_functions _ Hp _ E) as [Hs _]. simpl in Hs. rewrite Hs. split; [done|by left].
Qed.

Section typed.
Context (alnum : Z -> bool) (sha256 : list Z -> string).

Lemma validate_owner_typed p a fn fn' q : well_formed p -> (fn_start fn, fn) ∈ pr_functions p ->
  (fn_start fn = a \/ covers_address a fn = true) -> validate_owner alnum a fn p = Ok (fn', q) ->
  well_formed q /\ fn' = fn /\ (fn_start fn, fn) ∈ pr_functions q.
Proof.
  intros Hp Hin Hcov Hv. pose proof (validate_owner_code _ _ _ _ _ _ Hv) as (Hi & _ & Hf & _ & ->).
  rewrite Hf. split_and!; [|done|done]. destruct Hp as [Hd Hfs Ht Ho]. split; rewrite ?Hi, ?Hf; try done.
  intros b g. unfold validate_owner in Hv. apply bind_Ok in Hv as (p1 & Hp1 & [= <-]). simpl.
  assert (Howners : pr_owners p1 = pr_owners p).
  { case_bool_decide; [by injection Hp1 as <-|]. destruct (pr_origins p !! _); [|done]. by apply bind_Ok in Hp1 as (_ & _ & [= <-]). }
  rewrite Howners. intros [[<- <-]|[_ Hb]]%lookup_insert_Some; [done|by apply Ho].
Qed.

Lemma install_typed p a fn : well_formed p -> known_owner p a = None -> fn_start fn = a -> contained fn ->
  well_formed (install a fn p).2 /\ (a, fn) ∈ pr_functions (install a fn p).2.
Proof.
  intros [Hd Hfs Ht Ho] Hknown Hs Hc. simpl. split; [|apply elem_of_fn_set_new]. split; simpl; [by apply fn_set_keys| |done|].
  - intros kv [->|Hin]%elem_of_fn_set; [done|by apply Hfs].
  - intros b g Hb. destruct (Ho _ _ Hb) as [Hin Hcov]. split; [|done]. apply elem_of_fn_set_old; [done|]. simpl. intros Heq.
    unfold known_owner in Hknown. destruct (fn_at a (pr_functions p)) eqn:E; [done|].
    assert (Hnot : forall fs fn', (a, fn') ∈ fs -> fn_at a fs <> None).
    { clear. intros fs fn' Hin. unfold fn_at. induction fs as [|[k f] fs IH]; [by apply elem_of_nil in Hin|]. simpl.
      apply elem_of_cons in Hin as [[= -> ->]|Hin]; [by rewrite Z.eqb_refl|]. destruct (k =? a); [done|by apply IH]. }
    apply (Hnot (pr_functions p) g); [by rewrite <- Heq|done].
Qed.

Lemma vector_contained p a fn : well_formed p -> vector_at p a = Ok (Some fn) -> contained fn.
Proof.
  intros Hp. unfold vector_at. destruct (pr_instructions p !! a) as [ins|] eqn:E; [|done]. destruct (_ && _); [|done].
  destruct (raw_at p a 4) as [|? []]; [done| |done]. intros (? & _ & Hv)%bind_Ok. case_bool_decide; [|done]. injection Hv as <-.
  intros i Hi. simpl in Hi. apply list_elem_of_singleton in Hi as ->. rewrite (wf_table _ Hp _ _ E). unfold fn_end. simpl. lia.
Qed.
Lemma anonymous_contained p a fn : well_formed p -> anonymous_at p a = Ok fn -> contained fn.
Proof.
  intros Hp. unfold anonymous_at. intros (? & _ & (_ & _ & [= <-])%bind_Ok)%bind_Ok. intros i Hi. simpl in Hi.
  apply list_elem_of_omap in Hi as (pc & Hpc & E). rewrite (wf_table _ Hp _ _ E). apply elem_of_sort_by, elem_of_filterb in Hpc as [_ Hpc].
  unfold fn_end. simpl. lia.
Qed.

Lemma smallest_elem l best : smallest best l ∈ best :: l.
Proof.
  revert best. induction l as [|fn l IH]; intros best; simpl; [by left|].
  pose proof (IH (if fn_size fn <? fn_size best then fn else best)) as Hin. destruct (_ <? _); set_solver.
Qed.

Lemma function_at_typed p a fn q : well_formed p -> function_at alnum p a = Ok (fn, q) ->
  well_formed q /\ (fn_start fn, fn) ∈ pr_functions q /\ (fn_start fn = a \/ covers_address a fn = true) /\ contained fn.
Proof.
  intros Hp Hf. cut (well_formed q /\ (fn_start fn, fn) ∈ pr_functions q /\ (fn_start fn = a \/ covers_address a fn = true)).
  { intros (Hq & Hin & Hcov). split_and!; [done..|]. exact (proj2 (wf_functions _ Hq _ Hin)). }
  revert Hf. unfold function_at. destruct (known_owner p a) as [f|] eqn:Hknown.
  { destruct (known_owner_elem _ _ _ Hp Hknown) as [Hin Hcov]. intros (Hq & -> & Hin')%validate_owner_typed; done. }
  destruct (List.filter _ _) as [|f fs] eqn:Hfilter.
  - intros (vector & Hv & Hf)%bind_Ok. destruct vector as [f|].
    + injection Hf as <- <-. pose proof (vector_start _ _ _ Hv) as Hs.
      destruct (install_typed p a f Hp Hknown Hs (vector_contained _ _ _ Hp Hv)) as [Hq Hin]. rewrite Hs. by split_and!; [| |left].
    + destruct (_ && _); [|done]. apply bind_Ok in Hf as (f & Hanon & [= <- <-]). pose proof (anonymous_start _ _ _ Hanon) as Hs.
      destruct (install_typed p a f Hp Hknown Hs (anonymous_contained _ _ _ Hp Hanon)) as [Hq Hin]. rewrite Hs. by split_and!; [| |left].
  - assert (Hin : smallest f fs ∈ List.filter (covers_address a) (snd <$> pr_functions p)) by (rewrite Hfilter; apply smallest_elem).
    apply elem_of_filterb in Hin as [([k g] & Hg & Hin)%list_elem_of_fmap Hcov]. simpl in Hg.
    destruct (wf_functions _ Hp _ Hin) as [Hs _]. simpl in Hs. rewrite <- Hs, <- Hg in Hin.
    intros (Hq & -> & Hin')%validate_owner_typed; [by split_and!; [| |right]|done|done|by right].
Qed.

(** ** Loading *)
Lemma table_insert (m : gmap Z instruction) ins : (forall a i, m !! a = Some i -> ins_address i = a) ->
  forall a i, <[ins_address ins := ins]> m !! a = Some i -> ins_address i = a.
Proof. intros Hm a i [[<- <-]|[_ Hi]]%lookup_insert_Some; [done|by apply Hm]. Qed.

Lemma add_function_typed o p entry q : well_formed p -> pr_owners p = ∅ -> fn_start entry.2 = entry.1 -> contained entry.2 ->
  add_function o p entry = Ok q -> well_formed q /\ pr_owners q = ∅.
Proof.
  intros [Hd Hfs Ht Ho] Hempty Hs Hc. unfold add_function. intros (table & Htable & [= <-])%bind_Ok. split; [|done].
  split; simpl; [by apply fn_set_keys| | |by rewrite Hempty].
  - intros kv [->|Hin]%elem_of_fn_set; [done|by apply Hfs].
  - eapply (fold_outcome_inv (fun m : gmap Z instruction => forall a i, m !! a = Some i -> ins_address i = a)); [exact Htable|exact Ht|].
    intros m ins m' _ Hm. unfold default_instruction. destruct (m !! _); [by intros (_ & _ & [= <-])%bind_Ok|]. intros [= <-]. by apply table_insert.
Qed.

Lemma load_program_typed firmware firmware_text rom rom_text p :
  load_program alnum sha256 firmware firmware_text rom rom_text = Ok p -> well_formed p.
Proof.
  unfold load_program. intros (_ & _ & Hp)%bind_Ok. cut (well_formed p /\ pr_owners p = ∅); [by intros []|].
  eapply (fold_outcome_inv (fun p => well_formed p /\ pr_owners p = ∅)); [exact Hp| |].
  { split; [|done]. split; simpl; [apply NoDup_nil_2|intros kv Hin; by apply elem_of_nil in Hin|done|done]. }
  intros p1 [[name data] text] p2 _ [[Hd Hfs Ht Ho] Hempty] Hstep. unfold load_origin in Hstep. apply bind_Ok in Hstep as ([rows executables] & _ & Hstep).
  apply bind_Ok in Hstep as (_ & _ & Hstep). apply bind_Ok in Hstep as (sections & _ & Hstep).
  pose proof (parsed_typed alnum (join_with newline_text (symbol_text_line <$> List.filter (is_function executables) rows)) text) as Hparsed.
  destruct (parse_symbols _ _) as [by_addr by_name]. cbn [fst] in *. destruct Hparsed as [[_ Hk] Hc]. apply bind_Ok in Hstep as (p3 & H3 & [= <-]).
  cut (well_formed p3 /\ pr_owners p3 = ∅); [intros [[? ? ? ?] ?]; split; [by split|done]|].
  eapply (fold_outcome_inv (fun p => well_formed p /\ pr_owners p = ∅)); [exact H3| |].
  - split; [|done]. split; simpl; [done|done| |by rewrite Hempty]. generalize (executables ≫= section_instructions alnum text name). intros l.
    clear - Ht. revert Ht. generalize (pr_instructions p1). induction l as [|ins l IH]; intros m Hm; [exact Hm|]. apply IH. by apply table_insert.
  - intros a [k fn] b Hin [Ha He] Hadd. eapply add_function_typed; [exact Ha|exact He| |by apply (Hc _ Hin)|exact Hadd]. symmetry. by apply Hk.
Qed.

(** The programs that the engine can make of one by looking functions up. *)
Inductive looked_up (p : program) : program -> Prop :=
  | looked_up_start : looked_up p p
  | looked_up_next q a fn r : looked_up p q -> function_at alnum q a = Ok (fn, r) -> looked_up p r.
Lemma looked_up_typed p q : well_formed p -> looked_up p q -> well_formed q.
Proof. intros Hp. induction 1 as [|q a fn r _ IH Hf]; [done|]. by apply function_at_typed in Hf as [? _]. Qed.

(** C19: a loaded program is well formed, whatever its images and listings hold, and it
    stays so: after any sequence of lookups the functions have distinct keys, their
    starts, every body lies in the extent of its function, every instruction of the
    table is under its own address, and every owner is a function of the program that
    starts at or covers the address it owns. So is the function that a lookup finds, be
    it a symbol, a ROM vector or an anonymous helper. *)
Theorem lookups_well_typed firmware firmware_text rom rom_text p q a fn r :
  load_program alnum sha256 firmware firmware_text rom rom_text = Ok p -> looked_up p q -> function_at alnum q a = Ok (fn, r) ->
  well_formed q /\ well_formed r /\ (fn_start fn, fn) ∈ pr_functions r /\ (fn_start fn = a \/ covers_address a fn = true) /\ contained fn.
Proof.
  intros Hp%load_program_typed Hq Hf. pose proof (looked_up_typed _ _ Hp Hq) as Ht. split; [done|]. by apply (function_at_typed q).
Qed.
End typed.
