(* ===== verification/InitFixture.v ===== *)
(** * A small firmware whose first initialization is accepted *)
From S2P Require Import Prelude PyValue PyText PyRegex PyFiles PyInt Bytes Disassembly StackFrame LinkedInputs Interval Program Iterate Engine IntervalFixture InitProof.

Definition firmware_listing : list (string * Z * Z * list string) := [
  ("esp_startup_start_app", 0x100, 14,
    ["100: 00000537 lui x10, 0x0"; "104: 20050513 addi x10, x10, 0x200"; "108: 6605 c.lui x12, 0x2"; "10a: 0f6000ef jal x1, 0x180 <c>"]);
  ("xTaskCreatePinnedToCore", 0x180, 2, ["180: 8082 c.jr x1"]);
  ("axoloty_main_stack_size", 0x190, 4, ["190: 6505 c.lui x10, 0x1"; "192: 8082 c.jr x1"]);
  ("vPortTaskWrapper", 0x1a0, 4, ["1a0: 1141 c.addi x2, -16"; "1a2: 9502 c.jalr x10"]);
  ("main_task", 0x200, 6, ["200: 1141 c.addi x2, -16"; "202: 0fe000ef jal x1, 0x300 <app_main>"]);
  ("app_main", 0x300, 14,
    ["300: 1141 c.addi x2, -16"; "302: 0fe000ef jal x1, 0x400 <p>"; "306: 0fe000ef jal x1, 0x410 <c>"; "30a: 0fe000ef jal x1, 0x500 <e>"]);
  ("axoloty_platform_get_v1", 0x400, 4, ["400: 6529 c.lui x10, 0x9"; "402: 8082 c.jr x1"]);
  ("axoloty_carrier_get_v1", 0x410, 4, ["410: 6529 c.lui x10, 0x9"; "412: 8082 c.jr x1"]);
  ("axoloty_application_main", 0x500, 18,
    ["500: 1141 c.addi x2, -16"; "502: 0fe000ef jal x1, 0x600 <b>"; "506: 0fe000ef jal x1, 0x700 <h>"; "50a: 0fe000ef jal x1, 0x610 <e>";
     "50e: 0fe000ef jal x1, 0x800 <r>"]);
  ("$s28EmbeddedPlatformCapabilitiesV14beginHeapTraceyyF", 0x600, 2, ["600: 8082 c.jr x1"]);
  ("$s28EmbeddedPlatformCapabilitiesV12endHeapTraceyyF", 0x610, 2, ["610: 8082 c.jr x1"]);
  ("$s11DeviceSmokeO21initializeStaticStateyyFZ", 0x700, 14,
    ["700: 1141 c.addi x2, -16"; "702: 40800537 lui x10, 0x40800"; "706: 410c c.lw x11, 0(x10)"; "708: c10c c.sw x11, 0(x10)";
     "70a: 0141 c.addi x2, 16"; "70c: 8082 c.jr x1"]);
  ("$s16startDeviceSmokeyy28EmbeddedApplicationResultV", 0x800, 2, ["800: 8082 c.jr x1"])
].
Definition firmware_functions : list function := (fun f => body_of f.1.1.1 f.1.1.2 f.1.2 f.2) <$> firmware_listing.
Definition guard_row : image_symbol := ImageSymbol "$e10__idf_main5guard_Wz" 0x40800000 4 1 ".bss" 8.
Definition firmware : program :=
  let p := program_of firmware_functions in
  Program (pr_functions p) (pr_names p) (pr_instructions p) (pr_sections p) [guard_row; ImageSymbol "malloc" 0x900 16 2 ".text" 1] (pr_origins p)
    (pr_executable p) (pr_validated p) (pr_owners p).
Definition no_hash (bytes : list Z) : string := "".
