(* ===== verification/InitProofTheorems.v ===== *)
(** * What an accepted first-initialization interval shows *)
From S2P Require Import Prelude PyValue PyText PyRegex PyFiles PyInt Bytes Disassembly StackFrame LinkedInputs Interval Program Iterate Engine IntervalFixture ProgramTheorems Rv32 IntervalTheorems TransferTheorems RefineTheorems EngineTheorems JumpTheorems StackBound InitProof InitFixture.

Section prove.
Context (alnum : Z -> bool) (set_order : list Z -> list Z) (sha256 : list Z -> string) (fuel : nat).

(** ** The code stays from one analysis to the next *)
Section keeps.
Context `{Cert : Certificate} (Han : analysis_keeps_code (analyze alnum set_order fuel)).
Lemma task_creation_keeps r configured e requested e' :
  task_creation alnum set_order fuel r configured e = Ok (requested, e') -> keeps_code e e' /\ configured <= requested.
Proof using Han.
  unfold task_creation. intros (a & _ & (b & _ & ([x e1] & H1 & (req & _ & (g & _ & ([y e2] & H2 & H)%bind_Ok)%bind_Ok)%bind_Ok)%bind_Ok)%bind_Ok)%bind_Ok.
  apply bind_Ok in H as (_ & _ & (_ & _ & (_ & Hle%check_Ok & [= <- <-])%bind_Ok)%bind_Ok).
  apply Han in H1, H2. cbn [snd] in *. split; [by etrans|lia].
Qed.

Lemma caller_chain_keeps r e seed e' : caller_chain alnum set_order fuel r e = Ok (seed, e') -> keeps_code e e'.
Proof using Han.
  unfold caller_chain. intros (w & _ & ([x e1] & H1 & (s1 & _ & ([y e2] & H2 & (s2 & _ & (a & _ & (b & _ & H)%bind_Ok)%bind_Ok)%bind_Ok)%bind_Ok)%bind_Ok)%bind_Ok)%bind_Ok.
  apply bind_Ok in H as ([z e3] & H3 & (s3 & _ & [= _ <-])%bind_Ok).
  apply Han in H1, H2, H3. cbn [snd] in *. etrans; [exact H1|]. by etrans.
Qed.
End keeps.

(** ** What [prove] returned *)
Record explored (p : program) (configured : Z) (x : exploration) : Prop := {
  xd_code : same_code p (en_program (xp_start x));
  xd_requested : configured <= xp_requested x;
  xd_top : first_of set_order (reg_at 2 (xp_seed x).1) = Ok (xp_top x);
  xd_hook : exists q, same_code p q
    /\ analyze alnum set_order fuel (rt_hook (xp_roots x)) (plain_request None) (new_engine q) = Ok (xp_hooked x)
}.

Lemma explore_inv p configured x : explore alnum set_order fuel p configured = Ok x -> explored p configured x.
Proof.
  unfold explore. intros (r & _ & ([req e1] & H1 & ([seed e2] & H2 & (top & Htop%lift_Ok & H)%bind_Ok)%bind_Ok)%bind_Ok)%bind_Ok.
  apply bind_Ok in H as ([[hb hp] e3] & H3 & ([[pb pp] e4] & H4 & (site & _ & [= <-])%bind_Ok)%bind_Ok).
  apply task_creation_keeps in H1 as [Hc1%kc_code Hreq]; [|apply analyze_keeps_code].
  apply caller_chain_keeps in H2; [|apply analyze_keeps_code]. apply kc_code in H2.
  pose proof (analyze_keeps_code _ _ _ _ _ _ _ _ H3) as H3'. apply analyze_keeps_code in H4. cbn [fst snd] in *.
  assert (Hc2 : same_code p (en_program e2)) by (etrans; [exact Hc1|exact H2]).
  split; cbn [xp_roots xp_start xp_requested xp_seed xp_top xp_hooked en_program with_program]; [|done|done|].
  - etrans; [exact Hc2|]. etrans; [apply (kc_code _ _ H3')|apply (kc_code _ _ H4)].
  - by exists (en_program e2).
Qed.

(** The engine of the interval starts with bounds of whole call trees. *)
Lemma explore_certified p configured x : (forall l x, x ∈ set_order l <-> x ∈ l) -> keyed_functions p ->
  (forall x, x ∈ addresses p -> 0 <= x < WORD) -> explore alnum set_order fuel p configured = Ok x ->
  tree_certified alnum set_order p (xp_start x).
Proof.
  intros Horder Hkeyed Hwords Hx. destruct (analyze_certified alnum set_order p Horder Hkeyed Hwords fuel) as [Han _].
  pose proof (xd_code _ _ _ (explore_inv _ _ _ Hx)) as Hcode. revert Hx.
  unfold explore. intros (r & _ & ([req e1] & H1 & ([seed e2] & H2 & (top & Htop%lift_Ok & H)%bind_Ok)%bind_Ok)%bind_Ok)%bind_Ok.
  apply bind_Ok in H as ([[hb hp] e3] & H3 & ([[pb pp] e4] & H4 & (site & _ & [= <-])%bind_Ok)%bind_Ok).
  apply (task_creation_keeps (Cert := tree_certificate alnum set_order p)) in H1 as [H1 _]; [|exact Han].
  apply (caller_chain_keeps (Cert := tree_certificate alnum set_order p)) in H2; [|exact Han]. cbn [fst snd] in *.
  destruct (kc_certified _ _ H2 (kc_certified _ _ H1 (new_certified alnum set_order p))) as [_ Hcache]. by split.
Qed.

Record proved (p : program) (configured : Z) (required : list string) (rep : interval_report) (x : exploration)
    (path : stack_path) (e : engine) (guards : list guard) : Prop := {
  pv_explore : explore alnum set_order fuel p configured = Ok x;
  pv_interval : interval alnum set_order fuel (xp_roots x) (xp_seed x) (xp_cut x) (xp_start x) = Ok ((rp_maximum rep, path), e);
  pv_accept : accept configured (rp_maximum rep) required (en_program e) (with_program (en_program e) (xp_hooked x).2) = Ok guards;
  pv_end : same_code p (en_program e);
  pv_configured : rp_configured rep = configured /\ rp_headroom rep = configured - rp_maximum rep /\ rp_requested rep = xp_requested x;
  pv_places : rp_roots rep = xp_roots x /\ rp_cut rep = xp_cut x /\ rp_caller_depth rep = STACK - xp_top x
    /\ rp_hook_maximum rep = (xp_hooked x).1.1;
  pv_controls : rp_controls rep = sort_by guard_le guards;
  pv_stages : rp_stages rep = sort_by stage_le (elements (en_stage_sites e))
}.

Lemma prove_inv p configured required rep :
  prove alnum set_order sha256 fuel p configured required = Ok rep ->
  exists x path e guards, proved p configured required rep x path e guards.
Proof.
  unfold prove. intros (x & Hx & ([[total path] e] & H5 & (guards & Hg%lift_Ok & (d1 & _ & (d2 & _ & [= <-])%bind_Ok)%bind_Ok)%bind_Ok)%bind_Ok)%bind_Ok.
  exists x, path, e, guards. pose proof (xd_code _ _ _ (explore_inv _ _ _ Hx)) as Hcode. split; try done.
  unfold interval in H5. apply bind_Ok in H5 as ([[m y] e6] & H5%analyze_keeps_code & (_ & _ & (_ & _ & [= _ _ <-])%bind_Ok)%bind_Ok).
  etrans; [exact Hcode|apply (kc_code _ _ H5)].
Qed.

Lemma prove_limits p configured required rep :
  prove alnum set_order sha256 fuel p configured required = Ok rep -> rp_maximum rep <= configured <= rp_requested rep.
Proof.
  intros (x & path & e & guards & [Hx _ Hacc _ (_ & _ & Hreq) _ _ _])%prove_inv. unfold accept in Hacc.
  apply bind_Ok in Hacc as (_ & _ & (gs & _ & (_ & Hmax%check_Ok & _)%bind_Ok)%bind_Ok). rewrite Hreq.
  pose proof (xd_requested _ _ _ (explore_inv _ _ _ Hx)). lia.
Qed.
End prove.

(** ** The interval *)
(** The stack that the interval of a program needs: the activation of its last
    exploration, its bound on every execution up to the cut, and at every call that is
    not inlined the bound of everything below. *)
Definition interval_bounded (alnum : Z -> bool) (set_order : list Z -> list Z) (fuel : nat) (p : program) (configured maximum : Z) : Prop :=
  exists x fn e1 ac e2,
    let rq := interval_request (xp_roots x) (xp_seed x) (xp_cut x) in
    explore alnum set_order (S fuel) p configured = Ok x
    /\ enter alnum (rt_entry (xp_roots x)) (xp_start x) = Ok (fn, e1)
    /\ run_activation alnum set_order (analyze alnum set_order fuel) rq (fn_name fn) (rt_entry (xp_roots x)) e1 = Ok (ac, e2)
    /\ maximum = ac_maximum ac
    /\ forall base entry mc0 pc mc, machine_ok p mc0 -> describes_regs base entry (xp_seed x).1 (mc_regs mc0) ->
      describes_memory base entry (xp_seed x).2 (mc_mem mc0) ->
      reaches base entry rq p ac e2 (rt_entry (xp_roots x), mc0) (pc, mc) -> pc <> xp_cut x ->
      (exists depth, 0 <= depth <= maximum /\ mc_regs mc 2%nat = mask32 (base - depth))
      /\ forall ins t y, pr_instructions p !! pc = Some ins -> jumps pc ins (mc_regs mc) = Some (1%nat, t) ->
         inlined rq t = false -> is_Some (fn_at t (pr_functions p)) -> admissible base entry rq p ac e2 (pc, mc) y ->
         exists depth callback b, 0 <= depth /\ mc_regs mc 2%nat = mask32 (base - depth)
           /\ describes_value base entry callback (mc_regs mc 11%nat)
           /\ depth + b <= maximum /\ bounded alnum set_order p t callback b.

(** The bound of an accepted interval, for the claim and for the command that proves. *)
Lemma prove_bounds alnum set_order sha256 fuel p configured required rep :
  (forall l x, x ∈ set_order l <-> x ∈ l) -> keyed_functions p -> (forall x, x ∈ addresses p -> 0 <= x < WORD) ->
  prove alnum set_order sha256 (S fuel) p configured required = Ok rep ->
  rp_maximum rep <= configured <= rp_requested rep
  /\ interval_bounded alnum set_order fuel p configured (rp_maximum rep).
Proof.
  intros Horder Hkeyed Hwords (x & path & e & guards & [Hx Hint Hacc _ (_ & _ & Hreq) _ _ _])%prove_inv.
  destruct (explore_inv _ _ _ _ _ _ Hx) as [Hcode Hreq' _ _].
  unfold accept in Hacc. apply bind_Ok in Hacc as (_ & _ & (gs & _ & (_ & Hmax%check_Ok & _)%bind_Ok)%bind_Ok).
  split; [lia|]. unfold interval in Hint. apply bind_Ok in Hint as ([[b pth] e'] & Hrun & (_ & _ & (_ & _ & [= -> -> ->])%bind_Ok)%bind_Ok).
  set (rq := interval_request (xp_roots x) (xp_seed x) (xp_cut x)) in *.
  cbn [analyze] in Hrun. change (is_special rq) with true in Hrun. cbv iota in Hrun.
  apply bind_Ok in Hrun as ([fn e1] & Henter & ([ac e2] & Hloop & Hend)%bind_Ok). cbn [fst snd] in *.
  assert (Hbound : rp_maximum rep = ac_maximum ac).
  { unfold conclude in Hend. by apply bind_Ok in Hend as (_ & _ & (_ & _ & [= <- _ _])%bind_Ok). }
  pose proof (kc_certified _ _ (enter_code (Cert := tree_certificate alnum set_order p) _ _ _ _ _ Henter)
    (explore_certified _ _ _ _ _ _ Horder Hkeyed Hwords Hx)) as Hcert1.
  destruct (analyze_certified alnum set_order p Horder Hkeyed Hwords fuel) as [Han Hcalls].
  exists x, fn, e1, ac, e2. split_and!; [done..|].
  intros base entry mc0 pc mc Hok Hregs Hmem Hreach Hcut. rewrite Hbound. split.
  - refine (proj2 (activation_depth alnum set_order Horder p Hkeyed Hwords _ Han rq eq_refl _ _ _ _ _ (proj1 Hcert1) Hcert1 Hloop
      base entry mc0 Hok Hregs Hmem pc mc Hreach _)). by intros ?%list_elem_of_singleton.
  - intros ins t y Hi Hj Hno Hfn Hadm.
    destruct (activation_call alnum set_order Horder p Hkeyed Hwords _ Han rq eq_refl _ _ _ _ _ (proj1 Hcert1) Hcert1 Hloop
      base entry mc0 Hok Hregs Hmem pc mc ins t y Hreach Hi Hj Hno Hfn Hadm)
      as (depth & cb & e3 & Hd & Hsp & Hdcb & _ & Hcert3 & (e4 & b & pth' & e5 & Hcall & Hk & Hb)).
    exists depth, cb, b. split_and!; [done..|]. apply (Hcalls t cb e4 (b, pth') e5); [by apply (kc_certified _ _ Hk)|done].
Qed.


(** ** The refusals *)
(** What a lazy control of an accepted report is. *)
Definition closed_control (p : program) (e : engine) (g : guard) : Prop :=
  exists row, row ∈ pr_rows p /\ im_name row = gd_symbol g /\ im_address row = gd_address g
    /\ im_size row = 4 /\ im_type row = 1 /\ im_section_type row = 8
    /\ ((exists b : Z * gset Z * gset Z, b ∈ en_callback_bindings e /\ gd_address g ∈ b.1.2)
        \/ (exists a : Z * string * Z * Z, a ∈ en_accesses e /\ a.1.2 = gd_address g /\ is_Some (dict_get a.1.1.2 LOADS))
           /\ (exists a : Z * string * Z * Z, a ∈ en_accesses e /\ a.1.2 = gd_address g /\ is_Some (dict_get a.1.1.2 STORES))).

Lemma access_pcs_elem kinds e address : access_pcs kinds e address <> [] ->
  exists a : Z * string * Z * Z, a ∈ en_accesses e /\ a.1.2 = address /\ is_Some (dict_get a.1.1.2 kinds).
Proof.
  unfold access_pcs. intros Hne.
  destruct (List.filter _ _) as [|a l] eqn:Hf; [done|].
  assert (Ha : In a (a :: l)) by by left. rewrite <- Hf in Ha. apply filter_In in Ha as [Ha [Hat Hk]%andb_true_iff].
  exists a. split_and!; [by apply elem_of_elements, list_elem_of_In|lia|by apply bool_decide_eq_true in Hk].
Qed.
Lemma callback_sites_elem e address : callback_sites e address <> [] ->
  exists b : Z * gset Z * gset Z, b ∈ en_callback_bindings e /\ address ∈ b.1.2.
Proof.
  unfold callback_sites. intros Hne. destruct (List.filter _ _) as [|b l] eqn:Hf; [done|].
  assert (Hb : In b (b :: l)) by by left. rewrite <- Hf in Hb. apply filter_In in Hb as [Hb Ha%bool_decide_eq_true].
  exists b. split; [by apply elem_of_elements, list_elem_of_In|done].
Qed.

Lemma guards_fold p e required rows s0 g0 gs seen :
  (forall row, row ∈ rows -> row ∈ pr_rows p) -> s0 = gd_symbol <$> g0 /\ (forall g, g ∈ g0 -> closed_control p e g) ->
  fold_outcome (guard_step e required) (g0, s0) rows = Ok (gs, seen) ->
  seen = gd_symbol <$> gs /\ forall g, g ∈ gs -> closed_control p e g.
Proof.
  revert s0 g0. induction rows as [|row rows IH]; intros s0 g0 Hrows [-> Hg]; cbn [fold_outcome]; [by intros [= <- <-]|].
  intros ([g1 s1] & Hstep & Hrest)%bind_Ok. eapply IH; [by intros ??; apply Hrows; right| |exact Hrest].
  unfold guard_step in Hstep. destruct (is_lazy_control _); [|by injection Hstep as <- <-].
  destruct (_ && bool_decide (access_pcs STORES _ _ = [])); [by injection Hstep as <- <-|].
  apply bind_Ok in Hstep as (_ & Hst%check_Ok & (_ & Hout%check_Ok & [= <- <-])%bind_Ok).
  split; [by rewrite fmap_app|]. intros g [|Hin]%elem_of_app; [auto|]. apply list_elem_of_singleton in Hin as ->.
  exists row. cbn [gd_symbol gd_address]. apply andb_true_iff in Hst as [[? ?]%andb_true_iff ?].
  split_and!; [by apply Hrows; left|done..|lia|lia|lia|].
  apply negb_true_iff, andb_false_iff in Hout as [Hb|Hb]; [left|right].
  - apply bool_decide_eq_false in Hb. by apply callback_sites_elem.
  - apply orb_false_iff in Hb as [Hr%bool_decide_eq_false Hw%bool_decide_eq_false]. split; by apply access_pcs_elem.
Qed.

Lemma guards_closed p e required guards : classify_application_guards p e required = Ok guards ->
  guards <> [] /\ (forall name, name ∈ required -> name ∈ gd_symbol <$> guards) /\ forall g, g ∈ guards -> closed_control p e g.
Proof.
  unfold classify_application_guards. intros ([gs seen] & Hfold & (_ & Hreq%check_Ok & (_ & Hne%check_Ok & Heq)%bind_Ok)%bind_Ok)%bind_Ok.
  cbn [fst snd] in *. injection Heq as <-.
  destruct (guards_fold p e required (pr_rows p) [] [] gs seen) as [-> Hg]; [done|by split; [|intros g ?%elem_of_nil]|done|].
  split_and!; [by apply negb_true_iff, bool_decide_eq_false in Hne| |done].
  intros name Hin. rewrite forallb_elem in Hreq. by apply Hreq, bool_decide_eq_true in Hin.
Qed.

(** C7: an accepted first initialization is complete. The three stages begin, hook and
    end are exactly the ones that ran; no instruction the analysis of the hook visited
    lies in an allocation entry of the image; every reported lazy control is a
    four-byte object in zero-backed storage that the hook binds with [swift_once] or
    both reads and writes; every required control is reported, and there is one. *)
Theorem prove_accepts_closed alnum set_order sha256 fuel p configured required rep :
  prove alnum set_order sha256 fuel p configured required = Ok rep ->
  exists x q initializer,
    explore alnum set_order fuel p configured = Ok x /\ same_code p q
    /\ analyze alnum set_order fuel (rt_hook (xp_roots x)) (plain_request None) (new_engine q) = Ok (xp_hooked x)
    /\ initializer = (xp_hooked x).2 /\ rp_hook_maximum rep = (xp_hooked x).1.1
    /\ (forall row pc, row ∈ pr_rows p -> is_allocator (im_name row) = true -> pc ∈ en_visited initializer ->
          ~ im_address row <= pc < im_address row + im_size row)
    /\ rp_controls rep <> [] /\ (forall name, name ∈ required -> name ∈ gd_symbol <$> rp_controls rep)
    /\ (forall g, g ∈ rp_controls rep -> closed_control p initializer g)
    /\ (forall stage, (exists pc t depth, (stage, pc, t, depth) ∈ rp_stages rep) <-> 1 <= stage <= 3)
    /\ rp_headroom rep = configured - rp_maximum rep /\ 0 <= rp_headroom rep.
Proof.
  intros (x & path & e & guards & [Hx Hint Hacc Hend (_ & Hhead & _) (_ & _ & _ & Hhm) Hcontrols Hstages])%prove_inv.
  destruct (explore_inv _ _ _ _ _ _ Hx) as [_ _ _ (q & Hq & Hhook)].
  unfold accept in Hacc. apply bind_Ok in Hacc as (_ & Hreach%check_Ok & (gs & Hg & (_ & Hmax%check_Ok & [= ->])%bind_Ok)%bind_Ok).
  apply guards_closed in Hg as (Hne & Hreq & Hclosed).
  assert (Hrows : pr_rows (en_program e) = pr_rows p) by apply Hend.
  exists x, q, (xp_hooked x).2. rewrite Hcontrols. split_and!; try done.
  - intros row pc Hrow Hal Hpc Hrange. apply bool_decide_eq_true in Hreach.
    assert (Hin : (im_name row, im_address row, im_size row) ∈ allocator_rows (en_program e)).
    { unfold allocator_rows. apply elem_of_elements, elem_of_list_to_set, list_elem_of_fmap. exists row. split; [done|].
      apply elem_of_filterb. by rewrite Hrows. }
    rewrite filterb_nil in Hreach. apply Hreach in Hin. unfold is_reached in Hin.
    rewrite existsb_elem_false in Hin. specialize (Hin pc). rewrite elem_of_elements in Hin. specialize (Hin Hpc). simpl in Hin. lia.
  - intros Hnil. apply Hne. destruct guards as [|g gs']; [done|]. assert (Hin : g ∈ sort_by guard_le (g :: gs')) by (apply elem_of_sort_by; by left).
    rewrite Hnil in Hin. by apply elem_of_nil in Hin.
  - intros name Hname. apply Hreq, list_elem_of_fmap in Hname as (g & -> & Hin). apply list_elem_of_fmap. exists g. split; [done|].
    by apply elem_of_sort_by.
  - intros g Hin%elem_of_sort_by. destruct (Hclosed g Hin) as (row & Hrow & Hrest). rewrite Hrows in Hrow. by exists row.
  - intros stage. rewrite Hstages. unfold interval in Hint.
    apply bind_Ok in Hint as ([[b pth] e'] & _ & (_ & _ & (_ & Hset%check_Ok & [= -> -> ->])%bind_Ok)%bind_Ok).
    apply bool_decide_eq_true in Hset. cbn [snd] in Hset. transitivity (stage ∈ ({[1; 2; 3]} : gset Z)).
    + rewrite <- Hset, elem_of_map. split.
      * intros (pc & t & d & Hin%elem_of_sort_by%elem_of_elements). by exists (stage, pc, t, d).
      * intros ([[[st pc] t] d] & -> & Hin). exists pc, t, d. by apply elem_of_sort_by, elem_of_elements.
    + rewrite !elem_of_union, !elem_of_singleton. lia.
  - lia.
Qed.

(** ** Witnesses on the small firmware *)
Definition control_names : list string := ["$e10__idf_main5guard_Wz"].
Abbreviation prove_firmware := (prove ascii_only id no_hash 20 firmware 4096 control_names).

Lemma firmware_accepted : exists rep, prove_firmware = Ok rep /\ rp_maximum rep = 80.
Proof. eexists. split; vm_compute; reflexivity. Qed.

Lemma prove_accepts_closed_witness :
  exists rep, prove_firmware = Ok rep /\ rp_maximum rep = 80 /\ rp_controls rep <> [] /\ 0 <= rp_headroom rep.
Proof.
  destruct firmware_accepted as (rep & Hrun & Hmax). exists rep. split; [exact Hrun|]. split; [exact Hmax|].
  destruct (prove_accepts_closed _ _ _ _ _ _ _ _ Hrun) as (x & q & init & _ & _ & _ & _ & _ & _ & Hne & _ & _ & _ & _ & Hroom).
  by split.
Defined.

(** The main task at the application's entry. *)
Definition task_base : Z := 0x40802000.
Definition no_entry : nat -> Z := fun _ => 0.
Definition at_entry : machine :=
  Machine (fun r => if Nat.eqb r 2 then task_base - 48 else if Nat.eqb r 10 then 0x9000 else 0) (fun _ => 0).
Definition after_push : machine := Machine (set_register 2 (task_base - 64) (mc_regs at_entry)) (fun _ => 0).

Definition stands_check (base : Z) (entry : nat -> Z) (x w : Z) : bool :=
  if is_constant x then w =? mask32 x
  else if is_address x then w =? mask32 (base + x)
  else (x =? RETURN) && (w =? entry 1%nat) || existsb (fun r => (x =? RETURN - Z.of_nat r) && (w =? entry r)) SAVED.
Definition described_check (base : Z) (entry : nat -> Z) (regs : regfile) (R : registers) : bool :=
  Nat.eqb (length regs) 32 && forallb (fun r => match reg_at r regs with
    | Some s => existsb (fun x => stands_check base entry x (R r)) (elements s) | None => true end) (seq 0 32).

Lemma stands_check_sound base entry x w : stands_check base entry x w = true -> stands_for base entry x w.
Proof.
  unfold stands_check, stands_for. destruct (is_constant x); [lia|]. destruct (is_address x); [lia|].
  intros [H|H]%orb_true_iff; [left; lia|right]. apply existsb_elem in H as (r & Hr & H). exists r. split; [done|lia].
Qed.
Lemma described_check_sound base entry regs R : described_check base entry regs R = true -> describes_regs base entry regs R.
Proof.
  unfold described_check. intros [Hl%Nat.eqb_eq H]%andb_true_iff r. rewrite forallb_elem in H. destruct (decide (r < 32)%nat).
  - assert (Hr : r ∈ seq 0 32) by (apply elem_of_seq; lia). specialize (H _ Hr). unfold describes_value.
    destruct (reg_at r regs) as [s|]; [|done]. apply existsb_elem in H as (x & Hx%elem_of_elements & H).
    exists x. split; [done|by apply stands_check_sound].
  - by rewrite reg_at_beyond by lia.
Qed.

Lemma firmware_words x : x ∈ addresses firmware -> 0 <= x < WORD.
Proof.
  intros Hx. assert (Hall : forallb (fun x => (0 <=? x) && (x <? WORD)) (elements (addresses firmware)) = true) by (vm_compute; reflexivity).
  rewrite forallb_elem in Hall. specialize (Hall x). rewrite elem_of_elements in Hall. specialize (Hall Hx). lia.
Qed.
Lemma firmware_keyed : keyed_functions firmware.
Proof. exact (keyed_program_of firmware_functions). Qed.
Lemma at_entry_words : words (mc_regs at_entry).
Proof. split; [done|]. intros r. simpl. unfold task_base, WORD. destruct (Nat.eqb r 2), (Nat.eqb r 10); lia. Qed.
Lemma after_push_words : words (mc_regs after_push).
Proof.
  split; [done|]. intros r. pose proof (proj2 at_entry_words r). unfold after_push, set_register. cbn [mc_regs].
  destruct (Nat.eqb r 2); [unfold task_base, WORD; simpl; lia|done].
Qed.

Lemma zero_bytes (x : Z) : 0 <= (fun _ : Z => 0) x < 256.
Proof. lia. Qed.
Lemma firmware_machine R : words R -> machine_ok firmware (Machine R (fun _ => 0)).
Proof.
  intros HR. split; [exact HR|exact zero_bytes|]. intros ptr size _.
  assert (Hnone : program_read firmware ptr size = None) by reflexivity. by rewrite Hnone.
Qed.

(** The exploration of the firmware, checked: the caller state describes the machine,
    and the activation of the interval is describable. *)
Definition firmware_check (x : exploration) : bool :=
  let rq := interval_request (xp_roots x) (xp_seed x) (xp_cut x) in
  (rt_entry (xp_roots x) =? 0x500) && (xp_cut x =? 0x50E) && described_check task_base no_entry (xp_seed x).1 (mc_regs at_entry)
  && bool_decide ((xp_seed x).2 = ∅)
  && match enter ascii_only 0x500 (xp_start x) with
     | Ok (fn, e1) => describable_run firmware (run_activation ascii_only id (analyze ascii_only id 19) rq (fn_name fn) 0x500 e1)
     | _ => false
     end.

Lemma firmware_push rq ac e2 : describable_run firmware (Ok (ac, e2)) = true -> rq_stop_pcs rq = [0x50E] ->
  reaches task_base no_entry rq firmware ac e2 (0x500, at_entry) (0x502, after_push).
Proof.
  intros Hdes Hstop.
  assert (Hins : exists ins, pr_instructions firmware !! 0x500 = Some ins /\ is_push "-16" ins = true)
    by (eexists; split; vm_compute; reflexivity).
  destruct Hins as (ins & Hins & Hpush). destruct (push_step 0x500 "-16" (-16) ins at_entry Hpush) as (Hstep & Hlin & Hsize); [done..|].
  replace 0x502 with (0x500 + ins_size ins) by by rewrite Hsize.
  apply linear_reaches; [exact Hins|exact Hlin|exact Hstep|exact Hdes| |].
  - rewrite Hstop. by intros ?%list_elem_of_singleton.
  - exact (firmware_machine _ after_push_words).
Qed.

