(* ===== verification/FinalInputs.v ===== *)
(** * The evidence that the final initialization proof binds

    The readers and validators of [Tools/EmbeddedApplicationMacros/final_init_proof.py].
    A CSV file is its rows, as [csv.reader] gives them; a JSON row of the raw log is
    what [json.loads] of its bytes gives. *)
From S2P Require Import Prelude PyValue PyText PyRegex JsonDoc PyFiles PyInt Bytes.

Inductive proof_error :=
  | ExpectedObject (p : path)
  | FieldNotObject (label : string)
  | NotOneSymbol (label : string) (found : nat)
  | MalformedRow
  | DuplicateField (key : string)
  | DuplicateCase (name : string)
  | CasesMismatch
  | ControlResult (name : string)
  | ControlValues (name : string)
  | ControlObserver (name : string)
  | StorageSchema
  | StorageUnbound
  | PolicyNotEnforced
  | BudgetNotPassed
  | JoinClaim
  | AccountingInconsistent
  | BuildRows
  | DeviceRows
  | ReceiptMismatch
  | ReceiptCoverage
  | EpochNoBoundary
  | EpochDuplicate
  | EpochIncomplete
  | ProvenanceUnbound
  | DescriptorUnbound
  | SourceDiffers (name : string)
  | DeviceProducer
  | BoardMismatch.
Abbreviation prun := (outcome proof_error).

Definition STORAGE_LIMIT : Z := 73728.
(** [(alloc, frees, overflow, end)] of every control. *)
Definition CASES : list (string * list Z) :=
  [("zero", [0; 0; 0; 0]); ("malloc_free", [1; 1; 0; 0]); ("malloc_multiple", [2; 2; 0; 0]); ("heap_caps_internal", [1; 1; 0; 0]);
   ("calloc", [1; 1; 0; 0]); ("overflow", [0xFFFFFFFF; 0; 1; -3])].

Definition object_field (key label : string) (value : dict) : prun dict :=
  match get key value with PDict d => Ok d | _ => Raise (FieldNotObject label) end.

(** The fields of [line.split(maxsplit=3)]: the fourth is the rest of the line. *)
Fixpoint split_max (n : nat) (l : list Z) : list (list Z) :=
  let l := lstrip l in
  match l, n with
  | [], _ => []
  | _, O => [l]
  | _, S n =>
      (fix word (l cur : list Z) : list (list Z) :=
         match l with
         | [] => [cur]
         | c :: rest => if is_space c then cur :: split_max n rest else word rest (cur ++ [c])
         end) l []
  end.
Definition symbol_name (line : list Z) : option string :=
  match split_max 3 line with [_; _; _; name] => Some (of_codepoints name) | _ => None end.
Definition one_symbol (symbols : string) (predicate : string -> bool) (label : string) : prun string :=
  let names := sorted_strings (dedup (List.filter predicate (omap symbol_name (split_lines (codepoints symbols))))) in
  match names with [name] => Ok name | found => Raise (NotOneSymbol label (length found)) end.

(** ** The calibration controls *)
Definition equals_sign : Ascii.ascii := Ascii.ascii_of_N 61.
(** [item.split("=", 1)] *)
Fixpoint split_field (s : string) : option (string * string) :=
  match s with
  | EmptyString => None
  | String a s' => if Ascii.eqb a equals_sign then Some (EmptyString, s') else (fun kv => (String a kv.1, kv.2)) <$> split_field s'
  end.
Definition row_step (values : list (string * string)) (item : string) : prun (list (string * string)) :=
  match split_field item with
  | None => Raise MalformedRow
  | Some (key, value) => check (negb (has_key key values)) (DuplicateField key) ;; Ok (dict_set key value values)
  end.
Definition control_rows : Type := list (string * list (string * string)).
Definition csv_step (rows : control_rows) (row : list string) : prun control_rows :=
  match row with
  | prefix :: items =>
      if String.eqb prefix "AXOLOTY_HEAP_CAL_V1"
      then values ← fold_outcome row_step [] items;
           let name := default "" (dict_get "case" values) in
           check (negb (has_key name rows)) (DuplicateCase name) ;;
           Ok (dict_set name values rows)
      else Ok rows
  | [] => Ok rows
  end.
Definition text_is (key value : string) (row : list (string * string)) : bool := bool_decide (dict_get key row = Some value).
(** [int(row[name], 0)] *)
Definition int_field (name : string) (row : list (string * string)) : prun Z :=
  match dict_get name row with
  | None => Crash KeyError
  | Some text => match int_literal (codepoints text) with Some z => Ok z | None => Crash ValueError end
  end.
Definition check_case (rows : control_rows) (c : string * list Z) : prun unit :=
  match dict_get c.1 rows with
  | None => Crash KeyError
  | Some row =>
      check (text_is "result" "PASS" row && text_is "coverage_complete" "0" row) (ControlResult c.1) ;;
      fields ← map_outcome (fun name => int_field name row) ["alloc"; "frees"; "overflow"; "end"];
      check (bool_decide (fields = c.2)) (ControlValues c.1) ;;
      check (text_is "begin" "0" row && text_is "end_called" "1" row && text_is "summary" "1" row && text_is "mode_ok" "1" row) (ControlObserver c.1)
  end.
Definition parse_calibration (csv : list (list string)) : prun control_rows :=
  rows ← fold_outcome csv_step [] csv;
  check (bool_decide (key_set rows = key_set CASES)) CasesMismatch ;;
  for_each (check_case rows) CASES ;;
  Ok (omap (fun name => (fun row => (name, row)) <$> dict_get name rows) (sorted_strings (keys rows))).

(** ** The linked storage report *)
Definition int_is (v : pyval) (z : Z) : bool := match v with PInt n => n =? z | _ => false end.
Definition validate_storage (storage policy : dict) (profile elf_hash map_hash : string) : prun dict :=
  identity ← object_field "input" "linked-storage input identity" storage;
  check (py_eq (get "schema" storage) (PStr "axoloty.linked-storage-measurement.v1")) StorageSchema ;;
  check (py_eq (get "elf_sha256" identity) (PStr elf_hash) && py_eq (get "map_sha256" identity) (PStr map_hash)) StorageUnbound ;;
  budget ← object_field "static_storage_budget" "linked-storage budget" storage;
  check (py_eq (get "schema" policy) (PStr "axoloty.app-static-storage-policy.v1") && py_eq (get "profile" policy) (PStr profile)
         && py_eq (get "status" policy) (PStr "enforced")) PolicyNotEnforced ;;
  check (py_eq (get "ceiling_bytes" budget) (PInt STORAGE_LIMIT) && is_true (get "passed" budget)
         && py_eq (get "actual_bytes" budget) (get "aggregate_charged_static_bytes" storage)) BudgetNotPassed ;;
  inventory ← object_field "inventory_join" "inventory join" storage;
  attribution ← object_field "attribution" "storage attribution" storage;
  check (py_eq (get "join_status" inventory) (PStr "matched") && is_false (get "complete" attribution)) JoinClaim ;;
  check (match get "actual_bytes" budget, get "headroom_bytes" budget with
         | PInt actual, PInt headroom => headroom =? STORAGE_LIMIT - actual
         | _, _ => false
         end) AccountingInconsistent ;;
  Ok budget.

(** ** The receipts *)
Definition remove_prefix (prefix s : string) : string :=
  if String.prefix prefix s then String.substring (String.length prefix) (String.length s - String.length prefix) s else s.
Definition selected_profile (profile : string) : string := remove_prefix "esp32c6-" profile.
Definition dicts (v : pyval) : option (list dict) :=
  match v with PList l => mapM (fun x => match x with PDict d => Some d | _ => None end) l | _ => None end.

Definition validate_image_receipt (receipt : dict) (profile bin_hash : string) : prun unit :=
  let selected := PStr (selected_profile profile) in
  match dicts (get "profileBuilds" receipt) with
  | None => Raise BuildRows
  | Some build_rows =>
      match dicts (get "devices" receipt) with
      | None => Raise DeviceRows
      | Some device_rows =>
          let builds := List.filter (fun row => py_eq (get "profile" row) selected && py_eq (get "calibration" row) (PStr "ON")) build_rows in
          let devices := List.filter (fun row => py_eq (get "profile" row) selected) device_rows in
          match builds, devices with
          | [build], [device] =>
              check (py_eq (get "imageSha256" build) (PStr bin_hash) && py_eq (get "imageSha256" device) (PStr bin_hash)) ReceiptMismatch ;;
              check (is_false (get "coverageComplete" receipt)) ReceiptCoverage
          | _, _ => Raise ReceiptMismatch
          end
      end
  end.

(** [core_lock['core']['revision']] *)
Definition locked_revision (core_lock : dict) : prun pyval :=
  core ← item "core" core_lock; match core with PDict d => item "revision" d | _ => Crash TypeError end.

Definition validate_provenance (provenance : dict) (bin_hash : string) (core_lock : dict) : prun (dict * dict) :=
  firmware ← object_field "firmware" "firmware provenance" provenance;
  core ← object_field "core" "Core provenance" provenance;
  artifact ← object_field "artifact" "artifact provenance" provenance;
  check (py_eq (get "status" provenance) (PStr "passed") && is_false (get "dirty" firmware) && is_false (get "sourceCopied" firmware)
         && is_false (get "dirty" core)) ProvenanceUnbound ;;
  hex ← (match get_default "revision" (PStr "") firmware with PStr s => Ok (is_hex_text 40 s) | _ => Crash TypeError end);
  check hex ProvenanceUnbound ;;
  locked ← locked_revision core_lock;
  check (py_eq (get "sha" core) locked && py_eq (get "sha256" artifact) (PStr bin_hash)) ProvenanceUnbound ;;
  Ok (firmware, core).

(** [bytes.fromhex] of a text without white space. *)
Fixpoint from_hex (l : list Z) : option (list Z) :=
  match l with
  | [] => Some []
  | a :: b :: l => if is_hex a && is_hex b then (fun rest => hex_digit a * 16 + hex_digit b :: rest) <$> from_hex l else None
  | [_] => None
  end.
Definition verify_binary_elf (data : list Z) (elf_hash : string) : prun unit :=
  check (208 <=? len data) DescriptorUnbound ;;
  check ((nth 0 data 0 =? 0xE9) && (1 <=? nth 1 data 0)) DescriptorUnbound ;;
  check (from_bytes false (slice 32 36 data) =? 0xABCD5432) DescriptorUnbound ;;
  match from_hex (string_bytes elf_hash) with
  | Some digest => check (bool_decide (slice 176 208 data = digest)) DescriptorUnbound
  | None => Crash ValueError
  end.

(** ** The first epoch of the raw log *)
(** [raw.splitlines(keepends=True)] of bytes. *)
Fixpoint split_keep (l cur : list Z) : list (list Z) :=
  match l with
  | [] => match cur with [] => [] | _ => [cur] end
  | c :: rest =>
      if c =? 10 then (cur ++ [c]) :: split_keep rest []
      else if c =? 13 then
        match rest with
        | d :: rest' => if d =? 10 then (cur ++ [c; d]) :: split_keep rest' [] else (cur ++ [c]) :: split_keep rest []
        | [] => [cur ++ [c]]
        end
      else split_keep rest (cur ++ [c])
  end.
Fixpoint starts_with (prefix l : list Z) : bool :=
  match prefix, l with
  | [], _ => true
  | p :: prefix, c :: l => (p =? c) && starts_with prefix l
  | _, [] => false
  end.
Fixpoint contains_bytes (needle l : list Z) : bool :=
  starts_with needle l || match l with [] => false | _ :: l => contains_bytes needle l end.
(** From the first [{]: [line[line.find(b'{'):]]. *)
Fixpoint from_brace (l : list Z) : option (list Z) :=
  match l with [] => None | c :: rest => if c =? 0x7B then Some l else from_brace rest end.

Definition has_bytes (text : string) (line : list Z) : bool := contains_bytes (string_bytes text) line.
Definition preamble : list string :=
  ["Executing action: monitor"; "Running idf_monitor in directory "; "Executing " +:+ of_bytes [0x22]; "--- esp-idf-monitor "; "--- Quit: "].

Record epoch_state := EpochState { ep_offset : Z; ep_rom_seen : bool; ep_activity : bool; ep_completion : option Z }.
Record epoch := Epoch { eb_bytes : list Z; eb_end : Z; eb_completion : Z; eb_excluded : Z }.

Section epoch.
Context (json_row : list Z -> option dict).

(** One line: it is where the epoch ends, or it is part of it. *)
Definition epoch_line (st : epoch_state) (line : list Z) : prun (epoch_state + Z) :=
  let offset := ep_offset st in
  let boundary := has_bytes "ESP-ROM:" line in
  if (boundary && (ep_rom_seen st || ep_activity st)) || (negb boundary && has_bytes "rst:0x" line && ep_activity st)
  then Ok (inr offset)
  else
    let rom_seen := ep_rom_seen st || boundary in
    let text := strip_ascii line in
    check (rom_seen || bool_decide (text = []) || existsb (fun p => starts_with (string_bytes p) text) preamble) EpochNoBoundary ;;
    let activity := ep_activity st || has_bytes "AXOLOTY_HEAP_CAL_V1" line in
    let next := offset + len line in
    let row := match from_brace line with Some l => default [] (json_row (strip_ascii l)) | None => [] end in
    if py_eq (get "runId" row) (PStr "embedded-swift-smoke-v2")
    then
      if py_eq (get "caseId" row) (PStr "boot") && activity && bool_decide (is_Some (ep_completion st)) then Ok (inr offset)
      else if py_eq (get "caseId" row) (PStr "completion") && py_eq (get "status" row) (PStr "completed")
      then match ep_completion st with
           | Some _ => Raise EpochDuplicate
           | None => Ok (inl (EpochState next rom_seen true (Some next)))
           end
      else Ok (inl (EpochState next rom_seen true (ep_completion st)))
    else Ok (inl (EpochState next rom_seen activity (ep_completion st))).

Fixpoint epoch_lines (st : epoch_state) (lines : list (list Z)) : prun (epoch_state * option Z) :=
  match lines with
  | [] => Ok (st, None)
  | line :: lines =>
      next ← epoch_line st line;
      match next with inl st => epoch_lines st lines | inr stop => Ok (st, Some stop) end
  end.

Definition first_epoch (raw : list Z) : prun epoch :=
  r ← epoch_lines (EpochState 0 false false None) (split_keep raw []);
  let '(st, stopped) := r in
  let stop := default (len raw) stopped in
  match ep_completion st with
  | Some completion =>
      check (ep_rom_seen st && (completion <=? stop)) EpochIncomplete ;;
      Ok (Epoch (take (Z.to_nat stop) raw) stop completion (len raw - stop))
  | None => Raise EpochIncomplete
  end.
End epoch.

(** ** The product sources and the device *)
Section sources.
(** [git show revision:name], [None] when it fails, and the files of the checkout. *)
Context (show : string -> option (list Z)) (checkout : string -> option (list Z)) (sha256 : list Z -> string).

Definition source_hash (name : string) : prun (string * string) :=
  match show name with
  | None => Crash OSError
  | Some original =>
      match checkout name with
      | None => Crash OSError
      | Some actual => check (bool_decide (actual = original)) (SourceDiffers name) ;; Ok (name, sha256 actual)
      end
  end.
(** The digest of the sources, as the text [dumps] makes of their sorted digests. *)
Definition source_identity (dumps : list (string * string) -> list Z) (listed : option (list string)) : prun string :=
  match listed with
  | None => Crash OSError
  | Some names =>
      hashes ← map_outcome source_hash (List.filter (fun name => negb (String.eqb name "")) names);
      Ok (sha256 (dumps (dict_of hashes)))
  end.
End sources.

(** [s.replace(old, new)] for an [old] that is not empty. *)
Fixpoint replace_at (fuel : nat) (old new s : string) : string :=
  match fuel, s with
  | S fuel, String a s' =>
      if String.prefix old s then new +:+ replace_at fuel old new (String.substring (String.length old) (String.length s) s)
      else String a (replace_at fuel old new s')
  | _, _ => s
  end.
Definition replace_text (old new s : string) : string := replace_at (String.length s) old new s.

(** [text in v] *)
Definition text_in (text : string) (v : pyval) : prun bool :=
  match v with
  | PStr s => Ok (contains text s)
  | PList l => Ok (existsb (fun x => py_eq (PStr text) x) l)
  | PDict d => Ok (has_key text d)
  | _ => Crash TypeError
  end.

Section device.
(** [str.lower] *)
Context (lower : string -> string).
Definition lower_text (v : pyval) : prun string := match v with PStr s => Ok (lower s) | _ => Crash AttributeError end.
Definition nested (outer inner : string) (d : dict) : prun pyval := get_attr inner (get_default outer (PDict []) d).

Definition board_mac (manifest : dict) : prun string :=
  (fun s => replace_text ":ff:fe:" ":" s) <$> lower_text (get_default "mac" (PStr "") manifest).

Definition validate_device (manifest producer receipt : dict) (profile bin_hash : string) (firmware core : dict) : prun string :=
  image ← nested "artifact" "sha256" producer;
  check (py_eq image (PStr bin_hash)) DeviceProducer ;;
  revision ← nested "firmware" "revision" producer;
  selected ← item "revision" firmware;
  check (py_eq revision selected) DeviceProducer ;;
  sha ← nested "core" "sha" producer;
  core_sha ← item "sha" core;
  check (py_eq sha core_sha) DeviceProducer ;;
  rows ← (v ← item "devices" receipt; match dicts v with Some rows => Ok rows | None => Crash AttributeError end);
  match List.filter (fun row => py_eq (get "profile" row) (PStr (selected_profile profile))) rows with
  | [] => Crash IndexError
  | row :: _ =>
      mac ← board_mac manifest;
      check (py_eq (get "chip" manifest) (PStr "esp32c6")) BoardMismatch ;;
      described ← text_in "revision v0.0" (get_default "chipDescription" (PStr "") manifest);
      check (described && is_true (get "queried" manifest) && negb (String.eqb mac "")) BoardMismatch ;;
      board ← lower_text (get_default "boardBaseMac" (PStr "") row);
      check (String.eqb mac board && py_eq (get "source" row) selected && py_eq (get "coreRevision" receipt) core_sha
             && py_eq (get "smokePassed" row) (PInt 312) && py_eq (get "failed" row) (PInt 0)
             && py_eq (get "calibrationControlsPassed" row) (PInt 6)) BoardMismatch ;;
      Ok mac
  end.
End device.
