(* ===== verification/EpochTheorems.v ===== *)
(** * What the first epoch of a raw log is *)
From S2P Require Import Prelude PyValue PyText PyRegex JsonDoc PyFiles PyInt Bytes FinalInputs.

Lemma concat_split_keep l cur : concat (split_keep l cur) = cur ++ l.
Proof.
  assert (Hn : forall n l cur, (length l <= n)%nat -> concat (split_keep l cur) = cur ++ l); [|by apply (Hn (length l))].
  clear. induction n as [|n IH]; intros l cur Hl.
  { destruct l; [|simpl in Hl; lia]. destruct cur; simpl; by rewrite ?app_nil_r. }
  destruct l as [|c rest]; [destruct cur; simpl; by rewrite ?app_nil_r|]. cbn [split_keep]. simpl in Hl.
  destruct (c =? 10); [cbn [concat]; rewrite IH by lia; by rewrite <- app_assoc|].
  destruct (c =? 13); [|rewrite IH by lia; by rewrite <- app_assoc].
  destruct rest as [|d rest']; [simpl; by rewrite app_nil_r|]. simpl in Hl.
  destruct (d =? 10); cbn [concat]; rewrite IH by (simpl; lia); by rewrite <- app_assoc.
Qed.

Lemma len_app (l1 l2 : list Z) : len (l1 ++ l2) = len l1 + len l2.
Proof. unfold len. rewrite length_app. lia. Qed.
Lemma len_nonneg (l : list Z) : 0 <= len l.
Proof. unfold len. lia. Qed.

Section epoch.
Context (json_row : list Z -> option dict).

(** The smoke row of a line, and what it says. *)
Definition smoke_row (line : list Z) : dict :=
  match from_brace line with Some l => default [] (json_row (strip_ascii l)) | None => [] end.
Definition is_smoke (case : string) (line : list Z) : bool :=
  py_eq (get "runId" (smoke_row line)) (PStr "embedded-swift-smoke-v2") && py_eq (get "caseId" (smoke_row line)) (PStr case).
Definition completes (line : list Z) : bool := is_smoke "completion" line && py_eq (get "status" (smoke_row line)) (PStr "completed").
Definition boundary (line : list Z) : bool := has_bytes "ESP-ROM:" line.
Definition resets (line : list Z) : bool := boundary line || has_bytes "rst:0x" line || is_smoke "boot" line.

Record epoch_so_far (lines : list (list Z)) (st : epoch_state) : Prop := {
  eo_offset : ep_offset st = len (concat lines);
  eo_boundaries : length (List.filter boundary lines) = if ep_rom_seen st then 1%nat else 0%nat;
  eo_completion : match ep_completion st with
                  | Some c => exists before line after, lines = before ++ line :: after /\ completes line = true
                      /\ c = len (concat (before ++ [line])) /\ List.filter completes (before ++ after) = []
                  | None => List.filter completes lines = []
                  end
}.

Lemma filter_snoc {A} (f : A -> bool) l x : List.filter f (l ++ [x]) = List.filter f l ++ if f x then [x] else [].
Proof. rewrite List.filter_app. simpl. by destruct (f x). Qed.
Lemma len_concat_snoc (lines : list (list Z)) line : len (concat (lines ++ [line])) = len (concat lines) + len line.
Proof. rewrite concat_app, len_app. simpl. by rewrite app_nil_r. Qed.

(** A line that is part of the epoch, and the line where it ends. *)
Lemma epoch_line_inv lines st line next : epoch_so_far lines st -> epoch_line json_row st line = Ok next ->
  match next with
  | inl st' => epoch_so_far (lines ++ [line]) st'
  | inr stop => stop = len (concat lines) /\ resets line = true
  end.
Proof.
  intros [Hoff Hrom Hcomp]. unfold epoch_line. fold (boundary line).
  destruct (boundary line && (ep_rom_seen st || ep_activity st) || negb (boundary line) && has_bytes "rst:0x" line && ep_activity st) eqn:Estop.
  { intros [= <-]. split; [done|]. unfold resets. apply orb_true_iff in Estop as [E|E]; apply andb_true_iff in E as [E Ea].
    - by rewrite E.
    - apply andb_true_iff in E as [_ ->]. by destruct (boundary line). }
  intros (_ & _ & Hnext)%bind_Ok. fold (smoke_row line) in Hnext.
  assert (Hb : length (List.filter boundary (lines ++ [line])) = if ep_rom_seen st || boundary line then 1%nat else 0%nat).
  { rewrite filter_snoc, length_app, Hrom. apply orb_false_iff in Estop as [Estop _].
    destruct (boundary line), (ep_rom_seen st); simpl in *; done. }
  assert (Hlen : ep_offset st + len line = len (concat (lines ++ [line]))) by by rewrite len_concat_snoc, Hoff.
  assert (Hkeep : completes line = false -> match ep_completion st with
      | Some c => exists before l after, lines ++ [line] = before ++ l :: after /\ completes l = true
                      /\ c = len (concat (before ++ [l])) /\ List.filter completes (before ++ after) = []
      | None => List.filter completes (lines ++ [line]) = []
      end).
  { intros Hline. destruct (ep_completion st) as [c|]; [|by rewrite filter_snoc, Hcomp, Hline].
    destruct Hcomp as (before & l & after & -> & Hl & Hc & Hrest). exists before, l, (after ++ [line]).
    rewrite <- app_assoc. split_and!; [done|done|done|]. by rewrite app_assoc, filter_snoc, Hrest, Hline. }
  unfold completes, is_smoke in Hkeep.
  destruct (py_eq (get "runId" (smoke_row line)) (PStr "embedded-swift-smoke-v2")) eqn:Erun.
  2: { injection Hnext as <-. split; [by rewrite <- Hlen|done|by apply Hkeep]. }
  destruct (py_eq (get "caseId" (smoke_row line)) (PStr "boot") && _ && _) eqn:Eboot.
  { injection Hnext as <-. split; [done|]. bool_prop. unfold resets, is_smoke. rewrite Erun, H. by rewrite orb_true_r. }
  destruct (py_eq (get "caseId" (smoke_row line)) (PStr "completion") && py_eq (get "status" (smoke_row line)) (PStr "completed")) eqn:Ecomp.
  2: { injection Hnext as <-. split; [by rewrite <- Hlen|done|by apply Hkeep]. }
  destruct (ep_completion st) as [c|]; [done|]. injection Hnext as <-. split; [by rewrite <- Hlen|done|].
  exists lines, line, []. split_and!; [done| |by rewrite Hlen|by rewrite app_nil_r].
  unfold completes, is_smoke. apply andb_true_iff in Ecomp as [-> ->]. by rewrite Erun.
Qed.

Lemma epoch_lines_inv past st lines st' stopped : epoch_so_far past st -> epoch_lines json_row st lines = Ok (st', stopped) ->
  exists inside rest, lines = inside ++ rest /\ epoch_so_far (past ++ inside) st'
    /\ match stopped with
       | None => rest = []
       | Some stop => stop = len (concat (past ++ inside)) /\ exists line rest', rest = line :: rest' /\ resets line = true
       end.
Proof.
  revert past st. induction lines as [|line lines IH]; intros past st Hst; cbn [epoch_lines].
  { intros [= <- <-]. exists [], []. rewrite (app_nil_r past). by split_and!. }
  intros (next & Hnext & Hrun)%bind_Ok. pose proof (epoch_line_inv _ _ _ _ Hst Hnext) as Hline. destruct next as [st1|stop].
  - destruct (IH _ _ Hline Hrun) as (inside & rest & -> & Hin & Hstop). exists (line :: inside), rest.
    assert (Happ : (past ++ [line]) ++ inside = past ++ line :: inside) by by rewrite <- app_assoc. by rewrite Happ in Hin, Hstop.
  - injection Hrun as <- <-. destruct Hline as [-> Hreset]. exists [], (line :: lines). rewrite (app_nil_r past). split_and!; [done|done|done|]. by exists line, lines.
Qed.

(** C17: the first epoch of a log is made of whole lines from its start, up to a
    line that starts another epoch or to the end of the log; it has exactly one ROM
    boundary and exactly one completion of the smoke run, whose line ends at the
    reported offset. Nothing after the epoch can stand in for what it lacks. *)
Theorem first_epoch_exact raw e :
  first_epoch json_row raw = Ok e ->
  exists before line after rest,
    split_keep raw [] = before ++ line :: after ++ rest
    /\ eb_bytes e = concat (before ++ line :: after) /\ eb_end e = len (eb_bytes e)
    /\ completes line = true /\ List.filter completes (before ++ after) = [] /\ eb_completion e = len (concat (before ++ [line]))
    /\ length (List.filter boundary (before ++ line :: after)) = 1%nat
    /\ eb_excluded e = len (concat rest) /\ match rest with [] => True | next :: _ => resets next = true end.
Proof.
  unfold first_epoch. intros ([st stopped] & Hrun & He)%bind_Ok.
  apply (epoch_lines_inv []) in Hrun as (inside & rest & Hlines & [Hoff Hrom Hcomp] & Hstop); [|done].
  destruct (ep_completion st) as [completion|]; [|done]. destruct Hcomp as (before & line & after & Hin & Hline & -> & Hrest).
  apply bind_Ok in He as ([] & Hc%check_Ok & [= <-]). apply andb_true_iff in Hc as [Hr _]. rewrite Hr in Hrom. cbn [app] in *.
  pose proof (concat_split_keep raw []) as Hraw. cbn [app] in Hraw. rewrite Hlines, concat_app in Hraw.
  assert (Hend : default (len raw) stopped = len (concat inside)).
  { destruct stopped as [stop|]; [by destruct Hstop as [-> _]|]. subst rest. simpl in *. by rewrite <- Hraw, app_nil_r. }
  exists before, line, after, rest. rewrite Hend, Hlines, Hin, <- app_assoc. cbn [eb_bytes eb_end eb_completion eb_excluded].
  assert (Htake : take (Z.to_nat (len (concat inside))) raw = concat inside).
  { unfold len. rewrite Nat2Z.id, <- Hraw. apply take_app_length. }
  rewrite <- Hin. split_and!; try done.
  - by rewrite Htake.
  - rewrite <- Hraw, len_app. lia.
  - destruct stopped as [stop|]; [|by subst rest]. destruct Hstop as [_ (next & rest' & -> & ?)]. done.
Qed.

(** ** A first boot that completes *)
Lemma epoch_lines_app st l1 l2 st' : epoch_lines json_row st l1 = Ok (st', None) ->
  epoch_lines json_row st (l1 ++ l2) = epoch_lines json_row st' l2.
Proof.
  revert st. induction l1 as [|line l1 IH]; intros st; cbn [epoch_lines app]; [by intros [= ->]|].
  destruct (epoch_line json_row st line) as [[st1|stop]|e|x]; [|done..]. apply IH.
Qed.

(** A line that the monitor prints before the chip starts. *)
Definition noise (line : list Z) : bool :=
  let text := strip_ascii line in bool_decide (text = []) || existsb (fun p => starts_with (string_bytes p) text) preamble.
Definition in_run (line : list Z) : bool := py_eq (get "runId" (smoke_row line)) (PStr "embedded-swift-smoke-v2").
Definition active (line : list Z) : bool := has_bytes "AXOLOTY_HEAP_CAL_V1" line || in_run line.

(** Lines that start nothing, before the ROM boundary and after it. *)
Lemma quiet_lines st lines : ep_activity st = false ->
  Forall (fun line => boundary line = false /\ active line = false /\ (ep_rom_seen st || noise line) = true) lines ->
  epoch_lines json_row st lines = Ok (EpochState (ep_offset st + len (concat lines)) (ep_rom_seen st) false (ep_completion st), None).
Proof.
  destruct st as [off rom act comp]. cbn [ep_offset ep_rom_seen ep_activity ep_completion]. intros -> Hall. revert off.
  induction Hall as [|line lines (Hb & Ha & Hn) _ IH]; intros off; cbn [epoch_lines concat].
  { by replace (off + len []) with off by (unfold len; simpl; lia). }
  apply orb_false_iff in Ha as [Hc Hr]. unfold in_run in Hr. unfold epoch_line. fold (boundary line) (smoke_row line).
  cbn [ep_offset ep_rom_seen ep_activity ep_completion]. rewrite Hb, Hc, Hr, !orb_false_r, !andb_false_r. cbn [andb orb].
  unfold noise in Hn. rewrite <- orb_assoc, Hn. cbn [check outcome_bind mbind]. rewrite IH, len_app. by rewrite Z.add_assoc.
Qed.

(** The ROM boundary and the quiet lines after it. *)
Lemma rom_lines off rom early : boundary rom = true -> active rom = false ->
  Forall (fun l => boundary l = false /\ active l = false) early ->
  epoch_lines json_row (EpochState off false false None) (rom :: early) =
    Ok (EpochState (off + len (concat (rom :: early))) true false None, None).
Proof.
  intros Hb Ha Hearly. apply orb_false_iff in Ha as [Hc Hr]. unfold in_run in Hr. cbn [epoch_lines]. unfold epoch_line.
  fold (boundary rom) (smoke_row rom). cbn [ep_offset ep_rom_seen ep_activity ep_completion]. rewrite Hb, Hc, Hr. cbn [andb orb negb check mbind outcome_bind].
  rewrite quiet_lines; [|done|eapply Forall_impl; [exact Hearly|]; simpl; naive_solver].
  cbn [ep_offset ep_rom_seen ep_completion concat]. by rewrite len_app, Z.add_assoc.
Qed.

(** Lines of the run, which neither reset nor complete it. *)
Lemma run_lines st lines : ep_rom_seen st = true ->
  Forall (fun line => boundary line = false /\ has_bytes "rst:0x" line = false /\ completes line = false
            /\ (is_smoke "boot" line = true -> ep_completion st = None)) lines ->
  exists act, epoch_lines json_row st lines = Ok (EpochState (ep_offset st + len (concat lines)) true act (ep_completion st), None).
Proof.
  destruct st as [off rom act comp]. cbn [ep_offset ep_rom_seen ep_activity ep_completion]. intros -> Hall. revert off act.
  induction Hall as [|line lines (Hb & Hr & Hc & Hboot) _ IH]; intros off act; cbn [epoch_lines concat].
  { exists act. by replace (off + len []) with off by (unfold len; simpl; lia). }
  assert (Hstep : exists act', epoch_line json_row (EpochState off true act comp) line = Ok (inl (EpochState (off + len line) true act' comp))).
  { unfold epoch_line. fold (boundary line) (smoke_row line). cbn [ep_offset ep_rom_seen ep_activity ep_completion].
    rewrite Hb, Hr. cbn [andb orb negb check outcome_bind mbind]. unfold completes, is_smoke in *.
    destruct (py_eq (get "runId" _) _); [|by eexists]. cbn [andb] in *.
    destruct (py_eq (get "caseId" (smoke_row line)) (PStr "boot")).
    - rewrite (Hboot eq_refl) in *. rewrite !andb_false_r. rewrite Hc. by eexists.
    - cbn [andb]. rewrite Hc. by eexists. }
  destruct Hstep as [act' ->]. cbn [mbind outcome_bind]. destruct (IH (off + len line) act') as [act2 ->]. exists act2. rewrite len_app. by rewrite Z.add_assoc.
Qed.

Lemma completion_line off act line : boundary line = false -> has_bytes "rst:0x" line = false -> completes line = true ->
  is_smoke "boot" line = false ->
  epoch_line json_row (EpochState off true act None) line = Ok (inl (EpochState (off + len line) true true (Some (off + len line)))).
Proof.
  intros Hb Hr Hc Hboot. unfold epoch_line. fold (boundary line) (smoke_row line). cbn [ep_offset ep_rom_seen ep_activity ep_completion].
  rewrite Hb, Hr. cbn [andb orb negb check outcome_bind mbind]. unfold completes, is_smoke in *.
  apply andb_true_iff in Hc as [[Hid Hcase]%andb_true_iff Hstatus]. rewrite Hid in *. cbn [andb] in *. rewrite Hboot, Hcase, Hstatus. reflexivity.
Qed.

(** C24: a first boot that completes is always accepted, whatever the log says after
    it: when the lines before the ROM boundary are the monitor's, those up to the run
    start nothing, the run has no reset before its completion or after it, and what
    follows, if anything does, is another ROM boundary, then the epoch is found, and it
    is made of exactly the lines of that boot. *)
Theorem first_boot_accepted raw before rom early run line late rest :
  split_keep raw [] = before ++ rom :: early ++ run ++ line :: late ++ rest ->
  Forall (fun l => boundary l = false /\ active l = false /\ noise l = true) before ->
  boundary rom = true -> active rom = false ->
  Forall (fun l => boundary l = false /\ active l = false) early ->
  Forall (fun l => boundary l = false /\ has_bytes "rst:0x" l = false /\ completes l = false) run ->
  boundary line = false -> has_bytes "rst:0x" line = false -> completes line = true -> is_smoke "boot" line = false ->
  Forall (fun l => resets l = false /\ completes l = false) late ->
  match rest with [] => True | l :: _ => boundary l = true end ->
  exists e, first_epoch json_row raw = Ok e /\ eb_bytes e = concat (before ++ rom :: early ++ run ++ line :: late).
Proof.
  intros Hraw Hbefore Hrom Hromq Hearly Hrun Hlb Hlr Hlc Hlboot Hlate Hrest.
  pose (inside := before ++ rom :: early ++ run ++ line :: late).
  assert (Hlines : exists act c, c <= len (concat inside) /\ epoch_lines json_row (EpochState 0 false false None) (split_keep raw []) =
    epoch_lines json_row (EpochState (len (concat inside)) true act (Some c)) rest).
  { rewrite Hraw. erewrite epoch_lines_app; [|apply quiet_lines; [done|by eapply Forall_impl; [exact Hbefore|]; naive_solver]].
    cbn [ep_offset ep_rom_seen ep_completion]. rewrite Z.add_0_l, (app_comm_cons early). erewrite epoch_lines_app; [|by apply rom_lines].
    destruct (run_lines (EpochState (len (concat before) + len (concat (rom :: early))) true false None) run) as [act1 H1]; [done| |].
    { eapply Forall_impl; [exact Hrun|]. simpl. naive_solver. }
    rewrite (epoch_lines_app _ run _ _ H1). cbn [ep_offset ep_completion epoch_lines]. rewrite completion_line by done. cbn [mbind outcome_bind].
    set (c := len (concat before) + len (concat (rom :: early)) + len (concat run) + len line).
    destruct (run_lines (EpochState c true true (Some c)) late) as [act2 H2]; [done| |].
    { eapply Forall_impl; [exact Hlate|]. cbn [ep_completion]. intros l [Hl ?]. unfold resets in Hl. apply orb_false_iff in Hl as [[? ?]%orb_false_iff Hboot].
      rewrite Hboot. done. }
    rewrite (epoch_lines_app _ late _ _ H2). cbn [ep_offset ep_completion].
    assert (Hc : c + len (concat late) = len (concat inside)).
    { unfold inside, c. rewrite !concat_app. cbn [concat]. rewrite !concat_app. cbn [concat]. rewrite !len_app. lia. }
    exists act2, c. rewrite Hc. split; [|done]. pose proof (len_nonneg (concat late)). lia. }
  destruct Hlines as (act & c & Hle & Hlines). unfold first_epoch. rewrite Hlines.
  assert (Hend : epoch_lines json_row (EpochState (len (concat inside)) true act (Some c)) rest =
    Ok (EpochState (len (concat inside)) true act (Some c), match rest with [] => None | _ => Some (len (concat inside)) end)).
  { destruct rest as [|l rest]; [done|]. cbn [epoch_lines]. unfold epoch_line. fold (boundary l). cbn [ep_rom_seen ep_offset]. by rewrite Hrest. }
  rewrite Hend. cbn [mbind outcome_bind ep_completion ep_rom_seen].
  pose proof (concat_split_keep raw []) as Hcat. cbn [app] in Hcat. rewrite Hraw in Hcat.
  replace (before ++ rom :: early ++ run ++ line :: late ++ rest) with (inside ++ rest) in Hcat
    by (unfold inside; by rewrite <- !app_assoc, <- !app_comm_cons, <- !app_assoc).
  rewrite concat_app in Hcat.
  assert (Hstop : default (len raw) (match rest with [] => None | _ => Some (len (concat inside)) end) = len (concat inside)).
  { destruct rest; [|done]. simpl in *. by rewrite <- Hcat, app_nil_r. }
  rewrite Hstop. rewrite (proj2 (Z.leb_le _ _) Hle). cbn [check andb]. eexists. split; [reflexivity|]. cbn [eb_bytes].
  rewrite <- Hcat. unfold len. rewrite Nat2Z.id. apply take_app_length.
Qed.
End epoch.

(** A log of two epochs, of which only the first counts. *)
Definition two_epochs : list Z :=
  string_bytes ("ESP-ROM:x" +:+ newline_text +:+ "{row}" +:+ newline_text +:+ "ESP-ROM:y" +:+ newline_text +:+ "{row}" +:+ newline_text).
Definition completion_row (line : list Z) : option dict :=
  Some [("runId", PStr "embedded-swift-smoke-v2"); ("caseId", PStr "completion"); ("status", PStr "completed")].
Lemma first_epoch_exact_witness : exists e before line after rest,
  first_epoch completion_row two_epochs = Ok e /\ split_keep two_epochs [] = before ++ line :: after ++ rest /\ eb_excluded e = 16
  /\ eb_bytes e = concat (before ++ line :: after) /\ length (List.filter boundary (before ++ line :: after)) = 1%nat.
Proof.
  destruct (first_epoch completion_row two_epochs) as [e|x|x] eqn:He; [|vm_compute in He; discriminate He..].
  destruct (first_epoch_exact completion_row two_epochs e He) as (before & line & after & rest & Hl & Hb & _ & _ & _ & _ & Hn & _).
  exists e, before, line, after, rest. split_and!; [reflexivity|exact Hl| |exact Hb|exact Hn].
  vm_compute in He. injection He as <-. reflexivity.
Defined.

Lemma first_boot_accepted_witness : exists e,
  first_epoch completion_row two_epochs = Ok e /\ eb_bytes e = string_bytes ("ESP-ROM:x" +:+ newline_text +:+ "{row}" +:+ newline_text).
Proof.
  destruct (first_boot_accepted completion_row two_epochs [] (string_bytes ("ESP-ROM:x" +:+ newline_text)) [] []
    (string_bytes ("{row}" +:+ newline_text)) [] [string_bytes ("ESP-ROM:y" +:+ newline_text); string_bytes ("{row}" +:+ newline_text)])
    as (e & He & Hb); try (vm_compute; reflexivity); try constructor.
  exists e. split; [exact He|]. rewrite Hb. reflexivity.
Defined.
