(* ===== verification/FinalProof.v ===== *)
(** * The final initialization proof

    The command of [Tools/EmbeddedApplicationMacros/final_init_proof.py] after
    [argparse]. The scratch directory is the list of its files; external tools (the
    disassembler, the validators) are functions of it. *)
From S2P Require Import Prelude PyValue PyText PyRegex JsonDoc PyFiles PyInt Bytes Disassembly LinkedInputs Interval Program Engine InitProof OutputFiles StackCommand FinalInputs.

(** ** The managed output files *)
Definition OUTPUT_NAMES : list string :=
  ["first-init-proof.json"; "diagnostic-candidate.json"; "diagnostic-command.json"; "diagnostic.stdout.txt"; "diagnostic.stderr.txt";
   "firmware.disassembly.txt"; "rom.disassembly.txt"; "firmware.symbols.txt"; "objdump-version.txt"; "objdump.sha256"; "nm.sha256";
   "disassembler-command.json"; "disassembler.stdout.txt"; "disassembler.stderr.txt"; "build-config.json"; "callbacks.json";
   "calibration-extracted-from-raw.csv"; "calibration-extract-command.json"; "calibration-extract.stdout.txt"; "calibration-extract.stderr.txt";
   "calibration-validate-command.json"; "calibration-validate.stdout.txt"; "calibration-validate.stderr.txt"; "artifact-sha256.json";
   "initialization-cfg.json"; "first-epoch.log"; "smoke-result.json"; "smoke-command.json"; "smoke.stdout.txt"; "smoke.stderr.txt"].
(** What a failed run does not publish. *)
Definition RECEIPT_NAMES : list string := ["first-init-proof.json"; "artifact-sha256.json"; "initialization-cfg.json"].

Definition OBJDUMP_SHA256 : string := "0e390b782ff62cffb32649ef7cd7ea050b00b9e5f0ba05935adfc4bb8876d06a".
Definition NM_SHA256 : string := "96cedcf972b2d11194100880b6577b8cc7d268608e62a73b1b682c7cd23701a2".

Inductive final_error :=
  | Evidence (e : proof_error)
  | Linked (e : unclosed)
  | Unproven (e : engine_error)
  | OutputOverlaps (p : path)
  | OutputAliasesInput (p : path)
  | ManagedDirectory (p : path)
  | MissingArguments
  | WrongRom
  | NotCalibrated
  | RunReceipt
  | NoStackSize
  | RowsDiffer
  | SmokeFailed
  | ArtifactChanged
  | ToolMismatch
  | CommandFailed (label : string)
  | NotProduced (name : string)
  | StateNotZeroBacked
  | InventorySymbol (name : string)
  | ControlOutside (name : string).
Abbreviation frun := (outcome final_error).
Definition evidence {A} (m : prun A) : frun A := map_error Evidence m.

(** An answer of the operating system; its [OSError] is caught by [main]. *)
Definition os_get {E A} (a : os_answer A) : outcome E A := match a with Answer a => Ok a | _ => Crash OSError end.

Definition os_do {F E A} (op : F -> F * os_answer A) : io F E A := fun f => let '(f', a) := op f in (f', os_get a).

Section preflight.
Context `{FileSystem F}.

(** [p in q.parents] *)
Definition is_parent (p q : path) : bool := is_relative_to q p && negb (bool_decide (p = q)).

Definition check_directory (f : F) (output protected : path) : frun unit :=
  p ← os_get (os_resolve f protected);
  check (negb (bool_decide (output = p) || is_parent output p || is_parent p output)) (OutputOverlaps p).

Definition same_as (f : F) (candidate p : path) : frun bool :=
  here ← os_get (os_exists f candidate);
  if (here : bool) then
    there ← os_get (os_exists f p);
    if (there : bool) then os_get (os_samefile f candidate p) else Ok false
  else Ok false.
Fixpoint any_same (f : F) (candidate : path) (files : list path) : frun bool :=
  match files with
  | [] => Ok false
  | p :: files => b ← same_as f candidate p; if (b : bool) then Ok true else any_same f candidate files
  end.
Definition check_output_name (f : F) (output : path) (protected files : list path) (name : string) : frun unit :=
  candidate ← os_get (os_resolve f (path_join output name));
  same ← (if bool_decide (candidate ∈ protected) then Ok true else any_same f candidate files);
  check (negb same) (OutputAliasesInput candidate).

Definition validate_output_directory (output_dir : path) (directories files : list path) (f : F) : frun unit :=
  output ← os_get (os_resolve f output_dir);
  for_each (check_directory f output) directories ;;
  protected ← map_outcome (fun p => os_get (os_resolve f p)) files;
  for_each (check_output_name f output protected files) OUTPUT_NAMES.

Definition remove_managed (output : path) (name : string) : io F final_error unit :=
  let p := path_join output name in
  file ← pure (fun f => os_get (os_is_file f p));
  link ← pure (F := F) (fun f => if (file : bool) then Ok true else os_get (os_is_symlink f p));
  if (link : bool) then os_do (os_unlink p)
  else pure (fun f => present ← os_get (os_exists f p); check (negb present) (ManagedDirectory p)).
Fixpoint io_each {A} (body : A -> io F final_error unit) (l : list A) : io F final_error unit :=
  match l with [] => mret tt | x :: l => body x ;; io_each body l end.

(** The tolerant parser's last output directory, its directories and its files. *)
Record final_files := FinalFiles { ff_output : option path; ff_directories : list path; ff_files : list path }.
Definition preflight (p : final_files) : io F final_error unit :=
  match ff_output p with
  | None => mret tt
  | Some output =>
      let managed := ff_directories p ≫= fun directory => path_join directory <$> OUTPUT_NAMES in
      pure (validate_output_directory output (ff_directories p) (ff_files p ++ managed)) ;;
      present ← pure (fun f => os_get (os_exists f output));
      if (present : bool) then io_each (remove_managed output) OUTPUT_NAMES else mret tt
  end.
End preflight.

(** ** The inputs *)
Record final_arguments := FinalArguments {
  fa_profile : option string;
  fa_artifacts : option path;
  fa_profile_evidence : option path;
  fa_rom_elf : option path;
  fa_calibration_csv : option path;
  fa_raw_log : option path;
  fa_device_receipt : option path;
  fa_run_receipt : option path;
  fa_device_evidence : option path;
  fa_sdkconfig : option path;
  fa_output_dir : option path
}.
Record required_inputs := RequiredInputs {
  ri_profile : string; ri_artifacts : path; ri_evidence : path; ri_rom : path; ri_csv : path; ri_raw : path;
  ri_device_receipt : path; ri_run_receipt : path; ri_device : path; ri_sdkconfig : path; ri_output : path
}.
Definition require (a : final_arguments) : frun required_inputs :=
  match fa_profile a, fa_artifacts a, fa_profile_evidence a, fa_rom_elf a, fa_calibration_csv a, fa_raw_log a, fa_device_receipt a,
        fa_run_receipt a, fa_sdkconfig a, fa_output_dir a with
  | Some profile, Some artifacts, Some evidence, Some rom, Some csv, Some raw, Some device, Some run, Some sdk, Some output =>
      Ok (RequiredInputs profile artifacts evidence rom csv raw device run (default (parent_of raw) (fa_device_evidence a)) sdk output)
  | _, _, _, _, _, _, _, _, _, _ => Raise MissingArguments
  end.

(** What is known before the tools run. *)
Record bound_inputs := BoundInputs {
  bi_elf_hash : string;
  bi_map_hash : string;
  bi_bin_hash : string;
  bi_firmware : dict;
  bi_core : dict;
  bi_source_hash : string;
  bi_budget : dict;
  bi_mac : string;
  bi_capacity : Z
}.

(** A text under a key; a value of another type makes a [TypeError] where it is used. *)
Definition text_item_of {E} (k : string) (d : dict) : outcome E string :=
  v ← item k d; match v with PStr s => Ok s | _ => Crash TypeError end.

Section inputs.
Context `{FileSystem F} (sha256 : list Z -> string) (scan : string -> option jtree) (lower : string -> string)
  (source_hash_of : string -> prun string) (repo : path).

Definition read_bytes_of (f : F) (p : path) : frun (list Z) := os_get (os_read f p).
Definition read_text (bytes : list Z) : frun string := match decode_strict bytes with Some text => Ok text | None => Crash UnicodeError end.
Definition read_object (f : F) (p : path) : frun dict :=
  bytes ← read_bytes_of f p;
  text ← read_text bytes;
  match scan text with
  | None => Crash ValueError
  | Some t => match loads t with PDict d => Ok d | _ => Raise (Evidence (ExpectedObject p)) end
  end.
Definition digest (f : F) (p : path) : frun string := sha256 <$> read_bytes_of f p.

Definition check_run_receipt (run_receipt manifest firmware : dict) (profile raw_hash bin_hash : string) : frun unit :=
  check (py_eq (get "rawSha256" run_receipt) (PStr raw_hash) && py_eq (get "imageSha256" run_receipt) (PStr bin_hash)) RunReceipt ;;
  revision ← item "revision" firmware;
  check (py_eq (get "sourceHead" run_receipt) revision && py_eq (get "profile" run_receipt) (PStr (selected_profile profile))
         && py_eq (get "flashAndSmokeExit" run_receipt) (PInt 0) && is_true (get "calibrationValidated" run_receipt)
         && py_eq (get "calibrationRows" run_receipt) (PInt 6) && py_eq (get "deviceManifest" run_receipt) (PDict manifest)) RunReceipt.

Definition bind_inputs (r : required_inputs) (f : F) : frun bound_inputs :=
  let in_evidence name := path_join (ri_evidence r) name in
  let artifact name := path_join (ri_artifacts r) name in
  elf_hash ← digest f (artifact "axoloty-swift.elf");
  map_hash ← digest f (artifact "axoloty-swift.map");
  bin_hash ← digest f (artifact "axoloty-swift.bin");
  binary ← read_bytes_of f (artifact "axoloty-swift.bin");
  evidence (verify_binary_elf binary elf_hash) ;;
  rom_hash ← digest f (ri_rom r);
  check (String.eqb rom_hash ROM_SHA256) WrongRom ;;
  lock ← read_object f (path_join repo "axoloty-core.lock.json");
  provenance ← read_object f (in_evidence "build-provenance.json");
  producers ← evidence (validate_provenance provenance bin_hash lock);
  let '(firmware, core) := producers in
  revision ← text_item_of "revision" firmware;
  source_hash ← evidence (source_hash_of revision);
  calibration_config ← read_object f (in_evidence "allocator-calibration-config.json");
  check (int_is (get "schema" calibration_config) 1 && is_true (get "heapTraceCalibration" calibration_config)) NotCalibrated ;;
  storage ← read_object f (in_evidence "linked-static-storage-budget.json");
  policy ← read_object f (in_evidence "static-storage-policy.json");
  budget ← evidence (validate_storage storage policy (ri_profile r) elf_hash map_hash);
  device_receipt ← read_object f (ri_device_receipt r);
  evidence (validate_image_receipt device_receipt (ri_profile r) bin_hash) ;;
  manifest ← read_object f (path_join (ri_device r) "device-manifest.json");
  producer ← read_object f (path_join (ri_device r) "build-provenance.json");
  mac ← evidence (validate_device lower manifest producer device_receipt (ri_profile r) bin_hash firmware core);
  run_receipt ← read_object f (ri_run_receipt r);
  raw_hash ← digest f (ri_raw r);
  check_run_receipt run_receipt manifest firmware (ri_profile r) raw_hash bin_hash ;;
  sdkconfig ← read_object f (ri_sdkconfig r);
  match get "ESP_MAIN_TASK_STACK_SIZE" sdkconfig with
  | PInt capacity =>
      check (0 <? capacity) NoStackSize ;;
      Ok (BoundInputs elf_hash map_hash bin_hash firmware core source_hash budget mac capacity)
  | _ => Raise NoStackSize
  end.
End inputs.

(** ** The tools and the proof, in the scratch directory *)
Definition scratch : Type := list (string * list Z).
Record tool_result := ToolResult { tr_status : Z; tr_stdout : list Z; tr_stderr : list Z }.

Record control_class := ControlClass { cc_owner : pyval; cc_members : list (string * Z * Z * string * bool * pyval) }.
Record final_receipt := FinalReceipt {
  fr_profile : string;
  fr_bound : bound_inputs;
  fr_disassembly_hash : string;
  fr_rom_disassembly_hash : string;
  fr_objdump_version : list Z;
  fr_proof : interval_report;
  fr_controls : control_rows;
  fr_epoch : epoch;
  fr_epoch_hash : string;
  fr_csv_hash : string;
  fr_smoke : dict;
  fr_state : string * Z;
  fr_storage : list control_class
}.

Section body.
Context (sha256 : list Z -> string) (scan : string -> option jtree) (json_row : list Z -> option dict)
  (csv_rows : list Z -> prun (list (list string))) (run_tool : string -> scratch -> scratch * option tool_result)
  (command_text : string -> list Z) (dump_proof : interval_report -> list Z) (dump_receipt : final_receipt -> list Z)
  (dump_hashes : list (string * string) -> list Z)
  (alnum : Z -> bool) (set_order : list Z -> list Z) (fuel : nat).
Abbreviation wrun := (io scratch final_error).

Definition write_scratch (name : string) (bytes : list Z) : wrun unit := fun w => (dict_set name bytes w, Ok tt).
Definition read_scratch (name : string) : wrun (list Z) :=
  pure (fun w => match dict_get name w with Some bytes => Ok bytes | None => Crash OSError end).
Definition from {A} (m : frun A) : wrun A := pure (fun _ => m).

Definition run_command (label : string) (stdout_file : option string) (record : bool) : wrun unit :=
  (if record then write_scratch (label +:+ "-command.json") (command_text label) else mret tt) ;;
  result ← (fun w => let '(w', r) := run_tool label w in (w', match r with Some r => Ok r | None => Crash OSError end));
  (match stdout_file with Some name => write_scratch name (tr_stdout result) | None => mret tt end) ;;
  (if record
   then write_scratch (label +:+ ".stdout.txt") (tr_stdout result) ;; write_scratch (label +:+ ".stderr.txt") (tr_stderr result)
   else mret tt) ;;
  from (check (tr_status result =? 0) (CommandFailed label)).

Fixpoint each_command (l : list string) : wrun unit :=
  match l with [] => mret tt | name :: l => run_command ("disassembler-" +:+ name) (Some name) false ;; each_command l end.

(** [native] holds the two executables of [--tool-dir]. *)
Definition run_disassembler (native : option (list Z * list Z)) : wrun (string * string) :=
  (match native with
   | Some (objdump, nm) =>
       from (check (String.eqb (sha256 objdump) OBJDUMP_SHA256 && String.eqb (sha256 nm) NM_SHA256) ToolMismatch) ;;
       each_command ["objdump-version.txt"; "firmware.disassembly.txt"; "rom.disassembly.txt"; "firmware.symbols.txt"] ;;
       write_scratch "objdump.sha256" (string_bytes OBJDUMP_SHA256) ;;
       write_scratch "nm.sha256" (string_bytes NM_SHA256) ;;
       write_scratch "disassembler-command.json" (command_text "disassembler")
   | None => run_command "disassembler" None true
   end) ;;
  pure (fun w => for_each (fun name => check (has_key name w) (NotProduced name))
    ["firmware.disassembly.txt"; "rom.disassembly.txt"; "firmware.symbols.txt"; "objdump-version.txt"; "objdump.sha256"]) ;;
  firmware ← read_scratch "firmware.disassembly.txt";
  rom ← read_scratch "rom.disassembly.txt";
  mret (sha256 firmware, sha256 rom).

(** *** The inventory of the application *)
Definition LAZY_ROLE : string := "lazy-initialization-control-candidate".
Definition as_list (v : pyval) : frun (list pyval) := match v with PList l => Ok l | _ => Crash TypeError end.
Definition as_dict (v : pyval) : frun dict := match v with PDict d => Ok d | _ => Crash TypeError end.
Definition expected_symbols (entry : pyval) : frun (pyval * list dict) :=
  d ← as_dict entry;
  symbols ← (v ← item "expectedSymbols" d; as_list v);
  symbols ← map_outcome as_dict symbols;
  Ok (PDict d, symbols).
Definition inventory_entries (inventory : dict) : frun (list (pyval * list dict)) :=
  entries ← (v ← item "entries" inventory; as_list v); map_outcome expected_symbols entries.
Definition guard_name (symbol : dict) : frun (option string) :=
  role ← item "role" symbol; if py_eq role (PStr LAZY_ROLE) then Some <$> text_item_of "rawName" symbol else Ok None.
Definition required_guards (entries : list (pyval * list dict)) : frun (list string) :=
  (fun found : list (option string) => omap id found) <$> map_outcome guard_name (entries ≫= snd).

Definition class_member (rows : list image_symbol) (guarded : list string) (expected : dict) :
    frun (string * Z * Z * string * bool * pyval) :=
  name ← text_item_of "rawName" expected;
  match List.filter (fun row => String.eqb (im_name row) name) rows with
  | [row] =>
      role ← item "role" expected;
      check (negb (py_eq role (PStr LAZY_ROLE) && negb (bool_decide (im_name row ∈ guarded)))) (ControlOutside (im_name row)) ;;
      Ok (im_name row, im_address row, im_size row, im_section row, im_section_type row =? 8, role)
  | _ => Raise (InventorySymbol name)
  end.
Definition storage_class (rows : list image_symbol) (guarded : list string) (entry : pyval * list dict) : frun control_class :=
  members ← map_outcome (class_member rows guarded) entry.2;
  owner ← (d ← as_dict entry.1; item "owner" d);
  Ok (ControlClass owner members).

Definition state_of (rows : list image_symbol) (name : string) : frun (string * Z) :=
  match List.filter (fun row => String.eqb (im_name row) name) rows with
  | [row] =>
      check ((im_size row =? 4) && (im_type row =? 1) && (im_section_type row =? 8)) StateNotZeroBacked ;;
      Ok (name, im_address row)
  | _ => Raise StateNotZeroBacked
  end.

(** *** The body of the evidence workspace *)
(** The calibration rows and the smoke result of the first epoch. *)
Definition observe (raw calibration_csv : frun (list Z)) : wrun (epoch * list Z * control_rows * dict) :=
  selected ← from (log ← raw; evidence (first_epoch json_row log));
  write_scratch "first-epoch.log" (eb_bytes selected) ;;
  run_command "calibration-extract" None true ;;
  extracted ← read_scratch "calibration-extracted-from-raw.csv";
  from (expected ← calibration_csv; check (bool_decide (extracted = expected)) RowsDiffer) ;;
  run_command "calibration-validate" None true ;;
  controls ← from (evidence (rows ← csv_rows extracted; parse_calibration rows));
  run_command "smoke" None true ;;
  result ← read_scratch "smoke-result.json";
  smoke ← from (text ← read_text result;
                match scan text with
                | None => Crash ValueError
                | Some t => match loads t with
                            | PDict d => v ← item "validation" d; match v with PDict s => Ok s | _ => Crash AttributeError end
                            | _ => Raise (Evidence (ExpectedObject (path_of "smoke-result.json")))
                            end
                end);
  from (check (is_true (get "passed" smoke) && py_eq (get "counts" smoke) (PDict [("passed", PInt 312); ("failed", PInt 0)])) SmokeFailed) ;;
  mret (selected, extracted, controls, smoke).

(** The proof of the artifacts that are frozen into the scratch directory. *)
Definition prove_artifacts (b : bound_inputs) (elf rom : frun (list Z)) (native : option (list Z * list Z)) (inventory : frun dict) :
    wrun ((string * string) * program * interval_report * list (pyval * list dict)) :=
  elf ← from elf;
  write_scratch "input.elf" elf ;;
  rom ← from rom;
  write_scratch "input-rom.elf" rom ;;
  from (check (String.eqb (sha256 elf) (bi_elf_hash b) && String.eqb (sha256 rom) ROM_SHA256) ArtifactChanged) ;;
  hashes ← run_disassembler native;
  firmware_text ← (bytes ← read_scratch "firmware.disassembly.txt"; from (read_text bytes));
  rom_text ← (bytes ← read_scratch "rom.disassembly.txt"; from (read_text bytes));
  program ← from (map_error Linked (load_program alnum sha256 elf firmware_text rom rom_text));
  entries ← from (document ← inventory; inventory_entries document);
  required ← from (required_guards entries);
  proof ← from (map_error Unproven (prove alnum set_order sha256 fuel program (bi_capacity b) required));
  write_scratch "initialization-cfg.json" (dump_proof proof) ;;
  mret (hashes, program, proof, entries).

(** The names that are published, in the order of publication, and their digests. *)
Definition manifest_names (w : scratch) : list string :=
  sorted_strings (List.filter (fun name => negb (String.eqb name "artifact-sha256.json") && has_key name w) OUTPUT_NAMES).
Definition write_manifest : wrun unit := fun w =>
  (dict_set "artifact-sha256.json"
     (dump_hashes (omap (fun name => (fun bytes => (name, sha256 bytes)) <$> dict_get name w) (manifest_names w))) w, Ok tt).

Definition establish (profile : string) (b : bound_inputs) (elf rom raw calibration_csv : frun (list Z)) (native : option (list Z * list Z))
    (inventory : frun dict) :
    wrun final_receipt :=
  observed ← observe raw calibration_csv;
  let '(selected, extracted, controls, smoke) := observed in
  proven ← prove_artifacts b elf rom native inventory;
  let '(hashes, program, proof, entries) := proven in
  symbols ← (bytes ← read_scratch "firmware.symbols.txt"; from (read_text bytes));
  state_name ← from (evidence (one_symbol symbols (contains "__axoloty_application_state") "State backing"));
  state ← from (state_of (pr_rows program) state_name);
  storage ← from (map_outcome (storage_class (pr_rows program) (gd_symbol <$> rp_controls proof)) entries);
  version ← (bytes ← read_scratch "objdump-version.txt";
             from (text ← read_text bytes; match split_lines (codepoints text) with line :: _ => Ok line | [] => Crash IndexError end));
  let receipt := FinalReceipt profile b hashes.1 hashes.2 version proof controls selected (sha256 (eb_bytes selected)) (sha256 extracted) smoke state storage in
  write_scratch "first-init-proof.json" (dump_receipt receipt) ;;
  write_manifest ;;
  mret receipt.

(** ** The command *)
Context `{FileSystem F} (lower : string -> string) (source_hash_of : string -> prun string) (repo : path)
  (place : path -> list Z -> F -> F * os_answer unit).

(** [os.replace] of a file of the scratch directory onto a path. *)
Abbreviation orun := (io (F * scratch) final_error).
Definition publish (output : path) (name : string) : orun unit := fun s =>
  match dict_get name s.2 with
  | Some bytes =>
      match place (path_join output name) bytes s.1 with
      | (f', Answer _) => ((f', List.filter (fun kv => negb (String.eqb kv.1 name)) s.2), Ok tt)
      | (f', _) => ((f', s.2), Crash OSError)
      end
  | None => (s, Crash OSError)
  end.
(** What a failing body leaves: the managed files but the receipt and its manifests. *)
Definition publish_log (output : path) (name : string) : orun unit := fun s =>
  if negb (bool_decide (name ∈ RECEIPT_NAMES)) && has_key name s.2 then publish output name s else (s, Ok tt).
Definition publish_logs {A} (output : path) (failed : frun A) : orun A :=
  io_each (publish_log output) OUTPUT_NAMES ;; pure (fun _ => failed).
Definition publish_all (output : path) (names : list string) : orun unit := io_each (publish output) (names ++ ["artifact-sha256.json"]).

Definition evidence_workspace {A} (output : path) (body : wrun A) : io F final_error A := fun f =>
  match body [] with
  | (w, Ok a) =>
      match publish_all output (manifest_names w) (f, w) with
      | (s, Ok _) => (s.1, Ok a)
      | (s, Raise e) => let '(s', r) := publish_logs output (Raise e) s in (s'.1, r)
      | (s, Crash x) => let '(s', r) := publish_logs output (Crash x) s in (s'.1, r)
      end
  | (w, failed) => let '(s, r) := publish_logs output failed (f, w) in (s.1, r)
  end.

Definition in_workspace (r : required_inputs) (b : bound_inputs) (native : option (list Z * list Z)) : io F final_error final_receipt := fun f =>
  let artifact name := read_bytes_of f (path_join (ri_artifacts r) name) in
  evidence_workspace (ri_output r)
    (establish (ri_profile r) b (artifact "axoloty-swift.elf") (read_bytes_of f (ri_rom r)) (read_bytes_of f (ri_raw r))
       (read_bytes_of f (ri_csv r)) native
       (read_object scan f (path_join repo "Applications/device-smoke-agent/storage-inventory.json"))) f.

Definition final_run (p : final_files) (a : final_arguments) (native : option (list Z * list Z)) : io F final_error final_receipt :=
  preflight p ;;
  r ← pure (fun _ => require a);
  b ← pure (bind_inputs sha256 scan lower source_hash_of repo r);
  os_do (os_make_directories (ri_output r)) ;;
  in_workspace r b native.
(** [main] returns 1 for the errors it catches; any other ends it with a traceback. *)
Definition final_status (p : final_files) (a : final_arguments) (native : option (list Z * list Z)) (f : F) : Z :=
  exit_status 0 1 (final_run p a native f).2.
End body.
