(* ===== verification/FinalFixture.v ===== *)
(** * An image, its evidence and a run of the final initialization proof that passes *)
From S2P Require Import Prelude PyValue PyText PyRegex JsonDoc PyFiles PyInt Bytes Disassembly StackFrame LinkedInputs Interval Program Engine IntervalFixture InitProof InitFixture OutputFiles FlatFiles StackCommand FinalInputs FinalProof.

(** ** The ELF image of the firmware *)
Definition TEXT_START : Z := 0x100.
Definition TEXT_SIZE : Z := 0x820.
Definition listing_lines : list string := firmware_listing ≫= snd.
(** The bytes of the encodings at their addresses, and zeros elsewhere. *)
Definition put_bytes (memory : gmap Z Z) (ins : instruction) : gmap Z Z :=
  match ins_encoding ins with
  | Some text => match encoding_bytes text with
                 | Ok bytes => foldl (fun m ib => <[ins_address ins + Z.of_nat ib.1 := ib.2]> m) memory (imap (fun i b => (i, b)) bytes)
                 | _ => memory
                 end
  | None => memory
  end.
Definition text_bytes : list Z :=
  let memory := foldl put_bytes (∅ : gmap Z Z) (omap (fun l => decode_line ascii_only (codepoints l)) listing_lines) in
  (fun a => default 0 (memory !! a)) <$> seqZ TEXT_START TEXT_SIZE.

(** [(name, address, size, type)] of the symbols; the object symbols are in [.bss]. *)
Definition image_rows : list (string * Z * Z * Z) :=
  ((fun f => (f.1.1.1, f.1.1.2, f.1.2, 2)) <$> firmware_listing)
  ++ [("malloc", 0x900, 16, 2); ("$e10__idf_main5guard_Wz", 0x40800000, 4, 1); ("__axoloty_application_state", 0x40800004, 4, 1)].
Definition names_table (names : list string) : list Z := 0 :: (names ≫= fun n => string_bytes n ++ [0]).
Fixpoint name_offset (name : string) (names : list string) (position : Z) : Z :=
  match names with
  | [] => 0
  | n :: names => if String.eqb n name then position else name_offset name names (position + len (string_bytes n) + 1)
  end.
Definition elf_of (rows : list (string * Z * Z * Z)) (text : list Z) : list Z :=
  let names := [".names"; ".symtab"; ".text"; ".bss"] ++ ((fun r => r.1.1.1) <$> rows) in
  let table := names_table names in
  let offset name := name_offset name names 1 in
  let symbols := pack_fields elf32_symbol [0; 0; 0; 0; 0; 0]
    ++ (rows ≫= fun r => pack_fields elf32_symbol [offset r.1.1.1; r.1.1.2; r.1.2; 0x10 + r.2; 0; if r.2 =? 2 then 3 else 4]) in
  let sym_off := 52 + len table in
  let text_off := sym_off + len symbols in
  let sections_off := text_off + len text in
  elf32_magic ++ [1; 0; 0; 0; 0; 0; 0; 0; 0; 0]
  ++ pack_fields elf32_header [2; 243; 1; 0; 0; sections_off; 0; 52; 0; 0; 40; 5; 1]
  ++ table ++ symbols ++ text
  ++ pack_fields elf32_section [0; 0; 0; 0; 0; 0; 0; 0; 0; 0]
  ++ pack_fields elf32_section [offset ".names"; 3; 0; 0; 52; len table; 0; 0; 1; 0]
  ++ pack_fields elf32_section [offset ".symtab"; 2; 0; 0; sym_off; len symbols; 1; 0; 4; 16]
  ++ pack_fields elf32_section [offset ".text"; 1; 6; TEXT_START; text_off; len text; 0; 0; 2; 0]
  ++ pack_fields elf32_section [offset ".bss"; 8; 3; 0x40800000; sections_off; 8; 0; 0; 4; 0].
Definition final_elf : list Z := Eval vm_compute in elf_of image_rows text_bytes.
Definition final_rom : list Z := Eval vm_compute in elf_of [] [].
Definition final_text : string := foldr (fun l rest => l +:+ newline_text +:+ rest) "" listing_lines.
Definition pinned_hash (bytes : list Z) : string := ROM_SHA256.

Abbreviation final_program := (load_program ascii_only pinned_hash final_elf final_text final_rom "").
Example final_program_proves :
  match final_program with
  | Ok p => match prove ascii_only id pinned_hash 40 p 4096 ["$e10__idf_main5guard_Wz"] with Ok rep => rp_maximum rep | _ => -1 end
  | _ => -2
  end = 80.
Proof. vm_compute. reflexivity. Qed.

(** ** The evidence *)
Definition at_final (name : string) : path := path_of ("/w/" +:+ name).
Definition revision_text : string := "0123456789012345678901234567890123456789".
Definition log_text : string := "ESP-ROM:x" +:+ newline_text +:+ "{row}" +:+ newline_text.
Definition final_json_row (line : list Z) : option dict :=
  Some [("runId", PStr "embedded-swift-smoke-v2"); ("caseId", PStr "completion"); ("status", PStr "completed")].
Definition control_row (c : string * list Z) : list string :=
  let value k v := k +:+ "=" +:+ v in
  "AXOLOTY_HEAP_CAL_V1" ::
  [value "case" c.1; "result=PASS"; "coverage_complete=0"; "begin=0"; "end_called=1"; "summary=1"; "mode_ok=1"] ++
  match c.1 with
  | "zero" => ["alloc=0"; "frees=0"; "overflow=0"; "end=0"]
  | "malloc_multiple" => ["alloc=2"; "frees=2"; "overflow=0"; "end=0"]
  | "overflow" => ["alloc=0xffffffff"; "frees=0"; "overflow=1"; "end=-3"]
  | _ => ["alloc=1"; "frees=1"; "overflow=0"; "end=0"]
  end.
Definition final_csv_rows (bytes : list Z) : prun (list (list string)) := Ok (control_row <$> CASES).

Definition mac_text : string := "aa:bb:cc:dd:ee:ff".
Definition device_row : jtree :=
  JObject [("profile", JStr "mqtt"); ("imageSha256", JStr ROM_SHA256); ("boardBaseMac", JStr mac_text); ("source", JStr revision_text);
           ("smokePassed", JInt 312); ("failed", JInt 0); ("calibrationControlsPassed", JInt 6)].
Definition device_manifest : jtree :=
  JObject [("chip", JStr "esp32c6"); ("chipDescription", JStr "ESP32-C6 (revision v0.0)"); ("queried", JBool true); ("mac", JStr mac_text)].
Definition provenance_tree : jtree :=
  JObject [("status", JStr "passed"); ("firmware", JObject [("dirty", JBool false); ("sourceCopied", JBool false); ("revision", JStr revision_text)]);
           ("core", JObject [("dirty", JBool false); ("sha", JStr "core")]); ("artifact", JObject [("sha256", JStr ROM_SHA256)])].
Definition final_documents : list (string * jtree) := [
  ("lock", JObject [("core", JObject [("revision", JStr "core")])]);
  ("provenance", provenance_tree);
  ("calibration", JObject [("schema", JInt 1); ("heapTraceCalibration", JBool true)]);
  ("storage", JObject [("schema", JStr "axoloty.linked-storage-measurement.v1");
     ("input", JObject [("elf_sha256", JStr ROM_SHA256); ("map_sha256", JStr ROM_SHA256)]);
     ("static_storage_budget", JObject [("ceiling_bytes", JInt 73728); ("passed", JBool true); ("actual_bytes", JInt 8); ("headroom_bytes", JInt 73720)]);
     ("aggregate_charged_static_bytes", JInt 8); ("inventory_join", JObject [("join_status", JStr "matched")]);
     ("attribution", JObject [("complete", JBool false)])]);
  ("policy", JObject [("schema", JStr "axoloty.app-static-storage-policy.v1"); ("profile", JStr "esp32c6-mqtt"); ("status", JStr "enforced")]);
  ("device", JObject [("profileBuilds", JArray [JObject [("profile", JStr "mqtt"); ("calibration", JStr "ON"); ("imageSha256", JStr ROM_SHA256)]]);
     ("devices", JArray [device_row]); ("coverageComplete", JBool false); ("coreRevision", JStr "core")]);
  ("manifest", device_manifest);
  ("run", JObject [("rawSha256", JStr ROM_SHA256); ("imageSha256", JStr ROM_SHA256); ("sourceHead", JStr revision_text); ("profile", JStr "mqtt");
     ("flashAndSmokeExit", JInt 0); ("calibrationValidated", JBool true); ("calibrationRows", JInt 6); ("deviceManifest", device_manifest)]);
  ("sdk", JObject [("ESP_MAIN_TASK_STACK_SIZE", JInt 4096)]);
  ("smoke", JObject [("validation", JObject [("passed", JBool true); ("counts", JObject [("passed", JInt 312); ("failed", JInt 0)])])]);
  ("inventory", JObject [("entries", JArray [JObject [("owner", JStr "app"); ("expectedSymbols",
     JArray [JObject [("rawName", JStr "$e10__idf_main5guard_Wz"); ("role", JStr LAZY_ROLE)];
             JObject [("rawName", JStr "__axoloty_application_state"); ("role", JStr "state")]])]])])
].
Definition final_scan (text : string) : option jtree := dict_get text final_documents.

(** The binary: its magic, one segment, and the application descriptor with the digest. *)
Definition final_binary : list Z :=
  [0xE9; 1] ++ replicate 30 0 ++ [0x32; 0x54; 0xCD; 0xAB] ++ replicate 140 0 ++ default [] (from_hex (string_bytes ROM_SHA256)).
Definition final_contents : list (string * list Z) := [
  ("art/axoloty-swift.elf", final_elf); ("art/axoloty-swift.map", []); ("art/axoloty-swift.bin", final_binary); ("rom.elf", final_rom);
  ("repo/axoloty-core.lock.json", string_bytes "lock"); ("ev/build-provenance.json", string_bytes "provenance");
  ("ev/allocator-calibration-config.json", string_bytes "calibration"); ("ev/linked-static-storage-budget.json", string_bytes "storage");
  ("ev/static-storage-policy.json", string_bytes "policy"); ("device.json", string_bytes "device");
  ("board/device-manifest.json", string_bytes "manifest"); ("board/build-provenance.json", string_bytes "provenance");
  ("run.json", string_bytes "run"); ("sdk.json", string_bytes "sdk"); ("raw.log", string_bytes log_text); ("controls.csv", string_bytes "rows");
  ("repo/Applications/device-smoke-agent/storage-inventory.json", string_bytes "inventory")].
Definition final_files_before : flat := fun p => snd <$> List.find (fun kv => bool_decide (at_final kv.1 = p)) final_contents.

Definition final_tool (label : string) (w : scratch) : scratch * option tool_result :=
  let done := Some (ToolResult 0 [] []) in
  match label with
  | "calibration-extract" => (dict_set "calibration-extracted-from-raw.csv" (string_bytes "rows") w, done)
  | "smoke" => (dict_set "smoke-result.json" (string_bytes "smoke") w, done)
  | "disassembler" =>
      (dict_set "firmware.disassembly.txt" (string_bytes final_text) (dict_set "rom.disassembly.txt" []
        (dict_set "firmware.symbols.txt" (string_bytes ("40800004 00000004 b __axoloty_application_state" +:+ newline_text))
          (dict_set "objdump-version.txt" (string_bytes "objdump") (dict_set "objdump.sha256" [] w)))), done)
  | _ => (w, done)
  end.
Definition final_arguments_of : final_arguments :=
  FinalArguments (Some "esp32c6-mqtt") (Some (at_final "art")) (Some (at_final "ev")) (Some (at_final "rom.elf")) (Some (at_final "controls.csv"))
    (Some (at_final "raw.log")) (Some (at_final "device.json")) (Some (at_final "run.json")) (Some (at_final "board")) (Some (at_final "sdk.json"))
    (Some (at_final "out")).
Definition final_protected : final_files :=
  FinalFiles (Some (at_final "out")) [at_final "art"; at_final "ev"; at_final "board"]
    (at_final <$> ["rom.elf"; "controls.csv"; "raw.log"; "device.json"; "run.json"; "sdk.json"]).
Definition final_place (p : path) (bytes : list Z) (f : flat) : flat * os_answer unit := (flat_set p (Some bytes) f, Answer tt).
Definition no_text (label : string) : list Z := [].
Abbreviation final_once := (final_run pinned_hash final_scan final_json_row final_csv_rows final_tool no_text (fun r => [rp_maximum r]) (fun r => [1])
  (fun hashes => [Z.of_nat (length hashes)]) ascii_only id 40 id (fun revision => Ok "") (at_final "repo")).
Example final_run_passes :
  let r := final_once final_place final_protected final_arguments_of None final_files_before in
  (match r.2 with Ok receipt => Some (rp_maximum (fr_proof receipt), fr_state receipt) | _ => None end,
   r.1 (at_final "out/first-init-proof.json"), r.1 (at_final "out/initialization-cfg.json")) =
  (Some (80, ("__axoloty_application_state", 0x40800004)), Some [1], Some [80]).
Proof. vm_compute. reflexivity. Qed.

(** The receipt is published before other files: a replacement that fails after it
    leaves an accepted receipt, without its manifest, and the run ends with 1. *)
Definition refusing_place (p : path) (bytes : list Z) (f : flat) : flat * os_answer unit :=
  if bool_decide (p = at_final "out/objdump-version.txt") then (f, Denied) else final_place p bytes f.
Example failed_run_leaves_receipt :
  let r := final_once refusing_place final_protected final_arguments_of None final_files_before in
  (exit_status 0 1 r.2, r.1 (at_final "out/first-init-proof.json"), r.1 (at_final "out/artifact-sha256.json")) = (1, Some [1], None).
Proof. vm_compute. reflexivity. Qed.

(** A report that says it passed is believed, although its charge exceeds the ceiling. *)
Example exceeded_storage_accepted :
  succeeds (validate_storage
    [("schema", PStr "axoloty.linked-storage-measurement.v1"); ("input", PDict [("elf_sha256", PStr "e"); ("map_sha256", PStr "m")]);
     ("static_storage_budget", PDict [("ceiling_bytes", PInt 73728); ("passed", PBool true); ("actual_bytes", PInt 80000); ("headroom_bytes", PInt (-6272))]);
     ("aggregate_charged_static_bytes", PInt 80000); ("inventory_join", PDict [("join_status", PStr "matched")]);
     ("attribution", PDict [("complete", PBool false)])]
    [("schema", PStr "axoloty.app-static-storage-policy.v1"); ("profile", PStr "p"); ("status", PStr "enforced")] "p" "e" "m") = true.
Proof. vm_compute. reflexivity. Qed.

(** A board address that is not a text ends in an [AttributeError], which the command
    does not catch. *)
Example numeric_mac_crashes : board_mac id [("mac", PInt 1)] = Crash AttributeError.
Proof. reflexivity. Qed.
