(* ===== verification/FinalTheorems.v ===== *)
(** * What a final initialization receipt binds *)
From S2P Require Import Prelude PyValue PyText PyRegex JsonDoc PyFiles PyInt Bytes Disassembly DisassemblyTheorems StackFrame LinkedInputs Interval Program Iterate Engine ProgramTheorems Rv32 EngineTheorems StackBound ProgramTypes InitProof InitProofTheorems OutputFiles FlatFiles StackCommand FinalInputs FinalProof InitFixture IntervalFixture FinalFixture.

Lemma load_program_keyed alnum sha256 firmware firmware_text rom rom_text p :
  load_program alnum sha256 firmware firmware_text rom rom_text = Ok p -> keyed_functions p.
Proof. intros Hp%load_program_typed a fn Hf%fn_at_elem. by apply (wf_functions _ Hp) in Hf as [Hs _]. Qed.

(** ** The controls *)
Lemma parse_calibration_inv csv controls : parse_calibration csv = Ok controls ->
  forall name expected, (name, expected) ∈ CASES -> exists row,
    dict_get name controls = Some row /\ text_is "result" "PASS" row = true /\ text_is "coverage_complete" "0" row = true
    /\ map_outcome (fun field => int_field field row) ["alloc"; "frees"; "overflow"; "end"] = Ok expected
    /\ text_is "begin" "0" row = true /\ text_is "end_called" "1" row = true /\ text_is "mode_ok" "1" row = true.
Proof.
  unfold parse_calibration. intros (rows & _ & Hc)%bind_Ok. apply bind_Ok in Hc as ([] & Hset%check_Ok%bool_decide_eq_true & Hc).
  apply bind_Ok in Hc as ([] & Hall & [= <-]). intros name expected Hin.
  apply for_each_Ok in Hall. rewrite Forall_forall in Hall. specialize (Hall _ Hin). unfold check_case in Hall. cbn [fst snd] in Hall.
  destruct (dict_get name rows) as [row|] eqn:Erow; [|done].
  apply bind_Ok in Hall as ([] & Hr%check_Ok & Hall). apply bind_Ok in Hall as (fields & Hf & Hall).
  apply bind_Ok in Hall as ([] & Hv%check_Ok & Ho%check_Ok). bool_prop. subst fields. exists row. split_and!; try done.
  clear - Erow. assert (Hk : name ∈ sorted_strings (keys rows)).
  { rewrite sorted_strings_perm. apply elem_of_keys. by exists row. }
  induction (sorted_strings (keys rows)) as [|k l IH]; [by apply elem_of_nil in Hk|]. cbn [omap list_omap].
  destruct (dict_get k rows) as [row'|] eqn:Ek; cbn [fmap option_fmap option_map].
  - cbn [dict_get]. destruct (String.eqb_spec name k) as [<-|Hne]; [congruence|]. apply IH. by apply elem_of_cons in Hk as [?|?].
  - apply IH. apply elem_of_cons in Hk as [->|?]; [congruence|done].
Qed.

(** ** The body *)
Section body.
Context (sha256 : list Z -> string) (scan : string -> option jtree) (json_row : list Z -> option dict)
  (csv_rows : list Z -> prun (list (list string))) (run_tool : string -> scratch -> scratch * option tool_result)
  (command_text : string -> list Z) (dump_proof : interval_report -> list Z) (dump_receipt : final_receipt -> list Z)
  (dump_hashes : list (string * string) -> list Z)
  (alnum : Z -> bool) (set_order : list Z -> list Z) (fuel : nat).

Lemma from_Ok {A} (m : frun A) w w' a : from m w = (w', Ok a) <-> w' = w /\ m = Ok a.
Proof. unfold from, pure. naive_solver. Qed.
Lemma evidence_Ok {A} (m : prun A) a : evidence m = Ok a <-> m = Ok a.
Proof. apply map_error_Ok. Qed.

Lemma observe_inv raw csv w w' selected extracted controls smoke :
  observe scan json_row csv_rows run_tool command_text raw csv w = (w', Ok (selected, extracted, controls, smoke)) ->
  (exists log, raw = Ok log /\ first_epoch json_row log = Ok selected) /\ csv = Ok extracted
  /\ (exists rows, csv_rows extracted = Ok rows /\ parse_calibration rows = Ok controls)
  /\ get "passed" smoke = PBool true /\ py_eq (get "counts" smoke) (PDict [("passed", PInt 312); ("failed", PInt 0)]) = true.
Proof.
  unfold observe. intros (w1 & sel & [_ Hsel]%from_Ok & H1)%io_bind_Ok.
  apply bind_Ok in Hsel as (log & Hlog & Hsel%evidence_Ok).
  apply io_bind_Ok in H1 as (w2 & [] & _ & H1). apply io_bind_Ok in H1 as (w3 & [] & _ & H1).
  apply io_bind_Ok in H1 as (w4 & ext & _ & H1). apply io_bind_Ok in H1 as (w5 & [] & [_ Hcsv]%from_Ok & H1).
  apply io_bind_Ok in H1 as (w6 & [] & _ & H1). apply io_bind_Ok in H1 as (w7 & ctl & [_ Hctl%evidence_Ok]%from_Ok & H1).
  apply io_bind_Ok in H1 as (w8 & [] & _ & H1). apply io_bind_Ok in H1 as (w9 & result & _ & H1).
  apply io_bind_Ok in H1 as (w10 & smk & _ & H1). apply io_bind_Ok in H1 as (w11 & [] & [_ Hsm%check_Ok]%from_Ok & H1).
  injection H1 as _ <- <- <- <-. apply bind_Ok in Hcsv as (expected & Hexp & ->%check_Ok%bool_decide_eq_true).
  apply bind_Ok in Hctl as (rows & ? & ?). apply andb_true_iff in Hsm as [Hp Hc].
  split_and!; [by exists log|done|by exists rows| |done]. destruct (get "passed" smk) as [|[]| | | | |]; done.
Qed.

Lemma prove_artifacts_inv b elf rom native inventory w w' hashes program proof entries :
  prove_artifacts sha256 run_tool command_text dump_proof alnum set_order fuel b elf rom native inventory w =
    (w', Ok (hashes, program, proof, entries)) ->
  exists elf_bytes rom_bytes firmware_text rom_text required,
    elf = Ok elf_bytes /\ rom = Ok rom_bytes /\ sha256 elf_bytes = bi_elf_hash b /\ sha256 rom_bytes = ROM_SHA256
    /\ load_program alnum sha256 elf_bytes firmware_text rom_bytes rom_text = Ok program
    /\ required_guards entries = Ok required /\ prove alnum set_order sha256 fuel program (bi_capacity b) required = Ok proof.
Proof.
  unfold prove_artifacts. intros (w1 & elf_bytes & [_ Helf]%from_Ok & H1)%io_bind_Ok.
  apply io_bind_Ok in H1 as (w2 & [] & _ & H1). apply io_bind_Ok in H1 as (w3 & rom_bytes & [_ Hrom]%from_Ok & H1).
  apply io_bind_Ok in H1 as (w4 & [] & _ & H1). apply io_bind_Ok in H1 as (w5 & [] & [_ Hh%check_Ok]%from_Ok & H1).
  apply io_bind_Ok in H1 as (w6 & hs & _ & H1). apply io_bind_Ok in H1 as (w7 & ftext & _ & H1).
  apply io_bind_Ok in H1 as (w8 & rtext & _ & H1). apply io_bind_Ok in H1 as (w9 & prog & [_ Hprog%map_error_Ok]%from_Ok & H1).
  apply io_bind_Ok in H1 as (w10 & ents & _ & H1). apply io_bind_Ok in H1 as (w11 & required & [_ Hreq]%from_Ok & H1).
  apply io_bind_Ok in H1 as (w12 & prf & [_ Hprf%map_error_Ok]%from_Ok & H1). apply io_bind_Ok in H1 as (w13 & [] & _ & H1).
  injection H1 as _ <- <- <- <-. apply andb_true_iff in Hh as [He%String.eqb_eq Hr%String.eqb_eq].
  by exists elf_bytes, rom_bytes, ftext, rtext, required.
Qed.

(** What the receipt of a body says, piece by piece. *)
Record established (b : bound_inputs) (elf rom raw csv : frun (list Z)) (receipt : final_receipt) : Prop := {
  es_bound : fr_bound receipt = b;
  es_controls : exists extracted rows, csv = Ok extracted /\ csv_rows extracted = Ok rows /\ parse_calibration rows = Ok (fr_controls receipt);
  es_epoch : exists log, raw = Ok log /\ first_epoch json_row log = Ok (fr_epoch receipt);
  es_smoke : get "passed" (fr_smoke receipt) = PBool true
    /\ py_eq (get "counts" (fr_smoke receipt)) (PDict [("passed", PInt 312); ("failed", PInt 0)]) = true;
  es_proof : exists elf_bytes rom_bytes firmware_text rom_text program required,
    elf = Ok elf_bytes /\ rom = Ok rom_bytes /\ sha256 elf_bytes = bi_elf_hash b /\ sha256 rom_bytes = ROM_SHA256
    /\ load_program alnum sha256 elf_bytes firmware_text rom_bytes rom_text = Ok program
    /\ prove alnum set_order sha256 fuel program (bi_capacity b) required = Ok (fr_proof receipt)
    /\ (exists row, List.filter (fun row => String.eqb (im_name row) (fr_state receipt).1) (pr_rows program) = [row]
          /\ im_size row = 4 /\ im_type row = 1 /\ im_section_type row = 8 /\ im_address row = (fr_state receipt).2)
}.

Lemma state_of_inv rows name state : state_of rows name = Ok state ->
  exists row, List.filter (fun row => String.eqb (im_name row) state.1) rows = [row]
    /\ im_size row = 4 /\ im_type row = 1 /\ im_section_type row = 8 /\ im_address row = state.2.
Proof.
  unfold state_of. destruct (List.filter _ _) as [|row []] eqn:E; [done| |done]. intros ([] & Hc%check_Ok & [= <-])%bind_Ok.
  bool_prop. by exists row.
Qed.

Lemma establish_inv profile b elf rom raw csv native inventory w w' receipt :
  establish sha256 scan json_row csv_rows run_tool command_text dump_proof dump_receipt dump_hashes alnum set_order fuel
    profile b elf rom raw csv native inventory w = (w', Ok receipt) ->
  established b elf rom raw csv receipt.
Proof.
  unfold establish. intros (w1 & [[[selected extracted] controls] smoke] & Hobs & H1)%io_bind_Ok.
  apply io_bind_Ok in H1 as (w2 & [[[hashes program] proof] entries] & Hprf & H1).
  apply io_bind_Ok in H1 as (w3 & symbols & _ & H1). apply io_bind_Ok in H1 as (w4 & name & _ & H1).
  apply io_bind_Ok in H1 as (w5 & state & [_ Hstate]%from_Ok & H1). apply io_bind_Ok in H1 as (w6 & storage & _ & H1).
  apply io_bind_Ok in H1 as (w7 & version & _ & H1). apply io_bind_Ok in H1 as (w8 & [] & _ & H1).
  apply io_bind_Ok in H1 as (w9 & [] & _ & H1). injection H1 as _ <-.
  apply observe_inv in Hobs as (Hlog & Hcsv & (rows & Hrows & Hctl) & Hp & Hc).
  apply prove_artifacts_inv in Hprf as (e & r & ft & rt & req & He & Hr & Hhe & Hhr & Hl & _ & Hp').
  split; cbn [fr_bound fr_controls fr_epoch fr_smoke fr_proof fr_state]; [done|by exists extracted, rows|done|done|].
  exists e, r, ft, rt, program, req. split_and!; try done. by eapply state_of_inv.
Qed.
End body.

(** ** The inputs *)
Lemma verify_binary_inv data elf_hash : verify_binary_elf data elf_hash = Ok tt -> from_hex (string_bytes elf_hash) = Some (slice 176 208 data).
Proof.
  unfold verify_binary_elf. intros (_ & _ & H1)%bind_Ok. do 2 apply bind_Ok in H1 as (_ & _ & H1).
  destruct (from_hex _) as [digest|]; [|done]. by apply check_Ok, bool_decide_eq_true in H1 as ->.
Qed.

Lemma validate_storage_inv storage policy profile elf_hash map_hash budget :
  validate_storage storage policy profile elf_hash map_hash = Ok budget ->
  get "passed" budget = PBool true /\ py_eq (get "ceiling_bytes" budget) (PInt STORAGE_LIMIT) = true
  /\ exists actual, get "actual_bytes" budget = PInt actual /\ get "headroom_bytes" budget = PInt (STORAGE_LIMIT - actual)
     /\ py_eq (PInt actual) (get "aggregate_charged_static_bytes" storage) = true.
Proof.
  unfold validate_storage. intros (identity & _ & H1)%bind_Ok. do 2 apply bind_Ok in H1 as (_ & _ & H1).
  apply bind_Ok in H1 as (bud & _ & H1). apply bind_Ok in H1 as (_ & _ & H1). apply bind_Ok in H1 as (_ & Hb%check_Ok & H1).
  do 3 apply bind_Ok in H1 as (? & _ & H1). apply bind_Ok in H1 as (_ & Ha%check_Ok & [= <-]).
  apply andb_true_iff in Hb as [[Hc Hp]%andb_true_iff Hagg].
  destruct (get "actual_bytes" bud) as [| |actual| | | |]; try done. destruct (get "headroom_bytes" bud) as [| |head| | | |]; try done.
  apply Z.eqb_eq in Ha as ->. split_and!; [|done|by exists actual]. destruct (get "passed" bud) as [|[]| | | | |]; done.
Qed.

Section inputs.
Context `{FileSystem F} (sha256 : list Z -> string) (scan : string -> option jtree) (lower : string -> string)
  (source_hash_of : string -> prun string) (repo : path).

Record inputs_bound (r : required_inputs) (f : F) (b : bound_inputs) : Prop := {
  ib_binary : exists binary, os_read f (path_join (ri_artifacts r) "axoloty-swift.bin") = Answer binary
    /\ bi_bin_hash b = sha256 binary /\ from_hex (string_bytes (bi_elf_hash b)) = Some (slice 176 208 binary);
  ib_storage : exists storage policy, validate_storage storage policy (ri_profile r) (bi_elf_hash b) (bi_map_hash b) = Ok (bi_budget b);
  ib_provenance : exists provenance lock, validate_provenance provenance (bi_bin_hash b) lock = Ok (bi_firmware b, bi_core b);
  ib_capacity : 0 < bi_capacity b
}.

Lemma read_bytes_Ok f p bytes : read_bytes_of f p = Ok bytes <-> os_read f p = Answer bytes.
Proof. unfold read_bytes_of, os_get. destruct (os_read f p); naive_solver. Qed.

Lemma bind_inputs_inv r f b : bind_inputs sha256 scan lower source_hash_of repo r f = Ok b -> inputs_bound r f b.
Proof.
  unfold bind_inputs. intros (elf_hash & _ & H1)%bind_Ok. apply bind_Ok in H1 as (map_hash & _ & H1).
  apply bind_Ok in H1 as (bin_hash & Hbin & H1). apply bind_Ok in H1 as (binary & Hb%read_bytes_Ok & H1).
  apply bind_Ok in H1 as ([] & Hv%evidence_Ok & H1). apply bind_Ok in H1 as (rom_hash & _ & H1). apply bind_Ok in H1 as (_ & _ & H1).
  apply bind_Ok in H1 as (lock & _ & H1). apply bind_Ok in H1 as (provenance & _ & H1).
  apply bind_Ok in H1 as ([firmware core] & Hp%evidence_Ok & H1). apply bind_Ok in H1 as (revision & _ & H1).
  apply bind_Ok in H1 as (source_hash & _ & H1). apply bind_Ok in H1 as (config & _ & H1). apply bind_Ok in H1 as (_ & _ & H1).
  apply bind_Ok in H1 as (storage & _ & H1). apply bind_Ok in H1 as (policy & _ & H1).
  apply bind_Ok in H1 as (budget & Hs%evidence_Ok & H1). apply bind_Ok in H1 as (receipt & _ & H1). apply bind_Ok in H1 as (_ & _ & H1).
  apply bind_Ok in H1 as (manifest & _ & H1). apply bind_Ok in H1 as (producer & _ & H1). apply bind_Ok in H1 as (mac & _ & H1).
  apply bind_Ok in H1 as (run_receipt & _ & H1). apply bind_Ok in H1 as (raw_hash & _ & H1). apply bind_Ok in H1 as (_ & _ & H1).
  apply bind_Ok in H1 as (sdk & _ & H1). destruct (get _ sdk) as [| |capacity| | | |]; try done.
  apply bind_Ok in H1 as ([] & Hcap%check_Ok & [= <-]). unfold digest in Hbin. apply fmap_Ok in Hbin as (binary' & Hb'%read_bytes_Ok & ->).
  rewrite Hb in Hb'. injection Hb' as <-.
  split; cbn [bi_elf_hash bi_map_hash bi_bin_hash bi_budget bi_firmware bi_core bi_capacity].
  - exists binary. split_and!; [done|done|by apply verify_binary_inv].
  - by exists storage, policy.
  - by exists provenance, lock.
  - lia.
Qed.
End inputs.

(** ** The command *)
Section command.
Context `{FileSystem F} (sha256 : list Z -> string) (scan : string -> option jtree) (json_row : list Z -> option dict)
  (csv_rows : list Z -> prun (list (list string))) (run_tool : string -> scratch -> scratch * option tool_result)
  (command_text : string -> list Z) (dump_proof : interval_report -> list Z) (dump_receipt : final_receipt -> list Z)
  (dump_hashes : list (string * string) -> list Z)
  (alnum : Z -> bool) (set_order : list Z -> list Z) (fuel : nat)
  (lower : string -> string) (source_hash_of : string -> prun string) (repo : path)
  (place : path -> list Z -> F -> F * os_answer unit).
Abbreviation final := (final_run sha256 scan json_row csv_rows run_tool command_text dump_proof dump_receipt dump_hashes alnum set_order (S fuel)
  lower source_hash_of repo place).

Lemma io_each_raise {S A B} (body : A -> io S final_error unit) l (e : frun B) s s' (b : B) :
  (io_each body l ;; pure (fun _ => e)) s = (s', Ok b) -> e = Ok b.
Proof. intros (s1 & [] & _ & H1)%io_bind_Ok. by injection H1 as _ ->. Qed.

Lemma workspace_inv {A} output (body : io scratch final_error A) f f' a :
  evidence_workspace place output body f = (f', Ok a) -> exists w, body [] = (w, Ok a).
Proof.
  unfold evidence_workspace. destruct (body []) as [w [a'|e|x]].
  - destruct (publish_all place output (manifest_names w) (f, w)) as [s [u|e|x]].
    + intros [= _ <-]. by exists w.
    + destruct (publish_logs place output (Raise e) s) as [s' r] eqn:E. intros [= _ ->]. by apply io_each_raise in E.
    + destruct (publish_logs place output (Crash x) s) as [s' r] eqn:E. intros [= _ ->]. by apply io_each_raise in E.
  - destruct (publish_logs place output (Raise e) (f, w)) as [s' r] eqn:E. intros [= _ ->]. by apply io_each_raise in E.
  - destruct (publish_logs place output (Crash x) (f, w)) as [s' r] eqn:E. intros [= _ ->]. by apply io_each_raise in E.
Qed.

Lemma final_run_inv p a native f f' receipt : final p a native f = (f', Ok receipt) ->
  exists r f1 f2, preflight p f = (f1, Ok tt) /\ require a = Ok r
    /\ inputs_bound (F := F) sha256 r f1 (fr_bound receipt)
    /\ established sha256 json_row csv_rows alnum set_order (S fuel) (fr_bound receipt)
         (read_bytes_of f2 (path_join (ri_artifacts r) "axoloty-swift.elf")) (read_bytes_of f2 (ri_rom r)) (read_bytes_of f2 (ri_raw r))
         (read_bytes_of f2 (ri_csv r)) receipt.
Proof.
  unfold final_run. intros (f1 & [] & Hpre & H1)%io_bind_Ok. apply io_bind_Ok in H1 as (f1' & r & [= <- Hreq] & H1).
  apply io_bind_Ok in H1 as (f1' & b & [= <- Hb] & H1). apply io_bind_Ok in H1 as (f2 & u & _ & H1).
  unfold in_workspace in H1. apply workspace_inv in H1 as (w & Hbody). apply establish_inv in Hbody as He.
  exists r, f1, f2. rewrite (es_bound _ _ _ _ _ _ _ _ _ _ _ _ He). split_and!; [done|done| |exact He]. by eapply bind_inputs_inv.
Qed.

End command.

Abbreviation final_passing := (final_once final_place final_protected final_arguments_of None final_files_before).
Lemma final_run_receipt : exists f' receipt, final_passing = (f', Ok receipt) /\ rp_maximum (fr_proof receipt) = 80.
Proof.
  generalize final_run_passes. cbv zeta. destruct final_passing as [f' [receipt|e|x]]; [|intros Hr; discriminate Hr..].
  intros Hr. exists f', receipt. split; [reflexivity|]. cbn [fst snd] in Hr. injection Hr as Hmax _ _ _. exact Hmax.
Qed.

Example final_lookup :
  match final_program with
  | Ok p => match function_at ascii_only p TEXT_START with Ok (fn, _) => fn_start fn | _ => -1 end
  | _ => -2
  end = TEXT_START.
Proof. vm_compute. reflexivity. Qed.
Lemma lookups_well_typed_witness : exists p fn r,
  final_program = Ok p /\ function_at ascii_only p TEXT_START = Ok (fn, r) /\ well_formed r /\ contained fn.
Proof.
  generalize final_lookup. destruct final_program as [p|e|x] eqn:Hp; [|intros Hr; discriminate Hr..].
  destruct (function_at ascii_only p TEXT_START) as [[fn r]|e|x] eqn:Hf; [|intros Hr; discriminate Hr..]. intros _.
  destruct (lookups_well_typed ascii_only pinned_hash _ _ _ _ p p TEXT_START fn r Hp (looked_up_start ascii_only p) Hf) as (_ & Hr & _ & _ & Hc).
  exists p, fn, r. split; [reflexivity|]. split; [exact Hf|]. split; [exact Hr|exact Hc].
Defined.
