(* ===== verification/ReceiptTheorems.v ===== *)
(** * A receipt is left only by a run whose every check passed *)
From S2P Require Import Prelude PyValue PyText PyRegex JsonDoc PyFiles PyInt Bytes LinkedInputs Interval Program Engine InitProof OutputFiles FlatFiles StackCommand FinalInputs FinalProof IntervalFixture FinalFixture FinalTheorems.

Lemma managed_paths : Forall (fun name => path_of name = MkPath "" [name]) OUTPUT_NAMES.
Proof. unfold OUTPUT_NAMES. repeat constructor. Qed.
Lemma managed_path_inj output n1 n2 : n1 ∈ OUTPUT_NAMES -> n2 ∈ OUTPUT_NAMES -> n1 <> n2 -> path_join output n1 <> path_join output n2.
Proof.
  pose proof managed_paths as Hm. rewrite Forall_forall in Hm. intros H1%Hm H2%Hm Hne. unfold path_join. rewrite H1, H2. simpl.
  by intros [= [= ->]%app_inv_head].
Qed.
Lemma receipt_managed name : name ∈ RECEIPT_NAMES -> name ∈ OUTPUT_NAMES.
Proof. unfold RECEIPT_NAMES, OUTPUT_NAMES. set_solver. Qed.

(** Nothing is read at a path, and no link is there. *)
Definition vacant `{FileSystem F} (f : F) (p : path) : Prop := (forall bytes, os_read f p <> Answer bytes) /\ os_is_symlink f p = Answer false.

(** What the command relies on, of entries of one directory: what does not exist is not
    read; [unlink] removes the entry and makes no other one; making a directory whose
    path does not go up makes no file in it, and replacing an entry makes no other. *)
Class EntryLaws (F : Type) `{FileSystem F} (place : path -> list Z -> F -> F * os_answer unit) := {
  absent_unreadable f p bytes : os_exists f p = Answer false -> os_read f p <> Answer bytes;
  unlink_vacant p f f' u : os_unlink p f = (f', Answer u) -> vacant f' p;
  unlink_keeps p f q : vacant f q -> vacant (os_unlink p f).1 q;
  directories_keep p f name : ".." ∉ path_parts p -> vacant f (path_join p name) -> vacant (os_make_directories p f).1 (path_join p name);
  place_keeps output n1 n2 bytes f : path_join output n1 <> path_join output n2 -> vacant f (path_join output n2) ->
    vacant (place (path_join output n1) bytes f).1 (path_join output n2)
}.

(** A property of the state that every step of a loop keeps, whatever its result. *)
Lemma io_each_keeps {S A} (P : S -> Prop) (body : A -> io S final_error unit) l s :
  (forall x s, x ∈ l -> P s -> P (body x s).1) -> P s -> P (io_each body l s).1.
Proof.
  revert s. induction l as [|x l IH]; intros s Hbody Hs; [done|]. cbn [io_each]. unfold mbind, io_bind.
  pose proof (Hbody x s ltac:(by left) Hs) as Hx. destruct (body x s) as [s1 [[]|e|c]]; [|done..].
  apply IH; [|done]. intros y s2 Hy. apply Hbody. by right.
Qed.

Section entries.
Context `{EntryLaws F place}.

Lemma remove_managed_keeps output name q f : vacant f q -> vacant (remove_managed output name f).1 q.
Proof.
  intros Hq. unfold remove_managed, mbind, io_bind, pure, os_do.
  destruct (os_get (os_is_file f (path_join output name))) as [file|e|x]; [|done..].
  destruct (if file then _ else _) as [link|e|x]; [|done..]. destruct link; [|done].
  pose proof (unlink_keeps (path_join output name) f q Hq) as Hk. by destruct (os_unlink (path_join output name) f).
Qed.
Lemma remove_managed_vacant output name f f' : remove_managed output name f = (f', Ok tt) -> vacant f' (path_join output name).
Proof.
  unfold remove_managed, mbind, io_bind, pure, os_do.
  destruct (os_is_file f (path_join output name)) as [file| |] eqn:Efile; [|done..]. cbn [os_get].
  destruct (os_is_symlink f (path_join output name)) as [link| |] eqn:Elink; cbn [os_get].
  2,3: destruct file; [|done]; destruct (os_unlink _ f) as [f1 [u| |]] eqn:E; [intros [= <-]; by eapply unlink_vacant|done..].
  destruct file, link; cbn [os_get].
  1-3: destruct (os_unlink _ f) as [f1 [u| |]] eqn:E; [intros [= <-]; by eapply unlink_vacant|done..].
  destruct (os_exists f (path_join output name)) as [present| |] eqn:E; [|done..]. cbn [os_get]. destruct present; [done|].
  intros [= <-]. split; [|done]. intros bytes. by apply absent_unreadable.
Qed.

Lemma remove_all_vacant output names f f' : io_each (remove_managed output) names f = (f', Ok tt) ->
  forall name, name ∈ names -> vacant f' (path_join output name).
Proof.
  revert f. induction names as [|n names IH]; intros f Hrun name Hname; [by apply elem_of_nil in Hname|].
  cbn [io_each] in Hrun. apply io_bind_Ok in Hrun as (f1 & [] & Hn & Hrun).
  apply elem_of_cons in Hname as [->|Hname]; [|by apply (IH f1)].
  replace f' with (io_each (remove_managed output) names f1).1 by by rewrite Hrun.
  apply (io_each_keeps (fun f => vacant f (path_join output n))); [|by eapply remove_managed_vacant].
  intros x f2 _. apply remove_managed_keeps.
Qed.

Lemma preflight_vacant p f f1 output : preflight p f = (f1, Ok tt) -> ff_output p = Some output ->
  (os_exists f output = Answer false -> forall name, name ∈ OUTPUT_NAMES -> vacant f (path_join output name)) ->
  forall name, name ∈ OUTPUT_NAMES -> vacant f1 (path_join output name).
Proof.
  intros Hpre Hout Hmissing. unfold preflight in Hpre. rewrite Hout in Hpre. apply io_bind_Ok in Hpre as (f2 & [] & [= <- _] & Hpre).
  apply io_bind_Ok in Hpre as (f2 & present & [= <- Hp] & Hpre). destruct (os_exists f output) as [here| |]; [|done..].
  injection Hp as ->. destruct present; [by eapply remove_all_vacant|]. injection Hpre as <-. by apply Hmissing.
Qed.

(** Publishing logs makes no receipt. *)
Lemma publish_logs_keep {A} output (failed : frun A) s name : name ∈ RECEIPT_NAMES -> vacant s.1 (path_join output name) ->
  vacant (publish_logs place output failed s).1.1 (path_join output name).
Proof.
  intros Hname Hv. unfold publish_logs, mbind, io_bind.
  pose proof (io_each_keeps (fun s : F * scratch => vacant s.1 (path_join output name)) (publish_log place output) OUTPUT_NAMES s) as Hk.
  destruct (io_each (publish_log place output) OUTPUT_NAMES s) as [s1 r] eqn:E.
  assert (Hs1 : vacant s1.1 (path_join output name)).
  { apply Hk; [|done]. clear Hk. intros n s2 Hn Hs2.
    unfold publish_log. case_bool_decide as Hin; [done|]. cbn [negb andb]. destruct (has_key n s2.2); [|done]. unfold publish.
    destruct (dict_get n s2.2) as [bytes|]; [|done].
    pose proof (place_keeps output n name bytes s2.1) as Hp. destruct (place (path_join output n) bytes s2.1) as [f' [u| |]]; cbn [fst] in *.
    all: apply Hp; [apply managed_path_inj; [done|by apply receipt_managed|congruence]|done]. }
  by destruct r.
Qed.
End entries.

Section command.
Context `{EntryLaws F place} (sha256 : list Z -> string) (scan : string -> option jtree) (json_row : list Z -> option dict)
  (csv_rows : list Z -> prun (list (list string))) (run_tool : string -> scratch -> scratch * option tool_result)
  (command_text : string -> list Z) (dump_proof : interval_report -> list Z) (dump_receipt : final_receipt -> list Z)
  (dump_hashes : list (string * string) -> list Z)
  (alnum : Z -> bool) (set_order : list Z -> list Z) (fuel : nat)
  (lower : string -> string) (source_hash_of : string -> prun string) (repo : path).

End command.

(** The laws hold for files without links. *)
#[export] Instance flat_entry_laws : EntryLaws flat final_place.
Proof.
  assert (Hset : forall p c (f : flat) q, (c = None \/ p <> q) -> vacant f q -> vacant (flat_set p c f) q).
  { intros p c f q Hc [Hr _]. split; [|done]. intros bytes. specialize (Hr bytes). cbn [os_read flat_files] in *.
    unfold flat_read, flat_set in *. destruct (decide (q = p)) as [->|]; [|done]. by destruct Hc as [->|]. }
  split; cbn [os_exists os_read os_unlink os_make_directories flat_files].
  - intros f p bytes [= Hn%bool_decide_eq_false]. unfold flat_read. destruct (f p); [|done]. by destruct Hn.
  - intros p f f' u [= <- _]. split; [|done]. intros bytes. cbn [os_read flat_files]. unfold flat_read. by rewrite flat_set_same.
  - intros p f q. apply Hset. by left.
  - done.
  - intros output n1 n2 bytes f Hne. apply Hset. by right.
Qed.

